(** * The I/O page cache of the kernel (kernel/io/pagecach.c)

    A shallow embedding of the page cache: page cache entries live in a
    heap indexed by their address, the intrusive lists are sequences of
    entry addresses hanging off their list heads, the global counters are
    fixed-width machine words, and every routine is a state transformer
    that may fault (a NULL or dangling pointer is dereferenced) or, for the
    routines built around a loop, run out of fuel.  The collaborators that
    are not part of pagecach.c (MM, the file object layer, the I/O path)
    are oracles that answer from the history of external calls. *)

From Stdlib Require Import ZArith List Bool Lia.
From stdpp Require Import base option gmap list functions.

Open Scope Z_scope.

(** ** Machine words *)

Definition ULONG_MOD : Z := 2 ^ 32.
Definition ULONGLONG_MOD : Z := 2 ^ 64.
Definition ulong (v : Z) : Z := v mod ULONG_MOD.
Definition ulonglong (v : Z) : Z := v mod ULONGLONG_MOD.

(** [~Mask] on a ULONG. *)
Definition ULONG_NOT (Mask : Z) : Z := ulong (Z.lnot Mask).

(** [(Flags & Mask) != 0] *)
Definition FlagSet (Flags Mask : Z) : bool := negb (Z.land Flags Mask =? 0).

(** ** Definitions *)

Definition PAGE_CACHE_MEMORY_HEADROOM_PERCENT_TRIGGER : Z := 10.
Definition PAGE_CACHE_MEMORY_HEADROOM_PERCENT_RETREAT : Z := 15.
Definition PAGE_CACHE_MINIMUM_MEMORY_TARGET_PERCENT : Z := 33.
Definition PAGE_CACHE_MINIMUM_MEMORY_PERCENT : Z := 7.

Definition _1MB : Z := 1024 * 1024.
Definition _1GB : Z := 1024 * _1MB.
Definition _128KB : Z := 128 * 1024.

Definition PAGE_CACHE_ENTRY_FLAG_DIRTY : Z := 0x00000001.
Definition PAGE_CACHE_ENTRY_FLAG_PAGE_OWNER : Z := 0x00000002.
Definition PAGE_CACHE_ENTRY_FLAG_MAPPED : Z := 0x00000004.

Definition PAGE_CACHE_FLUSH_MAX : Z := _128KB.
Definition PAGE_CACHE_FLUSH_MAX_CLEAN_STREAK : Z := 4.
Definition PAGE_CACHE_LOW_MEMORY_CLEAN_PAGE_MAXIMUM : Z := 256.
Definition PAGE_CACHE_LOW_MEMORY_CLEAN_PAGE_MINIMUM_PERCENTAGE : Z := 10.
Definition PAGE_CACHE_MAX_DIRTY_SHIFT : Z := 1.

(** ** Data types *)

(** Modelled from the spec: the status codes come from a header that is not
    part of the sources at hand.  The spec lists the kinds the page cache
    surfaces and says that errors of the non-cached write path propagate
    unchanged; [STATUS_TRANSPORT] stands for those.  [KSUCCESS] holds of
    [STATUS_SUCCESS] only. *)
Inductive KSTATUS :=
  | STATUS_SUCCESS
  | STATUS_INSUFFICIENT_RESOURCES
  | STATUS_INVALID_PARAMETER
  | STATUS_RESOURCE_IN_USE
  | STATUS_TRY_AGAIN
  | STATUS_DATA_LENGTH_MISMATCH
  | STATUS_TRANSPORT (Code : Z).

Definition KSUCCESS (Status : KSTATUS) : bool :=
  match Status with STATUS_SUCCESS => true | _ => false end.

(** Modelled from the spec: the enumeration of I/O object types is declared
    in a header that is not at hand.  The page cache tells apart block
    devices and the three file kinds; the other members only need to be
    different from those. *)
Inductive IO_OBJECT_TYPE :=
  | IoObjectInvalid
  | IoObjectRegularDirectory
  | IoObjectRegularFile
  | IoObjectBlockDevice
  | IoObjectCharacterDevice
  | IoObjectPipe
  | IoObjectObjectDirectory
  | IoObjectSocket
  | IoObjectTerminalMaster
  | IoObjectTerminalSlave
  | IoObjectSharedMemoryObject
  | IoObjectSymbolicLink.

Global Instance IO_OBJECT_TYPE_eq_dec : EqDecision IO_OBJECT_TYPE.
Proof. solve_decision. Defined.

Definition IS_IO_OBJECT_TYPE_LINKABLE (IoObjectType : IO_OBJECT_TYPE) : bool :=
  match IoObjectType with
  | IoObjectRegularFile | IoObjectSymbolicLink
  | IoObjectSharedMemoryObject | IoObjectBlockDevice => true
  | _ => false
  end.

(** Modelled from the spec: the macro IO_IS_CACHEABLE_FILE is declared in a
    header that is not at hand; the spec names the file kinds: regular file,
    symbolic link and shared memory object. *)
Definition IO_IS_CACHEABLE_FILE (IoObjectType : IO_OBJECT_TYPE) : bool :=
  match IoObjectType with
  | IoObjectRegularFile | IoObjectSymbolicLink
  | IoObjectSharedMemoryObject => true
  | _ => false
  end.

(** Modelled from the spec: IO_IS_FILE_OBJECT_CACHEABLE is declared in the
    same header; the two cacheable object types are block devices and the
    file kinds. *)
Definition IO_IS_CACHEABLE_TYPE (IoObjectType : IO_OBJECT_TYPE) : bool :=
  IO_IS_CACHEABLE_FILE IoObjectType
  || bool_decide (IoObjectType = IoObjectBlockDevice).

Inductive MEMORY_WARNING_LEVEL :=
  | MemoryWarningLevelNone
  | MemoryWarningLevel1
  | MemoryWarningLevel2.

Global Instance MEMORY_WARNING_LEVEL_eq_dec : EqDecision MEMORY_WARNING_LEVEL.
Proof. solve_decision. Defined.

(** A page cache entry.  Pointers to entries and to file objects are
    addresses ([nat]); a pointer that may be NULL is an [option].  The
    tree node and the list entry are kept as what the code asks of them:
    whether [Node.Parent] and [ListEntry.Next] are non-NULL.  A virtual
    address is a number, NULL being 0. *)
Record PAGE_CACHE_ENTRY := {
  NodeParent : bool;
  ListEntryNext : bool;
  FileObject : nat;
  Offset : Z;
  PhysicalAddress : Z;
  VirtualAddress : Z;
  BackingEntry : option nat;
  ReferenceCount : Z;
  Flags : Z
}.

(** The part of a file object the page cache reads and writes.  The tree
    is the sequence of its entries in increasing offset order.  The dirty
    page list of the file is kept with the other lists. *)
Record FILE_OBJECT := {
  PropertiesType : IO_OBJECT_TYPE;
  PropertiesFileSize : Z;
  FILE_OBJECT_FLAG_DIRTY_DATA : bool;
  HasImageSectionList : bool;
  PageCacheTree : list nat
}.

(** The list heads an entry's [ListEntry] can hang off: the three global
    lists, the dirty page list of a file object, and the heads that the
    routines keep on their stack. *)
Inductive LIST_HEAD :=
  | IoPageCacheCleanList
  | IoPageCacheCleanUnmappedList
  | IoPageCacheRemovalList
  | DirtyPageList (FileObject : nat)
  | LocalList
  | DestroyListHead
  | ReturnList.

Global Instance LIST_HEAD_eq_dec : EqDecision LIST_HEAD.
Proof. solve_decision. Defined.

(** The UINTN globals of the page cache. *)
Inductive UINTN_GLOBAL :=
  | IoPageCacheEntryCount
  | IoPageCacheHeadroomPagesRetreat
  | IoPageCacheHeadroomPagesTrigger
  | IoPageCacheMinimumPagesTarget
  | IoPageCacheMinimumPages
  | IoPageCacheLowMemoryCleanPageMinimum
  | IoPageCachePhysicalPageCount
  | IoPageCacheDirtyPageCount
  | IoPageCacheMappedPageCount
  | IoPageCacheMappedDirtyPageCount
  | IoPageCacheHeadroomVirtualPagesRetreat
  | IoPageCacheHeadroomVirtualPagesTrigger.

Global Instance UINTN_GLOBAL_eq_dec : EqDecision UINTN_GLOBAL.
Proof. solve_decision. Defined.

(** What the page cache asks of its collaborators, in the order it did
    (most recent first). *)
Inductive EVENT :=
  | EvNonCachedWrite (File : nat) (IoBuffer : list nat)
      (IoOffset SizeInBytes IoFlags : Z) (Status : KSTATUS) (BytesCompleted : Z)
  | EvIoBufferAppendPage (Entry : nat)
  | EvSynchronizeBlockDevice (File : nat) (Status : KSTATUS)
  | EvMarkFileObjectDirty (File : nat)
  | EvFileObjectReleaseReference (File : nat)
  | EvUnmapImageSectionList (File : nat) (SectionOffset : Z)
      (Status : KSTATUS) (PageWasDirty : bool)
  | EvTryToAcquireLock (File : nat) (Acquired : bool)
  | EvFreePhysicalPage (Address : Z)
  | EvUnmapAddress (Address Size : Z)
  | EvSetPageCacheEntryForPhysicalAddress (Address : Z) (Entry : nat)
  | EvRequestPagingOut (FreePageTarget : Z)
  | EvFreeBlock (Entry : nat).

(** The external collaborators.  Each answers from the history of the
    calls made so far, which lets an answer change over time. *)
Record KERNEL := {
  UINTN_BITS : positive;
  MmPageShift : Z;
  MmPageSize : Z;
  MmGetTotalPhysicalPages : Z;
  MmGetTotalVirtualMemory : Z;
  MmGetTotalFreePhysicalPages : list EVENT -> Z;
  MmGetFreeVirtualMemory : list EVENT -> Z;
  MmGetVirtualMemoryWarningLevel : list EVENT -> MEMORY_WARNING_LEVEL;
  MmUnmapImageSectionList : list EVENT -> nat -> Z -> KSTATUS * bool;
  MmAllocateUninitializedIoBuffer : list EVENT -> bool;
  IopPerformNonCachedWrite :
    list EVENT -> nat -> list nat -> Z -> Z -> Z -> KSTATUS * Z;
  IopSynchronizeBlockDevice : list EVENT -> nat -> KSTATUS;
  KeTryToAcquireSharedExclusiveLockExclusive : list EVENT -> nat -> bool;
  (* whether KeGetCurrentThread () is the page cache thread *)
  KeGetCurrentThreadIsPageCacheThread : bool;
  (* constants of headers that are not at hand *)
  IO_FLAG_DATA_SYNCHRONIZED : Z;
  INVALID_PHYSICAL_ADDRESS : Z;
  (* whether the creations done at initialization succeed *)
  KeCreateQueuedLock : bool;
  KeCreateTimer : bool;
  MmCreateBlockAllocator : bool;
  PsCreateKernelThread : KSTATUS
}.

(** The page cache: the heap of entries, the file objects, the lists, the
    globals and the trace of external calls. *)
Record PAGE_CACHE := {
  Entries : gmap nat PAGE_CACHE_ENTRY;
  FileObjects : gmap nat FILE_OBJECT;
  Lists : LIST_HEAD -> list nat;
  Globals : UINTN_GLOBAL -> Z;
  IoPageCacheDisableVirtualAddresses : bool;
  Trace : list EVENT
}.

(** ** The state monad of the routines

    A routine takes the page cache and gives back a result and the new
    page cache, or nothing when it faults or runs out of fuel. *)

Definition M (A : Type) : Type := PAGE_CACHE -> option (A * PAGE_CACHE).

Definition ret {A} (a : A) : M A := fun s => Some (a, s).

Definition bind {A B} (m : M A) (k : A -> M B) : M B :=
  fun s => match m s with
           | Some (a, s') => k a s'
           | None => None
           end.

Notation "x <- m ;; k" := (bind m (fun x => k))
  (at level 100, m at next level, right associativity).
Notation "m ;; k" := (bind m (fun _ => k))
  (at level 100, right associativity).

Definition fault {A} : M A := fun _ => None.

Definition gets {A} (f : PAGE_CACHE -> A) : M A := fun s => Some (f s, s).

Definition modify (f : PAGE_CACHE -> PAGE_CACHE) : M unit :=
  fun s => Some (tt, f s).

Definition when (b : bool) (m : M unit) : M unit := if b then m else ret tt.

(** *** Field updates *)

Definition with_Entries (f : gmap nat PAGE_CACHE_ENTRY -> gmap nat PAGE_CACHE_ENTRY)
    (s : PAGE_CACHE) : PAGE_CACHE :=
  {| Entries := f (Entries s); FileObjects := FileObjects s; Lists := Lists s;
     Globals := Globals s;
     IoPageCacheDisableVirtualAddresses := IoPageCacheDisableVirtualAddresses s;
     Trace := Trace s |}.

Definition with_FileObjects (f : gmap nat FILE_OBJECT -> gmap nat FILE_OBJECT)
    (s : PAGE_CACHE) : PAGE_CACHE :=
  {| Entries := Entries s; FileObjects := f (FileObjects s); Lists := Lists s;
     Globals := Globals s;
     IoPageCacheDisableVirtualAddresses := IoPageCacheDisableVirtualAddresses s;
     Trace := Trace s |}.

Definition with_Lists (f : (LIST_HEAD -> list nat) -> LIST_HEAD -> list nat)
    (s : PAGE_CACHE) : PAGE_CACHE :=
  {| Entries := Entries s; FileObjects := FileObjects s; Lists := f (Lists s);
     Globals := Globals s;
     IoPageCacheDisableVirtualAddresses := IoPageCacheDisableVirtualAddresses s;
     Trace := Trace s |}.

Definition with_Globals (f : (UINTN_GLOBAL -> Z) -> UINTN_GLOBAL -> Z)
    (s : PAGE_CACHE) : PAGE_CACHE :=
  {| Entries := Entries s; FileObjects := FileObjects s; Lists := Lists s;
     Globals := f (Globals s);
     IoPageCacheDisableVirtualAddresses := IoPageCacheDisableVirtualAddresses s;
     Trace := Trace s |}.

Definition with_Trace (f : list EVENT -> list EVENT) (s : PAGE_CACHE) : PAGE_CACHE :=
  {| Entries := Entries s; FileObjects := FileObjects s; Lists := Lists s;
     Globals := Globals s;
     IoPageCacheDisableVirtualAddresses := IoPageCacheDisableVirtualAddresses s;
     Trace := f (Trace s) |}.

Definition set_NodeParent (v : bool) (e : PAGE_CACHE_ENTRY) : PAGE_CACHE_ENTRY :=
  {| NodeParent := v; ListEntryNext := ListEntryNext e; FileObject := FileObject e;
     Offset := Offset e; PhysicalAddress := PhysicalAddress e;
     VirtualAddress := VirtualAddress e; BackingEntry := BackingEntry e;
     ReferenceCount := ReferenceCount e; Flags := Flags e |}.

Definition set_ListEntryNext (v : bool) (e : PAGE_CACHE_ENTRY) : PAGE_CACHE_ENTRY :=
  {| NodeParent := NodeParent e; ListEntryNext := v; FileObject := FileObject e;
     Offset := Offset e; PhysicalAddress := PhysicalAddress e;
     VirtualAddress := VirtualAddress e; BackingEntry := BackingEntry e;
     ReferenceCount := ReferenceCount e; Flags := Flags e |}.

Definition set_PhysicalAddress (v : Z) (e : PAGE_CACHE_ENTRY) : PAGE_CACHE_ENTRY :=
  {| NodeParent := NodeParent e; ListEntryNext := ListEntryNext e;
     FileObject := FileObject e; Offset := Offset e; PhysicalAddress := v;
     VirtualAddress := VirtualAddress e; BackingEntry := BackingEntry e;
     ReferenceCount := ReferenceCount e; Flags := Flags e |}.

Definition set_VirtualAddress (v : Z) (e : PAGE_CACHE_ENTRY) : PAGE_CACHE_ENTRY :=
  {| NodeParent := NodeParent e; ListEntryNext := ListEntryNext e;
     FileObject := FileObject e; Offset := Offset e;
     PhysicalAddress := PhysicalAddress e; VirtualAddress := v;
     BackingEntry := BackingEntry e; ReferenceCount := ReferenceCount e;
     Flags := Flags e |}.

Definition set_BackingEntry (v : option nat) (e : PAGE_CACHE_ENTRY) : PAGE_CACHE_ENTRY :=
  {| NodeParent := NodeParent e; ListEntryNext := ListEntryNext e;
     FileObject := FileObject e; Offset := Offset e;
     PhysicalAddress := PhysicalAddress e; VirtualAddress := VirtualAddress e;
     BackingEntry := v; ReferenceCount := ReferenceCount e; Flags := Flags e |}.

Definition set_ReferenceCount (v : Z) (e : PAGE_CACHE_ENTRY) : PAGE_CACHE_ENTRY :=
  {| NodeParent := NodeParent e; ListEntryNext := ListEntryNext e;
     FileObject := FileObject e; Offset := Offset e;
     PhysicalAddress := PhysicalAddress e; VirtualAddress := VirtualAddress e;
     BackingEntry := BackingEntry e; ReferenceCount := v; Flags := Flags e |}.

Definition set_Flags (v : Z) (e : PAGE_CACHE_ENTRY) : PAGE_CACHE_ENTRY :=
  {| NodeParent := NodeParent e; ListEntryNext := ListEntryNext e;
     FileObject := FileObject e; Offset := Offset e;
     PhysicalAddress := PhysicalAddress e; VirtualAddress := VirtualAddress e;
     BackingEntry := BackingEntry e; ReferenceCount := ReferenceCount e;
     Flags := v |}.

Definition set_DIRTY_DATA (v : bool) (f : FILE_OBJECT) : FILE_OBJECT :=
  {| PropertiesType := PropertiesType f; PropertiesFileSize := PropertiesFileSize f;
     FILE_OBJECT_FLAG_DIRTY_DATA := v; HasImageSectionList := HasImageSectionList f;
     PageCacheTree := PageCacheTree f |}.

Definition set_PageCacheTree (v : list nat) (f : FILE_OBJECT) : FILE_OBJECT :=
  {| PropertiesType := PropertiesType f; PropertiesFileSize := PropertiesFileSize f;
     FILE_OBJECT_FLAG_DIRTY_DATA := FILE_OBJECT_FLAG_DIRTY_DATA f;
     HasImageSectionList := HasImageSectionList f; PageCacheTree := v |}.

(** *** Memory accesses *)

(** Reading through an entry pointer; a pointer to no entry faults. *)
Definition Entry (e : nat) : M PAGE_CACHE_ENTRY :=
  fun s => match Entries s !! e with
           | Some v => Some (v, s)
           | None => None
           end.

(** Reading through a pointer that may be NULL. *)
Definition Deref (p : option nat) : M PAGE_CACHE_ENTRY :=
  match p with
  | Some e => Entry e
  | None => fault
  end.

Definition Pointer (p : option nat) : M nat :=
  match p with
  | Some e => ret e
  | None => fault
  end.

(** Writing a field of an entry. *)
Definition UpdateEntry (e : nat) (f : PAGE_CACHE_ENTRY -> PAGE_CACHE_ENTRY) : M unit :=
  v <- Entry e ;;
  modify (with_Entries (fun m => <[e := f v]> m)).

Definition File (f : nat) : M FILE_OBJECT :=
  fun s => match FileObjects s !! f with
           | Some v => Some (v, s)
           | None => None
           end.

Definition UpdateFile (f : nat) (g : FILE_OBJECT -> FILE_OBJECT) : M unit :=
  v <- File f ;;
  modify (with_FileObjects (fun m => <[f := g v]> m)).

Definition Global (g : UINTN_GLOBAL) : M Z := gets (fun s => Globals s g).

Definition SetGlobal (g : UINTN_GLOBAL) (v : Z) : M unit :=
  modify (with_Globals (fun G => <[g := v]> G)).

Definition Emit (ev : EVENT) : M unit := modify (with_Trace (cons ev)).

(** *** Intrusive lists *)

Definition LIST_EMPTY (h : LIST_HEAD) : M bool :=
  gets (fun s => match Lists s h with [] => true | _ => false end).

(** The first entry of a list, [ListHead->Next]. *)
Definition LIST_FIRST (h : LIST_HEAD) : M (option nat) :=
  gets (fun s => head (Lists s h)).

(** LIST_REMOVE unlinks the entry from the list it is on, whichever that
    is, through its own [Next] and [Previous] pointers: on an entry whose
    [Next] pointer is NULL it dereferences NULL.  It leaves the entry's own
    [Next] pointer as it was. *)
Definition LIST_REMOVE (e : nat) : M unit :=
  x <- Entry e ;;
  if ListEntryNext x
  then modify (with_Lists (fun L h => filter (fun x => x <> e) (L h)))
  else fault.

(** INSERT_BEFORE (Entry, ListHead) links the entry in at the tail. *)
Definition INSERT_BEFORE (e : nat) (h : LIST_HEAD) : M unit :=
  UpdateEntry e (set_ListEntryNext true) ;;
  modify (with_Lists (fun L => <[h := L h ++ [e]]> L)).

(** MOVE_LIST followed by INITIALIZE_LIST_HEAD on the source. *)
Definition MOVE_LIST (src dst : LIST_HEAD) : M unit :=
  modify (with_Lists (fun L => <[src := []]> (<[dst := L src]> L))).

(** APPEND_LIST (Source, Destination) puts the source's entries at the end
    of the destination. *)
Definition APPEND_LIST (src dst : LIST_HEAD) : M unit :=
  modify (with_Lists (fun L => <[src := []]> (<[dst := L dst ++ L src]> L))).

Definition INITIALIZE_LIST_HEAD (h : LIST_HEAD) : M unit :=
  modify (with_Lists (fun L => <[h := []]> L)).

(** ** The routines of pagecach.c *)

Section Routines.

Variable K : KERNEL.

(** UINTN is as wide as a pointer of the target machine. *)
Definition UINTN_MOD : Z := 2 ^ Z.pos (UINTN_BITS K).
Definition uintn (v : Z) : Z := v mod UINTN_MOD.
Definition MAX_UINTN : Z := UINTN_MOD - 1.

(** *** Atomics *)

(** RtlAtomicAdd on one of the UINTN globals. *)
Definition RtlAtomicAdd (g : UINTN_GLOBAL) (v : Z) : M unit :=
  old <- Global g ;;
  SetGlobal g (uintn (old + v)).

(** RtlAtomicAdd32 on an entry's reference count; gives the old count. *)
Definition RtlAtomicAdd32 (e : nat) (v : Z) : M Z :=
  x <- Entry e ;;
  UpdateEntry e (set_ReferenceCount (ulong (ReferenceCount x + v))) ;;
  ret (ReferenceCount x).

(** RtlAtomicOr32 and RtlAtomicAnd32 on an entry's flags; both give the
    old flags. *)
Definition RtlAtomicOr32 (e : nat) (Mask : Z) : M Z :=
  x <- Entry e ;;
  UpdateEntry e (set_Flags (Z.lor (Flags x) Mask)) ;;
  ret (Flags x).

Definition RtlAtomicAnd32 (e : nat) (Mask : Z) : M Z :=
  x <- Entry e ;;
  UpdateEntry e (set_Flags (Z.land (Flags x) Mask)) ;;
  ret (Flags x).

(** *** File object layer *)

(** Modelled from the spec: IopMarkFileObjectDirty belongs to the file
    object layer, which is not at hand.  It signals the file object as
    dirty to the VFS: the file object's dirty-data flag is set. *)
Definition IopMarkFileObjectDirty (f : nat) : M unit :=
  UpdateFile f (set_DIRTY_DATA true) ;;
  Emit (EvMarkFileObjectDirty f).

(** *** Entry primitives *)

Definition IoPageCacheEntryAddReference (PageCacheEntry : nat) : M unit :=
  _ <- RtlAtomicAdd32 PageCacheEntry 1 ;;
  ret tt.

Definition IoPageCacheEntryReleaseReference (PageCacheEntry : nat) : M unit :=
  OldReferenceCount <- RtlAtomicAdd32 PageCacheEntry (-1) ;;
  x <- Entry PageCacheEntry ;;
  if (OldReferenceCount =? 1) && negb (ListEntryNext x)
     && negb (FlagSet (Flags x) PAGE_CACHE_ENTRY_FLAG_DIRTY)
  then
    (* under the list lock: double check *)
    x <- Entry PageCacheEntry ;;
    if negb (ListEntryNext x)
       && negb (FlagSet (Flags x) PAGE_CACHE_ENTRY_FLAG_DIRTY)
    then INSERT_BEFORE PageCacheEntry IoPageCacheCleanList
    else ret tt
  else ret tt.

Definition IoGetPageCacheEntryPhysicalAddress (PageCacheEntry : nat) : M Z :=
  x <- Entry PageCacheEntry ;;
  ret (PhysicalAddress x).

Definition IoGetPageCacheEntryVirtualAddress (PageCacheEntry : nat) : M Z :=
  x <- Entry PageCacheEntry ;;
  let VirtualAddress_ := VirtualAddress x in
  match BackingEntry x with
  | Some BackingEntry_ =>
      if VirtualAddress_ =? 0 then
        b <- Entry BackingEntry_ ;;
        UpdateEntry PageCacheEntry (set_VirtualAddress (VirtualAddress b)) ;;
        ret (VirtualAddress b)
      else ret VirtualAddress_
  | None => ret VirtualAddress_
  end.

Definition IoSetPageCacheEntryVirtualAddress
    (PageCacheEntry : nat) (VirtualAddress_ : Z) : M bool :=
  x <- Entry PageCacheEntry ;;
  Disabled <- gets IoPageCacheDisableVirtualAddresses ;;
  if negb (VirtualAddress x =? 0) || Disabled then ret false
  else
    let UnmappedEntry :=
      match BackingEntry x with
      | Some b => b
      | None => PageCacheEntry
      end in
    OldFlags <- RtlAtomicOr32 UnmappedEntry PAGE_CACHE_ENTRY_FLAG_MAPPED ;;
    Set_ <- (if negb (FlagSet OldFlags PAGE_CACHE_ENTRY_FLAG_MAPPED) then
               UpdateEntry UnmappedEntry (set_VirtualAddress VirtualAddress_) ;;
               RtlAtomicAdd IoPageCacheMappedPageCount 1 ;;
               when (FlagSet OldFlags PAGE_CACHE_ENTRY_FLAG_DIRTY)
                    (RtlAtomicAdd IoPageCacheMappedDirtyPageCount 1) ;;
               ret true
             else ret false) ;;
    (if bool_decide (UnmappedEntry <> PageCacheEntry) then
       u <- Entry UnmappedEntry ;;
       when (negb (VirtualAddress u =? 0))
            (UpdateEntry PageCacheEntry (set_VirtualAddress (VirtualAddress u)))
     else ret tt) ;;
    ret Set_.

(** *** Dirty tracking *)

Definition IopMarkPageCacheEntryClean
    (PageCacheEntry : nat) (MoveToCleanList : bool) : M bool :=
  x <- Entry PageCacheEntry ;;
  if negb (FlagSet (Flags x) PAGE_CACHE_ENTRY_FLAG_DIRTY) then ret false
  else
    OldFlags <- RtlAtomicAnd32 PageCacheEntry
                  (ULONG_NOT PAGE_CACHE_ENTRY_FLAG_DIRTY) ;;
    if FlagSet OldFlags PAGE_CACHE_ENTRY_FLAG_DIRTY then
      RtlAtomicAdd IoPageCacheDirtyPageCount MAX_UINTN ;;
      when (FlagSet OldFlags PAGE_CACHE_ENTRY_FLAG_MAPPED)
           (RtlAtomicAdd IoPageCacheMappedDirtyPageCount MAX_UINTN) ;;
      (* remove the entry from the dirty list *)
      LIST_REMOVE PageCacheEntry ;;
      UpdateEntry PageCacheEntry (set_ListEntryNext false) ;;
      when MoveToCleanList
           (INSERT_BEFORE PageCacheEntry IoPageCacheCleanList) ;;
      ret true
    else ret false.

(** The points of IopMarkPageCacheEntryClean between which another
    caller can run: the plain read of the quick exit check, each of the
    atomic operations, and the list manipulation, which as a whole is under
    the page cache list lock. *)
Inductive MARK_CLEAN_POINT :=
  | MarkCleanEntered
  | MarkCleanChecked
  | MarkCleanCleared (OldFlags : Z)
  | MarkCleanCounted (OldFlags : Z)
  | MarkCleanListLock
  | MarkCleanReturned (MarkedClean : bool).

(** The step a caller of IopMarkPageCacheEntryClean takes from one point
    to the next; a caller that has returned stays where it is. *)
Definition MarkCleanStep (PageCacheEntry : nat) (MoveToCleanList : bool)
    (Point : MARK_CLEAN_POINT) : M MARK_CLEAN_POINT :=
  match Point with
  | MarkCleanEntered =>
      x <- Entry PageCacheEntry ;;
      if negb (FlagSet (Flags x) PAGE_CACHE_ENTRY_FLAG_DIRTY)
      then ret (MarkCleanReturned false)
      else ret MarkCleanChecked
  | MarkCleanChecked =>
      OldFlags <- RtlAtomicAnd32 PageCacheEntry
                    (ULONG_NOT PAGE_CACHE_ENTRY_FLAG_DIRTY) ;;
      if FlagSet OldFlags PAGE_CACHE_ENTRY_FLAG_DIRTY
      then ret (MarkCleanCleared OldFlags)
      else ret (MarkCleanReturned false)
  | MarkCleanCleared OldFlags =>
      RtlAtomicAdd IoPageCacheDirtyPageCount MAX_UINTN ;;
      ret (MarkCleanCounted OldFlags)
  | MarkCleanCounted OldFlags =>
      when (FlagSet OldFlags PAGE_CACHE_ENTRY_FLAG_MAPPED)
           (RtlAtomicAdd IoPageCacheMappedDirtyPageCount MAX_UINTN) ;;
      ret MarkCleanListLock
  | MarkCleanListLock =>
      LIST_REMOVE PageCacheEntry ;;
      UpdateEntry PageCacheEntry (set_ListEntryNext false) ;;
      when MoveToCleanList
           (INSERT_BEFORE PageCacheEntry IoPageCacheCleanList) ;;
      ret (MarkCleanReturned true)
  | MarkCleanReturned MarkedClean => ret (MarkCleanReturned MarkedClean)
  end.

(** One caller running its steps without another caller in between. *)
Fixpoint MarkCleanSteps (n : nat) (PageCacheEntry : nat)
    (MoveToCleanList : bool) (Point : MARK_CLEAN_POINT)
    : M MARK_CLEAN_POINT :=
  match n with
  | O => ret Point
  | S n =>
      Point <- MarkCleanStep PageCacheEntry MoveToCleanList Point ;;
      MarkCleanSteps n PageCacheEntry MoveToCleanList Point
  end.

(** Callers of IopMarkPageCacheEntryClean on the same entry, each with its
    move flag and the point it is at, running in the order of a schedule:
    the caller named next takes its next step. *)
Fixpoint MarkCleanInterleaved (PageCacheEntry : nat) (Schedule : list nat)
    (Callers : list (bool * MARK_CLEAN_POINT))
    : M (list (bool * MARK_CLEAN_POINT)) :=
  match Schedule with
  | [] => ret Callers
  | i :: rest =>
      match Callers !! i with
      | Some (MoveToCleanList, Point) =>
          Point <- MarkCleanStep PageCacheEntry MoveToCleanList Point ;;
          MarkCleanInterleaved PageCacheEntry rest
            (<[i := (MoveToCleanList, Point)]> Callers)
      | None => MarkCleanInterleaved PageCacheEntry rest Callers
      end
  end.

Definition IopMarkPageCacheEntryDirty (PageCacheEntry : nat) : M bool :=
  x <- Entry PageCacheEntry ;;
  DirtyEntry <- (if negb (FlagSet (Flags x) PAGE_CACHE_ENTRY_FLAG_PAGE_OWNER)
                 then Pointer (BackingEntry x)
                 else ret PageCacheEntry) ;;
  d <- Entry DirtyEntry ;;
  if FlagSet (Flags d) PAGE_CACHE_ENTRY_FLAG_DIRTY then ret false
  else
    let FileObject_ := FileObject d in
    OldFlags <- RtlAtomicOr32 DirtyEntry PAGE_CACHE_ENTRY_FLAG_DIRTY ;;
    if negb (FlagSet OldFlags PAGE_CACHE_ENTRY_FLAG_DIRTY) then
      RtlAtomicAdd IoPageCacheDirtyPageCount 1 ;;
      when (FlagSet OldFlags PAGE_CACHE_ENTRY_FLAG_MAPPED)
           (RtlAtomicAdd IoPageCacheMappedDirtyPageCount 1) ;;
      (* remove the entry from the clean LRU if it is on one *)
      d <- Entry DirtyEntry ;;
      when (ListEntryNext d) (LIST_REMOVE DirtyEntry) ;;
      (* add it to the dirty page list of the file object *)
      INSERT_BEFORE DirtyEntry (DirtyPageList FileObject_) ;;
      d <- Entry DirtyEntry ;;
      IopMarkFileObjectDirty (FileObject d) ;;
      ret true
    else ret false.

Definition IoMarkPageCacheEntryDirty (PageCacheEntry : nat) : M bool :=
  x <- Entry PageCacheEntry ;;
  DirtyEntry <- (if negb (FlagSet (Flags x) PAGE_CACHE_ENTRY_FLAG_PAGE_OWNER)
                 then Pointer (BackingEntry x)
                 else ret PageCacheEntry) ;;
  d <- Entry DirtyEntry ;;
  if FlagSet (Flags d) PAGE_CACHE_ENTRY_FLAG_DIRTY then ret false
  else
    (* double check the backing entry once the file object lock is held *)
    DirtyEntry <- (match BackingEntry d with
                   | Some _ => x <- Entry PageCacheEntry ;; Pointer (BackingEntry x)
                   | None => ret DirtyEntry
                   end) ;;
    IopMarkPageCacheEntryDirty DirtyEntry.


(** *** Initialization and the physical pressure predicate *)

Definition MAX_ULONG : Z := ULONG_MOD - 1.
Definition MAX_ULONGLONG : Z := ULONGLONG_MOD - 1.

(** One threshold of IopInitializePageCache: a percentage of the total
    number of physical pages, in UINTN arithmetic. *)
Definition PhysicalPagesPercent (TotalPhysicalPages Percent : Z) : Z :=
  let PhysicalPages := uintn (TotalPhysicalPages * Percent) / 100 in
  if PhysicalPages >? MAX_UINTN then MAX_UINTN else PhysicalPages.

Definition IopInitializePageCache : M KSTATUS :=
  INITIALIZE_LIST_HEAD IoPageCacheCleanList ;;
  INITIALIZE_LIST_HEAD IoPageCacheCleanUnmappedList ;;
  INITIALIZE_LIST_HEAD IoPageCacheRemovalList ;;
  if negb (KeCreateQueuedLock K) then ret STATUS_INSUFFICIENT_RESOURCES
  else if negb (KeCreateTimer K) then ret STATUS_INSUFFICIENT_RESOURCES
  else if negb (MmCreateBlockAllocator K) then ret STATUS_INSUFFICIENT_RESOURCES
  else
    let TotalPhysicalPages := uintn (MmGetTotalPhysicalPages K) in
    SetGlobal IoPageCacheHeadroomPagesRetreat
      (PhysicalPagesPercent TotalPhysicalPages
         PAGE_CACHE_MEMORY_HEADROOM_PERCENT_RETREAT) ;;
    SetGlobal IoPageCacheHeadroomPagesTrigger
      (PhysicalPagesPercent TotalPhysicalPages
         PAGE_CACHE_MEMORY_HEADROOM_PERCENT_TRIGGER) ;;
    SetGlobal IoPageCacheMinimumPagesTarget
      (PhysicalPagesPercent TotalPhysicalPages
         PAGE_CACHE_MINIMUM_MEMORY_TARGET_PERCENT) ;;
    SetGlobal IoPageCacheMinimumPages
      (PhysicalPagesPercent TotalPhysicalPages
         PAGE_CACHE_MINIMUM_MEMORY_PERCENT) ;;
    (let PhysicalPages :=
       PhysicalPagesPercent TotalPhysicalPages
         PAGE_CACHE_LOW_MEMORY_CLEAN_PAGE_MINIMUM_PERCENTAGE in
     SetGlobal IoPageCacheLowMemoryCleanPageMinimum
       (if PhysicalPages >? PAGE_CACHE_LOW_MEMORY_CLEAN_PAGE_MAXIMUM
        then PAGE_CACHE_LOW_MEMORY_CLEAN_PAGE_MAXIMUM
        else PhysicalPages)) ;;
    (let PageShift := MmPageShift K in
     let TotalVirtualMemory := uintn (MmGetTotalVirtualMemory K) in
     if TotalVirtualMemory <? MAX_ULONG then
       SetGlobal IoPageCacheHeadroomVirtualPagesTrigger
         (Z.shiftr (512 * _1MB) PageShift) ;;
       SetGlobal IoPageCacheHeadroomVirtualPagesRetreat
         (Z.shiftr (896 * _1MB) PageShift)
     else
       SetGlobal IoPageCacheHeadroomVirtualPagesTrigger
         (Z.shiftr (uintn (1 * uintn _1GB)) PageShift) ;;
       SetGlobal IoPageCacheHeadroomVirtualPagesRetreat
         (Z.shiftr (uintn (3 * uintn _1GB)) PageShift)) ;;
    ret (PsCreateKernelThread K).

(** [FreePhysicalPages] is the current content of the optional out
    parameter; the result carries its content on return. *)
Definition IopIsPageCacheTooBig (FreePhysicalPages : option Z)
    : M (bool * option Z) :=
  PhysicalPageCount <- Global IoPageCachePhysicalPageCount ;;
  MinimumPages <- Global IoPageCacheMinimumPages ;;
  if PhysicalPageCount <=? MinimumPages then ret (false, FreePhysicalPages)
  else
    FreePages <- gets (fun s => uintn (MmGetTotalFreePhysicalPages K (Trace s))) ;;
    Trigger <- Global IoPageCacheHeadroomPagesTrigger ;;
    if FreePages >? Trigger then ret (false, FreePhysicalPages)
    else
      ret (true, match FreePhysicalPages with
                 | Some _ => Some FreePages
                 | None => None
                 end).

(** *** Flushing *)

(** Modelled from the spec: the I/O buffer a flush fills is a sequence of
    page handles, one per page appended; the entry at a buffer offset is
    the handle of the page holding that offset.  An offset beyond the
    pages appended finds no entry. *)
Definition MmGetIoBufferPageCacheEntry (IoBuffer : list nat) (BufferOffset : Z)
    : M nat :=
  if (BufferOffset <? 0) || (MmPageSize K <=? 0) then fault
  else Pointer (IoBuffer !! Z.to_nat (BufferOffset / MmPageSize K)).

(** Modelled from the spec: MmIoBufferAppendPage puts the page of an entry
    at the end of the I/O buffer. *)
Definition MmIoBufferAppendPage (IoBuffer : list nat) (PageCacheEntry : nat)
    : M (list nat) :=
  Emit (EvIoBufferAppendPage PageCacheEntry) ;;
  ret (IoBuffer ++ [PageCacheEntry]).

(** Modelled from the spec: ALIGN_RANGE_DOWN is a macro of a header not at
    hand; it aligns the value down to a multiple of the size. *)
Definition ALIGN_RANGE_DOWN (Value Size : Z) : Z := Size * (Value / Size).

(** The first loop of IopFlushPageCacheBuffer: mark the pages clean until
    the flush size is reached or an evicted entry is met.  It gives back
    the number of bytes to write, whether all the pages were already clean,
    and the entry looked at last. *)
Fixpoint FlushBufferMarkClean (fuel : nat) (FlushBuffer : list nat)
    (FlushSize BufferOffset BytesToWrite : Z) (Clean : bool) (CacheEntry : nat)
    : M (Z * bool * nat) :=
  match fuel with
  | O => fault
  | S fuel =>
      if BufferOffset <? FlushSize then
        CacheEntry <- MmGetIoBufferPageCacheEntry FlushBuffer BufferOffset ;;
        x <- Entry CacheEntry ;;
        if negb (NodeParent x) then ret (BytesToWrite, Clean, CacheEntry)
        else
          MarkedClean <- IopMarkPageCacheEntryClean CacheEntry true ;;
          FlushBufferMarkClean fuel FlushBuffer FlushSize
            (uintn (BufferOffset + MmPageSize K))
            (uintn (BytesToWrite + MmPageSize K))
            (if MarkedClean then false else Clean) CacheEntry
      else ret (BytesToWrite, Clean, CacheEntry)
  end.

(** The loop of the failure path: mark the pages that were not written
    dirty again. *)
Fixpoint FlushBufferMarkDirty (fuel : nat) (FlushBuffer : list nat)
    (BytesToWrite BufferOffset : Z) (CacheEntry : nat) : M nat :=
  match fuel with
  | O => fault
  | S fuel =>
      if BufferOffset <? BytesToWrite then
        CacheEntry <- MmGetIoBufferPageCacheEntry FlushBuffer BufferOffset ;;
        _ <- IopMarkPageCacheEntryDirty CacheEntry ;;
        FlushBufferMarkDirty fuel FlushBuffer BytesToWrite
          (uintn (BufferOffset + MmPageSize K)) CacheEntry
      else ret CacheEntry
  end.

(** The failure path at the end of IopFlushPageCacheBuffer. *)
Definition FlushPageCacheBufferEnd (FlushBuffer : list nat)
    (Status : KSTATUS) (BytesCompleted BytesToWrite : Z) (CacheEntry : nat)
    : M KSTATUS :=
  if negb (KSUCCESS Status) then
    CacheEntry <- FlushBufferMarkDirty (S (length FlushBuffer)) FlushBuffer
                    BytesToWrite
                    (ALIGN_RANGE_DOWN BytesCompleted (MmPageSize K)) CacheEntry ;;
    (if negb (BytesCompleted =? BytesToWrite) then
       x <- Entry CacheEntry ;;
       IopMarkFileObjectDirty (FileObject x)
     else ret tt) ;;
    ret Status
  else ret Status.

Definition IopFlushPageCacheBuffer (FlushBuffer : list nat)
    (FlushSize : Z) (Flags_ : Z) : M KSTATUS :=
  CacheEntry <- MmGetIoBufferPageCacheEntry FlushBuffer 0 ;;
  x <- Entry CacheEntry ;;
  let FileObject_ := FileObject x in
  let FileOffset := Offset x in
  f <- File FileObject_ ;;
  let FileSize := PropertiesFileSize f in
  r <- FlushBufferMarkClean (S (length FlushBuffer)) FlushBuffer FlushSize
         0 0 true CacheEntry ;;
  let '(BytesToWrite, Clean, CacheEntry) := r in
  (* avoid writing beyond the end of the file *)
  let BytesToWrite :=
    if ulonglong (FileOffset + BytesToWrite) >? FileSize
    then uintn (ulonglong (FileSize - FileOffset))
    else BytesToWrite in
  if BytesToWrite =? 0 then ret STATUS_SUCCESS
  else if Clean && negb (FlagSet Flags_ (IO_FLAG_DATA_SYNCHRONIZED K))
  then ret STATUS_SUCCESS
  else
    w <- gets (fun s => IopPerformNonCachedWrite K (Trace s) FileObject_
                          FlushBuffer FileOffset BytesToWrite Flags_) ;;
    let Status := fst w in
    let BytesCompleted := uintn (snd w) in
    Emit (EvNonCachedWrite FileObject_ FlushBuffer FileOffset BytesToWrite
            Flags_ Status BytesCompleted) ;;
    if negb (KSUCCESS Status) then
      FlushPageCacheBufferEnd FlushBuffer Status BytesCompleted BytesToWrite
        CacheEntry
    else if negb (BytesCompleted =? BytesToWrite) then
      FlushPageCacheBufferEnd FlushBuffer STATUS_DATA_LENGTH_MISMATCH
        BytesCompleted BytesToWrite CacheEntry
    else ret STATUS_SUCCESS.

(** Modelled from the spec: the red-black tree is a kernel primitive that
    is not at hand.  The tree of a file object is its entries in increasing
    offset order; the next node of a node is its successor in that order,
    and the closest node of an offset is the first entry at or above it. *)
Fixpoint TreeSuccessor (Tree : list nat) (Node : nat) : option nat :=
  match Tree with
  | [] => None
  | x :: rest => if bool_decide (x = Node) then head rest
                 else TreeSuccessor rest Node
  end.

Definition RtlRedBlackTreeGetNextNode (FileObject_ : nat) (Node : nat)
    : M (option nat) :=
  f <- File FileObject_ ;;
  ret (TreeSuccessor (PageCacheTree f) Node).

Fixpoint TreeClosest (E : gmap nat PAGE_CACHE_ENTRY) (Tree : list nat)
    (SearchOffset : Z) : option nat :=
  match Tree with
  | [] => None
  | x :: rest =>
      match E !! x with
      | Some v => if SearchOffset <=? Offset v then Some x
                  else TreeClosest E rest SearchOffset
      | None => TreeClosest E rest SearchOffset
      end
  end.

Definition RtlRedBlackTreeSearchClosest (FileObject_ : nat) (SearchOffset : Z)
    : M (option nat) :=
  f <- File FileObject_ ;;
  gets (fun s => TreeClosest (Entries s) (PageCacheTree f) SearchOffset).

(** The local variables of IopFlushPageCacheEntries that live across the
    iterations of its loop. *)
Record FLUSH_LOCALS := {
  Node : option nat;
  FlushBuffer : list nat;
  FlushSize : Z;
  FlushNextOffset : Z;
  CleanStreak : Z;
  PagesFlushed : Z;
  TotalStatus : KSTATUS;
  BytesFlushed : bool
}.

(** How an iteration of a loop ends. *)
Inductive LOOP (A : Type) :=
  | Continue (l : A)
  | Break (l : A)
  | GotoEnd (Status : KSTATUS) (l : A).
Arguments Continue {A} l.
Arguments Break {A} l.
Arguments GotoEnd {A} Status l.

Section Flush.

Variables (FileObject_ : nat) (Offset_ Size_ Flags_ : Z) (PageCount : option Z).

Definition FlushWholeFile : bool := (Size_ =? MAX_ULONGLONG) && (Offset_ =? 0).

(** Whether the loop skips a clean entry, and the clean streak after it
    was looked at. *)
Definition FlushSkipCleanEntry (l : FLUSH_LOCALS) (x : PAGE_CACHE_ENTRY)
    (BackingDirty : bool) : bool * Z :=
  let SkipEntry :=
    if FlagSet Flags_ (IO_FLAG_DATA_SYNCHRONIZED K) && BackingDirty
    then false else true in
  if negb (FlushSize l =? 0) && (Offset x =? FlushNextOffset l)
     && (CleanStreak l <? PAGE_CACHE_FLUSH_MAX_CLEAN_STREAK)
  then (false, uintn (CleanStreak l + 1))
  else (SkipEntry, CleanStreak l).

(** Whether the loop skips a dirty entry, and the clean streak after it
    was looked at. *)
Definition FlushSkipDirtyEntry (l : FLUSH_LOCALS) (x : PAGE_CACHE_ENTRY)
    : bool * Z :=
  let SkipEntry :=
    if ulonglong (Offset x + MmPageSize K) <=? Offset_ then true
    else if negb (Size_ =? MAX_ULONGLONG)
            && (Offset x >=? ulonglong (Offset_ + Size_))
    then true else false in
  (SkipEntry, if SkipEntry then CleanStreak l else 0).

(** The flush of the pending buffer in the middle of the loop and what
    follows it in the iteration.  [CacheEntry] is the entry of the
    iteration if it has not been put in the buffer. *)
Definition FlushLoopWrite (l : FLUSH_LOCALS) (CacheEntry : option nat)
    : M (LOOP FLUSH_LOCALS) :=
  (* no need to flush any trailing clean entries on the end *)
  let FlushSize_ :=
    uintn (FlushSize l - uintn (Z.shiftl (CleanStreak l) (MmPageShift K))) in
  Status <- IopFlushPageCacheBuffer (FlushBuffer l) FlushSize_ Flags_ ;;
  let TotalStatus_ := if negb (KSUCCESS Status) then Status else TotalStatus l in
  let BytesFlushed_ := if negb (KSUCCESS Status) then BytesFlushed l else true in
  (* prepare the flush buffer to be used again *)
  let l := {| Node := Node l; FlushBuffer := []; FlushSize := 0;
              FlushNextOffset := FlushNextOffset l; CleanStreak := 0;
              PagesFlushed := PagesFlushed l; TotalStatus := TotalStatus_;
              BytesFlushed := BytesFlushed_ |} in
  (* stop if enough pages were flushed *)
  if match PageCount with
     | Some Count => PagesFlushed l >=? Count
     | None => false
     end
  then ret (Break l)
  else
    l <- (match CacheEntry with
          | Some e =>
              FlushBuffer_ <- MmIoBufferAppendPage (FlushBuffer l) e ;;
              x <- Entry e ;;
              ret {| Node := Node l; FlushBuffer := FlushBuffer_;
                     FlushSize := MmPageSize K;
                     FlushNextOffset := ulonglong (Offset x + MmPageSize K);
                     CleanStreak := CleanStreak l;
                     PagesFlushed := PagesFlushed l;
                     TotalStatus := TotalStatus l;
                     BytesFlushed := BytesFlushed l |}
          | None =>
              ret {| Node := if FlushWholeFile then None else Node l;
                     FlushBuffer := FlushBuffer l; FlushSize := FlushSize l;
                     FlushNextOffset := FlushNextOffset l;
                     CleanStreak := CleanStreak l;
                     PagesFlushed := PagesFlushed l;
                     TotalStatus := TotalStatus l;
                     BytesFlushed := BytesFlushed l |}
          end) ;;
    if KeGetCurrentThreadIsPageCacheThread K then
      r <- IopIsPageCacheTooBig None ;;
      PhysicalPageCount <- Global IoPageCachePhysicalPageCount ;;
      DirtyPageCount <- Global IoPageCacheDirtyPageCount ;;
      LowMemoryCleanPageMinimum <- Global IoPageCacheLowMemoryCleanPageMinimum ;;
      if fst r && (uintn (PhysicalPageCount - DirtyPageCount)
                   >? LowMemoryCleanPageMinimum)
      then ret (GotoEnd STATUS_TRY_AGAIN l)
      else ret (Continue l)
    else ret (Continue l).

(** One iteration of the loop of IopFlushPageCacheEntries. *)
Definition FlushLoopBody (l : FLUSH_LOCALS) : M (LOOP FLUSH_LOCALS) :=
  (* traverse along the tree if there is already a node *)
  Node1 <- (match Node l with
            | Some n => RtlRedBlackTreeGetNextNode FileObject_ n
            | None => ret None
            end) ;;
  Node2 <- (match Node1 with
            | None =>
                if FlushWholeFile then LIST_FIRST LocalList else ret None
            | Some n => ret (Some n)
            end) ;;
  let l := {| Node := Node2; FlushBuffer := FlushBuffer l;
              FlushSize := FlushSize l; FlushNextOffset := FlushNextOffset l;
              CleanStreak := CleanStreak l; PagesFlushed := PagesFlushed l;
              TotalStatus := TotalStatus l; BytesFlushed := BytesFlushed l |} in
  match Node2 with
  | None => ret (Break l)
  | Some CacheEntry =>
      x <- Entry CacheEntry ;;
      if negb (Size_ =? MAX_ULONGLONG)
         && (Offset x >=? ulonglong (Offset_ + Size_))
      then ret (Break l)
      else
        (* determine if the current entry can be skipped *)
        skip <- (if negb (FlagSet (Flags x) PAGE_CACHE_ENTRY_FLAG_DIRTY) then
                   BackingDirty <-
                     (if FlagSet Flags_ (IO_FLAG_DATA_SYNCHRONIZED K) then
                        match BackingEntry x with
                        | Some b =>
                            y <- Entry b ;;
                            ret (FlagSet (Flags y) PAGE_CACHE_ENTRY_FLAG_DIRTY)
                        | None => ret false
                        end
                      else ret false) ;;
                   ret (FlushSkipCleanEntry l x BackingDirty)
                 else ret (FlushSkipDirtyEntry l x)) ;;
        let l := {| Node := Node l; FlushBuffer := FlushBuffer l;
                    FlushSize := FlushSize l;
                    FlushNextOffset := FlushNextOffset l;
                    CleanStreak := snd skip; PagesFlushed := PagesFlushed l;
                    TotalStatus := TotalStatus l;
                    BytesFlushed := BytesFlushed l |} in
        if fst skip then
          (* potentially move to the next set of entries *)
          ret (Continue
                 {| Node := if FlushWholeFile then None else Node l;
                    FlushBuffer := FlushBuffer l; FlushSize := FlushSize l;
                    FlushNextOffset := FlushNextOffset l;
                    CleanStreak := CleanStreak l;
                    PagesFlushed := PagesFlushed l;
                    TotalStatus := TotalStatus l;
                    BytesFlushed := BytesFlushed l |})
        else
          let l := {| Node := Node l; FlushBuffer := FlushBuffer l;
                      FlushSize := FlushSize l;
                      FlushNextOffset := FlushNextOffset l;
                      CleanStreak := CleanStreak l;
                      PagesFlushed := uintn (PagesFlushed l + 1);
                      TotalStatus := TotalStatus l;
                      BytesFlushed := BytesFlushed l |} in
          (* add the cache entry to the flush buffer if necessary *)
          if (FlushSize l =? 0) || (Offset x =? FlushNextOffset l) then
            FlushBuffer_ <- MmIoBufferAppendPage (FlushBuffer l) CacheEntry ;;
            let l := {| Node := Node l;
                        FlushBuffer := FlushBuffer_;
                        FlushSize := uintn (FlushSize l + MmPageSize K);
                        FlushNextOffset := ulonglong (Offset x + MmPageSize K);
                        CleanStreak := CleanStreak l;
                        PagesFlushed := PagesFlushed l;
                        TotalStatus := TotalStatus l;
                        BytesFlushed := BytesFlushed l |} in
            if FlushSize l <? PAGE_CACHE_FLUSH_MAX then ret (Continue l)
            else FlushLoopWrite l None
          else FlushLoopWrite l (Some CacheEntry)
  end.

Fixpoint FlushLoop (fuel : nat) (l : FLUSH_LOCALS)
    : M (option KSTATUS * FLUSH_LOCALS) :=
  match fuel with
  | O => fault
  | S fuel =>
      r <- FlushLoopBody l ;;
      match r with
      | Continue l => FlushLoop fuel l
      | Break l => ret (None, l)
      | GotoEnd Status l => ret (Some Status, l)
      end
  end.

(** What IopFlushPageCacheEntries gives back: its status and the content
    of the optional page count on return. *)
Record FLUSH_RESULT := {
  FlushStatus : KSTATUS;
  FlushPageCount : option Z
}.

(** The part of IopFlushPageCacheEntries from the label
    FlushPageCacheEntriesEnd on. *)
Definition FlushPageCacheEntriesEnd (Status : KSTATUS) (l : FLUSH_LOCALS)
    : M FLUSH_RESULT :=
  (* put what is left on the local list back on the dirty list *)
  Empty <- LIST_EMPTY LocalList ;;
  when (negb Empty) (APPEND_LIST LocalList (DirtyPageList FileObject_)) ;;
  let TotalStatus_ :=
    if negb (KSUCCESS Status) && KSUCCESS (TotalStatus l) then Status
    else TotalStatus l in
  f <- File FileObject_ ;;
  TotalStatus_ <-
    (if BytesFlushed l
        && bool_decide (PropertiesType f = IoObjectBlockDevice)
        && negb (FlagSet Flags_ (IO_FLAG_DATA_SYNCHRONIZED K))
     then
       Status <- gets (fun s => IopSynchronizeBlockDevice K (Trace s) FileObject_) ;;
       Emit (EvSynchronizeBlockDevice FileObject_ Status) ;;
       ret (if negb (KSUCCESS Status) then Status else TotalStatus_)
     else ret TotalStatus_) ;;
  let PageCount_ :=
    match PageCount with
    | Some Count =>
        Some (if PagesFlushed l >? Count then 0
              else uintn (Count - PagesFlushed l))
    | None => None
    end in
  (* mark the file object as dirty if something went wrong *)
  when (negb (KSUCCESS TotalStatus_))
       (UpdateFile FileObject_ (set_DIRTY_DATA true)) ;;
  ret {| FlushStatus := TotalStatus_; FlushPageCount := PageCount_ |}.

Definition IopFlushPageCacheEntries (fuel : nat) : M FLUSH_RESULT :=
  let l := {| Node := None; FlushBuffer := []; FlushSize := 0;
              FlushNextOffset := Offset_; CleanStreak := 0; PagesFlushed := 0;
              TotalStatus := STATUS_SUCCESS; BytesFlushed := false |} in
  INITIALIZE_LIST_HEAD LocalList ;;
  (* optimistically mark the file object clean *)
  when ((Offset_ =? 0) && (Size_ =? MAX_ULONGLONG)
        && match PageCount with None => true | Some _ => false end)
       (UpdateFile FileObject_ (set_DIRTY_DATA false)) ;;
  f <- File FileObject_ ;;
  if negb (IO_IS_CACHEABLE_TYPE (PropertiesType f)) then
    FlushPageCacheEntriesEnd STATUS_SUCCESS l
  else
    (* quickly exit if there is nothing to flush *)
    Empty <- LIST_EMPTY (DirtyPageList FileObject_) ;;
    if Empty then FlushPageCacheEntriesEnd STATUS_SUCCESS l
    else
      Allocated <- gets (fun s => MmAllocateUninitializedIoBuffer K (Trace s)) ;;
      if negb Allocated then
        FlushPageCacheEntriesEnd STATUS_INSUFFICIENT_RESOURCES l
      else
        Node_ <- (if negb (Size_ =? MAX_ULONGLONG) || negb (Offset_ =? 0) then
                    RtlRedBlackTreeSearchClosest FileObject_ Offset_
                  else
                    (* move all dirty entries over to a local list *)
                    MOVE_LIST (DirtyPageList FileObject_) LocalList ;;
                    ret None) ;;
        r <- FlushLoop fuel
               {| Node := Node_; FlushBuffer := []; FlushSize := 0;
                  FlushNextOffset := Offset_; CleanStreak := 0;
                  PagesFlushed := 0; TotalStatus := STATUS_SUCCESS;
                  BytesFlushed := false |} ;;
        match r with
        | (Some Status, l) => FlushPageCacheEntriesEnd Status l
        | (None, l) =>
            (* if the loop completed and something is left, flush it now *)
            let FlushSize_ :=
              uintn (FlushSize l
                     - uintn (Z.shiftl (CleanStreak l) (MmPageShift K))) in
            l <- (if negb (FlushSize_ =? 0) then
                    Status <- IopFlushPageCacheBuffer (FlushBuffer l)
                                FlushSize_ Flags_ ;;
                    ret {| Node := Node l; FlushBuffer := FlushBuffer l;
                           FlushSize := FlushSize_;
                           FlushNextOffset := FlushNextOffset l;
                           CleanStreak := CleanStreak l;
                           PagesFlushed := PagesFlushed l;
                           TotalStatus := if negb (KSUCCESS Status) then Status
                                          else TotalStatus l;
                           BytesFlushed := if negb (KSUCCESS Status)
                                           then BytesFlushed l else true |}
                  else ret l) ;;
            FlushPageCacheEntriesEnd STATUS_SUCCESS l
        end.

End Flush.

(** *** Linking *)

(** The result carries the status and what PageWasDirty receives; a caller
    that supplies no PageWasDirty pointer ignores the latter. *)
Definition IopUnmapPageCacheEntrySections (PageCacheEntry : nat)
    : M (KSTATUS * bool) :=
  x <- Entry PageCacheEntry ;;
  f <- File (FileObject x) ;;
  if HasImageSectionList f then
    r <- gets (fun s => MmUnmapImageSectionList K (Trace s) (FileObject x)
                          (Offset x)) ;;
    Emit (EvUnmapImageSectionList (FileObject x) (Offset x) (fst r) (snd r)) ;;
    ret r
  else ret (STATUS_SUCCESS, false).

(** The end of IopLinkPageCacheEntries, from the label
    LinkPageCacheEntriesEnd on. *)
Definition LinkPageCacheEntriesEnd (Result : bool)
    (VirtualAddress_ PhysicalAddress_ : Z) : M bool :=
  when (negb (VirtualAddress_ =? 0))
       (Emit (EvUnmapAddress VirtualAddress_ (MmPageSize K))) ;;
  when (negb (PhysicalAddress_ =? INVALID_PHYSICAL_ADDRESS K))
       (Emit (EvFreePhysicalPage PhysicalAddress_) ;;
        RtlAtomicAdd IoPageCachePhysicalPageCount MAX_UINTN) ;;
  ret Result.

Definition IopLinkPageCacheEntries (LowerEntry UpperEntry : nat) : M bool :=
  lo <- Entry LowerEntry ;;
  up <- Entry UpperEntry ;;
  lf <- File (FileObject lo) ;;
  uf <- File (FileObject up) ;;
  let LowerType := PropertiesType lf in
  let UpperType := PropertiesType uf in
  (* entries with the same I/O type are not allowed to be linked *)
  if bool_decide (LowerType = UpperType) then ret false
  else if negb (bool_decide (LowerType = IoObjectBlockDevice)
                && IO_IS_CACHEABLE_FILE UpperType)
  then ret false
  (* if the two entries are already linked, do nothing *)
  else if bool_decide (BackingEntry up = Some LowerEntry) then ret true
  (* more than one reference on the entry to update: cannot proceed *)
  else if negb (ReferenceCount lo =? 1) then ret false
  else
    r <- IopUnmapPageCacheEntrySections LowerEntry ;;
    if negb (KSUCCESS (fst r)) then
      LinkPageCacheEntriesEnd false 0 (INVALID_PHYSICAL_ADDRESS K)
    else
      lo <- Entry LowerEntry ;;
      up <- Entry UpperEntry ;;
      (* if the flags differ in mappedness, clear the old mapped flag *)
      let Delta := Z.lxor (Flags lo) (Flags up) in
      (if FlagSet (Z.land Delta (Flags lo)) PAGE_CACHE_ENTRY_FLAG_MAPPED then
         OldFlags <- RtlAtomicAnd32 LowerEntry
                       (ULONG_NOT PAGE_CACHE_ENTRY_FLAG_MAPPED) ;;
         when (FlagSet OldFlags PAGE_CACHE_ENTRY_FLAG_MAPPED)
              (RtlAtomicAdd IoPageCacheMappedPageCount MAX_UINTN ;;
               when (FlagSet OldFlags PAGE_CACHE_ENTRY_FLAG_DIRTY)
                    (RtlAtomicAdd IoPageCacheMappedDirtyPageCount MAX_UINTN))
       else ret tt) ;;
      (* save the page to release and share the upper entry's page *)
      lo <- Entry LowerEntry ;;
      let PhysicalAddress_ := PhysicalAddress lo in
      let VirtualAddress_ := VirtualAddress lo in
      up <- Entry UpperEntry ;;
      UpdateEntry LowerEntry (set_PhysicalAddress (PhysicalAddress up)) ;;
      up <- Entry UpperEntry ;;
      UpdateEntry LowerEntry (set_VirtualAddress (VirtualAddress up)) ;;
      let ClearFlags := Z.lor PAGE_CACHE_ENTRY_FLAG_MAPPED
                              PAGE_CACHE_ENTRY_FLAG_PAGE_OWNER in
      OldFlags <- RtlAtomicAnd32 UpperEntry (ULONG_NOT ClearFlags) ;;
      when (FlagSet OldFlags PAGE_CACHE_ENTRY_FLAG_MAPPED)
           (RtlAtomicAdd IoPageCacheMappedPageCount MAX_UINTN ;;
            (* transfer the mapped flag over to the lower entry *)
            if FlagSet Delta PAGE_CACHE_ENTRY_FLAG_MAPPED then
              OldFlags <- RtlAtomicOr32 LowerEntry PAGE_CACHE_ENTRY_FLAG_MAPPED ;;
              when (negb (FlagSet OldFlags PAGE_CACHE_ENTRY_FLAG_MAPPED))
                   (RtlAtomicAdd IoPageCacheMappedPageCount 1 ;;
                    when (FlagSet OldFlags PAGE_CACHE_ENTRY_FLAG_DIRTY)
                         (RtlAtomicAdd IoPageCacheMappedDirtyPageCount 1))
            else ret tt) ;;
      (* now link the two entries *)
      IoPageCacheEntryAddReference LowerEntry ;;
      UpdateEntry UpperEntry (set_BackingEntry (Some LowerEntry)) ;;
      LinkPageCacheEntriesEnd true VirtualAddress_ PhysicalAddress_.

(** *** Destruction and removal *)

Definition IopDestroyPageCacheEntry (PageCacheEntry : nat) : M unit :=
  x <- Entry PageCacheEntry ;;
  let FileObject_ := FileObject x in
  (* if this is the page owner, then free the physical page *)
  (if FlagSet (Flags x) PAGE_CACHE_ENTRY_FLAG_PAGE_OWNER then
     when (FlagSet (Flags x) PAGE_CACHE_ENTRY_FLAG_MAPPED)
          (Emit (EvUnmapAddress (VirtualAddress x) (MmPageSize K)) ;;
           RtlAtomicAdd IoPageCacheMappedPageCount MAX_UINTN ;;
           _ <- RtlAtomicAnd32 PageCacheEntry
                  (ULONG_NOT PAGE_CACHE_ENTRY_FLAG_MAPPED) ;;
           UpdateEntry PageCacheEntry (set_VirtualAddress 0)) ;;
     x <- Entry PageCacheEntry ;;
     Emit (EvFreePhysicalPage (PhysicalAddress x)) ;;
     RtlAtomicAdd IoPageCachePhysicalPageCount MAX_UINTN ;;
     UpdateEntry PageCacheEntry
       (set_PhysicalAddress (INVALID_PHYSICAL_ADDRESS K))
   else
     (* otherwise release the reference on the page cache owner *)
     match BackingEntry x with
     | Some BackingEntry_ =>
         IoPageCacheEntryReleaseReference BackingEntry_ ;;
         UpdateEntry PageCacheEntry (set_BackingEntry None)
     | None => ret tt
     end) ;;
  (* release the reference on the file object *)
  Emit (EvFileObjectReleaseReference FileObject_) ;;
  (* with the final reference gone, free the page cache entry *)
  modify (with_Entries (fun m => delete PageCacheEntry m)) ;;
  Emit (EvFreeBlock PageCacheEntry).

Fixpoint IopDestroyPageCacheEntries (fuel : nat) (ListHead : LIST_HEAD)
    : M unit :=
  match fuel with
  | O => fault
  | S fuel =>
      CurrentEntry <- LIST_FIRST ListHead ;;
      match CurrentEntry with
      | None => ret tt
      | Some PageCacheEntry =>
          LIST_REMOVE PageCacheEntry ;;
          UpdateEntry PageCacheEntry (set_ListEntryNext false) ;;
          IopDestroyPageCacheEntry PageCacheEntry ;;
          IopDestroyPageCacheEntries fuel ListHead
      end
  end.

Definition IopRemovePageCacheEntryFromTree (PageCacheEntry : nat) : M unit :=
  x <- Entry PageCacheEntry ;;
  (* MM needs to know that the backing entry now owns the page *)
  match BackingEntry x with
  | Some b => Emit (EvSetPageCacheEntryForPhysicalAddress (PhysicalAddress x) b)
  | None => ret tt
  end ;;
  UpdateFile (FileObject x)
    (fun f => set_PageCacheTree
                (filter (fun n => n <> PageCacheEntry) (PageCacheTree f)) f) ;;
  UpdateEntry PageCacheEntry (set_NodeParent false) ;;
  EntryCount <- Global IoPageCacheEntryCount ;;
  SetGlobal IoPageCacheEntryCount (uintn (EntryCount - 1)).

Section RemoveFromList.

Variables (DestroyListHead_ : LIST_HEAD) (TimidEffort : bool).

(** One iteration of the loop of IopRemovePageCacheEntriesFromList over
    the local list; [TargetRemoveCount] is the content of the optional
    target.  The result is the target after the iteration, or nothing when
    the loop is over. *)
Definition RemoveLoopBody (TargetRemoveCount : option Z) : M (option (option Z)) :=
  First <- LIST_FIRST LocalList ;;
  match First with
  | None => ret None
  | Some PageCacheEntry =>
      if match TargetRemoveCount with
         | Some Target => Target =? 0
         | None => false
         end
      then ret None
      else
        x <- Entry PageCacheEntry ;;
        let FileObject_ := FileObject x in
        let Flags_ := Flags x in
        (* remove anything with a reference *)
        if negb (ReferenceCount x =? 0) then
          LIST_REMOVE PageCacheEntry ;;
          UpdateEntry PageCacheEntry (set_ListEntryNext false) ;;
          x <- Entry PageCacheEntry ;;
          when (ReferenceCount x =? 0)
               (INSERT_BEFORE PageCacheEntry IoPageCacheCleanList) ;;
          ret (Some TargetRemoveCount)
        (* if it is dirty, remove it and move on *)
        else if FlagSet Flags_ PAGE_CACHE_ENTRY_FLAG_DIRTY then
          LIST_REMOVE PageCacheEntry ;;
          UpdateEntry PageCacheEntry (set_ListEntryNext false) ;;
          ret (Some TargetRemoveCount)
        else
          Acquired <-
            (if TimidEffort then
               a <- gets (fun s => KeTryToAcquireSharedExclusiveLockExclusive K
                                     (Trace s) FileObject_) ;;
               Emit (EvTryToAcquireLock FileObject_ a) ;;
               ret a
             else ret true) ;;
          if negb Acquired then
            LIST_REMOVE PageCacheEntry ;;
            INSERT_BEFORE PageCacheEntry IoPageCacheCleanList ;;
            ret (Some TargetRemoveCount)
          else
            IoPageCacheEntryAddReference PageCacheEntry ;;
            x <- Entry PageCacheEntry ;;
            r <- (if ReferenceCount x =? 1 then
                    let Flags_ := Flags x in
                    u <- IopUnmapPageCacheEntrySections PageCacheEntry ;;
                    if KSUCCESS (fst u) then
                      Flags_ <- (if snd u then
                                   _ <- IopMarkPageCacheEntryDirty PageCacheEntry ;;
                                   x <- Entry PageCacheEntry ;;
                                   ret (Flags x)
                                 else ret Flags_) ;;
                      if negb (FlagSet Flags_ PAGE_CACHE_ENTRY_FLAG_DIRTY) then
                        (* keep the metrics correct *)
                        _ <- IopMarkPageCacheEntryClean PageCacheEntry false ;;
                        x <- Entry PageCacheEntry ;;
                        when (NodeParent x)
                             (IopRemovePageCacheEntryFromTree PageCacheEntry) ;;
                        (* a page owner counts towards the removal count *)
                        ret (true,
                             if FlagSet Flags_ PAGE_CACHE_ENTRY_FLAG_PAGE_OWNER
                             then match TargetRemoveCount with
                                  | Some Target => Some (uintn (Target - 1))
                                  | None => None
                                  end
                             else TargetRemoveCount)
                      else ret (false, TargetRemoveCount)
                    else ret (false, TargetRemoveCount)
                  else ret (false, TargetRemoveCount)) ;;
            let '(PageTakenDown, TargetRemoveCount) := r in
            x <- Entry PageCacheEntry ;;
            (if PageTakenDown then
               when (ListEntryNext x) (LIST_REMOVE PageCacheEntry) ;;
               INSERT_BEFORE PageCacheEntry DestroyListHead_
             else
               when (negb (FlagSet (Flags x) PAGE_CACHE_ENTRY_FLAG_DIRTY))
                    (LIST_REMOVE PageCacheEntry ;;
                     INSERT_BEFORE PageCacheEntry IoPageCacheCleanList)) ;;
            IoPageCacheEntryReleaseReference PageCacheEntry ;;
            ret (Some TargetRemoveCount)
  end.

Fixpoint RemoveLoop (fuel : nat) (TargetRemoveCount : option Z)
    : M (option Z) :=
  match fuel with
  | O => fault
  | S fuel =>
      r <- RemoveLoopBody TargetRemoveCount ;;
      match r with
      | Some Target => RemoveLoop fuel Target
      | None => ret TargetRemoveCount
      end
  end.

Definition IopRemovePageCacheEntriesFromList (fuel : nat)
    (PageCacheListHead : LIST_HEAD) (TargetRemoveCount : option Z)
    : M (option Z) :=
  Empty <- LIST_EMPTY PageCacheListHead ;;
  if Empty then ret TargetRemoveCount
  else
    MOVE_LIST PageCacheListHead LocalList ;;
    TargetRemoveCount <- RemoveLoop fuel TargetRemoveCount ;;
    (* stick any remainder back on the list *)
    Empty <- LIST_EMPTY LocalList ;;
    when (negb Empty) (APPEND_LIST LocalList PageCacheListHead) ;;
    ret TargetRemoveCount.

End RemoveFromList.

Definition IopTrimRemovalPageCacheList (fuel : nat) : M unit :=
  Empty <- LIST_EMPTY IoPageCacheRemovalList ;;
  if Empty then ret tt
  else
    INITIALIZE_LIST_HEAD DestroyListHead ;;
    _ <- IopRemovePageCacheEntriesFromList DestroyListHead false fuel
           IoPageCacheRemovalList None ;;
    IopDestroyPageCacheEntries fuel DestroyListHead.

(** *** Trimming *)

Definition IopIsPageCacheTooMapped (FreeVirtualPages : option Z)
    : M (bool * option Z) :=
  FreePages <- gets (fun s => Z.shiftr (uintn (MmGetFreeVirtualMemory K (Trace s)))
                                       (MmPageShift K)) ;;
  Trigger <- Global IoPageCacheHeadroomVirtualPagesTrigger ;;
  Level <- gets (fun s => MmGetVirtualMemoryWarningLevel K (Trace s)) ;;
  if (FreePages >? Trigger) && bool_decide (Level = MemoryWarningLevelNone)
  then ret (false, FreeVirtualPages)
  else
    (* make sure at least a single page cache entry is mapped *)
    MappedPageCount <- Global IoPageCacheMappedPageCount ;;
    if MappedPageCount =? 0 then ret (false, FreeVirtualPages)
    else ret (true, match FreeVirtualPages with
                    | Some _ => Some FreePages
                    | None => None
                    end).

(** The result carries the status and what the VirtualAddress pointer
    receives. *)
Definition IopRemovePageCacheEntryVirtualAddress (Entry_ : nat)
    : M (KSTATUS * Z) :=
  x <- Entry Entry_ ;;
  if negb (ReferenceCount x =? 1)
     || FlagSet (Flags x) PAGE_CACHE_ENTRY_FLAG_DIRTY
  then ret (STATUS_RESOURCE_IN_USE, 0)
  else
    r <- (if FlagSet (Flags x) PAGE_CACHE_ENTRY_FLAG_PAGE_OWNER then
            OldFlags <- RtlAtomicAnd32 Entry_
                          (ULONG_NOT PAGE_CACHE_ENTRY_FLAG_MAPPED) ;;
            ret (Some (OldFlags, None))
          else
            BackingEntry_ <- Pointer (BackingEntry x) ;;
            b <- Entry BackingEntry_ ;;
            if negb (ReferenceCount b =? 1)
               || FlagSet (Flags b) PAGE_CACHE_ENTRY_FLAG_DIRTY
            then ret None
            else
              OldFlags <- RtlAtomicAnd32 BackingEntry_
                            (ULONG_NOT PAGE_CACHE_ENTRY_FLAG_MAPPED) ;;
              ret (Some (OldFlags, Some BackingEntry_))) ;;
    match r with
    | None => ret (STATUS_RESOURCE_IN_USE, 0)
    | Some (OldFlags, BackingEntry_) =>
        if FlagSet OldFlags PAGE_CACHE_ENTRY_FLAG_MAPPED then
          VirtualAddress_ <-
            (match BackingEntry_ with
             | Some b =>
                 y <- Entry b ;;
                 UpdateEntry b (set_VirtualAddress 0) ;;
                 ret (VirtualAddress y)
             | None =>
                 y <- Entry Entry_ ;;
                 ret (VirtualAddress y)
             end) ;;
          UpdateEntry Entry_ (set_VirtualAddress 0) ;;
          when (FlagSet OldFlags PAGE_CACHE_ENTRY_FLAG_DIRTY)
               (RtlAtomicAdd IoPageCacheMappedDirtyPageCount MAX_UINTN) ;;
          ret (STATUS_SUCCESS, VirtualAddress_)
        else ret (STATUS_SUCCESS, 0)
    end.

(** The local variables of the loop of IopTrimPageCacheVirtual. *)
Record UNMAP_LOCALS := {
  UnmapStart : Z;
  UnmapSize : Z;
  UnmapCount : Z
}.

Section TrimVirtual.

Variables (TimidEffort : bool) (TargetUnmapCount : Z).

(** One iteration of the loop of IopTrimPageCacheVirtual; nothing when the
    loop is over. *)
Definition UnmapLoopBody (l : UNMAP_LOCALS) : M (option UNMAP_LOCALS) :=
  First <- LIST_FIRST IoPageCacheCleanList ;;
  Level <- gets (fun s => MmGetVirtualMemoryWarningLevel K (Trace s)) ;;
  match First with
  | None => ret None
  | Some PageCacheEntry =>
      if negb (negb (TargetUnmapCount =? UnmapCount l)
               || negb (bool_decide (Level = MemoryWarningLevelNone)))
      then ret None
      else
        x <- Entry PageCacheEntry ;;
        (* skip over all page cache entries with references *)
        if negb (ReferenceCount x =? 0) then
          LIST_REMOVE PageCacheEntry ;;
          UpdateEntry PageCacheEntry (set_ListEntryNext false) ;;
          x <- Entry PageCacheEntry ;;
          when (ReferenceCount x =? 0)
               (INSERT_BEFORE PageCacheEntry IoPageCacheCleanList) ;;
          ret (Some l)
        else if FlagSet (Flags x) PAGE_CACHE_ENTRY_FLAG_DIRTY then
          LIST_REMOVE PageCacheEntry ;;
          UpdateEntry PageCacheEntry (set_ListEntryNext false) ;;
          ret (Some l)
        (* not mapped: move it over to the clean unmapped list *)
        else if VirtualAddress x =? 0 then
          LIST_REMOVE PageCacheEntry ;;
          INSERT_BEFORE PageCacheEntry IoPageCacheCleanUnmappedList ;;
          ret (Some l)
        else
          let FileObject_ := FileObject x in
          Acquired <-
            (if TimidEffort then
               a <- gets (fun s => KeTryToAcquireSharedExclusiveLockExclusive K
                                     (Trace s) FileObject_) ;;
               Emit (EvTryToAcquireLock FileObject_ a) ;;
               ret a
             else ret true) ;;
          if negb Acquired then
            LIST_REMOVE PageCacheEntry ;;
            INSERT_BEFORE PageCacheEntry ReturnList ;;
            ret (Some l)
          else
            IoPageCacheEntryAddReference PageCacheEntry ;;
            r <- IopRemovePageCacheEntryVirtualAddress PageCacheEntry ;;
            let VirtualAddress_ := snd r in
            l <- (if negb (VirtualAddress_ =? 0) then
                    let UnmapCount_ := uintn (UnmapCount l + 1) in
                    (* not contiguous with the previous run: unmap that *)
                    l <- (if negb (UnmapStart l =? 0)
                             && negb (VirtualAddress_
                                      =? uintn (UnmapStart l + UnmapSize l))
                          then
                            Emit (EvUnmapAddress (UnmapStart l) (UnmapSize l)) ;;
                            ret {| UnmapStart := 0; UnmapSize := 0;
                                   UnmapCount := UnmapCount_ |}
                          else ret {| UnmapStart := UnmapStart l;
                                      UnmapSize := UnmapSize l;
                                      UnmapCount := UnmapCount_ |}) ;;
                    ret {| UnmapStart := if UnmapStart l =? 0
                                         then VirtualAddress_ else UnmapStart l;
                           UnmapSize := uintn (UnmapSize l + MmPageSize K);
                           UnmapCount := UnmapCount l |}
                  else ret l) ;;
            x <- Entry PageCacheEntry ;;
            when (negb (FlagSet (Flags x) PAGE_CACHE_ENTRY_FLAG_DIRTY))
                 (when (ListEntryNext x) (LIST_REMOVE PageCacheEntry) ;;
                  INSERT_BEFORE PageCacheEntry IoPageCacheCleanUnmappedList) ;;
            IoPageCacheEntryReleaseReference PageCacheEntry ;;
            ret (Some l)
  end.

Fixpoint UnmapLoop (fuel : nat) (l : UNMAP_LOCALS) : M UNMAP_LOCALS :=
  match fuel with
  | O => fault
  | S fuel =>
      r <- UnmapLoopBody l ;;
      match r with
      | Some l => UnmapLoop fuel l
      | None => ret l
      end
  end.

End TrimVirtual.

Definition IopTrimPageCacheVirtual (fuel : nat) (TimidEffort : bool) : M unit :=
  Empty <- LIST_EMPTY IoPageCacheCleanList ;;
  if Empty then ret tt
  else
    r <- IopIsPageCacheTooMapped (Some MAX_UINTN) ;;
    if negb (fst r) then ret tt
    else
      let FreeVirtualPages := match snd r with Some v => v | None => MAX_UINTN end in
      INITIALIZE_LIST_HEAD ReturnList ;;
      VirtualPagesRetreat <- Global IoPageCacheHeadroomVirtualPagesRetreat ;;
      VirtualPagesTrigger <- Global IoPageCacheHeadroomVirtualPagesTrigger ;;
      let TargetUnmapCount :=
        if FreeVirtualPages <? VirtualPagesRetreat
        then uintn (VirtualPagesRetreat - FreeVirtualPages) else 0 in
      MappedPageCount <- Global IoPageCacheMappedPageCount ;;
      MappedDirtyPageCount <- Global IoPageCacheMappedDirtyPageCount ;;
      let MappedCleanPageCount := uintn (MappedPageCount - MappedDirtyPageCount) in
      let TargetUnmapCount :=
        if TargetUnmapCount >? MappedCleanPageCount
        then MappedCleanPageCount else TargetUnmapCount in
      Level <- gets (fun s => MmGetVirtualMemoryWarningLevel K (Trace s)) ;;
      if (TargetUnmapCount =? 0) && bool_decide (Level = MemoryWarningLevelNone)
      then ret tt
      else
        let TargetUnmapCount :=
          if TargetUnmapCount =? 0
          then uintn (VirtualPagesRetreat - VirtualPagesTrigger)
          else TargetUnmapCount in
        l <- UnmapLoop TimidEffort TargetUnmapCount fuel
               {| UnmapStart := 0; UnmapSize := 0; UnmapCount := 0 |} ;;
        (* put the entries whose locks could not be acquired back *)
        Empty <- LIST_EMPTY ReturnList ;;
        when (negb Empty) (APPEND_LIST ReturnList IoPageCacheCleanList) ;;
        when (negb (UnmapStart l =? 0))
             (Emit (EvUnmapAddress (UnmapStart l) (UnmapSize l))) ;;
        when (negb (UnmapCount l =? 0))
             (RtlAtomicAdd IoPageCacheMappedPageCount (- UnmapCount l)).

(** The target IopTrimPageCache computes once the page cache is found too
    big. *)
Definition TrimTargetRemoveCount (FreePhysicalPages : Z) : M Z :=
  Retreat <- Global IoPageCacheHeadroomPagesRetreat ;;
  let TargetRemoveCount := uintn (Retreat - FreePhysicalPages) in
  PhysicalPageCount <- Global IoPageCachePhysicalPageCount ;;
  let TargetRemoveCount :=
    if TargetRemoveCount >? PhysicalPageCount then PhysicalPageCount
    else TargetRemoveCount in
  MinimumPages <- Global IoPageCacheMinimumPages ;;
  ret (if uintn (PhysicalPageCount - TargetRemoveCount) <? MinimumPages
       then uintn (PhysicalPageCount - MinimumPages)
       else TargetRemoveCount).

(** The eviction part of IopTrimPageCache, up to the label
    TrimPageCacheEnd.  It gives back what is left of the target and the
    number of free physical pages seen. *)
Definition TrimPageCacheEvict (fuel : nat) (TimidEffort : bool) : M (Z * Z) :=
  r <- IopIsPageCacheTooBig (Some MAX_UINTN) ;;
  let FreePhysicalPages := match snd r with Some v => v | None => MAX_UINTN end in
  if negb (fst r) then ret (0, FreePhysicalPages)
  else
    TargetRemoveCount <- TrimTargetRemoveCount FreePhysicalPages ;;
    INITIALIZE_LIST_HEAD DestroyListHead ;;
    Empty <- LIST_EMPTY IoPageCacheCleanUnmappedList ;;
    TargetRemoveCount <-
      (if negb Empty then
         t <- IopRemovePageCacheEntriesFromList DestroyListHead TimidEffort fuel
                IoPageCacheCleanUnmappedList (Some TargetRemoveCount) ;;
         ret (match t with Some v => v | None => TargetRemoveCount end)
       else ret TargetRemoveCount) ;;
    TargetRemoveCount <-
      (if negb (TargetRemoveCount =? 0) then
         t <- IopRemovePageCacheEntriesFromList DestroyListHead TimidEffort fuel
                IoPageCacheCleanList (Some TargetRemoveCount) ;;
         ret (match t with Some v => v | None => TargetRemoveCount end)
       else ret TargetRemoveCount) ;;
    (* destroy the evicted page cache entries *)
    IopDestroyPageCacheEntries fuel DestroyListHead ;;
    ret (TargetRemoveCount, FreePhysicalPages).

Definition IopTrimPageCache (fuel : nat) (TimidEffort : bool) : M unit :=
  r <- TrimPageCacheEvict fuel TimidEffort ;;
  let '(TargetRemoveCount, FreePhysicalPages) := r in
  (* also unmap things if there is too much virtual memory pressure *)
  IopTrimPageCacheVirtual fuel TimidEffort ;;
  (* smaller than its target: ask MM to page out some things *)
  PhysicalPageCount <- Global IoPageCachePhysicalPageCount ;;
  MinimumPagesTarget <- Global IoPageCacheMinimumPagesTarget ;;
  if negb (TargetRemoveCount =? 0) && (PhysicalPageCount <? MinimumPagesTarget)
  then
    let PageOutCount := uintn (MinimumPagesTarget - PhysicalPageCount) in
    let FreePageTarget := uintn (FreePhysicalPages + PageOutCount) in
    Emit (EvRequestPagingOut FreePageTarget)
  else ret tt.

End Routines.

Arguments Continue {A} l.
Arguments Break {A} l.
Arguments GotoEnd {A} Status l.

(** ** Concrete machines and page caches

    The data of the scenarios the properties below are tried on: a 32-bit
    machine with pages of 4096 bytes whose collaborators always succeed. *)

Definition TestKernel : KERNEL := {|
  UINTN_BITS := 32;
  MmPageShift := 12;
  MmPageSize := 4096;
  MmGetTotalPhysicalPages := 1000;
  MmGetTotalVirtualMemory := 0x100000000;
  MmGetTotalFreePhysicalPages := fun _ => 50;
  MmGetFreeVirtualMemory := fun _ => 0x80000000;
  MmGetVirtualMemoryWarningLevel := fun _ => MemoryWarningLevelNone;
  MmUnmapImageSectionList := fun _ _ _ => (STATUS_SUCCESS, false);
  MmAllocateUninitializedIoBuffer := fun _ => true;
  IopPerformNonCachedWrite := fun _ _ _ _ Size _ => (STATUS_SUCCESS, Size);
  IopSynchronizeBlockDevice := fun _ _ => STATUS_SUCCESS;
  KeTryToAcquireSharedExclusiveLockExclusive := fun _ _ => true;
  KeGetCurrentThreadIsPageCacheThread := false;
  IO_FLAG_DATA_SYNCHRONIZED := 0x10;
  INVALID_PHYSICAL_ADDRESS := 0;
  KeCreateQueuedLock := true;
  KeCreateTimer := true;
  MmCreateBlockAllocator := true;
  PsCreateKernelThread := STATUS_SUCCESS
|}.

(** The same machine with other answers from MM and from the write path. *)
Definition TestKernelWith (FreePhysicalPages : Z)
    (Write : list EVENT -> nat -> list nat -> Z -> Z -> Z -> KSTATUS * Z)
    : KERNEL := {|
  UINTN_BITS := 32;
  MmPageShift := 12;
  MmPageSize := 4096;
  MmGetTotalPhysicalPages := 1000;
  MmGetTotalVirtualMemory := 0x100000000;
  MmGetTotalFreePhysicalPages := fun _ => FreePhysicalPages;
  MmGetFreeVirtualMemory := fun _ => 0x80000000;
  MmGetVirtualMemoryWarningLevel := fun _ => MemoryWarningLevelNone;
  MmUnmapImageSectionList := fun _ _ _ => (STATUS_SUCCESS, false);
  MmAllocateUninitializedIoBuffer := fun _ => true;
  IopPerformNonCachedWrite := Write;
  IopSynchronizeBlockDevice := fun _ _ => STATUS_SUCCESS;
  KeTryToAcquireSharedExclusiveLockExclusive := fun _ _ => true;
  KeGetCurrentThreadIsPageCacheThread := false;
  IO_FLAG_DATA_SYNCHRONIZED := 0x10;
  INVALID_PHYSICAL_ADDRESS := 0;
  KeCreateQueuedLock := true;
  KeCreateTimer := true;
  MmCreateBlockAllocator := true;
  PsCreateKernelThread := STATUS_SUCCESS
|}.

(** The same machine when the running thread is the page cache thread. *)
Definition WorkerKernel (FreePhysicalPages : Z)
    (Write : list EVENT -> nat -> list nat -> Z -> Z -> Z -> KSTATUS * Z)
    : KERNEL := {|
  UINTN_BITS := 32;
  MmPageShift := 12;
  MmPageSize := 4096;
  MmGetTotalPhysicalPages := 1000;
  MmGetTotalVirtualMemory := 0x100000000;
  MmGetTotalFreePhysicalPages := fun _ => FreePhysicalPages;
  MmGetFreeVirtualMemory := fun _ => 0x80000000;
  MmGetVirtualMemoryWarningLevel := fun _ => MemoryWarningLevelNone;
  MmUnmapImageSectionList := fun _ _ _ => (STATUS_SUCCESS, false);
  MmAllocateUninitializedIoBuffer := fun _ => true;
  IopPerformNonCachedWrite := Write;
  IopSynchronizeBlockDevice := fun _ _ => STATUS_SUCCESS;
  KeTryToAcquireSharedExclusiveLockExclusive := fun _ _ => true;
  KeGetCurrentThreadIsPageCacheThread := true;
  IO_FLAG_DATA_SYNCHRONIZED := 0x10;
  INVALID_PHYSICAL_ADDRESS := 0;
  KeCreateQueuedLock := true;
  KeCreateTimer := true;
  MmCreateBlockAllocator := true;
  PsCreateKernelThread := STATUS_SUCCESS
|}.

(** An entry of file object [File] at [EntryOffset] that is in the tree and
    on a list. *)
Definition TestEntry (File : nat) (EntryOffset : Z) (EntryFlags : Z)
    (Backing : option nat) (References : Z) (Address : Z) : PAGE_CACHE_ENTRY := {|
  NodeParent := true; ListEntryNext := true; FileObject := File;
  Offset := EntryOffset; PhysicalAddress := 0x100000 + EntryOffset;
  VirtualAddress := Address; BackingEntry := Backing;
  ReferenceCount := References; Flags := EntryFlags
|}.

Definition TestFile (Type_ : IO_OBJECT_TYPE) (Size : Z) (Dirty : bool)
    (Tree : list nat) : FILE_OBJECT := {|
  PropertiesType := Type_; PropertiesFileSize := Size;
  FILE_OBJECT_FLAG_DIRTY_DATA := Dirty; HasImageSectionList := false;
  PageCacheTree := Tree
|}.

Definition NoLists : LIST_HEAD -> list nat := fun _ => [].
Definition NoGlobals : UINTN_GLOBAL -> Z := fun _ => 0.

(** The thresholds of a machine of 1000 physical pages. *)
Definition TestLimits (PhysicalPageCount DirtyPageCount : Z) : UINTN_GLOBAL -> Z :=
  <[IoPageCachePhysicalPageCount := PhysicalPageCount]>
  (<[IoPageCacheDirtyPageCount := DirtyPageCount]>
  (<[IoPageCacheHeadroomPagesRetreat := 150]>
  (<[IoPageCacheHeadroomPagesTrigger := 100]>
  (<[IoPageCacheMinimumPagesTarget := 330]>
  (<[IoPageCacheMinimumPages := 70]> NoGlobals))))).

(** A linked pair: entry 0 belongs to block device 0 and owns the page,
    entry 1 belongs to regular file 1 and is backed by entry 0. *)
Definition LinkedPair (LowerFlags : Z) : PAGE_CACHE := {|
  Entries := {[ 0%nat := TestEntry 0 0 LowerFlags None 1 0x7000;
                1%nat := TestEntry 1 0 0 (Some 0%nat) 1 0x7000 ]};
  FileObjects := {[ 0%nat := TestFile IoObjectBlockDevice 0x100000 false [0%nat];
                    1%nat := TestFile IoObjectRegularFile 0x1000 false [1%nat] ]};
  Lists := <[IoPageCacheCleanList := [0%nat; 1%nat]]> NoLists;
  Globals := TestLimits 1 0;
  IoPageCacheDisableVirtualAddresses := false;
  Trace := []
|}.

(** Two independent owners: entry 0 of block device 0 with two references
    and entry 1 of regular file 1. *)
Definition UnlinkedPair : PAGE_CACHE := {|
  Entries := {[ 0%nat := TestEntry 0 0 2 None 2 0;
                1%nat := TestEntry 1 0 2 None 1 0 ]};
  FileObjects := {[ 0%nat := TestFile IoObjectBlockDevice 0x100000 false [0%nat];
                    1%nat := TestFile IoObjectRegularFile 0x1000 false [1%nat] ]};
  Lists := NoLists;
  Globals := TestLimits 2 0;
  IoPageCacheDisableVirtualAddresses := false;
  Trace := []
|}.

(** One file whose pages are cached at the given page indices, the dirty
    ones being on the dirty list in that order. *)
Definition FilePages (Pages Dirty : list nat) : PAGE_CACHE := {|
  Entries :=
    list_to_map
      (map (fun i => (i, TestEntry 1 (Z.of_nat i * 4096)
                           (if bool_decide (i ∈ Dirty) then 3 else 2)
                           None 0 0)) Pages);
  FileObjects := {[ 1%nat := TestFile IoObjectRegularFile (64 * 4096) true Pages ]};
  Lists := <[DirtyPageList 1 := Dirty]>
           (<[IoPageCacheCleanList :=
                filter (fun i => i ∉ Dirty) Pages]> NoLists);
  Globals := TestLimits (Z.of_nat (length Pages)) (Z.of_nat (length Dirty));
  IoPageCacheDisableVirtualAddresses := false;
  Trace := []
|}.

(** Three pages of a file, the last of them dirty. *)
Definition LastPageDirty : PAGE_CACHE :=
  FilePages [0%nat; 1%nat; 2%nat] [2%nat].

(** The same three pages with the dirty one taken off its list: its
    [Next] pointer is NULL. *)
Definition LastPageUnlisted : PAGE_CACHE :=
  with_Lists (fun L => <[DirtyPageList 1 := []]> L)
    (with_Entries
       (fun E => <[2%nat := set_ListEntryNext false
                              (TestEntry 1 (2 * 4096) 3 None 0 0)]> E)
       LastPageDirty).

(** A page cache of no entries with the thresholds of the machine of 1000
    pages. *)
Definition EmptyCache (PhysicalPageCount DirtyPageCount : Z) : PAGE_CACHE := {|
  Entries := ∅; FileObjects := ∅; Lists := NoLists;
  Globals := TestLimits PhysicalPageCount DirtyPageCount;
  IoPageCacheDisableVirtualAddresses := false; Trace := []
|}.

(** A write path that writes all it is asked to. *)
Definition WriteAll : list EVENT -> nat -> list nat -> Z -> Z -> Z -> KSTATUS * Z :=
  fun _ _ _ _ Size _ => (STATUS_SUCCESS, Size).

(** A write path that fails every request with an error that tells the
    page the request starts at. *)
Definition FailingWrite : list EVENT -> nat -> list nat -> Z -> Z -> Z -> KSTATUS * Z :=
  fun _ _ _ IoOffset _ _ => (STATUS_TRANSPORT (IoOffset / 4096 + 1), 0).

(** A write path that fails every request although all bytes went out. *)
Definition FailingCompleteWrite
    : list EVENT -> nat -> list nat -> Z -> Z -> Z -> KSTATUS * Z :=
  fun _ _ _ _ Size _ => (STATUS_TRANSPORT 5, Size).

(** A write path that writes the first page only. *)
Definition ShortWrite : list EVENT -> nat -> list nat -> Z -> Z -> Z -> KSTATUS * Z :=
  fun _ _ _ _ _ _ => (STATUS_SUCCESS, 4096).

(** Pages 0 and 5 of a file, both dirty. *)
Definition TwoDirtyPages : PAGE_CACHE :=
  FilePages [0%nat; 5%nat] [0%nat; 5%nat].

(** The same two pages in a page cache of 500 physical pages. *)
Definition TwoDirtyPagesOfMany : PAGE_CACHE :=
  with_Globals (fun G => <[IoPageCachePhysicalPageCount := 500]> G)
    TwoDirtyPages.

(** One page of a file, dirty. *)
Definition OneDirtyPage : PAGE_CACHE := FilePages [0%nat] [0%nat].

(** Pages 0 to 7 of a file are cached, pages 0, 2, 3 and 7 are dirty. *)
Definition EightPages : PAGE_CACHE :=
  FilePages [0%nat; 1%nat; 2%nat; 3%nat; 4%nat; 5%nat; 6%nat; 7%nat]
            [0%nat; 2%nat; 3%nat; 7%nat].

(** The same without pages 4 to 6: pages 0 to 3 and 7 are cached. *)
Definition FivePages : PAGE_CACHE :=
  FilePages [0%nat; 1%nat; 2%nat; 3%nat; 7%nat] [0%nat; 2%nat; 3%nat; 7%nat].

(** Pages 0 to 3 of a file, page 1 dirty. *)
Definition FourPages : PAGE_CACHE :=
  FilePages [0%nat; 1%nat; 2%nat; 3%nat] [1%nat].

(** Pages 0 to 31 of a file, all dirty but the last: a buffer of the
    maximum flush size. *)
Definition ThirtyTwoPages : PAGE_CACHE := FilePages (seq 0 32) (seq 0 31).

(** The write requests of a trace, oldest first: the file, the offset and
    the size of each. *)
Definition WritesOf (Events : list EVENT) : list (nat * Z * Z) :=
  rev (omap (fun ev => match ev with
                       | EvNonCachedWrite f _ o sz _ _ _ => Some (f, o, sz)
                       | _ => None
                       end) Events).

(** The locals of the flush loop after page 0 was put in the buffer. *)
Definition OnePagePending : FLUSH_LOCALS := {|
  Node := Some 0%nat; FlushBuffer := [0%nat]; FlushSize := 4096;
  FlushNextOffset := 4096; CleanStreak := 0; PagesFlushed := 1;
  TotalStatus := STATUS_SUCCESS; BytesFlushed := false
|}.

(** A page cache of clean page owners without references, the first
    [Unmapped] of them on the clean unmapped list and the next [Clean] on
    the clean list, with the thresholds of the machine of 1000 pages. *)
Definition CleanOwners (Unmapped Clean : nat) : PAGE_CACHE := {|
  Entries :=
    list_to_map
      (map (fun i => (i, TestEntry 1 (Z.of_nat i * 4096) 2 None 0 0))
           (seq 0 (Unmapped + Clean)));
  FileObjects :=
    {[ 1%nat := TestFile IoObjectRegularFile (1024 * 4096) false
                  (seq 0 (Unmapped + Clean)) ]};
  Lists := <[IoPageCacheCleanUnmappedList := seq 0 Unmapped]>
           (<[IoPageCacheCleanList := seq Unmapped Clean]> NoLists);
  Globals := TestLimits (Z.of_nat (Unmapped + Clean)) 0;
  IoPageCacheDisableVirtualAddresses := false;
  Trace := []
|}.

(** The locals after pages 0 and 1 were put in the buffer, the second of
    them clean. *)
Definition TwoPagesPending : FLUSH_LOCALS := {|
  Node := Some 1%nat; FlushBuffer := [0%nat; 1%nat]; FlushSize := 2 * 4096;
  FlushNextOffset := 2 * 4096; CleanStreak := 1; PagesFlushed := 2;
  TotalStatus := STATUS_SUCCESS; BytesFlushed := false
|}.

(** The locals after pages 1, 2 and 3 were put in the buffer, the last two
    of them clean. *)
Definition StreakPending : FLUSH_LOCALS := {|
  Node := Some 3%nat; FlushBuffer := [1%nat; 2%nat; 3%nat];
  FlushSize := 3 * 4096; FlushNextOffset := 4 * 4096; CleanStreak := 2;
  PagesFlushed := 3; TotalStatus := STATUS_SUCCESS; BytesFlushed := false
|}.

(** One clean page owner moved from the clean list to the local list of a
    removal. *)
Definition OneOwnerLocal : PAGE_CACHE :=
  with_Lists (fun L => <[IoPageCacheCleanList := []]>
                       (<[LocalList := L IoPageCacheCleanList]> L))
    (CleanOwners 0 1).

(** One dirty page of a file whose file object is not flagged dirty. *)
Definition OnePageCleanFile : PAGE_CACHE :=
  with_FileObjects (fun m => set_DIRTY_DATA false <$> m)
    (FilePages [0%nat] [0%nat]).

(** Three dirty pages of a file whose file object is not flagged dirty. *)
Definition ThreePagesCleanFile : PAGE_CACHE :=
  with_FileObjects (fun m => set_DIRTY_DATA false <$> m)
    (FilePages [0%nat; 1%nat; 2%nat] [0%nat; 1%nat; 2%nat]).

(** ** Notions the properties are stated with *)

(** The write requests of a trace with what became of them, most recent
    first: file, offset, size, status and bytes completed. *)
Definition WriteRequest (ev : EVENT) : option (nat * Z * Z * KSTATUS * Z) :=
  match ev with
  | EvNonCachedWrite f _ o sz _ Status Completed =>
      Some (f, o, sz, Status, Completed)
  | _ => None
  end.

Definition WriteRequests (Events : list EVENT)
    : list (nat * Z * Z * KSTATUS * Z) :=
  omap WriteRequest Events.

(** The routine keeps the relation between the page cache it starts from
    and the one it ends in. *)
Definition Keeps {A} (R : relation PAGE_CACHE) (m : M A) : Prop :=
  forall s a s', m s = Some (a, s') -> R s s'.

(** The routine returns from the page cache: it does not fault or run out
    of fuel. *)
Definition Returns {A} (m : M A) (s : PAGE_CACHE) : Prop :=
  exists a s', m s = Some (a, s').

(** A dirty entry is on a list: the dirty list of its file object, or the
    local list of the flush that took it from there. *)
Definition DirtyListed (x : PAGE_CACHE_ENTRY) : Prop :=
  FlagSet (Flags x) PAGE_CACHE_ENTRY_FLAG_DIRTY = true -> ListEntryNext x = true.

(** An entry the page cache can work on: it is there with its file object,
    if it is dirty it is on a list, and if it does not own its page it is
    backed by a page owner that is there with its file object. *)
Definition EntryWellFormed (s : PAGE_CACHE) (e : nat) : Prop :=
  exists x,
    Entries s !! e = Some x
    /\ is_Some (FileObjects s !! FileObject x)
    /\ DirtyListed x
    /\ (FlagSet (Flags x) PAGE_CACHE_ENTRY_FLAG_PAGE_OWNER = false ->
        exists b y,
          BackingEntry x = Some b /\ Entries s !! b = Some y
          /\ FlagSet (Flags y) PAGE_CACHE_ENTRY_FLAG_PAGE_OWNER = true
          /\ is_Some (FileObjects s !! FileObject y)).

(** The status a flush makes of the answer of the non-cached write path. *)
Definition WriteStatus (Status : KSTATUS) (BytesCompleted SizeInBytes : Z)
    : KSTATUS :=
  if negb (KSUCCESS Status) then Status
  else if negb (BytesCompleted =? SizeInBytes) then STATUS_DATA_LENGTH_MISMATCH
  else STATUS_SUCCESS.

(** The outcomes of the writes and device synchronizations of a trace, most
    recent first. *)
Definition IoResult (ev : EVENT) : option KSTATUS :=
  match ev with
  | EvNonCachedWrite _ _ _ Size _ Status Completed =>
      Some (WriteStatus Status Completed Size)
  | EvSynchronizeBlockDevice _ Status => Some Status
  | _ => None
  end.

Definition IoResults (Events : list EVENT) : list KSTATUS := omap IoResult Events.

(** The most recent failure among outcomes listed most recent first. *)
Fixpoint LastFailure (Results : list KSTATUS) : KSTATUS :=
  match Results with
  | [] => STATUS_SUCCESS
  | r :: rest => if KSUCCESS r then LastFailure rest else r
  end.

(** The oldest failure among outcomes listed most recent first. *)
Definition FirstFailure (Results : list KSTATUS) : KSTATUS :=
  LastFailure (rev Results).

(** The number of physical pages given back to MM in a trace. *)
Fixpoint FreedPages (Events : list EVENT) : Z :=
  match Events with
  | [] => 0
  | EvFreePhysicalPage _ :: rest => 1 + FreedPages rest
  | _ :: rest => FreedPages rest
  end.

(** Whether an entry is a page owner, is dirty. *)
Definition OwnerBit (s : PAGE_CACHE) (e : nat) : bool :=
  match Entries s !! e with
  | Some x => FlagSet (Flags x) PAGE_CACHE_ENTRY_FLAG_PAGE_OWNER
  | None => false
  end.

Definition DirtyBit (s : PAGE_CACHE) (e : nat) : bool :=
  match Entries s !! e with
  | Some x => FlagSet (Flags x) PAGE_CACHE_ENTRY_FLAG_DIRTY
  | None => false
  end.

(** The entry that carries the dirty flag for an entry: itself if it owns
    its page, its backing entry otherwise. *)
Definition DirtyTarget (s : PAGE_CACHE) (e : nat) : option nat :=
  match Entries s !! e with
  | Some x => if FlagSet (Flags x) PAGE_CACHE_ENTRY_FLAG_PAGE_OWNER then Some e
              else BackingEntry x
  | None => None
  end.

(** *** Callers racing to mark an entry clean *)

(** Whether the caller at a point holds the token: the atomic operation
    gave it flags with the dirty flag set, so it is the one that took the
    entry from dirty to clean. *)
Definition MarkCleanToken (Point : MARK_CLEAN_POINT) : nat :=
  match Point with
  | MarkCleanCleared _ | MarkCleanCounted _ | MarkCleanListLock
  | MarkCleanReturned true => 1
  | _ => 0
  end.

(** Whether the caller at a point holds the token and has not been through
    the list manipulation yet. *)
Definition MarkCleanPending (Point : MARK_CLEAN_POINT) : nat :=
  match Point with
  | MarkCleanCleared _ | MarkCleanCounted _ | MarkCleanListLock => 1
  | _ => 0
  end.

(** Whether the caller at a point has taken the entry off the dirty page
    count. *)
Definition MarkCleanCounts (Point : MARK_CLEAN_POINT) : nat :=
  match Point with
  | MarkCleanCounted _ | MarkCleanListLock | MarkCleanReturned true => 1
  | _ => 0
  end.

(** Whether the caller at a point has returned TRUE. *)
Definition MarkCleanTrue (Point : MARK_CLEAN_POINT) : nat :=
  match Point with
  | MarkCleanReturned true => 1
  | _ => 0
  end.

(** The number of callers a count of points holds for. *)
Definition MarkCleanSum (f : MARK_CLEAN_POINT -> nat)
    (Callers : list (bool * MARK_CLEAN_POINT)) : nat :=
  sum_list_with (fun c => f (snd c)) Callers.

(** Whether a caller has not got to the atomic operation yet. *)
Definition MarkCleanBefore (Point : MARK_CLEAN_POINT) : Prop :=
  Point = MarkCleanEntered \/ Point = MarkCleanChecked.

(** What holds of the callers racing on the entry [e] and of the page
    cache they have brought about from the page cache [s0]: the token is in
    the dirty flag or with one caller; while the flag is set no caller is
    past the atomic operation; the entry is on a list as long as the list
    manipulation is still to come; and the dirty page count has gone down
    once for each caller that took the entry off it. *)
Definition MarkCleanInv (K : KERNEL) (e : nat) (s0 : PAGE_CACHE)
    (Callers : list (bool * MARK_CLEAN_POINT)) (s : PAGE_CACHE) : Prop :=
  exists x,
    Entries s !! e = Some x
    /\ (MarkCleanSum MarkCleanToken Callers
        + (if DirtyBit s e then 1 else 0)
        = (if DirtyBit s0 e then 1 else 0))%nat
    /\ (DirtyBit s e = true ->
        forall c, c ∈ Callers -> MarkCleanBefore (snd c))
    /\ ((0 < MarkCleanSum MarkCleanPending Callers)%nat
        \/ DirtyBit s e = true -> ListEntryNext x = true)
    /\ Globals s IoPageCacheDirtyPageCount
       = Nat.iter (MarkCleanSum MarkCleanCounts Callers)
           (fun v => uintn K (v - 1))
           (Globals s0 IoPageCacheDirtyPageCount).

(** *** What a routine leaves alone *)

(** The outcomes of the writes and synchronizations so far are kept. *)
Definition ResultsKept : relation PAGE_CACHE :=
  fun s s' => IoResults (Trace s') = IoResults (Trace s).

(** No write request is made. *)
Definition WritesKept : relation PAGE_CACHE :=
  fun s s' => WriteRequests (Trace s') = WriteRequests (Trace s).

(** The requests to page out of a trace, most recent first: the free page
    target of each. *)
Definition PagingOutRequest (ev : EVENT) : option Z :=
  match ev with
  | EvRequestPagingOut FreePageTarget => Some FreePageTarget
  | _ => None
  end.

Definition PagingOutRequests (Events : list EVENT) : list Z :=
  omap PagingOutRequest Events.

(** No request to page out is made. *)
Definition PagingKept : relation PAGE_CACHE :=
  fun s s' => PagingOutRequests (Trace s') = PagingOutRequests (Trace s).

(** The number of page owners on a list, as the page cache has them. *)
Fixpoint CountOwners (s : PAGE_CACHE) (l : list nat) : Z :=
  match l with
  | [] => 0
  | e :: rest => (if OwnerBit s e then 1 else 0) + CountOwners s rest
  end.

(** No external call is made. *)
Definition TraceKept : relation PAGE_CACHE :=
  fun s s' => Trace s' = Trace s.

(** No physical page is given back and the physical page count is kept. *)
Definition PagesKept : relation PAGE_CACHE :=
  fun s s' =>
    Globals s' IoPageCachePhysicalPageCount = Globals s IoPageCachePhysicalPageCount
    /\ FreedPages (Trace s') = FreedPages (Trace s).

(** The entries stay where they are, with their file object, offset,
    backing entry and ownership; no entry appears; the file objects stay. *)
Definition ShapeKept : relation PAGE_CACHE :=
  fun s s' =>
    (forall e x, Entries s !! e = Some x ->
       exists x', Entries s' !! e = Some x'
                  /\ FileObject x' = FileObject x
                  /\ Offset x' = Offset x
                  /\ BackingEntry x' = BackingEntry x
                  /\ FlagSet (Flags x') PAGE_CACHE_ENTRY_FLAG_PAGE_OWNER
                     = FlagSet (Flags x) PAGE_CACHE_ENTRY_FLAG_PAGE_OWNER)
    /\ (forall e, Entries s !! e = None -> Entries s' !! e = None)
    /\ (forall f, is_Some (FileObjects s !! f) -> is_Some (FileObjects s' !! f)).

(** No entry is written. *)
Definition EntriesKept : relation PAGE_CACHE :=
  fun s s' => Entries s' = Entries s.

(** The entries stay, and the dirty ones that were on a list are on a list. *)
Definition ListedKept : relation PAGE_CACHE :=
  fun s s' =>
    forall e x, Entries s !! e = Some x ->
      exists x', Entries s' !! e = Some x' /\ (DirtyListed x -> DirtyListed x').

(** The page an event puts in an I/O buffer. *)
Definition AppendedPage (ev : EVENT) : option nat :=
  match ev with
  | EvIoBufferAppendPage e => Some e
  | _ => None
  end.

(** The pages put in I/O buffers, the most recent first. *)
Definition AppendedPages (Events : list EVENT) : list nat :=
  omap AppendedPage Events.

(** No page is put in an I/O buffer. *)
Definition AppendsKept : relation PAGE_CACHE :=
  fun s s' => AppendedPages (Trace s') = AppendedPages (Trace s).

(** What is dirty stays dirty: entries and file objects. *)
Definition DirtyKept : relation PAGE_CACHE :=
  fun s s' =>
    (forall e, DirtyBit s e = true -> DirtyBit s' e = true)
    /\ (forall f v, FileObjects s !! f = Some v ->
          FILE_OBJECT_FLAG_DIRTY_DATA v = true ->
          exists v', FileObjects s' !! f = Some v'
                     /\ FILE_OBJECT_FLAG_DIRTY_DATA v' = true).

(** Nothing is put on the destroy list. *)
Definition DestroyShrinks : relation PAGE_CACHE :=
  fun s s' => sublist (Lists s' DestroyListHead) (Lists s DestroyListHead).

(** *** Relations that do not look at a part of the page cache *)

Class IgnoresEntries (R : relation PAGE_CACHE) : Prop :=
  ignores_entries : forall s g, R s (with_Entries g s).
Class IgnoresFileObjects (R : relation PAGE_CACHE) : Prop :=
  ignores_files : forall s g, R s (with_FileObjects g s).
Class IgnoresLists (R : relation PAGE_CACHE) : Prop :=
  ignores_lists : forall s g, R s (with_Lists g s).
Class IgnoresGlobals (R : relation PAGE_CACHE) : Prop :=
  ignores_globals : forall s g, R s (with_Globals g s).
Class IgnoresTrace (R : relation PAGE_CACHE) : Prop :=
  ignores_trace : forall s g, R s (with_Trace g s).

(** A field update that leaves the shape of an entry. *)
Definition ShapeSetter (f : PAGE_CACHE_ENTRY -> PAGE_CACHE_ENTRY) : Prop :=
  forall x, FileObject (f x) = FileObject x
            /\ Offset (f x) = Offset x
            /\ BackingEntry (f x) = BackingEntry x
            /\ FlagSet (Flags (f x)) PAGE_CACHE_ENTRY_FLAG_PAGE_OWNER
               = FlagSet (Flags x) PAGE_CACHE_ENTRY_FLAG_PAGE_OWNER.

(** The masks the flag atomics are used with outside of linking: they do
    not touch the owner flag. *)
Definition OwnerFreeMask (Mask : Z) : Prop :=
  Mask = PAGE_CACHE_ENTRY_FLAG_DIRTY \/ Mask = PAGE_CACHE_ENTRY_FLAG_MAPPED.

(** A field update that leaves the flags of an entry. *)
Definition FlagsSetter (f : PAGE_CACHE_ENTRY -> PAGE_CACHE_ENTRY) : Prop :=
  forall x, Flags (f x) = Flags x.

(** The locals an iteration of a loop ends with. *)
Definition LoopLocals {A} (r : LOOP A) : A :=
  match r with
  | Continue l => l
  | Break l => l
  | GotoEnd _ l => l
  end.

(** The total status of a flush is the most recent failure among the
    writes made since the page cache [s0]. *)
Definition FlushStatusInv (s0 : PAGE_CACHE) (l : FLUSH_LOCALS) (s : PAGE_CACHE)
    : Prop :=
  exists new, IoResults (Trace s) = new ++ IoResults (Trace s0)
              /\ TotalStatus l = LastFailure new.

(** At the start of an iteration of the flush loop under a page cap, the
    pending buffer is below the maximum, and it is empty only while nothing
    was processed yet or the pages processed are below the cap. *)
Definition FlushCapInv (Cap : Z) (l : FLUSH_LOCALS) : Prop :=
  0 <= FlushSize l < PAGE_CACHE_FLUSH_MAX
  /\ (FlushSize l = 0 -> PagesFlushed l = 0 \/ PagesFlushed l < Cap).

(** *** Termination of the flush *)

(** The tree and the size of every file object stay, and the entries stay
    in the tree they are in. *)
Definition TreeKept : relation PAGE_CACHE :=
  fun s s' =>
    (forall f v, FileObjects s !! f = Some v ->
       exists v', FileObjects s' !! f = Some v'
                  /\ PageCacheTree v' = PageCacheTree v
                  /\ PropertiesFileSize v' = PropertiesFileSize v)
    /\ (forall e x, Entries s !! e = Some x ->
          exists x', Entries s' !! e = Some x'
                     /\ NodeParent x' = NodeParent x).

(** Nothing is put on the local list of a flush, and what stays on it stays
    dirty. *)
Definition LocalKept : relation PAGE_CACHE :=
  fun s s' =>
    sublist (Lists s' LocalList) (Lists s LocalList)
    /\ forall e, e ∈ Lists s' LocalList ->
                 DirtyBit s e = true -> DirtyBit s' e = true.

(** A field update that leaves an entry in the tree it is in. *)
Definition NodeSetter (f : PAGE_CACHE_ENTRY -> PAGE_CACHE_ENTRY) : Prop :=
  forall x, NodeParent (f x) = NodeParent x.

(** A field update that leaves the tree and the size of a file object. *)
Definition TreeSetter (g : FILE_OBJECT -> FILE_OBJECT) : Prop :=
  forall v, PageCacheTree (g v) = PageCacheTree v
            /\ PropertiesFileSize (g v) = PropertiesFileSize v.

(** The number of nodes of a tree that come after a node. *)
Fixpoint TreeRank (Tree : list nat) (Node : nat) : nat :=
  match Tree with
  | [] => 0
  | x :: rest => if bool_decide (x = Node) then length rest
                 else TreeRank rest Node
  end.

Definition NodeRank (Tree : list nat) (Node : option nat) : nat :=
  match Node with
  | Some n => TreeRank Tree n
  | None => 0
  end.

(** What the flush of a whole file still has to do: two steps for each
    entry left on the local list, one of them done for its first entry once
    it is in the pending buffer. *)
Definition FlushPotential (Local Buffer : list nat) : nat :=
  match Local with
  | [] => 0
  | d :: rest => if bool_decide (d ∈ Buffer) then 2 * length rest + 1
                 else 2 * length rest + 2
  end.

(** The measure that goes down with every iteration of the flush loop. *)
Definition FlushMeasure (Tree : list nat) (s : PAGE_CACHE) (l : FLUSH_LOCALS)
    : nat :=
  FlushPotential (Lists s LocalList) (FlushBuffer l) * S (length Tree)
  + NodeRank Tree (Node l).

(** The iterations that are enough for the flush of a file object. *)
Definition FlushFuel (Tree Dirty : list nat) : nat :=
  S (S (2 * length Dirty) * S (length Tree)).

(** An entry the flush of the file object [F] can go through: it is in the
    tree of [F] within the file, and what it points at is there. *)
Definition FlushEntryInv (K : KERNEL) (F : nat) (s : PAGE_CACHE) (e : nat)
    : Prop :=
  exists x f,
    Entries s !! e = Some x /\ FileObject x = F
    /\ FileObjects s !! F = Some f
    /\ NodeParent x = true
    /\ 0 <= Offset x <= PropertiesFileSize f
    /\ Offset x + MmPageSize K < ULONGLONG_MOD
    /\ (forall b, BackingEntry x = Some b -> is_Some (Entries s !! b))
    /\ EntryWellFormed s e.

(** The page cache as the flush of the file object [F] needs it: the tree
    of [F] holds each entry once, its entries can be gone through, and the
    local list holds dirty entries of the tree. *)
Definition FlushStateInv (K : KERNEL) (F : nat) (Tree : list nat)
    (s : PAGE_CACHE) : Prop :=
  NoDup Tree
  /\ (exists f, FileObjects s !! F = Some f /\ PageCacheTree f = Tree)
  /\ (forall e, e ∈ Tree -> FlushEntryInv K F s e)
  /\ (forall e, e ∈ Lists s LocalList -> e ∈ Tree /\ DirtyBit s e = true).

(** The pending buffer of the flush loop: entries of the tree, a page each,
    the last ones of the running clean streak clean, all below the offset
    that continues the buffer. *)
Definition FlushBufferInv (K : KERNEL) (Tree : list nat) (s : PAGE_CACHE)
    (l : FLUSH_LOCALS) : Prop :=
  (forall e, e ∈ FlushBuffer l -> e ∈ Tree)
  /\ FlushSize l = Z.of_nat (length (FlushBuffer l)) * MmPageSize K
  /\ 0 <= CleanStreak l <= Z.of_nat (length (FlushBuffer l))
  /\ (forall i e, (length (FlushBuffer l) <= i + Z.to_nat (CleanStreak l))%nat ->
                  FlushBuffer l !! i = Some e -> DirtyBit s e = false)
  /\ (forall e x, e ∈ FlushBuffer l -> Entries s !! e = Some x ->
                  Offset x < FlushNextOffset l).

(** The locals of the flush loop at the start of an iteration. *)
Definition FlushLocalsInv (K : KERNEL) (Tree : list nat) (s : PAGE_CACHE)
    (l : FLUSH_LOCALS) : Prop :=
  FlushBufferInv K Tree s l
  /\ FlushSize l < PAGE_CACHE_FLUSH_MAX
  /\ (forall n, Node l = Some n -> n ∈ Tree).

(** What the kernel is assumed to be for the flush: a page is a power of
    two below the most a flush writes at once, and that is far from the
    end of the machine word. *)
Definition FlushKernel (K : KERNEL) : Prop :=
  0 < MmPageSize K < PAGE_CACHE_FLUSH_MAX
  /\ MmPageSize K = 2 ^ MmPageShift K /\ 0 <= MmPageShift K
  /\ PAGE_CACHE_FLUSH_MAX + 2 * MmPageSize K <= UINTN_MOD K.

(** The page cache as a flush of the file object [F] finds it: as the loop
    needs it, with the dirty entries still on the dirty list of [F]. *)
Definition FlushReady (K : KERNEL) (F : nat) (Tree : list nat)
    (s : PAGE_CACHE) : Prop :=
  NoDup Tree
  /\ (exists f, FileObjects s !! F = Some f /\ PageCacheTree f = Tree)
  /\ (forall e, e ∈ Tree -> FlushEntryInv K F s e)
  /\ (forall e, e ∈ Lists s (DirtyPageList F) ->
                e ∈ Tree /\ DirtyBit s e = true).

(** * Properties *)

(** ** Flags *)

Lemma land_pow2 (f k : Z) :
  0 <= k -> Z.land f (2 ^ k) = if Z.testbit f k then 2 ^ k else 0.
Proof.
  intros Hk. apply Z.bits_inj'. intros n Hn.
  rewrite Z.land_spec, Z.pow2_bits_eqb by lia.
  destruct (Z.eqb_spec k n) as [->|Hne].
  - destruct (Z.testbit f n); simpl.
    + rewrite Z.pow2_bits_true by lia. reflexivity.
    + rewrite Z.bits_0. reflexivity.
  - rewrite andb_false_r. destruct (Z.testbit f k).
    + rewrite Z.pow2_bits_false by lia. reflexivity.
    + rewrite Z.bits_0. reflexivity.
Qed.

Lemma FlagSet_testbit (f k : Z) : 0 <= k -> FlagSet f (2 ^ k) = Z.testbit f k.
Proof.
  intros Hk. unfold FlagSet. rewrite land_pow2 by lia.
  destruct (Z.testbit f k); simpl.
  - assert (0 < 2 ^ k) by (apply Z.pow_pos_nonneg; lia).
    destruct (Z.eqb_spec (2 ^ k) 0); [lia | reflexivity].
  - reflexivity.
Qed.

Lemma testbit_ULONG_NOT (m n : Z) :
  0 <= n < 32 -> Z.testbit (ULONG_NOT m) n = negb (Z.testbit m n).
Proof.
  intros Hn. unfold ULONG_NOT, ulong, ULONG_MOD.
  rewrite Z.mod_pow2_bits_low by lia. apply Z.lnot_spec. lia.
Qed.

Lemma FlagSet_lor (f j k : Z) :
  0 <= j -> 0 <= k ->
  FlagSet (Z.lor f (2 ^ j)) (2 ^ k) = FlagSet f (2 ^ k) || (j =? k).
Proof.
  intros Hj Hk. rewrite !FlagSet_testbit by lia.
  rewrite Z.lor_spec, Z.pow2_bits_eqb by lia. reflexivity.
Qed.

Lemma FlagSet_land_not (f j k : Z) :
  0 <= j -> 0 <= k < 32 ->
  FlagSet (Z.land f (ULONG_NOT (2 ^ j))) (2 ^ k)
  = FlagSet f (2 ^ k) && negb (j =? k).
Proof.
  intros Hj Hk. rewrite !FlagSet_testbit by lia.
  rewrite Z.land_spec, testbit_ULONG_NOT, Z.pow2_bits_eqb by lia. reflexivity.
Qed.

(** Setting the dirty flag sets it and leaves the other two flags. *)
Lemma FlagSet_set_DIRTY (f : Z) :
  FlagSet (Z.lor f PAGE_CACHE_ENTRY_FLAG_DIRTY) PAGE_CACHE_ENTRY_FLAG_DIRTY = true
  /\ FlagSet (Z.lor f PAGE_CACHE_ENTRY_FLAG_DIRTY) PAGE_CACHE_ENTRY_FLAG_PAGE_OWNER
     = FlagSet f PAGE_CACHE_ENTRY_FLAG_PAGE_OWNER
  /\ FlagSet (Z.lor f PAGE_CACHE_ENTRY_FLAG_DIRTY) PAGE_CACHE_ENTRY_FLAG_MAPPED
     = FlagSet f PAGE_CACHE_ENTRY_FLAG_MAPPED.
Proof.
  change PAGE_CACHE_ENTRY_FLAG_DIRTY with (2 ^ 0).
  change PAGE_CACHE_ENTRY_FLAG_PAGE_OWNER with (2 ^ 1).
  change PAGE_CACHE_ENTRY_FLAG_MAPPED with (2 ^ 2).
  rewrite !FlagSet_lor by lia. simpl. rewrite !orb_false_r, orb_true_r. auto.
Qed.

(** Clearing the dirty flag clears it and leaves the other two flags. *)
Lemma FlagSet_clear_DIRTY (f : Z) :
  FlagSet (Z.land f (ULONG_NOT PAGE_CACHE_ENTRY_FLAG_DIRTY))
          PAGE_CACHE_ENTRY_FLAG_DIRTY = false
  /\ FlagSet (Z.land f (ULONG_NOT PAGE_CACHE_ENTRY_FLAG_DIRTY))
             PAGE_CACHE_ENTRY_FLAG_PAGE_OWNER
     = FlagSet f PAGE_CACHE_ENTRY_FLAG_PAGE_OWNER
  /\ FlagSet (Z.land f (ULONG_NOT PAGE_CACHE_ENTRY_FLAG_DIRTY))
             PAGE_CACHE_ENTRY_FLAG_MAPPED
     = FlagSet f PAGE_CACHE_ENTRY_FLAG_MAPPED.
Proof.
  change PAGE_CACHE_ENTRY_FLAG_DIRTY with (2 ^ 0).
  change PAGE_CACHE_ENTRY_FLAG_PAGE_OWNER with (2 ^ 1).
  change PAGE_CACHE_ENTRY_FLAG_MAPPED with (2 ^ 2).
  rewrite !FlagSet_land_not by lia. simpl.
  rewrite !andb_true_r, andb_false_r. auto.
Qed.

(** ** Running the primitives *)

Lemma bind_run {A B} (m : M A) (k : A -> M B) s a s' :
  m s = Some (a, s') -> bind m k s = k a s'.
Proof. intros H. unfold bind. rewrite H. reflexivity. Qed.

Lemma bind_inv {A B} (m : M A) (k : A -> M B) s r :
  bind m k s = Some r -> exists a s', m s = Some (a, s') /\ k a s' = Some r.
Proof.
  unfold bind. destruct (m s) as [[a s']|]; [|discriminate].
  intros H. exists a, s'. auto.
Qed.

Lemma Entry_run s e x : Entries s !! e = Some x -> Entry e s = Some (x, s).
Proof. intros H. unfold Entry. rewrite H. reflexivity. Qed.

Lemma Entry_inv s e x s' :
  Entry e s = Some (x, s') -> Entries s !! e = Some x /\ s' = s.
Proof.
  unfold Entry. destruct (Entries s !! e); [|discriminate].
  intros H. inversion H. auto.
Qed.

Lemma File_run s f v : FileObjects s !! f = Some v -> File f s = Some (v, s).
Proof. intros H. unfold File. rewrite H. reflexivity. Qed.

Lemma File_inv s f v s' :
  File f s = Some (v, s') -> FileObjects s !! f = Some v /\ s' = s.
Proof.
  unfold File. destruct (FileObjects s !! f); [|discriminate].
  intros H. inversion H. auto.
Qed.

Lemma UpdateEntry_run s e x f :
  Entries s !! e = Some x ->
  UpdateEntry e f s = Some (tt, with_Entries (fun m => <[e := f x]> m) s).
Proof.
  intros H. unfold UpdateEntry.
  rewrite (bind_run _ _ _ _ _ (Entry_run _ _ _ H)). reflexivity.
Qed.

Lemma RtlAtomicOr32_run s e x m :
  Entries s !! e = Some x ->
  RtlAtomicOr32 e m s
  = Some (Flags x,
          with_Entries (fun E => <[e := set_Flags (Z.lor (Flags x) m) x]> E) s).
Proof.
  intros H. unfold RtlAtomicOr32.
  rewrite (bind_run _ _ _ _ _ (Entry_run _ _ _ H)).
  rewrite (bind_run _ _ _ _ _ (UpdateEntry_run _ _ _ _ H)). reflexivity.
Qed.

Lemma RtlAtomicAnd32_run s e x m :
  Entries s !! e = Some x ->
  RtlAtomicAnd32 e m s
  = Some (Flags x,
          with_Entries (fun E => <[e := set_Flags (Z.land (Flags x) m) x]> E) s).
Proof.
  intros H. unfold RtlAtomicAnd32.
  rewrite (bind_run _ _ _ _ _ (Entry_run _ _ _ H)).
  rewrite (bind_run _ _ _ _ _ (UpdateEntry_run _ _ _ _ H)). reflexivity.
Qed.

Lemma LIST_REMOVE_run s e x :
  Entries s !! e = Some x -> ListEntryNext x = true ->
  LIST_REMOVE e s
  = Some (tt, with_Lists (fun L h => filter (fun y => y <> e) (L h)) s).
Proof.
  intros H Hn. unfold LIST_REMOVE.
  rewrite (bind_run _ _ _ _ _ (Entry_run _ _ _ H)), Hn. reflexivity.
Qed.

Lemma LIST_REMOVE_inv s e u s' :
  LIST_REMOVE e s = Some (u, s') ->
  exists x, Entries s !! e = Some x /\ ListEntryNext x = true
            /\ s' = with_Lists (fun L h => filter (fun y => y <> e) (L h)) s.
Proof.
  unfold LIST_REMOVE. intros H. apply bind_inv in H.
  destruct H as (x & s1 & Hx & H). apply Entry_inv in Hx.
  destruct Hx as [Hx ->]. exists x.
  destruct (ListEntryNext x); [|discriminate].
  inversion H. auto.
Qed.

(** LIST_REMOVE on an entry whose [Next] pointer is NULL faults. *)
Lemma LIST_REMOVE_fault s e x :
  Entries s !! e = Some x -> ListEntryNext x = false -> LIST_REMOVE e s = None.
Proof.
  intros H Hn. unfold LIST_REMOVE.
  rewrite (bind_run _ _ _ _ _ (Entry_run _ _ _ H)), Hn. reflexivity.
Qed.

(** Unfolding the state primitives. *)
Ltac run_prims :=
  cbv [bind ret gets modify when fault Global SetGlobal Emit RtlAtomicAdd
       LIST_EMPTY LIST_FIRST LIST_REMOVE INSERT_BEFORE MOVE_LIST APPEND_LIST
       INITIALIZE_LIST_HEAD UpdateEntry UpdateFile Entry File Pointer Deref];
  cbn [Entries FileObjects Lists Globals IoPageCacheDisableVirtualAddresses
       Trace with_Entries with_FileObjects with_Lists with_Globals with_Trace].

(** ** Frame rules *)

Global Instance ResultsKept_PreOrder : PreOrder ResultsKept.
Proof.
  split.
  - intros s. reflexivity.
  - intros a b c Hab Hbc. unfold ResultsKept in *. congruence.
Qed.

Global Instance TraceKept_PreOrder : PreOrder TraceKept.
Proof.
  split.
  - intros s. reflexivity.
  - intros a b c Hab Hbc. unfold TraceKept in *. congruence.
Qed.

Global Instance PagesKept_PreOrder : PreOrder PagesKept.
Proof.
  split.
  - intros s. split; reflexivity.
  - intros a b c [H1 H2] [H3 H4]. split; congruence.
Qed.

Global Instance ShapeKept_PreOrder : PreOrder ShapeKept.
Proof.
  split.
  - intros s. split; [|split]; auto. intros e x He. exists x. auto.
  - intros a b c (H1 & H2 & H3) (H4 & H5 & H6). split; [|split]; auto.
    intros e x He. destruct (H1 e x He) as (y & Hy & ? & ? & ? & ?).
    destruct (H4 e y Hy) as (z & Hz & ? & ? & ? & ?).
    exists z. repeat split; congruence.
Qed.

Global Instance DirtyKept_PreOrder : PreOrder DirtyKept.
Proof.
  split.
  - intros s. split; auto. intros f v Hf Hd. exists v. auto.
  - intros a b c [H1 H2] [H3 H4]. split; auto.
    intros f v Hf Hd. destruct (H2 f v Hf Hd) as (v' & Hv' & Hd'). eauto.
Qed.

Global Instance DestroyShrinks_PreOrder : PreOrder DestroyShrinks.
Proof.
  split.
  - intros s. unfold DestroyShrinks. reflexivity.
  - intros a b c Hab Hbc. unfold DestroyShrinks in *. etransitivity; eauto.
Qed.

Section KeepsRules.

Context (R : relation PAGE_CACHE) `{!PreOrder R}.

Lemma Keeps_ret {A} (a : A) : Keeps R (ret a).
Proof. intros s a' s' H. inversion H. reflexivity. Qed.

Lemma Keeps_fault {A} : Keeps R (@fault A).
Proof. intros s a s' H. discriminate. Qed.

Lemma Keeps_gets {A} (f : PAGE_CACHE -> A) : Keeps R (gets f).
Proof. intros s a s' H. inversion H. reflexivity. Qed.

Lemma Keeps_bind {A B} (m : M A) (k : A -> M B) :
  Keeps R m -> (forall a, Keeps R (k a)) -> Keeps R (bind m k).
Proof.
  intros Hm Hk s b s' H. apply bind_inv in H. destruct H as (a & s1 & H1 & H2).
  transitivity s1; [eapply Hm | eapply Hk]; eauto.
Qed.

Lemma Keeps_when (b : bool) (m : M unit) : Keeps R m -> Keeps R (when b m).
Proof. intros Hm. destruct b; [exact Hm | apply Keeps_ret]. Qed.

Lemma Keeps_modify (g : PAGE_CACHE -> PAGE_CACHE) :
  (forall s, R s (g s)) -> Keeps R (modify g).
Proof. intros Hg s a s' H. inversion H. apply Hg. Qed.

Lemma Keeps_Entry (e : nat) : Keeps R (Entry e).
Proof. intros s a s' H. apply Entry_inv in H. destruct H as [_ ->]. reflexivity. Qed.

Lemma Keeps_File (f : nat) : Keeps R (File f).
Proof. intros s a s' H. apply File_inv in H. destruct H as [_ ->]. reflexivity. Qed.

Lemma Keeps_Pointer (p : option nat) : Keeps R (Pointer p).
Proof. destruct p; [apply Keeps_ret | apply Keeps_fault]. Qed.

Lemma Keeps_Global (g : UINTN_GLOBAL) : Keeps R (Global g).
Proof. apply Keeps_gets. Qed.

Lemma Keeps_LIST_EMPTY (h : LIST_HEAD) : Keeps R (LIST_EMPTY h).
Proof. apply Keeps_gets. Qed.

Lemma Keeps_LIST_FIRST (h : LIST_HEAD) : Keeps R (LIST_FIRST h).
Proof. apply Keeps_gets. Qed.

End KeepsRules.

(** Decomposing a routine along its structure. *)
Ltac keeps_struct :=
  lazymatch goal with
  | |- Keeps _ (ret _) => apply Keeps_ret; try typeclasses eauto
  | |- Keeps _ fault => apply Keeps_fault
  | |- Keeps _ (gets _) => apply Keeps_gets; try typeclasses eauto
  | |- Keeps _ (Entry _) => apply Keeps_Entry; try typeclasses eauto
  | |- Keeps _ (File _) => apply Keeps_File; try typeclasses eauto
  | |- Keeps _ (Pointer _) => apply Keeps_Pointer; try typeclasses eauto
  | |- Keeps _ (Global _) => apply Keeps_Global; try typeclasses eauto
  | |- Keeps _ (LIST_EMPTY _) => apply Keeps_LIST_EMPTY; try typeclasses eauto
  | |- Keeps _ (LIST_FIRST _) => apply Keeps_LIST_FIRST; try typeclasses eauto
  | |- Keeps _ (bind _ _) =>
      apply Keeps_bind; [try typeclasses eauto .. | idtac | intros ?]
  | |- Keeps _ (when _ _) => apply Keeps_when; try typeclasses eauto
  | |- Keeps _ (if ?b then _ else _) => destruct b
  | |- Keeps _ (match ?x with _ => _ end) => destruct x
  end.

Create HintDb keeps.

(** *** Relations that do not look at a part of the page cache *)


Global Instance ResultsKept_entries : IgnoresEntries ResultsKept.
Proof. intros s g. reflexivity. Qed.
Global Instance ResultsKept_files : IgnoresFileObjects ResultsKept.
Proof. intros s g. reflexivity. Qed.
Global Instance ResultsKept_lists : IgnoresLists ResultsKept.
Proof. intros s g. reflexivity. Qed.
Global Instance ResultsKept_globals : IgnoresGlobals ResultsKept.
Proof. intros s g. reflexivity. Qed.

Global Instance TraceKept_entries : IgnoresEntries TraceKept.
Proof. intros s g. reflexivity. Qed.
Global Instance TraceKept_files : IgnoresFileObjects TraceKept.
Proof. intros s g. reflexivity. Qed.
Global Instance TraceKept_lists : IgnoresLists TraceKept.
Proof. intros s g. reflexivity. Qed.
Global Instance TraceKept_globals : IgnoresGlobals TraceKept.
Proof. intros s g. reflexivity. Qed.

Global Instance PagesKept_entries : IgnoresEntries PagesKept.
Proof. intros s g. split; reflexivity. Qed.
Global Instance PagesKept_files : IgnoresFileObjects PagesKept.
Proof. intros s g. split; reflexivity. Qed.
Global Instance PagesKept_lists : IgnoresLists PagesKept.
Proof. intros s g. split; reflexivity. Qed.

Global Instance ShapeKept_lists : IgnoresLists ShapeKept.
Proof. intros s g. apply (reflexivity (R := ShapeKept) s). Qed.
Global Instance ShapeKept_globals : IgnoresGlobals ShapeKept.
Proof. intros s g. apply (reflexivity (R := ShapeKept) s). Qed.
Global Instance ShapeKept_trace : IgnoresTrace ShapeKept.
Proof. intros s g. apply (reflexivity (R := ShapeKept) s). Qed.

Global Instance DirtyKept_lists : IgnoresLists DirtyKept.
Proof. intros s g. apply (reflexivity (R := DirtyKept) s). Qed.
Global Instance DirtyKept_globals : IgnoresGlobals DirtyKept.
Proof. intros s g. apply (reflexivity (R := DirtyKept) s). Qed.
Global Instance DirtyKept_trace : IgnoresTrace DirtyKept.
Proof. intros s g. apply (reflexivity (R := DirtyKept) s). Qed.

Global Instance DestroyShrinks_entries : IgnoresEntries DestroyShrinks.
Proof. intros s g. unfold DestroyShrinks. reflexivity. Qed.
Global Instance DestroyShrinks_files : IgnoresFileObjects DestroyShrinks.
Proof. intros s g. unfold DestroyShrinks. reflexivity. Qed.
Global Instance DestroyShrinks_globals : IgnoresGlobals DestroyShrinks.
Proof. intros s g. unfold DestroyShrinks. reflexivity. Qed.
Global Instance DestroyShrinks_trace : IgnoresTrace DestroyShrinks.
Proof. intros s g. unfold DestroyShrinks. reflexivity. Qed.

Section IgnoreRules.

Context (R : relation PAGE_CACHE) `{!PreOrder R}.

Lemma Keeps_UpdateEntry `{!IgnoresEntries R} e f : Keeps R (UpdateEntry e f).
Proof.
  intros s a s' H. unfold UpdateEntry in H. apply bind_inv in H.
  destruct H as (v & s1 & H1 & H2). apply Entry_inv in H1. destruct H1 as [_ ->].
  inversion H2. apply ignores_entries.
Qed.

Lemma Keeps_RtlAtomicAdd32 `{!IgnoresEntries R} e v :
  Keeps R (RtlAtomicAdd32 e v).
Proof.
  unfold RtlAtomicAdd32. repeat keeps_struct. apply Keeps_UpdateEntry.
Qed.

Lemma Keeps_RtlAtomicOr32 `{!IgnoresEntries R} e v : Keeps R (RtlAtomicOr32 e v).
Proof.
  unfold RtlAtomicOr32. repeat keeps_struct. apply Keeps_UpdateEntry.
Qed.

Lemma Keeps_RtlAtomicAnd32 `{!IgnoresEntries R} e v : Keeps R (RtlAtomicAnd32 e v).
Proof.
  unfold RtlAtomicAnd32. repeat keeps_struct. apply Keeps_UpdateEntry.
Qed.

Lemma Keeps_UpdateFile `{!IgnoresFileObjects R} f g : Keeps R (UpdateFile f g).
Proof.
  intros s a s' H. unfold UpdateFile in H. apply bind_inv in H.
  destruct H as (v & s1 & H1 & H2). apply File_inv in H1. destruct H1 as [_ ->].
  inversion H2. apply ignores_files.
Qed.

Lemma Keeps_SetGlobal `{!IgnoresGlobals R} g v : Keeps R (SetGlobal g v).
Proof. intros s a s' H. inversion H. apply ignores_globals. Qed.

Lemma Keeps_RtlAtomicAdd `{!IgnoresGlobals R} K g v : Keeps R (RtlAtomicAdd K g v).
Proof. intros s a s' H. inversion H. apply ignores_globals. Qed.

Lemma Keeps_Emit `{!IgnoresTrace R} ev : Keeps R (Emit ev).
Proof. intros s a s' H. inversion H. apply ignores_trace. Qed.

Lemma Keeps_LIST_REMOVE `{!IgnoresLists R} e : Keeps R (LIST_REMOVE e).
Proof.
  intros s a s' H. apply LIST_REMOVE_inv in H. destruct H as (x & _ & _ & ->).
  apply ignores_lists.
Qed.

Lemma Keeps_MOVE_LIST `{!IgnoresLists R} a b : Keeps R (MOVE_LIST a b).
Proof. intros s x s' H. inversion H. apply ignores_lists. Qed.

Lemma Keeps_APPEND_LIST `{!IgnoresLists R} a b : Keeps R (APPEND_LIST a b).
Proof. intros s x s' H. inversion H. apply ignores_lists. Qed.

Lemma Keeps_INITIALIZE_LIST_HEAD `{!IgnoresLists R} h :
  Keeps R (INITIALIZE_LIST_HEAD h).
Proof. intros s x s' H. inversion H. apply ignores_lists. Qed.

End IgnoreRules.

(** The primitives, for a relation that does not look at what they write. *)
Ltac keeps_prim :=
  lazymatch goal with
  | |- Keeps _ (UpdateEntry _ _) => apply Keeps_UpdateEntry
  | |- Keeps _ (RtlAtomicAdd32 _ _) => apply Keeps_RtlAtomicAdd32
  | |- Keeps _ (RtlAtomicOr32 _ _) => apply Keeps_RtlAtomicOr32
  | |- Keeps _ (RtlAtomicAnd32 _ _) => apply Keeps_RtlAtomicAnd32
  | |- Keeps _ (UpdateFile _ _) => apply Keeps_UpdateFile
  | |- Keeps _ (SetGlobal _ _) => apply Keeps_SetGlobal
  | |- Keeps _ (RtlAtomicAdd _ _ _) => apply Keeps_RtlAtomicAdd
  | |- Keeps _ (Emit _) => apply Keeps_Emit
  | |- Keeps _ (LIST_REMOVE _) => apply Keeps_LIST_REMOVE
  | |- Keeps _ (MOVE_LIST _ _) => apply Keeps_MOVE_LIST
  | |- Keeps _ (APPEND_LIST _ _) => apply Keeps_APPEND_LIST
  | |- Keeps _ (INITIALIZE_LIST_HEAD _) => apply Keeps_INITIALIZE_LIST_HEAD
  end; typeclasses eauto.


(** *** What the primitives keep of the relations that look at what they
    write *)

Lemma Keeps_Emit_results ev : IoResult ev = None -> Keeps ResultsKept (Emit ev).
Proof.
  intros Hev s a s' H. inversion H. unfold ResultsKept, IoResults. cbn.
  rewrite Hev. reflexivity.
Qed.

Lemma Keeps_Emit_pages ev :
  match ev with EvFreePhysicalPage _ => False | _ => True end ->
  Keeps PagesKept (Emit ev).
Proof.
  intros Hev s a s' H. inversion H. split; [reflexivity|].
  cbn. destruct ev; try reflexivity. contradiction.
Qed.

Lemma Keeps_SetGlobal_pages g v :
  g <> IoPageCachePhysicalPageCount -> Keeps PagesKept (SetGlobal g v).
Proof.
  intros Hg s a s' H. inversion H. split; [|reflexivity].
  cbn. rewrite fn_lookup_insert_ne by congruence. reflexivity.
Qed.

Lemma Keeps_RtlAtomicAdd_pages K g v :
  g <> IoPageCachePhysicalPageCount -> Keeps PagesKept (RtlAtomicAdd K g v).
Proof.
  intros Hg s a s' H. inversion H. split; [|reflexivity].
  cbn. rewrite fn_lookup_insert_ne by congruence. reflexivity.
Qed.


Lemma ShapeKept_insert s e x y :
  Entries s !! e = Some x ->
  FileObject y = FileObject x -> Offset y = Offset x ->
  BackingEntry y = BackingEntry x ->
  FlagSet (Flags y) PAGE_CACHE_ENTRY_FLAG_PAGE_OWNER
  = FlagSet (Flags x) PAGE_CACHE_ENTRY_FLAG_PAGE_OWNER ->
  ShapeKept s (with_Entries (fun m => <[e := y]> m) s).
Proof.
  intros He H1 H2 H3 H4. split; [|split]; cbn.
  - intros e' x' He'. destruct (decide (e = e')) as [<-|Hne].
    + rewrite lookup_insert_eq. exists y. rewrite He in He'. inversion He'; subst.
      auto.
    + rewrite lookup_insert_ne by congruence. exists x'. auto.
  - intros e' He'. rewrite lookup_insert_ne; [exact He'|]. congruence.
  - auto.
Qed.

Lemma Keeps_UpdateEntry_shape e f : ShapeSetter f -> Keeps ShapeKept (UpdateEntry e f).
Proof.
  intros Hf s a s' H. unfold UpdateEntry in H. apply bind_inv in H.
  destruct H as (v & s1 & H1 & H2). apply Entry_inv in H1. destruct H1 as [He ->].
  inversion H2. destruct (Hf v) as (? & ? & ? & ?).
  apply (ShapeKept_insert s e v (f v)); auto.
Qed.

Lemma ShapeSetter_ListEntryNext v : ShapeSetter (set_ListEntryNext v).
Proof. intros x. cbn. auto. Qed.
Lemma ShapeSetter_NodeParent v : ShapeSetter (set_NodeParent v).
Proof. intros x. cbn. auto. Qed.
Lemma ShapeSetter_ReferenceCount v : ShapeSetter (set_ReferenceCount v).
Proof. intros x. cbn. auto. Qed.
Lemma ShapeSetter_VirtualAddress v : ShapeSetter (set_VirtualAddress v).
Proof. intros x. cbn. auto. Qed.
Lemma ShapeSetter_PhysicalAddress v : ShapeSetter (set_PhysicalAddress v).
Proof. intros x. cbn. auto. Qed.


Lemma FlagSet_owner_lor f Mask :
  OwnerFreeMask Mask ->
  FlagSet (Z.lor f Mask) PAGE_CACHE_ENTRY_FLAG_PAGE_OWNER
  = FlagSet f PAGE_CACHE_ENTRY_FLAG_PAGE_OWNER.
Proof.
  intros [-> | ->];
    change PAGE_CACHE_ENTRY_FLAG_DIRTY with (2 ^ 0);
    change PAGE_CACHE_ENTRY_FLAG_PAGE_OWNER with (2 ^ 1);
    change PAGE_CACHE_ENTRY_FLAG_MAPPED with (2 ^ 2);
    rewrite FlagSet_lor by lia; simpl; apply orb_false_r.
Qed.

Lemma FlagSet_owner_land_not f Mask :
  OwnerFreeMask Mask ->
  FlagSet (Z.land f (ULONG_NOT Mask)) PAGE_CACHE_ENTRY_FLAG_PAGE_OWNER
  = FlagSet f PAGE_CACHE_ENTRY_FLAG_PAGE_OWNER.
Proof.
  intros [-> | ->];
    change PAGE_CACHE_ENTRY_FLAG_DIRTY with (2 ^ 0);
    change PAGE_CACHE_ENTRY_FLAG_PAGE_OWNER with (2 ^ 1);
    change PAGE_CACHE_ENTRY_FLAG_MAPPED with (2 ^ 2);
    rewrite FlagSet_land_not by lia; simpl; apply andb_true_r.
Qed.

Lemma Keeps_RtlAtomicOr32_shape e Mask :
  OwnerFreeMask Mask -> Keeps ShapeKept (RtlAtomicOr32 e Mask).
Proof.
  intros HM s a s' H. unfold RtlAtomicOr32 in H. apply bind_inv in H.
  destruct H as (v & s1 & H1 & H2). apply Entry_inv in H1. destruct H1 as [He ->].
  rewrite (bind_run _ _ _ _ _ (UpdateEntry_run _ _ _ _ He)) in H2. inversion H2.
  apply (ShapeKept_insert s e v); auto. cbn. apply FlagSet_owner_lor, HM.
Qed.

Lemma Keeps_RtlAtomicAnd32_shape e Mask :
  OwnerFreeMask Mask -> Keeps ShapeKept (RtlAtomicAnd32 e (ULONG_NOT Mask)).
Proof.
  intros HM s a s' H. unfold RtlAtomicAnd32 in H. apply bind_inv in H.
  destruct H as (v & s1 & H1 & H2). apply Entry_inv in H1. destruct H1 as [He ->].
  rewrite (bind_run _ _ _ _ _ (UpdateEntry_run _ _ _ _ He)) in H2. inversion H2.
  apply (ShapeKept_insert s e v); auto. cbn. apply FlagSet_owner_land_not, HM.
Qed.

Lemma Keeps_RtlAtomicAdd32_shape e v : Keeps ShapeKept (RtlAtomicAdd32 e v).
Proof.
  intros s a s' H. unfold RtlAtomicAdd32 in H. apply bind_inv in H.
  destruct H as (x & s1 & H1 & H2). apply Entry_inv in H1. destruct H1 as [He ->].
  rewrite (bind_run _ _ _ _ _ (UpdateEntry_run _ _ _ _ He)) in H2. inversion H2.
  apply (ShapeKept_insert s e x); auto.
Qed.

Lemma Keeps_UpdateFile_shape f g : Keeps ShapeKept (UpdateFile f g).
Proof.
  intros s a s' H. unfold UpdateFile in H. apply bind_inv in H.
  destruct H as (v & s1 & H1 & H2). apply File_inv in H1. destruct H1 as [Hf ->].
  inversion H2. split; [|split]; cbn.
  - intros e x He. exists x. auto.
  - auto.
  - intros f' Hf'. destruct (decide (f = f')) as [<-|Hne].
    + rewrite lookup_insert_eq. eauto.
    + rewrite lookup_insert_ne by congruence. exact Hf'.
Qed.


Lemma DirtyKept_insert s e x y :
  Entries s !! e = Some x ->
  (FlagSet (Flags x) PAGE_CACHE_ENTRY_FLAG_DIRTY = true ->
   FlagSet (Flags y) PAGE_CACHE_ENTRY_FLAG_DIRTY = true) ->
  DirtyKept s (with_Entries (fun m => <[e := y]> m) s).
Proof.
  intros He Hd. split; cbn.
  - intros e'. unfold DirtyBit. cbn. destruct (decide (e = e')) as [<-|Hne].
    + rewrite lookup_insert_eq, He. exact Hd.
    + rewrite lookup_insert_ne by congruence. auto.
  - intros f v Hf Hv. eauto.
Qed.

Lemma Keeps_UpdateEntry_dirty e f : FlagsSetter f -> Keeps DirtyKept (UpdateEntry e f).
Proof.
  intros Hf s a s' H. unfold UpdateEntry in H. apply bind_inv in H.
  destruct H as (v & s1 & H1 & H2). apply Entry_inv in H1. destruct H1 as [He ->].
  inversion H2. apply (DirtyKept_insert s e v (f v) He). rewrite Hf. auto.
Qed.

Lemma FlagsSetter_ListEntryNext v : FlagsSetter (set_ListEntryNext v).
Proof. intros x. reflexivity. Qed.
Lemma FlagsSetter_NodeParent v : FlagsSetter (set_NodeParent v).
Proof. intros x. reflexivity. Qed.
Lemma FlagsSetter_ReferenceCount v : FlagsSetter (set_ReferenceCount v).
Proof. intros x. reflexivity. Qed.
Lemma FlagsSetter_VirtualAddress v : FlagsSetter (set_VirtualAddress v).
Proof. intros x. reflexivity. Qed.

Lemma Keeps_RtlAtomicOr32_dirty e Mask :
  0 <= Mask -> Keeps DirtyKept (RtlAtomicOr32 e Mask).
Proof.
  intros HM s a s' H. unfold RtlAtomicOr32 in H. apply bind_inv in H.
  destruct H as (v & s1 & H1 & H2). apply Entry_inv in H1. destruct H1 as [He ->].
  rewrite (bind_run _ _ _ _ _ (UpdateEntry_run _ _ _ _ He)) in H2. inversion H2.
  apply (DirtyKept_insert s e v _ He). cbn.
  change PAGE_CACHE_ENTRY_FLAG_DIRTY with (2 ^ 0).
  rewrite !FlagSet_testbit by lia. rewrite Z.lor_spec. intros ->. reflexivity.
Qed.

Lemma Keeps_UpdateFile_dirty f g :
  (forall v, FILE_OBJECT_FLAG_DIRTY_DATA v = true ->
             FILE_OBJECT_FLAG_DIRTY_DATA (g v) = true) ->
  Keeps DirtyKept (UpdateFile f g).
Proof.
  intros Hg s a s' H. unfold UpdateFile in H. apply bind_inv in H.
  destruct H as (v & s1 & H1 & H2). apply File_inv in H1. destruct H1 as [Hf ->].
  inversion H2. split; cbn.
  - auto.
  - intros f' v' Hf' Hv'. destruct (decide (f = f')) as [<-|Hne].
    + rewrite lookup_insert_eq. rewrite Hf in Hf'. inversion Hf'; subst. eauto.
    + rewrite lookup_insert_ne by congruence. eauto.
Qed.

Lemma Keeps_LIST_REMOVE_destroy e : Keeps DestroyShrinks (LIST_REMOVE e).
Proof.
  intros s a s' H. apply LIST_REMOVE_inv in H. destruct H as (x & _ & _ & ->).
  unfold DestroyShrinks. cbn. apply sublist_filter.
Qed.

Lemma Keeps_INITIALIZE_LIST_HEAD_destroy h :
  Keeps DestroyShrinks (INITIALIZE_LIST_HEAD h).
Proof.
  intros s a s' H. inversion H. unfold DestroyShrinks. cbn.
  destruct (decide (h = DestroyListHead)) as [->|Hne].
  - rewrite fn_lookup_insert. apply sublist_nil_l.
  - rewrite fn_lookup_insert_ne by congruence. reflexivity.
Qed.

Lemma Keeps_MOVE_LIST_destroy a b :
  b <> DestroyListHead -> Keeps DestroyShrinks (MOVE_LIST a b).
Proof.
  intros Hb s x s' H. inversion H. unfold DestroyShrinks. cbn.
  destruct (decide (a = DestroyListHead)) as [->|Hne].
  - rewrite fn_lookup_insert. apply sublist_nil_l.
  - rewrite !fn_lookup_insert_ne by congruence. reflexivity.
Qed.

Lemma Keeps_APPEND_LIST_destroy a b :
  b <> DestroyListHead -> Keeps DestroyShrinks (APPEND_LIST a b).
Proof.
  intros Hb s x s' H. inversion H. unfold DestroyShrinks. cbn.
  destruct (decide (a = DestroyListHead)) as [->|Hne].
  - rewrite fn_lookup_insert. apply sublist_nil_l.
  - rewrite !fn_lookup_insert_ne by congruence. reflexivity.
Qed.

Lemma Keeps_lists_destroy g :
  (forall L, g L DestroyListHead = L DestroyListHead) ->
  Keeps DestroyShrinks (modify (with_Lists g)).
Proof.
  intros Hg s x s' H. inversion H. unfold DestroyShrinks. cbn. rewrite Hg.
  reflexivity.
Qed.

#[export] Hint Extern 1 (Keeps ResultsKept (Emit _)) =>
  apply Keeps_Emit_results; reflexivity : keeps.
#[export] Hint Extern 1 (Keeps PagesKept (Emit _)) =>
  apply Keeps_Emit_pages; exact I : keeps.
#[export] Hint Extern 1 (Keeps PagesKept (SetGlobal _ _)) =>
  apply Keeps_SetGlobal_pages; discriminate : keeps.
#[export] Hint Extern 1 (Keeps PagesKept (RtlAtomicAdd _ _ _)) =>
  apply Keeps_RtlAtomicAdd_pages; discriminate : keeps.
#[export] Hint Extern 1 (Keeps ShapeKept (UpdateEntry _ _)) =>
  apply Keeps_UpdateEntry_shape;
  first [ apply ShapeSetter_ListEntryNext | apply ShapeSetter_NodeParent
        | apply ShapeSetter_ReferenceCount | apply ShapeSetter_VirtualAddress
        | apply ShapeSetter_PhysicalAddress ] : keeps.
#[export] Hint Extern 1 (Keeps ShapeKept (RtlAtomicOr32 _ _)) =>
  apply Keeps_RtlAtomicOr32_shape; first [left; reflexivity | right; reflexivity]
  : keeps.
#[export] Hint Extern 1 (Keeps ShapeKept (RtlAtomicAnd32 _ _)) =>
  apply Keeps_RtlAtomicAnd32_shape; first [left; reflexivity | right; reflexivity]
  : keeps.
#[export] Hint Resolve Keeps_RtlAtomicAdd32_shape Keeps_UpdateFile_shape : keeps.
#[export] Hint Extern 1 (Keeps DirtyKept (UpdateEntry _ _)) =>
  apply Keeps_UpdateEntry_dirty;
  first [ apply FlagsSetter_ListEntryNext | apply FlagsSetter_NodeParent
        | apply FlagsSetter_ReferenceCount | apply FlagsSetter_VirtualAddress ]
  : keeps.
#[export] Hint Extern 1 (Keeps DirtyKept (RtlAtomicOr32 _ _)) =>
  apply Keeps_RtlAtomicOr32_dirty;
  unfold PAGE_CACHE_ENTRY_FLAG_DIRTY, PAGE_CACHE_ENTRY_FLAG_MAPPED; lia : keeps.
#[export] Hint Resolve Keeps_LIST_REMOVE_destroy
  Keeps_INITIALIZE_LIST_HEAD_destroy : keeps.
#[export] Hint Extern 1 (Keeps DestroyShrinks (MOVE_LIST _ _)) =>
  apply Keeps_MOVE_LIST_destroy; discriminate : keeps.
#[export] Hint Extern 1 (Keeps DestroyShrinks (APPEND_LIST _ _)) =>
  apply Keeps_APPEND_LIST_destroy; discriminate : keeps.

#[export] Hint Extern 1 (Keeps DestroyShrinks (modify (with_Lists _))) =>
  apply Keeps_lists_destroy; intros ?;
  rewrite fn_lookup_insert_ne by discriminate; reflexivity : keeps.
#[export] Hint Extern 1 (Keeps DirtyKept (UpdateFile _ (set_DIRTY_DATA true))) =>
  apply Keeps_UpdateFile_dirty; intros ? ?; reflexivity : keeps.

Lemma Keeps_modify_lists (R : relation PAGE_CACHE) `{!IgnoresLists R} g :
  Keeps R (modify (with_Lists g)).
Proof. intros s x s' H. inversion H. apply ignores_lists. Qed.

(** The routines without a loop are taken apart down to the primitives. *)
Ltac keeps_unfold :=
  lazymatch goal with
  | |- Keeps _ (INSERT_BEFORE _ _) => unfold INSERT_BEFORE
  | |- Keeps _ (IopMarkFileObjectDirty _) => unfold IopMarkFileObjectDirty
  | |- Keeps _ (IoPageCacheEntryAddReference _) =>
      unfold IoPageCacheEntryAddReference
  | |- Keeps _ (IoPageCacheEntryReleaseReference _) =>
      unfold IoPageCacheEntryReleaseReference
  | |- Keeps _ (IopMarkPageCacheEntryClean _ _ _) =>
      unfold IopMarkPageCacheEntryClean
  | |- Keeps _ (IopMarkPageCacheEntryDirty _ _) =>
      unfold IopMarkPageCacheEntryDirty
  | |- Keeps _ (IopUnmapPageCacheEntrySections _ _) =>
      unfold IopUnmapPageCacheEntrySections
  | |- Keeps _ (IopRemovePageCacheEntryFromTree _ _) =>
      unfold IopRemovePageCacheEntryFromTree
  | |- Keeps _ (IopRemovePageCacheEntryVirtualAddress _ _) =>
      unfold IopRemovePageCacheEntryVirtualAddress
  | |- Keeps _ (IopIsPageCacheTooBig _ _) => unfold IopIsPageCacheTooBig
  | |- Keeps _ (IopIsPageCacheTooMapped _ _) => unfold IopIsPageCacheTooMapped
  end.

Ltac keeps_solve :=
  repeat first
    [ solve [eauto with keeps]
    | solve [keeps_prim]
    | solve [apply Keeps_modify_lists; typeclasses eauto]
    | keeps_struct
    | keeps_unfold ].

Lemma Keeps_IopMarkPageCacheEntryClean_results K e Move :
  Keeps ResultsKept (IopMarkPageCacheEntryClean K e Move).
Proof. keeps_solve. Qed.

Lemma Keeps_IopMarkPageCacheEntryClean_trace K e Move :
  Keeps TraceKept (IopMarkPageCacheEntryClean K e Move).
Proof. keeps_solve. Qed.

Lemma Keeps_IopMarkPageCacheEntryClean_shape K e Move :
  Keeps ShapeKept (IopMarkPageCacheEntryClean K e Move).
Proof. keeps_solve. Qed.

Lemma Keeps_IopMarkPageCacheEntryClean_pages K e Move :
  Keeps PagesKept (IopMarkPageCacheEntryClean K e Move).
Proof. keeps_solve. Qed.

Lemma Keeps_IopMarkPageCacheEntryDirty_results K e :
  Keeps ResultsKept (IopMarkPageCacheEntryDirty K e).
Proof. keeps_solve. Qed.

Lemma Keeps_IopMarkPageCacheEntryDirty_shape K e :
  Keeps ShapeKept (IopMarkPageCacheEntryDirty K e).
Proof. keeps_solve. Qed.

Lemma Keeps_IopMarkPageCacheEntryDirty_dirty K e :
  Keeps DirtyKept (IopMarkPageCacheEntryDirty K e).
Proof. keeps_solve. Qed.

Lemma Keeps_IopMarkPageCacheEntryDirty_pages K e :
  Keeps PagesKept (IopMarkPageCacheEntryDirty K e).
Proof. keeps_solve. Qed.

Lemma Keeps_IopMarkPageCacheEntryDirty_destroy K e :
  Keeps DestroyShrinks (IopMarkPageCacheEntryDirty K e).
Proof. keeps_solve. Qed.

(** ** Attaching a virtual address *)

(** C10. IoSetPageCacheEntryVirtualAddress returns FALSE and leaves the
    whole page cache (the entry, its owner, the counters) as it was
    whenever the entry already stores a virtual address, even another one
    than the one supplied, or virtual addresses are disabled; so a call
    that returns TRUE or changes anything has found the entry's stored
    virtual address NULL and virtual addresses enabled. *)
Theorem IoSetPageCacheEntryVirtualAddress_refused
    (K : KERNEL) (s : PAGE_CACHE) (e : nat) (x : PAGE_CACHE_ENTRY) (va : Z) :
  Entries s !! e = Some x ->
  (VirtualAddress x <> 0 \/ IoPageCacheDisableVirtualAddresses s = true ->
   IoSetPageCacheEntryVirtualAddress K e va s = Some (false, s))
  /\ (forall r s',
        IoSetPageCacheEntryVirtualAddress K e va s = Some (r, s') ->
        r = true \/ s' <> s ->
        VirtualAddress x = 0 /\ IoPageCacheDisableVirtualAddresses s = false).
Proof.
  intros He.
  assert (Hrefused :
    VirtualAddress x <> 0 \/ IoPageCacheDisableVirtualAddresses s = true ->
    IoSetPageCacheEntryVirtualAddress K e va s = Some (false, s)).
  { intros Hr. unfold IoSetPageCacheEntryVirtualAddress.
    rewrite (bind_run _ _ _ _ _ (Entry_run _ _ _ He)).
    rewrite (bind_run _ _ _ _ _ (eq_refl : gets _ s = Some (_, s))).
    destruct Hr as [Hva | Hd].
    - destruct (Z.eqb_spec (VirtualAddress x) 0); [contradiction|]. reflexivity.
    - rewrite Hd, orb_true_r. reflexivity. }
  split; [exact Hrefused|].
  intros r s' Hrun Hchanged.
  destruct (Z.eq_dec (VirtualAddress x) 0) as [Hva|Hva].
  - destruct (IoPageCacheDisableVirtualAddresses s) eqn:Hd; [|auto].
    rewrite Hrefused in Hrun by auto. inversion Hrun; subst.
    destruct Hchanged; [discriminate | contradiction].
  - rewrite Hrefused in Hrun by auto. inversion Hrun; subst.
    destruct Hchanged; [discriminate | contradiction].
Qed.

(** The entry of the file of a linked pair already stores the virtual
    address 0x7000; attaching 0x9000 to it is refused. *)
Lemma IoSetPageCacheEntryVirtualAddress_refused_witness :
  IoSetPageCacheEntryVirtualAddress TestKernel 1 0x9000 (LinkedPair 6)
  = Some (false, LinkedPair 6).
Proof.
  apply (proj1 (IoSetPageCacheEntryVirtualAddress_refused TestKernel
                  (LinkedPair 6) 1%nat
                  (TestEntry 1 0 0 (Some 0%nat) 1 0x7000) 0x9000 eq_refl)).
  left. simpl. lia.
Defined.

(** ** Linking two entries *)

(** C8. IopLinkPageCacheEntries is idempotent: with a lower entry of a
    block device and an upper entry of a cacheable file, it returns TRUE
    and changes nothing in the page cache when the upper entry is already
    backed by the lower one; and when they are not linked and the lower
    entry's reference count is not exactly one it returns FALSE, again
    changing nothing, so that both entries keep their own pages. *)
Theorem IopLinkPageCacheEntries_idempotent
    (K : KERNEL) (s : PAGE_CACHE) (LowerEntry UpperEntry : nat)
    (lo up : PAGE_CACHE_ENTRY) (lf uf : FILE_OBJECT) :
  Entries s !! LowerEntry = Some lo ->
  Entries s !! UpperEntry = Some up ->
  FileObjects s !! FileObject lo = Some lf ->
  FileObjects s !! FileObject up = Some uf ->
  PropertiesType lf = IoObjectBlockDevice ->
  IO_IS_CACHEABLE_FILE (PropertiesType uf) = true ->
  (BackingEntry up = Some LowerEntry ->
   IopLinkPageCacheEntries K LowerEntry UpperEntry s = Some (true, s))
  /\ (BackingEntry up <> Some LowerEntry -> ReferenceCount lo <> 1 ->
      IopLinkPageCacheEntries K LowerEntry UpperEntry s = Some (false, s)).
Proof.
  intros Hlo Hup Hlf Huf Hblock Hfile.
  assert (Hne : PropertiesType lf <> PropertiesType uf).
  { rewrite Hblock. intros Heq. rewrite <- Heq in Hfile. discriminate. }
  split.
  - intros Hlinked. unfold IopLinkPageCacheEntries.
    rewrite (bind_run _ _ _ _ _ (Entry_run _ _ _ Hlo)).
    rewrite (bind_run _ _ _ _ _ (Entry_run _ _ _ Hup)).
    rewrite (bind_run _ _ _ _ _ (File_run _ _ _ Hlf)).
    rewrite (bind_run _ _ _ _ _ (File_run _ _ _ Huf)).
    rewrite (bool_decide_eq_false_2 _ Hne).
    rewrite (bool_decide_eq_true_2 _ Hblock), Hfile. cbn [andb negb].
    rewrite (bool_decide_eq_true_2 _ Hlinked). reflexivity.
  - intros Hnot Href. unfold IopLinkPageCacheEntries.
    rewrite (bind_run _ _ _ _ _ (Entry_run _ _ _ Hlo)).
    rewrite (bind_run _ _ _ _ _ (Entry_run _ _ _ Hup)).
    rewrite (bind_run _ _ _ _ _ (File_run _ _ _ Hlf)).
    rewrite (bind_run _ _ _ _ _ (File_run _ _ _ Huf)).
    rewrite (bool_decide_eq_false_2 _ Hne).
    rewrite (bool_decide_eq_true_2 _ Hblock), Hfile. cbn [andb negb].
    rewrite (bool_decide_eq_false_2 _ Hnot).
    destruct (Z.eqb_spec (ReferenceCount lo) 1); [contradiction|]. reflexivity.
Qed.

(** Linking the linked pair again returns TRUE and changes nothing; linking
    two owners while the lower one has two references returns FALSE and
    changes nothing. *)
Lemma IopLinkPageCacheEntries_idempotent_witness :
  IopLinkPageCacheEntries TestKernel 0 1 (LinkedPair 6)
  = Some (true, LinkedPair 6)
  /\ IopLinkPageCacheEntries TestKernel 0 1 UnlinkedPair
     = Some (false, UnlinkedPair).
Proof.
  split.
  - apply (proj1 (IopLinkPageCacheEntries_idempotent TestKernel (LinkedPair 6)
                    0%nat 1%nat
                    (TestEntry 0 0 6 None 1 0x7000)
                    (TestEntry 1 0 0 (Some 0%nat) 1 0x7000)
                    (TestFile IoObjectBlockDevice 0x100000 false [0%nat])
                    (TestFile IoObjectRegularFile 0x1000 false [1%nat])
                    eq_refl eq_refl eq_refl eq_refl eq_refl eq_refl)).
    reflexivity.
  - apply (proj2 (IopLinkPageCacheEntries_idempotent TestKernel UnlinkedPair
                    0%nat 1%nat
                    (TestEntry 0 0 2 None 2 0)
                    (TestEntry 1 0 2 None 1 0)
                    (TestFile IoObjectBlockDevice 0x100000 false [0%nat])
                    (TestFile IoObjectRegularFile 0x1000 false [1%nat])
                    eq_refl eq_refl eq_refl eq_refl eq_refl eq_refl)).
    + simpl. discriminate.
    + simpl. lia.
Defined.

(** ** The physical pressure predicate *)

Lemma IopIsPageCacheTooBig_run (K : KERNEL) (s : PAGE_CACHE) (Free : option Z) :
  IopIsPageCacheTooBig K Free s
  = Some (if Globals s IoPageCachePhysicalPageCount
             <=? Globals s IoPageCacheMinimumPages
          then (false, Free)
          else if uintn K (MmGetTotalFreePhysicalPages K (Trace s))
                  >? Globals s IoPageCacheHeadroomPagesTrigger
          then (false, Free)
          else (true, match Free with
                      | Some _ => Some (uintn K (MmGetTotalFreePhysicalPages K
                                                   (Trace s)))
                      | None => None
                      end), s).
Proof.
  unfold IopIsPageCacheTooBig. run_prims.
  destruct (_ <=? _); [reflexivity|].
  destruct (_ >? _); reflexivity.
Qed.

Lemma uintn_small (K : KERNEL) (v : Z) :
  0 <= v < UINTN_MOD K -> uintn K v = v.
Proof. intros H. unfold uintn. apply Z.mod_small. exact H. Qed.

Lemma UINTN_MOD_pos (K : KERNEL) : 0 < UINTN_MOD K.
Proof. unfold UINTN_MOD. apply Z.pow_pos_nonneg; lia. Qed.

Lemma uintn_range (K : KERNEL) (v : Z) : 0 <= uintn K v < UINTN_MOD K.
Proof. unfold uintn. apply Z.mod_pos_bound. apply UINTN_MOD_pos. Qed.

Lemma PhysicalPagesPercent_exact (K : KERNEL) (Total Percent : Z) :
  0 <= Total -> 0 <= Percent -> Total * Percent < UINTN_MOD K ->
  PhysicalPagesPercent K Total Percent = Total * Percent / 100.
Proof.
  intros HT HP Hlt. unfold PhysicalPagesPercent.
  rewrite uintn_small by lia.
  assert (Total * Percent / 100 <= Total * Percent).
  { apply Z.div_le_upper_bound; nia. }
  unfold MAX_UINTN.
  destruct (Z.gtb_spec (Total * Percent / 100) (UINTN_MOD K - 1)); [lia|].
  reflexivity.
Qed.

(** C6 (amended). IopIsPageCacheTooBig does not fault or change the page
    cache, and it returns TRUE if and only if the physical page count is
    above the minimum and the number of free physical pages is at or below
    the trigger; and when the creations of IopInitializePageCache succeed
    on a machine whose page count times 33 fits in a UINTN, the trigger is
    10%, the retreat 15%, the minimum 7% and the minimum target 33% of the
    total number of physical pages (rounded down). *)
Theorem IopIsPageCacheTooBig_iff (K : KERNEL) (s : PAGE_CACHE) :
  KeCreateQueuedLock K = true -> KeCreateTimer K = true ->
  MmCreateBlockAllocator K = true ->
  0 <= MmGetTotalPhysicalPages K ->
  MmGetTotalPhysicalPages K * 33 < UINTN_MOD K ->
  (exists b, IopIsPageCacheTooBig K None s = Some (b, None, s)
             /\ (b = true <->
                 Globals s IoPageCachePhysicalPageCount
                 > Globals s IoPageCacheMinimumPages
                 /\ uintn K (MmGetTotalFreePhysicalPages K (Trace s))
                    <= Globals s IoPageCacheHeadroomPagesTrigger))
  /\ (exists s', IopInitializePageCache K s = Some (PsCreateKernelThread K, s')
        /\ Globals s' IoPageCacheHeadroomPagesTrigger
           = MmGetTotalPhysicalPages K * 10 / 100
        /\ Globals s' IoPageCacheHeadroomPagesRetreat
           = MmGetTotalPhysicalPages K * 15 / 100
        /\ Globals s' IoPageCacheMinimumPages
           = MmGetTotalPhysicalPages K * 7 / 100
        /\ Globals s' IoPageCacheMinimumPagesTarget
           = MmGetTotalPhysicalPages K * 33 / 100).
Proof.
  intros Hlock Htimer Halloc Hpos Hfit. split.
  - rewrite IopIsPageCacheTooBig_run.
    destruct (Z.leb_spec (Globals s IoPageCachePhysicalPageCount)
                         (Globals s IoPageCacheMinimumPages)) as [Hle|Hgt].
    + exists false. split; [reflexivity|]. split; [discriminate|lia].
    + destruct (Z.gtb_spec (uintn K (MmGetTotalFreePhysicalPages K (Trace s)))
                           (Globals s IoPageCacheHeadroomPagesTrigger)).
      * exists false. split; [reflexivity|]. split; [discriminate|lia].
      * exists true. split; [reflexivity|]. split; [lia|reflexivity].
  - unfold IopInitializePageCache. run_prims.
    rewrite Hlock, Htimer, Halloc. cbn [negb].
    rewrite (uintn_small K (MmGetTotalPhysicalPages K)) by lia.
    destruct (uintn K (MmGetTotalVirtualMemory K) <? MAX_ULONG);
      (eexists; split; [reflexivity|]);
      cbn [Globals with_Globals];
      repeat (rewrite fn_lookup_insert
              || (rewrite fn_lookup_insert_ne by discriminate));
      rewrite !PhysicalPagesPercent_exact
        by (unfold PAGE_CACHE_MEMORY_HEADROOM_PERCENT_TRIGGER,
              PAGE_CACHE_MEMORY_HEADROOM_PERCENT_RETREAT,
              PAGE_CACHE_MINIMUM_MEMORY_PERCENT,
              PAGE_CACHE_MINIMUM_MEMORY_TARGET_PERCENT; lia);
      auto.
Qed.

(** On the machine of 1000 physical pages the thresholds are 100, 150, 70
    and 330 pages, and a page cache of 500 pages with 50 pages free is too
    big. *)
Lemma IopIsPageCacheTooBig_iff_witness :
  (exists b, IopIsPageCacheTooBig TestKernel None (EmptyCache 500 0) =
             Some (b, None, EmptyCache 500 0)
             /\ (b = true <->
                 Globals (EmptyCache 500 0) IoPageCachePhysicalPageCount
                 > Globals (EmptyCache 500 0) IoPageCacheMinimumPages
                 /\ uintn TestKernel
                      (MmGetTotalFreePhysicalPages TestKernel
                         (Trace (EmptyCache 500 0)))
                    <= Globals (EmptyCache 500 0) IoPageCacheHeadroomPagesTrigger))
  /\ (exists s', IopInitializePageCache TestKernel (EmptyCache 500 0)
                 = Some (PsCreateKernelThread TestKernel, s')
        /\ Globals s' IoPageCacheHeadroomPagesTrigger = 1000 * 10 / 100
        /\ Globals s' IoPageCacheHeadroomPagesRetreat = 1000 * 15 / 100
        /\ Globals s' IoPageCacheMinimumPages = 1000 * 7 / 100
        /\ Globals s' IoPageCacheMinimumPagesTarget = 1000 * 33 / 100).
Proof.
  apply (IopIsPageCacheTooBig_iff TestKernel (EmptyCache 500 0)
           eq_refl eq_refl eq_refl); simpl; unfold UINTN_MOD; simpl; lia.
Defined.

(** The claim with a strict comparison fails: with 500 pages cached, a
    minimum of 70 and exactly as many free pages as the trigger, 100, the
    page cache is reported too big although the free pages are not below
    the trigger. *)
Lemma IopIsPageCacheTooBig_at_trigger :
  IopIsPageCacheTooBig (TestKernelWith 100 WriteAll) None (EmptyCache 500 0)
  = Some (true, None, EmptyCache 500 0)
  /\ ~ (Globals (EmptyCache 500 0) IoPageCachePhysicalPageCount
        > Globals (EmptyCache 500 0) IoPageCacheMinimumPages
        /\ MmGetTotalFreePhysicalPages (TestKernelWith 100 WriteAll)
             (Trace (EmptyCache 500 0))
           < Globals (EmptyCache 500 0) IoPageCacheHeadroomPagesTrigger).
Proof.
  split.
  - reflexivity.
  - simpl. vm_compute. intros [_ H]. discriminate H.
Qed.

(** ** Dirty tracking *)

(** What marking an owner dirty does to the page cache, field by field. *)
Lemma IopMarkPageCacheEntryDirty_owner
    (K : KERNEL) (s : PAGE_CACHE) (B : nat) (b : PAGE_CACHE_ENTRY)
    (f : FILE_OBJECT) :
  Entries s !! B = Some b ->
  FlagSet (Flags b) PAGE_CACHE_ENTRY_FLAG_PAGE_OWNER = true ->
  FlagSet (Flags b) PAGE_CACHE_ENTRY_FLAG_DIRTY = false ->
  FileObjects s !! FileObject b = Some f ->
  exists s',
    IopMarkPageCacheEntryDirty K B s = Some (true, s')
    /\ Entries s'
       = <[B := set_ListEntryNext true
                  (set_Flags (Z.lor (Flags b) PAGE_CACHE_ENTRY_FLAG_DIRTY) b)]>
           (Entries s)
    /\ FileObjects s' = <[FileObject b := set_DIRTY_DATA true f]> (FileObjects s)
    /\ (forall h,
          Lists s' h
          = (if ListEntryNext b then filter (fun x => x <> B) (Lists s h)
             else Lists s h)
            ++ (if decide (h = DirtyPageList (FileObject b)) then [B] else []))
    /\ Globals s' IoPageCacheDirtyPageCount
       = uintn K (Globals s IoPageCacheDirtyPageCount + 1)
    /\ Globals s' IoPageCacheMappedDirtyPageCount
       = (if FlagSet (Flags b) PAGE_CACHE_ENTRY_FLAG_MAPPED
          then uintn K (Globals s IoPageCacheMappedDirtyPageCount + 1)
          else Globals s IoPageCacheMappedDirtyPageCount)
    /\ (forall g, g <> IoPageCacheDirtyPageCount ->
                  g <> IoPageCacheMappedDirtyPageCount ->
                  Globals s' g = Globals s g)
    /\ IoPageCacheDisableVirtualAddresses s' = IoPageCacheDisableVirtualAddresses s
    /\ Trace s' = EvMarkFileObjectDirty (FileObject b) :: Trace s.
Proof.
  intros Hb Hown Hclean Hf.
  unfold IopMarkPageCacheEntryDirty.
  rewrite (bind_run _ _ _ _ _ (Entry_run _ _ _ Hb)).
  rewrite Hown. cbn [negb].
  rewrite (bind_run _ _ _ _ _ (eq_refl : ret B s = Some (B, s))).
  rewrite (bind_run _ _ _ _ _ (Entry_run _ _ _ Hb)).
  rewrite Hclean.
  rewrite (bind_run _ _ _ _ _ (RtlAtomicOr32_run _ _ _ _ Hb)).
  rewrite Hclean. cbn [negb].
  run_prims.
  destruct (FlagSet (Flags b) PAGE_CACHE_ENTRY_FLAG_MAPPED) eqn:Hmapped;
    run_prims; rewrite ?lookup_insert_eq; cbn [ListEntryNext set_Flags];
    destruct (ListEntryNext b) eqn:Hnext; run_prims;
    rewrite ?lookup_insert_eq; cbn [ListEntryNext set_Flags]; rewrite ?Hnext;
    run_prims; rewrite ?lookup_insert_eq; run_prims; rewrite ?lookup_insert_eq;
    unfold IopMarkFileObjectDirty; run_prims;
    cbn [FileObject set_ListEntryNext set_Flags]; rewrite Hf;
    (eexists; split; [reflexivity|]);
    cbn [Entries FileObjects Lists Globals Trace
         IoPageCacheDisableVirtualAddresses
         with_Entries with_FileObjects with_Lists with_Globals with_Trace];
    rewrite ?insert_insert_eq;
    (repeat split; try reflexivity;
     [ intros h; destruct (decide (h = DirtyPageList (FileObject b))) as [->|Hh];
       [ rewrite fn_lookup_insert; reflexivity
       | rewrite fn_lookup_insert_ne by congruence;
         rewrite app_nil_r; reflexivity ]
     | intros g Hg1 Hg2;
       repeat (rewrite fn_lookup_insert_ne by congruence); reflexivity ]).
Qed.

Lemma not_elem_of_filter_ne (B : nat) (l : list nat) :
  B ∉ filter (fun x => x <> B) l.
Proof. rewrite list_elem_of_filter. intros [Hne _]. apply Hne. reflexivity. Qed.

(** C1. Marking a non-owner dirty goes through to its backing owner: the
    owner gets the dirty flag and the entry itself is not touched.  On the
    owner's transition the dirty page count goes up by one (in UINTN
    arithmetic), the mapped dirty page count too if the owner was mapped,
    the owner is on neither global clean list any more but at the tail of
    the dirty list of its file object, that file object is marked dirty and
    the result is TRUE.  If the owner was dirty already the result is FALSE
    and nothing changes. *)
Theorem IoMarkPageCacheEntryDirty_through_backing
    (K : KERNEL) (s : PAGE_CACHE) (E B : nat) (x b : PAGE_CACHE_ENTRY)
    (f : FILE_OBJECT) :
  Entries s !! E = Some x ->
  FlagSet (Flags x) PAGE_CACHE_ENTRY_FLAG_PAGE_OWNER = false ->
  BackingEntry x = Some B ->
  Entries s !! B = Some b ->
  FlagSet (Flags b) PAGE_CACHE_ENTRY_FLAG_PAGE_OWNER = true ->
  FileObjects s !! FileObject b = Some f ->
  (ListEntryNext b = true \/ forall h, B ∉ Lists s h) ->
  (FlagSet (Flags b) PAGE_CACHE_ENTRY_FLAG_DIRTY = true ->
   IoMarkPageCacheEntryDirty K E s = Some (false, s))
  /\ (FlagSet (Flags b) PAGE_CACHE_ENTRY_FLAG_DIRTY = false ->
      exists s' b' f' l,
        IoMarkPageCacheEntryDirty K E s = Some (true, s')
        /\ Entries s' !! B = Some b'
        /\ FlagSet (Flags b') PAGE_CACHE_ENTRY_FLAG_DIRTY = true
        /\ Entries s' !! E = Some x
        /\ Globals s' IoPageCacheDirtyPageCount
           = uintn K (Globals s IoPageCacheDirtyPageCount + 1)
        /\ Globals s' IoPageCacheMappedDirtyPageCount
           = (if FlagSet (Flags b) PAGE_CACHE_ENTRY_FLAG_MAPPED
              then uintn K (Globals s IoPageCacheMappedDirtyPageCount + 1)
              else Globals s IoPageCacheMappedDirtyPageCount)
        /\ (B ∉ Lists s' IoPageCacheCleanList)
        /\ (B ∉ Lists s' IoPageCacheCleanUnmappedList)
        /\ Lists s' (DirtyPageList (FileObject b)) = l ++ [B] /\ (B ∉ l)
        /\ FileObjects s' !! FileObject b = Some f'
        /\ FILE_OBJECT_FLAG_DIRTY_DATA f' = true).
Proof.
  intros HE Hno HB Hb Hown Hf Hlist.
  assert (Hne : E <> B).
  { intros ->. rewrite HE in Hb. inversion Hb; subst. congruence. }
  assert (Hstart :
    IoMarkPageCacheEntryDirty K E s
    = (if FlagSet (Flags b) PAGE_CACHE_ENTRY_FLAG_DIRTY then ret false
       else IopMarkPageCacheEntryDirty K B) s).
  { unfold IoMarkPageCacheEntryDirty.
    rewrite (bind_run _ _ _ _ _ (Entry_run _ _ _ HE)).
    rewrite Hno, HB. cbn [negb Pointer].
    rewrite (bind_run _ _ _ _ _ (eq_refl : ret B s = Some (B, s))).
    rewrite (bind_run _ _ _ _ _ (Entry_run _ _ _ Hb)).
    destruct (FlagSet (Flags b) PAGE_CACHE_ENTRY_FLAG_DIRTY); [reflexivity|].
    destruct (BackingEntry b).
    - erewrite bind_run; [reflexivity|].
      rewrite (bind_run _ _ _ _ _ (Entry_run _ _ _ HE)). rewrite HB.
      reflexivity.
    - rewrite (bind_run _ _ _ _ _ (eq_refl : ret B s = Some (B, s))).
      reflexivity. }
  split.
  - intros Hdirty. rewrite Hstart, Hdirty. reflexivity.
  - intros Hclean. rewrite Hstart, Hclean.
    destruct (IopMarkPageCacheEntryDirty_owner K s B b f Hb Hown Hclean Hf)
      as (s' & Hrun & HEn & HFo & HL & HD & HMD & _ & _ & _).
    exists s',
      (set_ListEntryNext true
         (set_Flags (Z.lor (Flags b) PAGE_CACHE_ENTRY_FLAG_DIRTY) b)),
      (set_DIRTY_DATA true f),
      (if ListEntryNext b
       then filter (fun x => x <> B) (Lists s (DirtyPageList (FileObject b)))
       else Lists s (DirtyPageList (FileObject b))).
    split; [exact Hrun|].
    split; [rewrite HEn; apply lookup_insert_eq|].
    split; [cbn [Flags set_ListEntryNext set_Flags];
            apply (proj1 (FlagSet_set_DIRTY (Flags b)))|].
    split; [rewrite HEn, lookup_insert_ne by congruence; exact HE|].
    split; [exact HD|]. split; [exact HMD|].
    assert (Hgone : forall h,
      B ∉ (if ListEntryNext b then filter (fun x => x <> B) (Lists s h)
           else Lists s h)).
    { intros h. destruct Hlist as [Hnext | Hnone].
      - rewrite Hnext. apply not_elem_of_filter_ne.
      - destruct (ListEntryNext b); [apply not_elem_of_filter_ne | apply Hnone]. }
    split; [rewrite HL; rewrite decide_False by discriminate;
            rewrite app_nil_r; apply Hgone|].
    split; [rewrite HL; rewrite decide_False by discriminate;
            rewrite app_nil_r; apply Hgone|].
    split; [rewrite HL; rewrite decide_True by reflexivity; reflexivity|].
    split; [apply Hgone|].
    split; [rewrite HFo; apply lookup_insert_eq|]. reflexivity.
Qed.

(** The linked pair: marking the file's entry dirty while the owner is
    clean, and again once the owner is dirty. *)
Lemma IoMarkPageCacheEntryDirty_through_backing_witness :
  (FlagSet 6 PAGE_CACHE_ENTRY_FLAG_DIRTY = false ->
   exists s' b' f' l,
     IoMarkPageCacheEntryDirty TestKernel 1 (LinkedPair 6) = Some (true, s')
     /\ Entries s' !! 0%nat = Some b'
     /\ FlagSet (Flags b') PAGE_CACHE_ENTRY_FLAG_DIRTY = true
     /\ Entries s' !! 1%nat = Some (TestEntry 1 0 0 (Some 0%nat) 1 0x7000)
     /\ Globals s' IoPageCacheDirtyPageCount
        = uintn TestKernel (Globals (LinkedPair 6) IoPageCacheDirtyPageCount + 1)
     /\ Globals s' IoPageCacheMappedDirtyPageCount
        = (if FlagSet 6 PAGE_CACHE_ENTRY_FLAG_MAPPED
           then uintn TestKernel
                  (Globals (LinkedPair 6) IoPageCacheMappedDirtyPageCount + 1)
           else Globals (LinkedPair 6) IoPageCacheMappedDirtyPageCount)
     /\ (0%nat ∉ Lists s' IoPageCacheCleanList)
     /\ (0%nat ∉ Lists s' IoPageCacheCleanUnmappedList)
     /\ Lists s' (DirtyPageList 0) = l ++ [0%nat] /\ (0%nat ∉ l)
     /\ FileObjects s' !! 0%nat = Some f'
     /\ FILE_OBJECT_FLAG_DIRTY_DATA f' = true)
  /\ IoMarkPageCacheEntryDirty TestKernel 1 (LinkedPair 7)
     = Some (false, LinkedPair 7).
Proof.
  split.
  - apply (proj2 (IoMarkPageCacheEntryDirty_through_backing TestKernel
                    (LinkedPair 6) 1%nat 0%nat
                    (TestEntry 1 0 0 (Some 0%nat) 1 0x7000)
                    (TestEntry 0 0 6 None 1 0x7000)
                    (TestFile IoObjectBlockDevice 0x100000 false [0%nat])
                    eq_refl eq_refl eq_refl eq_refl eq_refl eq_refl
                    (or_introl eq_refl))).
  - apply (proj1 (IoMarkPageCacheEntryDirty_through_backing TestKernel
                    (LinkedPair 7) 1%nat 0%nat
                    (TestEntry 1 0 0 (Some 0%nat) 1 0x7000)
                    (TestEntry 0 0 7 None 1 0x7000)
                    (TestFile IoObjectBlockDevice 0x100000 false [0%nat])
                    eq_refl eq_refl eq_refl eq_refl eq_refl eq_refl
                    (or_introl eq_refl))).
    reflexivity.
Defined.

Lemma uintn_add_MAX_UINTN (K : KERNEL) (c : Z) :
  uintn K (c + MAX_UINTN K) = uintn K (c - 1).
Proof.
  unfold uintn, MAX_UINTN.
  replace (c + (UINTN_MOD K - 1)) with (c - 1 + 1 * UINTN_MOD K) by lia.
  apply Z_mod_plus_full.
Qed.

(** What marking an entry clean does to the page cache, field by field. *)
Lemma IopMarkPageCacheEntryClean_run
    (K : KERNEL) (s : PAGE_CACHE) (e : nat) (x : PAGE_CACHE_ENTRY)
    (MoveToCleanList : bool) :
  Entries s !! e = Some x ->
  (FlagSet (Flags x) PAGE_CACHE_ENTRY_FLAG_DIRTY = false ->
   IopMarkPageCacheEntryClean K e MoveToCleanList s = Some (false, s))
  /\ (FlagSet (Flags x) PAGE_CACHE_ENTRY_FLAG_DIRTY = true ->
      ListEntryNext x = false ->
      IopMarkPageCacheEntryClean K e MoveToCleanList s = None)
  /\ (FlagSet (Flags x) PAGE_CACHE_ENTRY_FLAG_DIRTY = true ->
      ListEntryNext x = true ->
      exists s',
        IopMarkPageCacheEntryClean K e MoveToCleanList s = Some (true, s')
        /\ Entries s'
           = <[e := set_ListEntryNext MoveToCleanList
                      (set_Flags (Z.land (Flags x)
                                    (ULONG_NOT PAGE_CACHE_ENTRY_FLAG_DIRTY)) x)]>
               (Entries s)
        /\ FileObjects s' = FileObjects s
        /\ (forall h,
              Lists s' h
              = filter (fun y => y <> e) (Lists s h)
                ++ (if MoveToCleanList
                    then if decide (h = IoPageCacheCleanList) then [e] else []
                    else []))
        /\ Globals s' IoPageCacheDirtyPageCount
           = uintn K (Globals s IoPageCacheDirtyPageCount - 1)
        /\ Globals s' IoPageCacheMappedDirtyPageCount
           = (if FlagSet (Flags x) PAGE_CACHE_ENTRY_FLAG_MAPPED
              then uintn K (Globals s IoPageCacheMappedDirtyPageCount - 1)
              else Globals s IoPageCacheMappedDirtyPageCount)
        /\ (forall g, g <> IoPageCacheDirtyPageCount ->
                      g <> IoPageCacheMappedDirtyPageCount ->
                      Globals s' g = Globals s g)
        /\ IoPageCacheDisableVirtualAddresses s'
           = IoPageCacheDisableVirtualAddresses s
        /\ Trace s' = Trace s).
Proof.
  intros He. split; [|split]; intros Hd; [|intros Hn..];
    unfold IopMarkPageCacheEntryClean;
    rewrite (bind_run _ _ _ _ _ (Entry_run _ _ _ He)); rewrite Hd; cbn [negb].
  - reflexivity.
  - rewrite (bind_run _ _ _ _ _ (RtlAtomicAnd32_run _ _ _ _ He)).
    rewrite Hd. run_prims.
    destruct (FlagSet (Flags x) PAGE_CACHE_ENTRY_FLAG_MAPPED);
      run_prims; rewrite ?lookup_insert_eq;
      cbn [ListEntryNext set_Flags]; rewrite Hn; reflexivity.
  - rewrite (bind_run _ _ _ _ _ (RtlAtomicAnd32_run _ _ _ _ He)).
    rewrite Hd. run_prims.
    destruct (FlagSet (Flags x) PAGE_CACHE_ENTRY_FLAG_MAPPED) eqn:Hmapped;
      run_prims; rewrite ?lookup_insert_eq;
      cbn [ListEntryNext set_Flags]; rewrite Hn; run_prims;
      rewrite ?lookup_insert_eq;
      destruct MoveToCleanList; run_prims; rewrite ?lookup_insert_eq;
      (eexists; split; [reflexivity|]);
      cbn [Entries FileObjects Lists Globals Trace
           IoPageCacheDisableVirtualAddresses
           with_Entries with_FileObjects with_Lists with_Globals with_Trace
           set_ListEntryNext set_Flags ListEntryNext];
      rewrite ?insert_insert_eq;
      (split; [reflexivity|]); (split; [reflexivity|]);
      (split;
       [ intros h;
         try (destruct (decide (h = IoPageCacheCleanList)) as [->|Hh];
              [ rewrite fn_lookup_insert; reflexivity
              | rewrite fn_lookup_insert_ne by congruence ]);
         rewrite app_nil_r; reflexivity |]);
      (split;
       [ repeat (rewrite fn_lookup_insert_ne by discriminate);
         rewrite fn_lookup_insert; apply uintn_add_MAX_UINTN |]);
      (split;
       [ repeat first [ rewrite fn_lookup_insert
                      | rewrite fn_lookup_insert_ne by discriminate ];
         try apply uintn_add_MAX_UINTN; reflexivity |]);
      (split;
       [ intros g Hg1 Hg2;
         repeat (rewrite fn_lookup_insert_ne by congruence); reflexivity |]);
      split; reflexivity.
Qed.
Lemma bind_fault {A B} (m : M A) (k : A -> M B) s :
  m s = None -> bind m k s = None.
Proof. intros H. unfold bind. rewrite H. reflexivity. Qed.

Section MarkCleanSteps.

Variables (K : KERNEL) (e : nat) (Move : bool).
Context {A : Type} (k : MARK_CLEAN_POINT -> M A).

Lemma MarkCleanSteps_step n p s p' s' :
  MarkCleanStep K e Move p s = Some (p', s') ->
  bind (MarkCleanSteps K (S n) e Move p) k s
  = bind (MarkCleanSteps K n e Move p') k s'.
Proof.
  intros H. cbn [MarkCleanSteps]. unfold bind at 1 2. rewrite H. reflexivity.
Qed.

Lemma MarkCleanSteps_fault n p s :
  MarkCleanStep K e Move p s = None ->
  bind (MarkCleanSteps K (S n) e Move p) k s = None.
Proof.
  intros H. cbn [MarkCleanSteps]. unfold bind at 1 2. rewrite H. reflexivity.
Qed.

Lemma MarkCleanSteps_returned n r s :
  bind (MarkCleanSteps K n e Move (MarkCleanReturned r)) k s
  = k (MarkCleanReturned r) s.
Proof.
  induction n as [|n IH]; [reflexivity|].
  rewrite (MarkCleanSteps_step n (MarkCleanReturned r) s
             (MarkCleanReturned r) s eq_refl).
  exact IH.
Qed.

End MarkCleanSteps.

(** The routine is the run of the steps of one caller that no other caller
    interrupts. *)
Lemma IopMarkPageCacheEntryClean_steps K e Move s :
  IopMarkPageCacheEntryClean K e Move s
  = (Point <- MarkCleanSteps K 5 e Move MarkCleanEntered ;;
     match Point with
     | MarkCleanReturned MarkedClean => ret MarkedClean
     | _ => fault
     end) s.
Proof.
  unfold IopMarkPageCacheEntryClean.
  destruct (Entries s !! e) as [x|] eqn:He.
  2:{ assert (Hf : Entry e s = None) by (unfold Entry; rewrite He; reflexivity).
      rewrite (bind_fault _ _ _ Hf). symmetry.
      apply MarkCleanSteps_fault. apply bind_fault. exact Hf. }
  rewrite (bind_run _ _ _ _ _ (Entry_run _ _ _ He)).
  destruct (FlagSet (Flags x) PAGE_CACHE_ENTRY_FLAG_DIRTY) eqn:Hd; cbn [negb].
  2:{ rewrite (MarkCleanSteps_step K e Move _ 4 MarkCleanEntered s
                 (MarkCleanReturned false) s).
      - rewrite MarkCleanSteps_returned. reflexivity.
      - cbn [MarkCleanStep].
        rewrite (bind_run _ _ _ _ _ (Entry_run _ _ _ He)), Hd. reflexivity. }
  erewrite (MarkCleanSteps_step K e Move _ 4 MarkCleanEntered s).
  2:{ cbn [MarkCleanStep].
      rewrite (bind_run _ _ _ _ _ (Entry_run _ _ _ He)), Hd. reflexivity. }
  rewrite (bind_run _ _ _ _ _ (RtlAtomicAnd32_run _ _ _ _ He)), Hd.
  erewrite (MarkCleanSteps_step K e Move _ 3 MarkCleanChecked s).
  2:{ cbn [MarkCleanStep].
      rewrite (bind_run _ _ _ _ _ (RtlAtomicAnd32_run _ _ _ _ He)), Hd.
      reflexivity. }
  set (s1 := with_Entries _ s).
  rewrite (bind_run _ _ _ _ _ (eq_refl : RtlAtomicAdd K _ _ s1 = Some (tt, _))).
  erewrite (MarkCleanSteps_step K e Move _ 2 (MarkCleanCleared _) s1);
    [|reflexivity].
  set (s2 := with_Globals _ s1).
  destruct (when (FlagSet (Flags x) PAGE_CACHE_ENTRY_FLAG_MAPPED)
              (RtlAtomicAdd K IoPageCacheMappedDirtyPageCount (MAX_UINTN K)) s2)
    as [[[] s3]|] eqn:Hw;
    [|destruct (FlagSet (Flags x) PAGE_CACHE_ENTRY_FLAG_MAPPED); discriminate].
  rewrite (bind_run _ _ _ _ _ Hw).
  erewrite (MarkCleanSteps_step K e Move _ 1 (MarkCleanCounted _) s2).
  2:{ cbn [MarkCleanStep]. rewrite (bind_run _ _ _ _ _ Hw). reflexivity. }
  cbn [MarkCleanSteps MarkCleanStep]. unfold bind, ret.
  destruct (LIST_REMOVE e s3) as [[[] s4]|]; [|reflexivity].
  destruct (UpdateEntry e (set_ListEntryNext false) s4) as [[[] s5]|];
    [|reflexivity].
  destruct (when Move (INSERT_BEFORE e IoPageCacheCleanList) s5)
    as [[[] s6]|]; reflexivity.
Qed.

(** *** Callers racing on one entry *)

Lemma MarkCleanSum_insert f Callers i c c' :
  Callers !! i = Some c ->
  (MarkCleanSum f (<[i := c']> Callers) + f (snd c)
   = MarkCleanSum f Callers + f (snd c'))%nat.
Proof.
  unfold MarkCleanSum. revert i.
  induction Callers as [|a l IH]; intros i H; [discriminate|].
  destruct i as [|i]; simpl in H.
  - inversion H; subst. simpl. lia.
  - pose proof (IH i H) as IH'. simpl. simpl in IH'. lia.
Qed.

Lemma MarkCleanSum_lookup f Callers i c :
  Callers !! i = Some c -> (f (snd c) <= MarkCleanSum f Callers)%nat.
Proof.
  unfold MarkCleanSum. revert i.
  induction Callers as [|a l IH]; intros i H; [discriminate|].
  destruct i as [|i]; simpl in H.
  - inversion H; subst. simpl. lia.
  - pose proof (IH i H) as IH'. simpl. simpl in IH'. lia.
Qed.

Lemma MarkCleanSum_le f g Callers :
  (forall p, (f p <= g p)%nat) ->
  (MarkCleanSum f Callers <= MarkCleanSum g Callers)%nat.
Proof.
  intros H. unfold MarkCleanSum.
  induction Callers as [|a l IH]; cbn; [lia|]. specialize (H (snd a)). lia.
Qed.

Lemma MarkCleanSum_zero f Callers :
  (forall c, c ∈ Callers -> f (snd c) = 0%nat) -> MarkCleanSum f Callers = 0%nat.
Proof.
  unfold MarkCleanSum. induction Callers as [|a l IH]; intros H; [reflexivity|].
  cbn. rewrite (H a) by apply list_elem_of_here.
  apply IH. intros c Hc. apply H. apply list_elem_of_further. exact Hc.
Qed.

Lemma elem_of_insert_caller (Callers : list (bool * MARK_CLEAN_POINT)) i c' c :
  c ∈ <[i := c']> Callers -> c = c' \/ c ∈ Callers.
Proof.
  revert i. induction Callers as [|a l IH]; intros i H; [inversion H|].
  destruct i as [|i]; cbn in H; apply elem_of_cons in H.
  - destruct H as [->|H]; [left; reflexivity|].
    right. apply list_elem_of_further. exact H.
  - destruct H as [->|H]; [right; apply list_elem_of_here|].
    destruct (IH i H) as [->|Hin]; [left; reflexivity|].
    right. apply list_elem_of_further. exact Hin.
Qed.

Lemma DirtyBit_lookup s e x :
  Entries s !! e = Some x ->
  DirtyBit s e = FlagSet (Flags x) PAGE_CACHE_ENTRY_FLAG_DIRTY.
Proof. intros H. unfold DirtyBit. rewrite H. reflexivity. Qed.

(** The invariant of the race holds at the start, with every caller at the
    entry of the routine. *)
Lemma MarkCleanInv_start K e s x Callers :
  Entries s !! e = Some x ->
  (FlagSet (Flags x) PAGE_CACHE_ENTRY_FLAG_DIRTY = true ->
   ListEntryNext x = true) ->
  (forall c, c ∈ Callers -> snd c = MarkCleanEntered) ->
  MarkCleanInv K e s Callers s.
Proof.
  intros Hx Hn Hall. exists x. split; [exact Hx|].
  assert (Hz : forall f, f MarkCleanEntered = 0%nat ->
                         MarkCleanSum f Callers = 0%nat).
  { intros f Hf. apply MarkCleanSum_zero. intros c Hc.
    rewrite (Hall c Hc). exact Hf. }
  rewrite !Hz by reflexivity.
  split; [reflexivity|].
  split; [intros _ c Hc; left; apply Hall; exact Hc|].
  split; [|reflexivity].
  intros [Hlt|Hd]; [lia|]. apply Hn.
  rewrite <- (DirtyBit_lookup s e x Hx). exact Hd.
Qed.

Lemma DirtyBit_with_Globals s g e : DirtyBit (with_Globals g s) e = DirtyBit s e.
Proof. reflexivity. Qed.

(** Every step of a caller returns and keeps the invariant of the race. *)
Lemma MarkCleanInv_step K e s0 Callers s i Move p :
  MarkCleanInv K e s0 Callers s -> Callers !! i = Some (Move, p) ->
  exists p' s',
    MarkCleanStep K e Move p s = Some (p', s')
    /\ MarkCleanInv K e s0 (<[i := (Move, p')]> Callers) s'.
Proof.
  intros (x & Hx & Htok & Hbefore & Hnext & Hcount) Hi.
  pose proof (DirtyBit_lookup s e x Hx) as Hbit.
  assert (Hsum : forall f p',
            (MarkCleanSum f (<[i := (Move, p')]> Callers) + f p
             = MarkCleanSum f Callers + f p')%nat).
  { intros f p'. apply (MarkCleanSum_insert f Callers i (Move, p) (Move, p')).
    exact Hi. }
  assert (Hle : forall f, (f p <= MarkCleanSum f Callers)%nat).
  { intros f. apply (MarkCleanSum_lookup f Callers i (Move, p) Hi). }
  assert (Hin : forall p' c, c ∈ <[i := (Move, p')]> Callers ->
                             snd c = p' \/ c ∈ Callers).
  { intros p' c Hc. destruct (elem_of_insert_caller _ _ _ _ Hc) as [->|H];
      [left; reflexivity | right; exact H]. }
  assert (Hself : (Move, p) ∈ Callers)
    by (eapply list_elem_of_lookup_2; exact Hi).
  destruct p as [| |old|old| |r].
  - (* the quick exit check *)
    cbn [MarkCleanStep].
    rewrite (bind_run _ _ _ _ _ (Entry_run _ _ _ Hx)).
    destruct (FlagSet (Flags x) PAGE_CACHE_ENTRY_FLAG_DIRTY) eqn:Hd; cbn [negb];
      (eexists _, s; split; [reflexivity|]); exists x; (split; [exact Hx|]).
    + pose proof (Hsum MarkCleanToken MarkCleanChecked) as H1.
      pose proof (Hsum MarkCleanPending MarkCleanChecked) as H2.
      pose proof (Hsum MarkCleanCounts MarkCleanChecked) as H3.
      cbn in H1, H2, H3.
      split; [lia|]. split.
      { intros Hb c Hc. destruct (Hin _ _ Hc) as [->|Hc'];
          [right; reflexivity | apply Hbefore; assumption]. }
      split; [intros _; apply Hnext; right; congruence|].
      replace (MarkCleanSum MarkCleanCounts
                 (<[i := (Move, MarkCleanChecked)]> Callers))
        with (MarkCleanSum MarkCleanCounts Callers) by lia.
      exact Hcount.
    + pose proof (Hsum MarkCleanToken (MarkCleanReturned false)) as H1.
      pose proof (Hsum MarkCleanPending (MarkCleanReturned false)) as H2.
      pose proof (Hsum MarkCleanCounts (MarkCleanReturned false)) as H3.
      cbn in H1, H2, H3.
      split; [lia|]. split; [congruence|].
      split; [intros [Hp|Hb]; [apply Hnext; left; lia | congruence]|].
      replace (MarkCleanSum MarkCleanCounts
                 (<[i := (Move, MarkCleanReturned false)]> Callers))
        with (MarkCleanSum MarkCleanCounts Callers) by lia.
      exact Hcount.
  - (* the atomic operation *)
    cbn [MarkCleanStep].
    rewrite (bind_run _ _ _ _ _ (RtlAtomicAnd32_run _ _ _ _ Hx)).
    set (x' := set_Flags _ x). set (s' := with_Entries _ s).
    assert (Hx' : Entries s' !! e = Some x') by apply lookup_insert_eq.
    assert (Hbit' : DirtyBit s' e = false).
    { rewrite (DirtyBit_lookup s' e x' Hx').
      apply (proj1 (FlagSet_clear_DIRTY (Flags x))). }
    assert (Hg : Globals s' = Globals s) by reflexivity.
    destruct (FlagSet (Flags x) PAGE_CACHE_ENTRY_FLAG_DIRTY) eqn:Hd;
      (eexists _, s'; split; [reflexivity|]); exists x'; (split; [exact Hx'|]);
      rewrite Hbit', Hg.
    + pose proof (Hsum MarkCleanToken (MarkCleanCleared (Flags x))) as H1.
      pose proof (Hsum MarkCleanPending (MarkCleanCleared (Flags x))) as H2.
      pose proof (Hsum MarkCleanCounts (MarkCleanCleared (Flags x))) as H3.
      cbn in H1, H2, H3. rewrite Hbit in Htok.
      split; [lia|]. split; [discriminate|].
      split; [intros _; apply Hnext; right; congruence|].
      replace (MarkCleanSum MarkCleanCounts
                 (<[i := (Move, MarkCleanCleared (Flags x))]> Callers))
        with (MarkCleanSum MarkCleanCounts Callers) by lia.
      exact Hcount.
    + pose proof (Hsum MarkCleanToken (MarkCleanReturned false)) as H1.
      pose proof (Hsum MarkCleanPending (MarkCleanReturned false)) as H2.
      pose proof (Hsum MarkCleanCounts (MarkCleanReturned false)) as H3.
      cbn in H1, H2, H3. rewrite Hbit in Htok.
      split; [lia|]. split; [discriminate|].
      split; [intros [Hp|Hb]; [apply Hnext; left; lia | discriminate]|].
      replace (MarkCleanSum MarkCleanCounts
                 (<[i := (Move, MarkCleanReturned false)]> Callers))
        with (MarkCleanSum MarkCleanCounts Callers) by lia.
      exact Hcount.
  - (* the dirty page count *)
    cbn [MarkCleanStep].
    eexists _, _. split; [reflexivity|]. exists x. split; [exact Hx|].
    rewrite DirtyBit_with_Globals.
    pose proof (Hsum MarkCleanToken (MarkCleanCounted old)) as H1.
    pose proof (Hsum MarkCleanPending (MarkCleanCounted old)) as H2.
    pose proof (Hsum MarkCleanCounts (MarkCleanCounted old)) as H3.
    cbn in H1, H2, H3.
    split; [lia|]. split.
    { intros Hb. specialize (Hbefore Hb _ Hself). destruct Hbefore; discriminate. }
    split; [intros _; apply Hnext; left;
            pose proof (Hle MarkCleanPending); cbn in *; lia|].
    cbn [Globals with_Globals]. rewrite fn_lookup_insert.
    replace (MarkCleanSum MarkCleanCounts
               (<[i := (Move, MarkCleanCounted old)]> Callers))
      with (S (MarkCleanSum MarkCleanCounts Callers)) by lia.
    rewrite Nat.iter_succ, <- Hcount. apply uintn_add_MAX_UINTN.
  - (* the mapped dirty page count *)
    cbn [MarkCleanStep].
    assert (Hw : exists s',
              when (FlagSet old PAGE_CACHE_ENTRY_FLAG_MAPPED)
                (RtlAtomicAdd K IoPageCacheMappedDirtyPageCount (MAX_UINTN K)) s
              = Some (tt, s')
              /\ Entries s' = Entries s
              /\ Globals s' IoPageCacheDirtyPageCount
                 = Globals s IoPageCacheDirtyPageCount).
    { destruct (FlagSet old PAGE_CACHE_ENTRY_FLAG_MAPPED);
        (eexists; split; [reflexivity|]); split; reflexivity. }
    destruct Hw as (s' & Hw & HE & HG).
    rewrite (bind_run _ _ _ _ _ Hw).
    eexists _, s'. split; [reflexivity|]. exists x.
    assert (Hx' : Entries s' !! e = Some x) by (rewrite HE; exact Hx).
    split; [exact Hx'|].
    assert (Hbit' : DirtyBit s' e = DirtyBit s e)
      by (unfold DirtyBit; rewrite HE; reflexivity).
    rewrite Hbit', HG.
    pose proof (Hsum MarkCleanToken MarkCleanListLock) as H1.
    pose proof (Hsum MarkCleanPending MarkCleanListLock) as H2.
    pose proof (Hsum MarkCleanCounts MarkCleanListLock) as H3.
    cbn in H1, H2, H3.
    split; [lia|]. split.
    { intros Hb. specialize (Hbefore Hb _ Hself). destruct Hbefore; discriminate. }
    split; [intros _; apply Hnext; left;
            pose proof (Hle MarkCleanPending); cbn in *; lia|].
    replace (MarkCleanSum MarkCleanCounts
               (<[i := (Move, MarkCleanListLock)]> Callers))
      with (MarkCleanSum MarkCleanCounts Callers) by lia.
    exact Hcount.
  - (* the list manipulation *)
    cbn [MarkCleanStep].
    assert (Hn : ListEntryNext x = true).
    { apply Hnext. left. pose proof (Hle MarkCleanPending). cbn in *. lia. }
    assert (Hclean : DirtyBit s e = false).
    { destruct (DirtyBit s e) eqn:Hb; [|reflexivity].
      specialize (Hbefore eq_refl _ Hself). destruct Hbefore; discriminate. }
    rewrite (bind_run _ _ _ _ _ (LIST_REMOVE_run _ _ _ Hx Hn)).
    set (s1 := with_Lists _ s).
    assert (Hx1 : Entries s1 !! e = Some x) by exact Hx.
    rewrite (bind_run _ _ _ _ _ (UpdateEntry_run _ _ _ _ Hx1)).
    set (s2 := with_Entries _ s1).
    assert (Hx2 : Entries s2 !! e = Some (set_ListEntryNext false x))
      by apply lookup_insert_eq.
    assert (Hw : exists s' x',
              when Move (INSERT_BEFORE e IoPageCacheCleanList) s2 = Some (tt, s')
              /\ Entries s' !! e = Some x' /\ Flags x' = Flags x
              /\ Globals s' = Globals s).
    { destruct Move.
      - unfold when, INSERT_BEFORE.
        rewrite (bind_run _ _ _ _ _ (UpdateEntry_run _ _ _ _ Hx2)).
        eexists _, _. split; [reflexivity|].
        split; [apply lookup_insert_eq|]. split; reflexivity.
      - eexists _, _. split; [reflexivity|]. split; [exact Hx2|].
        split; reflexivity. }
    destruct Hw as (s' & x' & Hw & Hx' & Hfl & HG).
    rewrite (bind_run _ _ _ _ _ Hw).
    eexists _, s'. split; [reflexivity|]. exists x'. split; [exact Hx'|].
    assert (Hbit' : DirtyBit s' e = false).
    { rewrite (DirtyBit_lookup s' e x' Hx'), Hfl, <- Hbit. exact Hclean. }
    rewrite Hbit', HG. rewrite Hclean in Htok.
    pose proof (Hsum MarkCleanToken (MarkCleanReturned true)) as H1.
    pose proof (Hsum MarkCleanPending (MarkCleanReturned true)) as H2.
    pose proof (Hsum MarkCleanCounts (MarkCleanReturned true)) as H3.
    pose proof (MarkCleanSum_le MarkCleanPending MarkCleanToken
                  (<[i := (Move, MarkCleanReturned true)]> Callers)) as H4.
    cbn in H1, H2, H3.
    split; [lia|]. split; [discriminate|].
    split.
    { intros [Hp|Hb]; [|discriminate]. exfalso.
      assert (MarkCleanSum MarkCleanPending Callers
              <= MarkCleanSum MarkCleanToken Callers)%nat.
      { apply MarkCleanSum_le. intros [| | | | |[]]; cbn; lia. }
      destruct (DirtyBit s0 e); lia. }
    replace (MarkCleanSum MarkCleanCounts
               (<[i := (Move, MarkCleanReturned true)]> Callers))
      with (MarkCleanSum MarkCleanCounts Callers) by lia.
    exact Hcount.
  - (* a caller that has returned *)
    cbn [MarkCleanStep]. eexists _, s. split; [reflexivity|].
    rewrite list_insert_id by exact Hi.
    exists x. auto.
Qed.

(** Whatever the schedule, the callers run without a fault and keep the
    invariant of the race. *)
Lemma MarkCleanInterleaved_inv K e s0 Schedule :
  forall Callers s,
    MarkCleanInv K e s0 Callers s ->
    exists Callers' s',
      MarkCleanInterleaved K e Schedule Callers s = Some (Callers', s')
      /\ MarkCleanInv K e s0 Callers' s'.
Proof.
  induction Schedule as [|i rest IH]; intros Callers s Hinv.
  - exists Callers, s. split; [reflexivity | exact Hinv].
  - cbn [MarkCleanInterleaved].
    destruct (Callers !! i) as [[Move p]|] eqn:Hi; [|apply IH; exact Hinv].
    destruct (MarkCleanInv_step K e s0 Callers s i Move p Hinv Hi)
      as (p' & s' & Hstep & Hinv').
    rewrite (bind_run _ _ _ _ _ Hstep). apply IH. exact Hinv'.
Qed.

(** C2. IopMarkPageCacheEntryClean, on an entry that if dirty is on a list,
    returns TRUE if and only if it took the entry from dirty to clean.  On
    that transition the dirty page count goes down by one (in UINTN
    arithmetic), the mapped dirty page count too if the entry was mapped,
    the entry leaves the dirty list of its file object (and any other
    list), and it is put at the tail of the global clean list exactly when
    the move flag is set.  On an entry that is clean already the result is
    FALSE and nothing changes; on a dirty entry that is on no list the
    routine dereferences the NULL pointer of its list entry.  The TRUE
    result is a token.  A caller that comes after the one that got TRUE
    gets FALSE, whatever its move flag, and changes nothing.  And when any
    number of callers race on the entry, each running from one atomic
    operation or lock-protected section of the routine to the next in any
    order (the routine itself being such a run of one caller with no other
    in between), none of them faults; the token is with the dirty flag or
    with one caller, so at most one caller gets TRUE; the dirty page count
    goes down once for the caller that holds the token and not otherwise;
    and once a caller has returned the entry is clean, so that when all
    have returned exactly one has got TRUE if the entry was dirty and none
    if it was clean. *)
Theorem IopMarkPageCacheEntryClean_token
    (K : KERNEL) (s : PAGE_CACHE) (e : nat) (x : PAGE_CACHE_ENTRY)
    (MoveToCleanList : bool) :
  Entries s !! e = Some x ->
  ((FlagSet (Flags x) PAGE_CACHE_ENTRY_FLAG_DIRTY = true ->
    ListEntryNext x = true) ->
   exists r s',
     IopMarkPageCacheEntryClean K e MoveToCleanList s = Some (r, s')
     /\ (r = true <-> FlagSet (Flags x) PAGE_CACHE_ENTRY_FLAG_DIRTY = true)
     /\ (r = false -> s' = s)
     /\ (r = true ->
         (exists x', Entries s' !! e = Some x'
                     /\ FlagSet (Flags x') PAGE_CACHE_ENTRY_FLAG_DIRTY = false)
         /\ Globals s' IoPageCacheDirtyPageCount
            = uintn K (Globals s IoPageCacheDirtyPageCount - 1)
         /\ Globals s' IoPageCacheMappedDirtyPageCount
            = (if FlagSet (Flags x) PAGE_CACHE_ENTRY_FLAG_MAPPED
               then uintn K (Globals s IoPageCacheMappedDirtyPageCount - 1)
               else Globals s IoPageCacheMappedDirtyPageCount)
         /\ (e ∉ Lists s' (DirtyPageList (FileObject x)))
         /\ (if MoveToCleanList
             then exists l, Lists s' IoPageCacheCleanList = l ++ [e] /\ e ∉ l
             else forall h, e ∉ Lists s' h)
         /\ forall Move,
              IopMarkPageCacheEntryClean K e Move s' = Some (false, s')))
  /\ (FlagSet (Flags x) PAGE_CACHE_ENTRY_FLAG_DIRTY = true ->
      ListEntryNext x = false ->
      IopMarkPageCacheEntryClean K e MoveToCleanList s = None)
  /\ IopMarkPageCacheEntryClean K e MoveToCleanList s
     = (Point <- MarkCleanSteps K 5 e MoveToCleanList MarkCleanEntered ;;
        match Point with
        | MarkCleanReturned MarkedClean => ret MarkedClean
        | _ => fault
        end) s
  /\ ((FlagSet (Flags x) PAGE_CACHE_ENTRY_FLAG_DIRTY = true ->
       ListEntryNext x = true) ->
      forall Schedule Callers,
        (forall c, c ∈ Callers -> snd c = MarkCleanEntered) ->
        exists Callers' s',
          MarkCleanInterleaved K e Schedule Callers s = Some (Callers', s')
          /\ (MarkCleanSum MarkCleanToken Callers'
              + (if DirtyBit s' e then 1 else 0)
              = (if DirtyBit s e then 1 else 0))%nat
          /\ (MarkCleanSum MarkCleanTrue Callers' <= 1)%nat
          /\ (MarkCleanSum MarkCleanCounts Callers'
              <= MarkCleanSum MarkCleanToken Callers')%nat
          /\ Globals s' IoPageCacheDirtyPageCount
             = Nat.iter (MarkCleanSum MarkCleanCounts Callers')
                 (fun v => uintn K (v - 1))
                 (Globals s IoPageCacheDirtyPageCount)
          /\ ((exists c r, c ∈ Callers' /\ snd c = MarkCleanReturned r) ->
              DirtyBit s' e = false)
          /\ (Callers' <> [] ->
              (forall c, c ∈ Callers' -> exists r, snd c = MarkCleanReturned r) ->
              MarkCleanSum MarkCleanTrue Callers'
              = if DirtyBit s e then 1%nat else 0%nat)).
Proof.
  intros He.
  destruct (IopMarkPageCacheEntryClean_run K s e x MoveToCleanList He)
    as (Hclean & Hfault & Hdirty).
  split; [|split; [exact Hfault|split]].
  - intros Hlisted.
    destruct (FlagSet (Flags x) PAGE_CACHE_ENTRY_FLAG_DIRTY) eqn:Hd.
    + destruct (Hdirty eq_refl (Hlisted eq_refl))
        as (s' & Hrun & HEn & _ & HL & HD & HMD & _).
      exists true, s'. split; [exact Hrun|]. split; [tauto|].
      split; [discriminate|]. intros _.
      assert (He' : Entries s' !! e
                    = Some (set_ListEntryNext MoveToCleanList
                              (set_Flags (Z.land (Flags x)
                                 (ULONG_NOT PAGE_CACHE_ENTRY_FLAG_DIRTY)) x))).
      { rewrite HEn. apply lookup_insert_eq. }
      assert (Hnow : FlagSet (Flags (set_ListEntryNext MoveToCleanList
                              (set_Flags (Z.land (Flags x)
                                 (ULONG_NOT PAGE_CACHE_ENTRY_FLAG_DIRTY)) x)))
                       PAGE_CACHE_ENTRY_FLAG_DIRTY = false).
      { cbn [Flags set_ListEntryNext set_Flags].
        apply (proj1 (FlagSet_clear_DIRTY (Flags x))). }
      split; [eexists; split; [exact He'|exact Hnow]|].
      split; [exact HD|]. split; [exact HMD|].
      split.
      { rewrite HL. destruct MoveToCleanList.
        - rewrite decide_False by discriminate. rewrite app_nil_r.
          apply not_elem_of_filter_ne.
        - rewrite app_nil_r. apply not_elem_of_filter_ne. }
      split.
      { destruct MoveToCleanList.
        - exists (filter (fun y => y <> e) (Lists s IoPageCacheCleanList)).
          split; [|apply not_elem_of_filter_ne].
          rewrite HL. rewrite decide_True by reflexivity. reflexivity.
        - intros h. rewrite HL, app_nil_r. apply not_elem_of_filter_ne. }
      intros Move.
      apply (proj1 (IopMarkPageCacheEntryClean_run K s' e _ Move He') Hnow).
    + exists false, s. split; [apply Hclean; reflexivity|].
      split; [split; discriminate|]. split; [reflexivity|]. discriminate.
  - apply IopMarkPageCacheEntryClean_steps.
  - intros Hlisted Schedule Callers Hall.
    destruct (MarkCleanInterleaved_inv K e s Schedule Callers s
                (MarkCleanInv_start K e s x Callers He Hlisted Hall))
      as (Callers' & s' & Hrun & (x' & Hx' & Htok & Hbefore & _ & Hcount)).
    exists Callers', s'. split; [exact Hrun|]. split; [exact Htok|].
    assert (Htrue : (MarkCleanSum MarkCleanTrue Callers'
                     <= MarkCleanSum MarkCleanToken Callers')%nat).
    { apply MarkCleanSum_le. intros [| | | | |[]]; cbn; lia. }
    split; [destruct (DirtyBit s' e), (DirtyBit s e); lia|].
    split; [apply MarkCleanSum_le; intros [| | | | |[]]; cbn; lia|].
    split; [exact Hcount|].
    assert (Hret : (exists c r, c ∈ Callers' /\ snd c = MarkCleanReturned r) ->
                   DirtyBit s' e = false).
    { intros (c & r & Hc & Hr). destruct (DirtyBit s' e) eqn:Hb; [|reflexivity].
      destruct (Hbefore eq_refl c Hc) as [H|H]; congruence. }
    split; [exact Hret|].
    intros Hne Hdone.
    assert (Hb : DirtyBit s' e = false).
    { destruct Callers' as [|c l]; [congruence|]. apply Hret.
      destruct (Hdone c (list_elem_of_here _ _)) as [r Hr].
      exists c, r. split; [apply list_elem_of_here | exact Hr]. }
    rewrite Hb in Htok.
    assert (Heq : MarkCleanSum MarkCleanTrue Callers'
                  = MarkCleanSum MarkCleanToken Callers').
    { unfold MarkCleanSum. clear -Hdone.
      induction Callers' as [|c l IH]; [reflexivity|].
      cbn. destruct (Hdone c (list_elem_of_here _ _)) as [r Hr]. rewrite Hr.
      rewrite IH; [reflexivity|].
      intros c' Hc'. apply Hdone. apply list_elem_of_further. exact Hc'. }
    rewrite Heq. destruct (DirtyBit s e); lia.
Qed.

Lemma IopMarkPageCacheEntryClean_token_witness :
  (exists r s',
     IopMarkPageCacheEntryClean TestKernel 2 true LastPageDirty
     = Some (r, s')
     /\ (r = true <-> FlagSet 3 PAGE_CACHE_ENTRY_FLAG_DIRTY = true)
     /\ (r = false -> s' = LastPageDirty)
     /\ (r = true ->
         (exists x', Entries s' !! 2%nat = Some x'
                     /\ FlagSet (Flags x') PAGE_CACHE_ENTRY_FLAG_DIRTY = false)
         /\ Globals s' IoPageCacheDirtyPageCount
            = uintn TestKernel
                (Globals LastPageDirty IoPageCacheDirtyPageCount - 1)
         /\ Globals s' IoPageCacheMappedDirtyPageCount
            = (if FlagSet 3 PAGE_CACHE_ENTRY_FLAG_MAPPED
               then uintn TestKernel
                      (Globals LastPageDirty
                         IoPageCacheMappedDirtyPageCount - 1)
               else Globals LastPageDirty
                      IoPageCacheMappedDirtyPageCount)
         /\ (2%nat ∉ Lists s' (DirtyPageList 1))
         /\ (exists l, Lists s' IoPageCacheCleanList = l ++ [2%nat]
                       /\ 2%nat ∉ l)
         /\ forall Move,
              IopMarkPageCacheEntryClean TestKernel 2 Move s'
              = Some (false, s')))
  /\ IopMarkPageCacheEntryClean TestKernel 2 true LastPageUnlisted = None
  /\ (exists Callers' s',
        MarkCleanInterleaved TestKernel 2 [0; 1; 1; 0; 1; 0; 0; 1; 1; 0]%nat
          [(true, MarkCleanEntered); (false, MarkCleanEntered)]
          LastPageDirty
        = Some (Callers', s')
        /\ (MarkCleanSum MarkCleanToken Callers'
            + (if DirtyBit s' 2 then 1 else 0)
            = (if DirtyBit LastPageDirty 2 then 1 else 0))%nat
        /\ (MarkCleanSum MarkCleanTrue Callers' <= 1)%nat
        /\ (MarkCleanSum MarkCleanCounts Callers'
            <= MarkCleanSum MarkCleanToken Callers')%nat
        /\ Globals s' IoPageCacheDirtyPageCount
           = Nat.iter (MarkCleanSum MarkCleanCounts Callers')
               (fun v => uintn TestKernel (v - 1))
               (Globals LastPageDirty IoPageCacheDirtyPageCount)
        /\ ((exists c r, c ∈ Callers' /\ snd c = MarkCleanReturned r) ->
            DirtyBit s' 2 = false)
        /\ (Callers' <> [] ->
            (forall c, c ∈ Callers' ->
                       exists r, snd c = MarkCleanReturned r) ->
            MarkCleanSum MarkCleanTrue Callers'
            = if DirtyBit LastPageDirty 2 then 1%nat else 0%nat)).
Proof.
  split; [|split].
  - exact (proj1 (IopMarkPageCacheEntryClean_token TestKernel
                    LastPageDirty 2%nat
                    (TestEntry 1 (2 * 4096) 3 None 0 0) true eq_refl)
             (fun _ => eq_refl)).
  - exact (proj1 (proj2 (IopMarkPageCacheEntryClean_token TestKernel
                           LastPageUnlisted 2%nat
                           (set_ListEntryNext false
                              (TestEntry 1 (2 * 4096) 3 None 0 0))
                           true eq_refl))
             eq_refl eq_refl).
  - apply (proj2 (proj2 (proj2 (IopMarkPageCacheEntryClean_token TestKernel
                                  LastPageDirty 2%nat
                                  (TestEntry 1 (2 * 4096) 3 None 0 0)
                                  true eq_refl)))
             (fun _ => eq_refl)).
    intros c Hc. rewrite !elem_of_cons, elem_of_nil in Hc.
    destruct Hc as [->|[->|[]]]; reflexivity.
Defined.

(** ** Flushing a buffer *)

(** Taking a run of a routine apart at its first step. *)
Ltac minv H :=
  let a := fresh "a" in
  let s1 := fresh "s" in
  let H1 := fresh "Hrun" in
  apply bind_inv in H; destruct H as (a & s1 & H1 & H).

Ltac keeps_unfold_more :=
  lazymatch goal with
  | |- Keeps _ (MmGetIoBufferPageCacheEntry _ _ _) =>
      unfold MmGetIoBufferPageCacheEntry
  | |- Keeps _ (FlushPageCacheBufferEnd _ _ _ _ _ _) =>
      unfold FlushPageCacheBufferEnd
  | |- Keeps _ (MmIoBufferAppendPage _ _) => unfold MmIoBufferAppendPage
  end.

Ltac keeps_solve ::=
  repeat first
    [ solve [eauto with keeps]
    | solve [keeps_prim]
    | solve [apply Keeps_modify_lists; typeclasses eauto]
    | keeps_struct
    | keeps_unfold
    | keeps_unfold_more ].

#[export] Hint Resolve
  Keeps_IopMarkPageCacheEntryClean_results Keeps_IopMarkPageCacheEntryClean_trace
  Keeps_IopMarkPageCacheEntryClean_shape Keeps_IopMarkPageCacheEntryClean_pages
  Keeps_IopMarkPageCacheEntryDirty_results Keeps_IopMarkPageCacheEntryDirty_shape
  Keeps_IopMarkPageCacheEntryDirty_dirty Keeps_IopMarkPageCacheEntryDirty_pages
  Keeps_IopMarkPageCacheEntryDirty_destroy : keeps.

Lemma Keeps_FlushBufferMarkClean (R : relation PAGE_CACHE) `{!PreOrder R} K :
  (forall e, Keeps R (IopMarkPageCacheEntryClean K e true)) ->
  forall fuel buf fs bo bw c ce,
    Keeps R (FlushBufferMarkClean K fuel buf fs bo bw c ce).
Proof.
  intros Hclean. induction fuel as [|fuel IH]; intros; cbn [FlushBufferMarkClean].
  - apply Keeps_fault.
  - keeps_solve.
Qed.

Lemma Keeps_FlushBufferMarkDirty (R : relation PAGE_CACHE) `{!PreOrder R} K :
  (forall e, Keeps R (IopMarkPageCacheEntryDirty K e)) ->
  forall fuel buf bw bo ce,
    Keeps R (FlushBufferMarkDirty K fuel buf bw bo ce).
Proof.
  intros Hdirty. induction fuel as [|fuel IH]; intros; cbn [FlushBufferMarkDirty].
  - apply Keeps_fault.
  - keeps_solve.
Qed.

Lemma Keeps_FlushPageCacheBufferEnd_results K buf st c bw ce :
  Keeps ResultsKept (FlushPageCacheBufferEnd K buf st c bw ce).
Proof.
  unfold FlushPageCacheBufferEnd.
  pose proof (Keeps_FlushBufferMarkDirty ResultsKept K
                (Keeps_IopMarkPageCacheEntryDirty_results K)).
  keeps_solve.
Qed.

Lemma FlushPageCacheBufferEnd_status K buf st c bw ce s r s' :
  FlushPageCacheBufferEnd K buf st c bw ce s = Some (r, s') -> r = st.
Proof.
  unfold FlushPageCacheBufferEnd. intros H.
  destruct (negb (KSUCCESS st)).
  - minv H. minv H. inversion H. reflexivity.
  - inversion H. reflexivity.
Qed.

Tactic Notation "mstep" hyp(H) "as" ident(a) ident(s1) ident(H1) :=
  apply bind_inv in H; destruct H as (a & s1 & H1 & H).

(** Splitting on the test of the conditional a run starts with. *)
Ltac case_if H :=
  lazymatch type of H with
  | (if ?c then _ else _) _ = _ => destruct c eqn:?
  end.

(** From a run of a routine, the relation it keeps. *)
Ltac mkeep R Hrun :=
  lazymatch type of Hrun with
  | ?m ?s = Some (?a, ?s1) =>
      let HR := fresh "HR" in
      assert (HR : R s s1)
        by (refine ((_ : Keeps R m) s a s1 Hrun); keeps_solve)
  end.

(** A flush of a buffer either makes no write and succeeds, or makes one
    write and returns what became of it. *)
Lemma IopFlushPageCacheBuffer_results K buf size flags s st s' :
  IopFlushPageCacheBuffer K buf size flags s = Some (st, s') ->
  (IoResults (Trace s') = IoResults (Trace s) /\ st = STATUS_SUCCESS)
  \/ IoResults (Trace s') = st :: IoResults (Trace s).
Proof.
  unfold IopFlushPageCacheBuffer. intros H.
  pose proof (Keeps_FlushBufferMarkClean ResultsKept K
                (fun e => Keeps_IopMarkPageCacheEntryClean_results K e true))
    as Hloop.
  minv H. mkeep ResultsKept Hrun.
  minv H. mkeep ResultsKept Hrun0.
  minv H. mkeep ResultsKept Hrun1.
  minv H. mkeep ResultsKept Hrun2.
  destruct a2 as [[bw clean] ce].
  assert (Hs2 : IoResults (Trace s3) = IoResults (Trace s)).
  { unfold ResultsKept in *. congruence. }
  match type of H with
  | (if ?b =? 0 then _ else _) _ = _ => set (BytesToWrite := b) in *
  end.
  destruct (BytesToWrite =? 0).
  { inversion H; subst. left. auto. }
  destruct (clean && negb (FlagSet flags (IO_FLAG_DATA_SYNCHRONIZED K))).
  { inversion H; subst. left. auto. }
  minv H. inversion Hrun3; subst a2 s4. clear Hrun3.
  minv H. inversion Hrun3; subst a2 s4. clear Hrun3.
  set (w := IopPerformNonCachedWrite K (Trace s3) (FileObject a0) buf
              (Offset a0) BytesToWrite flags) in *.
  right.
  assert (Hev : forall s'' r,
    ResultsKept (with_Trace
                   (cons (EvNonCachedWrite (FileObject a0) buf (Offset a0)
                            BytesToWrite flags (fst w) (uintn K (snd w)))) s3)
                s'' ->
    r = WriteStatus (fst w) (uintn K (snd w)) BytesToWrite ->
    IoResults (Trace s'') = r :: IoResults (Trace s)).
  { intros s'' r HR3 ->. unfold ResultsKept in HR3. rewrite HR3. cbn.
    f_equal. exact Hs2. }
  unfold WriteStatus in Hev.
  destruct (negb (KSUCCESS (fst w))) eqn:Hfail.
  - apply (Hev s' st).
    + apply (Keeps_FlushPageCacheBufferEnd_results K _ _ _ _ _ _ _ _ H).
    + apply FlushPageCacheBufferEnd_status in H. exact H.
  - destruct (negb (uintn K (snd w) =? BytesToWrite)) eqn:Hshort.
    + apply (Hev s' st).
      * apply (Keeps_FlushPageCacheBufferEnd_results K _ _ _ _ _ _ _ _ H).
      * apply FlushPageCacheBufferEnd_status in H. exact H.
    + inversion H; subst. apply Hev; reflexivity.
Qed.

(** ** Fuel *)

(** The loops of the routines are run on fuel.  A run that ends with the
    fuel it was given ends the same with any more. *)

Ltac mono H :=
  let a := fresh "a" in
  let s1 := fresh "s" in
  let Hr := fresh "Hr" in
  apply bind_inv in H; destruct H as (a & s1 & Hr & H);
  rewrite (bind_run _ _ _ _ _ Hr).

Section FuelFacts.

Variable K : KERNEL.

Lemma FlushLoop_fuel F Offset_ Size_ Flags_ PageCount fuel :
  forall l s r fuel',
    FlushLoop K F Offset_ Size_ Flags_ PageCount fuel l s = Some r ->
    (fuel <= fuel')%nat ->
    FlushLoop K F Offset_ Size_ Flags_ PageCount fuel' l s = Some r.
Proof.
  induction fuel as [|fuel IH]; intros l s r fuel' H Hle; cbn [FlushLoop] in H.
  { unfold fault in H. discriminate. }
  destruct fuel' as [|fuel']; [lia|]. cbn [FlushLoop].
  mono H. destruct a as [l1|l1|st l1]; [|exact H|exact H].
  apply IH; [exact H | lia].
Qed.

Lemma IopFlushPageCacheEntries_fuel F Offset_ Size_ Flags_ PageCount fuel
    s r fuel' :
  IopFlushPageCacheEntries K F Offset_ Size_ Flags_ PageCount fuel s = Some r ->
  (fuel <= fuel')%nat ->
  IopFlushPageCacheEntries K F Offset_ Size_ Flags_ PageCount fuel' s = Some r.
Proof.
  intros H Hle. unfold IopFlushPageCacheEntries in *.
  mono H. mono H. mono H. case_if H; [exact H|].
  mono H. case_if H; [exact H|].
  mono H. case_if H; [exact H|].
  mono H.
  apply bind_inv in H. destruct H as (rl & sl & Hloop & H).
  rewrite (bind_run _ _ _ _ _ (FlushLoop_fuel _ _ _ _ _ _ _ _ _ _ Hloop Hle)).
  exact H.
Qed.

Lemma RemoveLoop_fuel TimidEffort fuel :
  forall t s r fuel',
    RemoveLoop K DestroyListHead TimidEffort fuel t s = Some r ->
    (fuel <= fuel')%nat ->
    RemoveLoop K DestroyListHead TimidEffort fuel' t s = Some r.
Proof.
  induction fuel as [|fuel IH]; intros t s r fuel' H Hle; cbn [RemoveLoop] in H.
  { unfold fault in H. discriminate. }
  destruct fuel' as [|fuel']; [lia|]. cbn [RemoveLoop].
  mono H. destruct a as [t1|]; [|exact H].
  apply IH; [exact H | lia].
Qed.

Lemma IopRemovePageCacheEntriesFromList_fuel TimidEffort fuel h t s r fuel' :
  IopRemovePageCacheEntriesFromList K DestroyListHead TimidEffort fuel h t s
  = Some r ->
  (fuel <= fuel')%nat ->
  IopRemovePageCacheEntriesFromList K DestroyListHead TimidEffort fuel' h t s
  = Some r.
Proof.
  intros H Hle. unfold IopRemovePageCacheEntriesFromList in *.
  mono H. case_if H; [exact H|]. mono H.
  apply bind_inv in H. destruct H as (rl & sl & Hloop & H).
  rewrite (bind_run _ _ _ _ _ (RemoveLoop_fuel _ _ _ _ _ _ Hloop Hle)).
  exact H.
Qed.

Lemma IopDestroyPageCacheEntries_fuel fuel :
  forall h s r fuel',
    IopDestroyPageCacheEntries K fuel h s = Some r ->
    (fuel <= fuel')%nat ->
    IopDestroyPageCacheEntries K fuel' h s = Some r.
Proof.
  induction fuel as [|fuel IH]; intros h s r fuel' H Hle;
    cbn [IopDestroyPageCacheEntries] in H.
  { unfold fault in H. discriminate. }
  destruct fuel' as [|fuel']; [lia|]. cbn [IopDestroyPageCacheEntries].
  mono H. destruct a as [e|]; [|exact H].
  mono H. mono H. mono H. apply IH; [exact H | lia].
Qed.

Lemma UnmapLoop_fuel TimidEffort Target fuel :
  forall l s r fuel',
    UnmapLoop K TimidEffort Target fuel l s = Some r ->
    (fuel <= fuel')%nat ->
    UnmapLoop K TimidEffort Target fuel' l s = Some r.
Proof.
  induction fuel as [|fuel IH]; intros l s r fuel' H Hle; cbn [UnmapLoop] in H.
  { unfold fault in H. discriminate. }
  destruct fuel' as [|fuel']; [lia|]. cbn [UnmapLoop].
  mono H. destruct a as [l1|]; [|exact H].
  apply IH; [exact H | lia].
Qed.

Lemma IopTrimPageCacheVirtual_fuel TimidEffort fuel s r fuel' :
  IopTrimPageCacheVirtual K fuel TimidEffort s = Some r ->
  (fuel <= fuel')%nat ->
  IopTrimPageCacheVirtual K fuel' TimidEffort s = Some r.
Proof.
  intros H Hle. unfold IopTrimPageCacheVirtual in *.
  mono H. case_if H; [exact H|].
  mono H. case_if H; [exact H|].
  mono H. mono H. mono H. mono H. mono H. mono H.
  case_if H; [exact H|].
  apply bind_inv in H. destruct H as (rl & sl & Hloop & H).
  rewrite (bind_run _ _ _ _ _ (UnmapLoop_fuel _ _ _ _ _ _ _ Hloop Hle)).
  exact H.
Qed.

Lemma TrimPageCacheEvict_fuel TimidEffort fuel s r fuel' :
  TrimPageCacheEvict K fuel TimidEffort s = Some r ->
  (fuel <= fuel')%nat ->
  TrimPageCacheEvict K fuel' TimidEffort s = Some r.
Proof.
  intros H Hle. unfold TrimPageCacheEvict in *.
  mono H. case_if H; [exact H|].
  mono H. mono H. mono H.
  apply bind_inv in H. destruct H as (t1 & sa & H1 & H).
  assert (H1' : forall (b : bool) t h st r0,
            (if b then
               t0 <- IopRemovePageCacheEntriesFromList K DestroyListHead
                       TimidEffort fuel h (Some t) ;;
               ret (match t0 with Some v => v | None => t end)
             else ret t) st = Some r0 ->
            (if b then
               t0 <- IopRemovePageCacheEntriesFromList K DestroyListHead
                       TimidEffort fuel' h (Some t) ;;
               ret (match t0 with Some v => v | None => t end)
             else ret t) st = Some r0).
  { intros b t h st r0 Hb. destruct b; [|exact Hb].
    apply bind_inv in Hb. destruct Hb as (t0 & sb & Hrun & Hb).
    rewrite (bind_run _ _ _ _ _
               (IopRemovePageCacheEntriesFromList_fuel _ _ _ _ _ _ _ Hrun Hle)).
    exact Hb. }
  rewrite (bind_run _ _ _ _ _ (H1' _ _ _ _ _ H1)).
  apply bind_inv in H. destruct H as (t2 & sc & H2 & H).
  rewrite (bind_run _ _ _ _ _ (H1' _ _ _ _ _ H2)).
  apply bind_inv in H. destruct H as (u & sd & Hdes & H).
  rewrite (bind_run _ _ _ _ _ (IopDestroyPageCacheEntries_fuel _ _ _ _ _ Hdes Hle)).
  exact H.
Qed.

Lemma IopTrimPageCache_fuel TimidEffort fuel s r fuel' :
  IopTrimPageCache K fuel TimidEffort s = Some r ->
  (fuel <= fuel')%nat ->
  IopTrimPageCache K fuel' TimidEffort s = Some r.
Proof.
  intros H Hle. unfold IopTrimPageCache in *.
  apply bind_inv in H. destruct H as (re & se & Hevict & H).
  rewrite (bind_run _ _ _ _ _ (TrimPageCacheEvict_fuel _ _ _ _ _ Hevict Hle)).
  destruct re as [rem free].
  apply bind_inv in H. destruct H as (u & sv & Hvirt & H).
  rewrite (bind_run _ _ _ _ _ (IopTrimPageCacheVirtual_fuel _ _ _ _ _ Hvirt Hle)).
  exact H.
Qed.

End FuelFacts.

(** ** The flush loop *)

Lemma LastFailure_cons (st : KSTATUS) (T : KSTATUS) (new : list KSTATUS) :
  T = LastFailure new ->
  (if negb (KSUCCESS st) then st else T) = LastFailure (st :: new).
Proof. intros ->. cbn. destruct (KSUCCESS st); reflexivity. Qed.

Lemma FlushStatusInv_keep s0 l l' s s' :
  FlushStatusInv s0 l s -> ResultsKept s s' -> TotalStatus l' = TotalStatus l ->
  FlushStatusInv s0 l' s'.
Proof.
  intros (new & Hnew & HT) HR Hl. exists new. split; [|congruence].
  unfold ResultsKept in HR. congruence.
Qed.

(** After the flush of a buffer the total status is again the most recent
    failure. *)
Lemma FlushStatusInv_flush K s0 l s buf size flags st s' :
  FlushStatusInv s0 l s ->
  IopFlushPageCacheBuffer K buf size flags s = Some (st, s') ->
  exists new, IoResults (Trace s') = new ++ IoResults (Trace s0)
              /\ (if negb (KSUCCESS st) then st else TotalStatus l)
                 = LastFailure new.
Proof.
  intros (new & Hnew & HT) Hrun.
  destruct (IopFlushPageCacheBuffer_results K _ _ _ _ _ _ Hrun)
    as [[Hsame ->] | Hone].
  - exists new. split; [congruence|]. exact HT.
  - exists (st :: new). split; [rewrite Hone, Hnew; reflexivity|].
    apply LastFailure_cons, HT.
Qed.

Global Instance AppendsKept_PreOrder : PreOrder AppendsKept.
Proof.
  split.
  - intros s. reflexivity.
  - intros a b c Hab Hbc. unfold AppendsKept in *. congruence.
Qed.

Global Instance AppendsKept_entries : IgnoresEntries AppendsKept.
Proof. intros s g. reflexivity. Qed.
Global Instance AppendsKept_files : IgnoresFileObjects AppendsKept.
Proof. intros s g. reflexivity. Qed.
Global Instance AppendsKept_lists : IgnoresLists AppendsKept.
Proof. intros s g. reflexivity. Qed.
Global Instance AppendsKept_globals : IgnoresGlobals AppendsKept.
Proof. intros s g. reflexivity. Qed.

Lemma Keeps_Emit_appends ev :
  AppendedPage ev = None -> Keeps AppendsKept (Emit ev).
Proof.
  intros Hev s a s' H. inversion H. unfold AppendsKept, AppendedPages. cbn.
  rewrite Hev. reflexivity.
Qed.

#[export] Hint Extern 1 (Keeps AppendsKept (Emit _)) =>
  apply Keeps_Emit_appends; reflexivity : keeps.

Lemma Keeps_IopMarkPageCacheEntryClean_appends K e Move :
  Keeps AppendsKept (IopMarkPageCacheEntryClean K e Move).
Proof. keeps_solve. Qed.

Lemma Keeps_IopMarkPageCacheEntryDirty_appends K e :
  Keeps AppendsKept (IopMarkPageCacheEntryDirty K e).
Proof. keeps_solve. Qed.

#[export] Hint Resolve Keeps_IopMarkPageCacheEntryClean_appends
  Keeps_IopMarkPageCacheEntryDirty_appends : keeps.

(** The flush of a buffer puts no page in a buffer. *)
Lemma Keeps_IopFlushPageCacheBuffer_appends K buf size flags :
  Keeps AppendsKept (IopFlushPageCacheBuffer K buf size flags).
Proof.
  unfold IopFlushPageCacheBuffer.
  pose proof (Keeps_FlushBufferMarkClean AppendsKept K
                (fun e => Keeps_IopMarkPageCacheEntryClean_appends K e true)).
  pose proof (Keeps_FlushBufferMarkDirty AppendsKept K
                (Keeps_IopMarkPageCacheEntryDirty_appends K)).
  keeps_solve.
Qed.

#[export] Hint Resolve Keeps_IopFlushPageCacheBuffer_appends : keeps.

Lemma AppendedPages_cons e T :
  AppendedPages (EvIoBufferAppendPage e :: T) = e :: AppendedPages T.
Proof. reflexivity. Qed.

Lemma MmIoBufferAppendPage_inv buf e s r s' :
  MmIoBufferAppendPage buf e s = Some (r, s') ->
  r = buf ++ [e] /\ s' = with_Trace (cons (EvIoBufferAppendPage e)) s.
Proof. intros H. inversion H. auto. Qed.

Section FlushLoopFacts.

Variables (K : KERNEL) (F : nat) (Offset_ Size_ Flags_ : Z) (PageCount : option Z).

Lemma FlushLoopWrite_status s0 l ce s r s' :
  FlushStatusInv s0 l s ->
  FlushLoopWrite K Offset_ Size_ Flags_ PageCount l ce s = Some (r, s') ->
  FlushStatusInv s0 (LoopLocals r) s'.
Proof.
  intros Hinv H. unfold FlushLoopWrite in H.
  mstep H as st sa Hflush.
  destruct (FlushStatusInv_flush K s0 l s _ _ _ _ _ Hinv Hflush)
    as (new & Hnew & HT).
  assert (Hinv1 : forall lx sx,
    ResultsKept sa sx ->
    TotalStatus lx = (if negb (KSUCCESS st) then st else TotalStatus l) ->
    FlushStatusInv s0 lx sx).
  { intros lx sx HR Hlx. exists new. split; [|congruence].
    unfold ResultsKept in HR. congruence. }
  clear Hinv Hflush.
  destruct (match PageCount with Some Count => _ | None => false end).
  { inversion H; subst. apply Hinv1; reflexivity. }
  mstep H as lb sb Hb.
  assert (Hl : TotalStatus lb = (if negb (KSUCCESS st) then st else TotalStatus l)
               /\ ResultsKept sa sb).
  { destruct ce.
    - mstep Hb as buf sp Hp. mkeep ResultsKept Hp.
      mstep Hb as x sx Hx. mkeep ResultsKept Hx. inversion Hb; subst.
      split; [reflexivity | etransitivity; eassumption].
    - inversion Hb; subst. split; reflexivity. }
  destruct Hl as [Hl HR1].
  destruct (KeGetCurrentThreadIsPageCacheThread K).
  - mstep H as big s2 Hbig. mkeep ResultsKept Hbig.
    mstep H as g1 s3 Hg1. mkeep ResultsKept Hg1.
    mstep H as g2 s4 Hg2. mkeep ResultsKept Hg2.
    mstep H as g3 s5 Hg3. mkeep ResultsKept Hg3.
    assert (HR5 : ResultsKept sa s5).
    { repeat (etransitivity; [eassumption|]). reflexivity. }
    destruct (_ && _); inversion H; subst; cbn [LoopLocals];
      apply Hinv1; auto.
  - inversion H; subst. cbn [LoopLocals]. apply Hinv1; auto.
Qed.

Ltac keeps_unfold_flush :=
  lazymatch goal with
  | |- Keeps _ (RtlRedBlackTreeGetNextNode _ _) =>
      unfold RtlRedBlackTreeGetNextNode
  | |- Keeps _ (RtlRedBlackTreeSearchClosest _ _) =>
      unfold RtlRedBlackTreeSearchClosest
  end.

Ltac keeps_solve ::=
  repeat first
    [ solve [eauto with keeps]
    | solve [keeps_prim]
    | solve [apply Keeps_modify_lists; typeclasses eauto]
    | keeps_struct
    | keeps_unfold
    | keeps_unfold_more
    | keeps_unfold_flush ].

Lemma FlushLoopBody_status s0 l s r s' :
  FlushStatusInv s0 l s ->
  FlushLoopBody K F Offset_ Size_ Flags_ PageCount l s = Some (r, s') ->
  FlushStatusInv s0 (LoopLocals r) s'.
Proof.
  intros Hinv H. unfold FlushLoopBody in H.
  mstep H as Node1 s1 HN1. mkeep ResultsKept HN1.
  mstep H as Node2 s2 HN2. mkeep ResultsKept HN2.
  assert (Hinv2 : forall lx, TotalStatus lx = TotalStatus l ->
                             FlushStatusInv s0 lx s2).
  { intros lx Hlx. apply (FlushStatusInv_keep s0 l lx s s2 Hinv); [|exact Hlx].
    etransitivity; eassumption. }
  clear Hinv HN1 HN2 HR HR0.
  destruct Node2 as [ce|].
  2:{ inversion H; subst. apply Hinv2. reflexivity. }
  mstep H as x s3 Hx. apply Entry_inv in Hx. destruct Hx as [Hx ->].
  destruct (negb (Size_ =? MAX_ULONGLONG) && _).
  { inversion H; subst. apply Hinv2. reflexivity. }
  mstep H as skip s4 Hskip.
  assert (Hs4 : s4 = s2).
  { destruct (negb (FlagSet (Flags x) PAGE_CACHE_ENTRY_FLAG_DIRTY)).
    - mstep Hskip as bd s5 Hbd.
      assert (s5 = s2).
      { destruct (FlagSet Flags_ (IO_FLAG_DATA_SYNCHRONIZED K)).
        - destruct (BackingEntry x).
          + mstep Hbd as y s6 Hy. apply Entry_inv in Hy. destruct Hy as [_ ->].
            inversion Hbd. reflexivity.
          + inversion Hbd. reflexivity.
        - inversion Hbd. reflexivity. }
      subst s5. inversion Hskip. reflexivity.
    - inversion Hskip. reflexivity. }
  subst s4. clear Hskip.
  destruct (fst skip).
  { inversion H; subst. apply Hinv2. reflexivity. }
  destruct (_ || _).
  - mstep H as buf sp Hp. mkeep ResultsKept Hp.
    assert (Hinv3 : forall lx, TotalStatus lx = TotalStatus l ->
                               FlushStatusInv s0 lx sp).
    { intros lx Hlx.
      eapply FlushStatusInv_keep; [apply (Hinv2 lx Hlx) | exact HR | reflexivity]. }
    match type of H with
    | (if ?c then _ else _) _ = _ => destruct c
    end.
    + inversion H; subst. apply Hinv3. reflexivity.
    + eapply FlushLoopWrite_status; [|exact H]. apply Hinv3. reflexivity.
  - eapply FlushLoopWrite_status; [|exact H]. apply Hinv2. reflexivity.
Qed.

Lemma FlushLoop_status s0 fuel : forall l s o l' s',
  FlushStatusInv s0 l s ->
  FlushLoop K F Offset_ Size_ Flags_ PageCount fuel l s = Some ((o, l'), s') ->
  FlushStatusInv s0 l' s'.
Proof.
  induction fuel as [|fuel IH]; intros l s o l' s' Hinv H; cbn [FlushLoop] in H.
  - discriminate.
  - mstep H as r s1 Hbody.
    pose proof (FlushLoopBody_status s0 l s r s1 Hinv Hbody) as Hinv1.
    destruct r as [l1 | l1 | st l1]; cbn [LoopLocals] in Hinv1.
    + eapply IH; eassumption.
    + inversion H; subst. exact Hinv1.
    + inversion H; subst. exact Hinv1.
Qed.

Lemma KSUCCESS_false (st : KSTATUS) :
  KSUCCESS st = false <-> st <> STATUS_SUCCESS.
Proof. destruct st; cbn; split; intros; congruence. Qed.

(** What the end of a flush returns. *)
Lemma FlushPageCacheEntriesEnd_status s0 G l s r s' :
  FlushStatusInv s0 l s ->
  FlushPageCacheEntriesEnd K F Flags_ PageCount G l s = Some (r, s') ->
  exists new,
    IoResults (Trace s') = new ++ IoResults (Trace s0)
    /\ (LastFailure new <> STATUS_SUCCESS -> FlushStatus r = LastFailure new)
    /\ (LastFailure new = STATUS_SUCCESS -> FlushStatus r = G)
    /\ (KSUCCESS (FlushStatus r) = false ->
        exists f, FileObjects s' !! F = Some f
                  /\ FILE_OBJECT_FLAG_DIRTY_DATA f = true)
    /\ FlushPageCount r
       = match PageCount with
         | Some Count => Some (if PagesFlushed l >? Count then 0
                               else uintn K (Count - PagesFlushed l))
         | None => None
         end.
Proof.
  intros (new & Hnew & HT) H. unfold FlushPageCacheEntriesEnd in H.
  mstep H as Empty s1 HE. mkeep ResultsKept HE.
  mstep H as u1 s2 Happ. mkeep ResultsKept Happ.
  mstep H as f s3 Hf. mkeep ResultsKept Hf.
  assert (Hs3 : IoResults (Trace s3) = new ++ IoResults (Trace s0)).
  { unfold ResultsKept in *. congruence. }
  clear HE Happ Hf HR HR0 HR1.
  set (T1 := if negb (KSUCCESS G) && KSUCCESS (TotalStatus l) then G
             else TotalStatus l) in *.
  assert (HT1 : (LastFailure new <> STATUS_SUCCESS -> T1 = LastFailure new)
                /\ (LastFailure new = STATUS_SUCCESS -> T1 = G)).
  { unfold T1. rewrite HT. split; intros HL.
    - apply KSUCCESS_false in HL. rewrite HL, andb_false_r. reflexivity.
    - rewrite HL. cbn. destruct G; reflexivity. }
  mstep H as T2 s4 Hsync.
  assert (Hsync' : exists new2,
    IoResults (Trace s4) = new2 ++ IoResults (Trace s0)
    /\ (LastFailure new2 <> STATUS_SUCCESS -> T2 = LastFailure new2)
    /\ (LastFailure new2 = STATUS_SUCCESS -> T2 = G)).
  { destruct (BytesFlushed l && _ && _).
    - mstep Hsync as st s5 Hst. inversion Hst; subst st s5. clear Hst.
      mstep Hsync as u2 s6 Hemit. inversion Hemit; subst u2 s6. clear Hemit.
      inversion Hsync; subst T2 s4. clear Hsync.
      exists (IopSynchronizeBlockDevice K (Trace s3) F :: new). cbn.
      split; [f_equal; exact Hs3|].
      destruct (KSUCCESS (IopSynchronizeBlockDevice K (Trace s3) F)) eqn:Hk; cbn.
      + exact HT1.
      + split; [reflexivity|]. intros Hbad. rewrite Hbad in Hk. discriminate.
    - inversion Hsync; subst. exists new. split; [exact Hs3|]. exact HT1. }
  destruct Hsync' as (new2 & Hnew2 & Hfail & Hok).
  mstep H as u3 s5 Hmark. inversion H; subst r s'. clear H.
  exists new2. cbn [FlushStatus FlushPageCount].
  split.
  { assert (HRm : ResultsKept s4 s5) by (mkeep ResultsKept Hmark; assumption).
    unfold ResultsKept in HRm. congruence. }
  split; [exact Hfail|]. split; [exact Hok|]. split; [|reflexivity].
  intros Hbad. rewrite Hbad in Hmark. cbn [negb when] in Hmark.
  unfold UpdateFile in Hmark.
  mstep Hmark as v s6 Hv. apply File_inv in Hv. destruct Hv as [Hv ->].
  inversion Hmark; subst. cbn. rewrite lookup_insert_eq. eauto.
Qed.

(** What a flush returns: its status is the most recent failure of a write
    or device synchronization it made, if there is one; and on any failure
    the file object is marked dirty. *)
Lemma IopFlushPageCacheEntries_status fuel s r s' :
  IopFlushPageCacheEntries K F Offset_ Size_ Flags_ PageCount fuel s
  = Some (r, s') ->
  exists new,
    IoResults (Trace s') = new ++ IoResults (Trace s)
    /\ (LastFailure new <> STATUS_SUCCESS -> FlushStatus r = LastFailure new)
    /\ (KSUCCESS (FlushStatus r) = false ->
        exists f, FileObjects s' !! F = Some f
                  /\ FILE_OBJECT_FLAG_DIRTY_DATA f = true).
Proof.
  intros H. unfold IopFlushPageCacheEntries in H.
  assert (Hend : forall G l sx,
    FlushStatusInv s l sx ->
    FlushPageCacheEntriesEnd K F Flags_ PageCount G l sx = Some (r, s') ->
    exists new,
      IoResults (Trace s') = new ++ IoResults (Trace s)
      /\ (LastFailure new <> STATUS_SUCCESS -> FlushStatus r = LastFailure new)
      /\ (KSUCCESS (FlushStatus r) = false ->
          exists f, FileObjects s' !! F = Some f
                    /\ FILE_OBJECT_FLAG_DIRTY_DATA f = true)).
  { intros G l sx Hinv Hrun.
    destruct (FlushPageCacheEntriesEnd_status s G l sx r s' Hinv Hrun)
      as (new & H1 & H2 & _ & H4 & _).
    exists new. auto. }
  assert (Hinit : forall sx lx, ResultsKept s sx ->
                                TotalStatus lx = STATUS_SUCCESS ->
                                FlushStatusInv s lx sx).
  { intros sx lx HR Hlx. exists []. split; [exact HR | exact Hlx]. }
  mstep H as u1 s1 Hi. mkeep ResultsKept Hi.
  mstep H as u2 s2 Hopt. mkeep ResultsKept Hopt.
  mstep H as f s3 Hf. mkeep ResultsKept Hf.
  assert (HR3 : ResultsKept s s3) by (repeat (etransitivity; [eassumption|]);
                                      reflexivity).
  clear Hi Hopt Hf HR HR0 HR1.
  destruct (negb (IO_IS_CACHEABLE_TYPE (PropertiesType f))).
  { eapply Hend; [|exact H]. apply Hinit; auto. }
  mstep H as Empty s4 HE. mkeep ResultsKept HE.
  destruct Empty.
  { eapply Hend; [|exact H]. apply Hinit; [etransitivity; eassumption|auto]. }
  mstep H as Allocated s5 HA. mkeep ResultsKept HA.
  destruct (negb Allocated).
  { eapply Hend; [|exact H].
    apply Hinit; [repeat (etransitivity; [eassumption|]); reflexivity|auto]. }
  mstep H as Node_ s6 HN. mkeep ResultsKept HN.
  mstep H as res s7 Hloop. destruct res as [o l'].
  assert (Hinv7 : FlushStatusInv s l' s7).
  { eapply FlushLoop_status; [|exact Hloop].
    apply Hinit; [repeat (etransitivity; [eassumption|]); reflexivity|auto]. }
  destruct o as [G|].
  { eapply Hend; eassumption. }
  mstep H as l2 s8 Hlast.
  eapply Hend; [|exact H].
  case_if Hlast.
  - mstep Hlast as st s9 Hflush.
    destruct (FlushStatusInv_flush K s l' s7 _ _ _ _ _ Hinv7 Hflush)
      as (new & Hnew & HT).
    inversion Hlast; subst. exists new. split; [exact Hnew|]. cbn. exact HT.
  - inversion Hlast; subst. exact Hinv7.
Qed.

(** The locals the flush in the middle of the loop ends with: the loop is
    left with an empty buffer when the page cap is reached, and goes on (or
    is given up for a trim) otherwise, whatever the status of the write. *)
Lemma FlushLoopWrite_locals l ce s r s' :
  FlushLoopWrite K Offset_ Size_ Flags_ PageCount l ce s = Some (r, s') ->
  PagesFlushed (LoopLocals r) = PagesFlushed l
  /\ ((exists Count, PageCount = Some Count /\ PagesFlushed l >= Count
                     /\ r = Break (LoopLocals r)
                     /\ FlushSize (LoopLocals r) = 0
                     /\ FlushBuffer (LoopLocals r) = [])
      \/ (match PageCount with
          | Some Count => PagesFlushed l < Count
          | None => True
          end
          /\ (r = Continue (LoopLocals r)
              \/ (KeGetCurrentThreadIsPageCacheThread K = true
                  /\ r = GotoEnd STATUS_TRY_AGAIN (LoopLocals r)))
          /\ match ce with
             | Some e => FlushSize (LoopLocals r) = MmPageSize K
                         /\ FlushBuffer (LoopLocals r) = [e]
             | None => FlushSize (LoopLocals r) = 0
                       /\ FlushBuffer (LoopLocals r) = []
             end)).
Proof.
  intros H. unfold FlushLoopWrite in H.
  mstep H as st sa Hflush. clear Hflush.
  case_if H.
  { inversion H; subst. cbn. split; [reflexivity|]. left.
    destruct PageCount as [Count|]; [|discriminate].
    exists Count. repeat split; auto. cbn in *. lia. }
  assert (Hcap : match PageCount with
                 | Some Count => PagesFlushed l < Count
                 | None => True
                 end).
  { destruct PageCount as [Count|]; [|exact I]. cbn in *. lia. }
  mstep H as lb sb Hb.
  assert (Hlb : PagesFlushed lb = PagesFlushed l
                /\ match ce with
                   | Some e => FlushSize lb = MmPageSize K /\ FlushBuffer lb = [e]
                   | None => FlushSize lb = 0 /\ FlushBuffer lb = []
                   end).
  { destruct ce.
    - mstep Hb as buf sp Hp. inversion Hp; subst buf sp.
      mstep Hb as x sx Hx. inversion Hb; subst. cbn. auto.
    - inversion Hb; subst. cbn. auto. }
  destruct Hlb as [Hp Hshape]. clear Hb.
  destruct (KeGetCurrentThreadIsPageCacheThread K) eqn:Hthread.
  - mstep H as big s2 Hbig. mstep H as g1 s3 Hg1. mstep H as g2 s4 Hg2.
    mstep H as g3 s5 Hg3.
    case_if H; inversion H; subst; cbn [LoopLocals]; (split; [exact Hp|]);
      right; auto.
  - inversion H; subst. cbn [LoopLocals]. split; [exact Hp|]. right. auto.
Qed.

Lemma IopIsPageCacheTooBig_None s :
  exists big, IopIsPageCacheTooBig K None s = Some ((big, None), s).
Proof.
  rewrite IopIsPageCacheTooBig_run.
  destruct (_ <=? _); [eexists; reflexivity|].
  destruct (_ >? _); eexists; reflexivity.
Qed.

(** How the flush in the middle of the loop leaves the iteration: the
    status of the write has no part in it. *)
Lemma FlushLoopWrite_next l ce s r s' :
  FlushLoopWrite K Offset_ Size_ Flags_ PageCount l ce s = Some (r, s') ->
  exists big,
    IopIsPageCacheTooBig K None s' = Some ((big, None), s')
    /\ r = (if match PageCount with
               | Some Count => PagesFlushed l >=? Count
               | None => false
               end
            then Break (LoopLocals r)
            else if KeGetCurrentThreadIsPageCacheThread K && big
                    && (uintn K (Globals s' IoPageCachePhysicalPageCount
                                 - Globals s' IoPageCacheDirtyPageCount)
                        >? Globals s' IoPageCacheLowMemoryCleanPageMinimum)
            then GotoEnd STATUS_TRY_AGAIN (LoopLocals r)
            else Continue (LoopLocals r)).
Proof.
  intros H. destruct (IopIsPageCacheTooBig_None s') as [big Hbig].
  exists big. split; [exact Hbig|].
  unfold FlushLoopWrite in H.
  mstep H as st sa Hflush. clear Hflush.
  cbn [PagesFlushed] in H.
  destruct (match PageCount with Some Count => _ | None => false end).
  { inversion H; subst. reflexivity. }
  mstep H as lb sb Hb. clear Hb.
  destruct (KeGetCurrentThreadIsPageCacheThread K); cbn [andb].
  - mstep H as b s2 Hb.
    assert (Hs2 : s2 = sb).
    { rewrite IopIsPageCacheTooBig_run in Hb. inversion Hb. reflexivity. }
    subst s2.
    mstep H as g1 s3 Hg1. inversion Hg1; subst g1 s3. clear Hg1.
    mstep H as g2 s4 Hg2. inversion Hg2; subst g2 s4. clear Hg2.
    mstep H as g3 s5 Hg3. inversion Hg3; subst g3 s5. clear Hg3.
    assert (Hsame : s' = sb) by (destruct (_ && _); inversion H; reflexivity).
    subst s'. rewrite Hbig in Hb. inversion Hb; subst b. cbn [fst] in H.
    destruct (big && _); inversion H; subst; reflexivity.
  - inversion H; subst. reflexivity.
Qed.

(** An iteration that goes on keeps the invariant of the page cap. *)
Lemma FlushLoopBody_cap Count l s l' s' :
  PageCount = Some Count ->
  0 < MmPageSize K < PAGE_CACHE_FLUSH_MAX ->
  PAGE_CACHE_FLUSH_MAX + MmPageSize K <= UINTN_MOD K ->
  FlushCapInv Count l ->
  FlushLoopBody K F Offset_ Size_ Flags_ PageCount l s = Some (Continue l', s') ->
  FlushCapInv Count l'.
Proof.
  intros HPC HPS Hfit [Hsize Hempty] H. unfold FlushLoopBody in H.
  mstep H as Node1 s1 HN1. mstep H as Node2 s2 HN2.
  destruct Node2 as [ce|]; [|discriminate].
  mstep H as x s3 Hx.
  case_if H; [discriminate|].
  mstep H as skip s4 Hskip.
  case_if H.
  { inversion H; subst. split; cbn; auto. }
  case_if H.
  - mstep H as buf sp Hp. inversion Hp; subst buf sp. clear Hp.
    case_if H.
    + inversion H; subst. cbn [FlushSize PagesFlushed] in *.
      assert (Hsum : uintn K (FlushSize l + MmPageSize K)
                     = FlushSize l + MmPageSize K).
      { apply uintn_small. lia. }
      split; cbn [FlushSize PagesFlushed].
      * rewrite Hsum in *. lia.
      * rewrite Hsum. lia.
    + destruct (FlushLoopWrite_locals _ _ _ _ _ H) as [Hp Hcases].
      cbn [LoopLocals] in *.
      destruct Hcases as [(c & _ & _ & Hbreak & _) | (Hcap & _ & Hshape)];
        [discriminate|].
      rewrite HPC in Hcap. cbn [PagesFlushed] in *.
      destruct Hshape as [Hz _]. split; [lia|]. intros _. right. lia.
  - destruct (FlushLoopWrite_locals _ _ _ _ _ H) as [Hp Hcases].
    cbn [LoopLocals] in *.
    destruct Hcases as [(c & _ & _ & Hbreak & _) | (Hcap & _ & Hshape)];
      [discriminate|].
    destruct Hshape as [Hz _]. split; [lia|]. intros Hzero. lia.
Qed.

(** *** The pages counted against the cap *)

(** The flush in the middle of the loop puts the entry of the iteration in
    the buffer unless it leaves the loop at the cap. *)
Lemma FlushLoopWrite_appends l ce s r s' :
  FlushLoopWrite K Offset_ Size_ Flags_ PageCount l ce s = Some (r, s') ->
  AppendedPages (Trace s')
  = match ce, r with
    | Some e, Continue _ | Some e, GotoEnd _ _ => e :: AppendedPages (Trace s)
    | _, _ => AppendedPages (Trace s)
    end.
Proof.
  intros H. unfold FlushLoopWrite in H.
  mstep H as st sa Hflush. mkeep AppendsKept Hflush.
  unfold AppendsKept in HR. rewrite <- HR. clear HR Hflush.
  case_if H.
  { inversion H; subst. destruct ce; reflexivity. }
  mstep H as lb sb Hb.
  assert (Hsb : AppendedPages (Trace sb)
                = match ce with
                  | Some e => e :: AppendedPages (Trace sa)
                  | None => AppendedPages (Trace sa)
                  end).
  { destruct ce.
    - mstep Hb as buf sp Hp. apply MmIoBufferAppendPage_inv in Hp as [-> ->].
      mstep Hb as x sx Hx. apply Entry_inv in Hx as [_ ->].
      inversion Hb; subst. cbn [Trace with_Trace].
      apply AppendedPages_cons.
    - inversion Hb; subst. reflexivity. }
  clear Hb.
  destruct (KeGetCurrentThreadIsPageCacheThread K).
  - mstep H as big s2 Hbig. mkeep AppendsKept Hbig.
    mstep H as g1 s3 Hg1. mkeep AppendsKept Hg1.
    mstep H as g2 s4 Hg2. mkeep AppendsKept Hg2.
    mstep H as g3 s5 Hg3. mkeep AppendsKept Hg3.
    unfold AppendsKept in *.
    assert (Hs5 : AppendedPages (Trace s5) = AppendedPages (Trace sb))
      by congruence.
    case_if H; inversion H; subst; rewrite Hs5, Hsb; destruct ce; reflexivity.
  - inversion H; subst. rewrite Hsb. destruct ce; reflexivity.
Qed.

(** An iteration counts a page when it puts one in the buffer, and besides
    only when it leaves the loop at the cap with the page it was at. *)
Lemma FlushLoopBody_count s0 new l s r s' :
  AppendedPages (Trace s) = new ++ AppendedPages (Trace s0) ->
  PagesFlushed l = Z.of_nat (length new) ->
  Z.of_nat (length new) + 1 < UINTN_MOD K ->
  FlushLoopBody K F Offset_ Size_ Flags_ PageCount l s = Some (r, s') ->
  exists new',
    AppendedPages (Trace s') = new' ++ AppendedPages (Trace s0)
    /\ (length new <= length new' <= length new + 1)%nat
    /\ PagesFlushed (LoopLocals r) <= Z.of_nat (length new) + 1
    /\ (PagesFlushed (LoopLocals r) = Z.of_nat (length new')
        \/ (exists Count,
              PageCount = Some Count /\ r = Break (LoopLocals r)
              /\ PagesFlushed (LoopLocals r) >= Count
              /\ PagesFlushed (LoopLocals r) = Z.of_nat (length new') + 1)).
Proof.
  intros Hnew Hcount Hfit H. unfold FlushLoopBody in H.
  mstep H as Node1 s1 HN1. mkeep AppendsKept HN1.
  mstep H as Node2 s2 HN2. mkeep AppendsKept HN2.
  assert (Hs2 : AppendedPages (Trace s2) = new ++ AppendedPages (Trace s0)).
  { unfold AppendsKept in *. congruence. }
  clear HN1 HN2 HR HR0 Hnew.
  assert (Hsame : forall lx,
            PagesFlushed lx = PagesFlushed l ->
            exists new',
              AppendedPages (Trace s2) = new' ++ AppendedPages (Trace s0)
              /\ (length new <= length new' <= length new + 1)%nat
              /\ PagesFlushed lx = Z.of_nat (length new')).
  { intros lx Hlx. exists new. split; [exact Hs2|]. split; [lia|congruence]. }
  destruct Node2 as [ce|].
  2:{ inversion H; subst.
      destruct (Hsame _ eq_refl) as (new' & H1 & H2 & H3). exists new'.
      cbn [LoopLocals PagesFlushed] in *.
      split; [exact H1|]. split; [exact H2|]. split; [lia|]. left. exact H3. }
  mstep H as x s3 Hx. apply Entry_inv in Hx. destruct Hx as [Hx ->].
  case_if H.
  { inversion H; subst.
    destruct (Hsame _ eq_refl) as (new' & H1 & H2 & H3). exists new'.
    cbn [LoopLocals PagesFlushed] in *.
    split; [exact H1|]. split; [exact H2|]. split; [lia|]. left. exact H3. }
  mstep H as skip s4 Hskip. mkeep AppendsKept Hskip.
  assert (Hs4 : AppendedPages (Trace s4) = new ++ AppendedPages (Trace s0)).
  { unfold AppendsKept in *. congruence. }
  clear Hskip HR Hs2 Hsame.
  case_if H.
  { inversion H; subst. exists new. cbn [LoopLocals PagesFlushed].
    split; [exact Hs4|]. split; [lia|]. split; [lia|]. left. exact Hcount. }
  assert (Hone : uintn K (PagesFlushed l + 1) = Z.of_nat (length new) + 1).
  { rewrite Hcount. apply uintn_small. lia. }
  case_if H.
  - mstep H as buf sp Hp. apply MmIoBufferAppendPage_inv in Hp as [-> ->].
    case_if H.
    + inversion H; subst. exists (ce :: new).
      cbn [LoopLocals PagesFlushed Trace with_Trace length].
      split; [rewrite AppendedPages_cons, Hs4; reflexivity|].
      split; [lia|]. split; [lia|]. left. lia.
    + pose proof (FlushLoopWrite_appends _ _ _ _ _ H) as Happ.
      destruct (FlushLoopWrite_locals _ _ _ _ _ H) as [Hp _].
      cbn [PagesFlushed] in Hp. cbn [Trace with_Trace] in Happ.
      rewrite AppendedPages_cons, Hs4 in Happ.
      exists (ce :: new). split.
      { rewrite Happ. destruct r; reflexivity. }
      cbn [length]. split; [lia|]. split; [lia|]. left. lia.
  - pose proof (FlushLoopWrite_appends _ _ _ _ _ H) as Happ.
    destruct (FlushLoopWrite_locals _ _ _ _ _ H) as [Hp Hcases].
    cbn [PagesFlushed] in Hp, Hcases.
    destruct r as [l'|l'|st l']; cbn [LoopLocals] in *.
    + exists (ce :: new). split; [rewrite Happ, Hs4; reflexivity|].
      cbn [length]. split; [lia|]. split; [lia|]. left. lia.
    + exists new. split; [rewrite Happ, Hs4; reflexivity|]. split; [lia|].
      split; [lia|]. right.
      destruct Hcases as [(c & HPC & Hge & _) | (_ & [Hr | [_ Hr]] & _)];
        [|discriminate|discriminate].
      exists c. split; [exact HPC|]. split; [reflexivity|].
      split; [lia|]. lia.
    + exists (ce :: new). split; [rewrite Happ, Hs4; reflexivity|].
      cbn [length]. split; [lia|]. split; [lia|]. left. lia.
Qed.

Lemma FlushLoop_count s0 fuel : forall new l s o l' s',
  AppendedPages (Trace s) = new ++ AppendedPages (Trace s0) ->
  PagesFlushed l = Z.of_nat (length new) ->
  Z.of_nat (length new) + Z.of_nat fuel < UINTN_MOD K ->
  FlushLoop K F Offset_ Size_ Flags_ PageCount fuel l s = Some ((o, l'), s') ->
  exists new',
    AppendedPages (Trace s') = new' ++ AppendedPages (Trace s0)
    /\ PagesFlushed l' <= Z.of_nat (length new) + Z.of_nat fuel
    /\ (PagesFlushed l' = Z.of_nat (length new')
        \/ (exists Count,
              PageCount = Some Count /\ o = None
              /\ PagesFlushed l' >= Count
              /\ PagesFlushed l' = Z.of_nat (length new') + 1)).
Proof.
  induction fuel as [|fuel IH]; intros new l s o l' s' Hnew Hcount Hfit H;
    cbn [FlushLoop] in H.
  - discriminate.
  - mstep H as r s1 Hbody.
    destruct (FlushLoopBody_count s0 new l s r s1 Hnew Hcount ltac:(lia) Hbody)
      as (new1 & Hnew1 & Hlen & Hle & Hc).
    destruct r as [l1 | l1 | st l1]; cbn [LoopLocals] in Hc, Hle.
    + destruct Hc as [Hc | (c & _ & Hr & _)]; [|discriminate].
      destruct (IH new1 l1 s1 o l' s' Hnew1 Hc ltac:(lia) H)
        as (new2 & Hnew2 & Hle2 & Hc2).
      exists new2. split; [exact Hnew2|]. split; [lia|exact Hc2].
    + inversion H; subst. exists new1. split; [exact Hnew1|]. split; [lia|].
      destruct Hc as [Hc | (c & HPC & _ & Hge & Hc)]; [left; exact Hc|].
      right. exists c. auto.
    + inversion H; subst. exists new1. split; [exact Hnew1|]. split; [lia|].
      destruct Hc as [Hc | (c & _ & Hr & _)]; [|discriminate]. left. exact Hc.
Qed.

(** The page count a flush gives back is the cap less the pages it put in
    its buffers, stopping at zero; or zero, when the loop was left at the
    cap with a page it had counted and not put in a buffer. *)
Lemma IopFlushPageCacheEntries_count Count fuel s r s' :
  PageCount = Some Count -> 0 <= Count < UINTN_MOD K ->
  Z.of_nat fuel < UINTN_MOD K ->
  IopFlushPageCacheEntries K F Offset_ Size_ Flags_ PageCount fuel s
  = Some (r, s') ->
  exists new,
    AppendedPages (Trace s') = new ++ AppendedPages (Trace s)
    /\ (FlushPageCount r = Some (Z.max 0 (Count - Z.of_nat (length new)))
        \/ (Z.of_nat (length new) = Count - 1 /\ FlushPageCount r = Some 0)).
Proof.
  intros HPC HCount Hfuel H. unfold IopFlushPageCacheEntries in H.
  assert (Hend : forall G l sx new,
    AppendedPages (Trace sx) = new ++ AppendedPages (Trace s) ->
    0 <= PagesFlushed l < UINTN_MOD K ->
    (PagesFlushed l = Z.of_nat (length new)
     \/ (PagesFlushed l >= Count
         /\ PagesFlushed l = Z.of_nat (length new) + 1)) ->
    FlushPageCacheEntriesEnd K F Flags_ PageCount G l sx = Some (r, s') ->
    exists new,
      AppendedPages (Trace s') = new ++ AppendedPages (Trace s)
      /\ (FlushPageCount r = Some (Z.max 0 (Count - Z.of_nat (length new)))
          \/ (Z.of_nat (length new) = Count - 1
              /\ FlushPageCount r = Some 0))).
  { intros G l sx new Hnew Hrange Hc Hrun.
    assert (Hkeep : AppendsKept sx s').
    { refine ((_ : Keeps AppendsKept _) sx r s' Hrun).
      unfold FlushPageCacheEntriesEnd. keeps_solve. }
    assert (Hinv0 : FlushStatusInv sx l sx -> True) by auto.
    assert (Hcount : FlushPageCount r
                     = Some (if PagesFlushed l >? Count then 0
                             else uintn K (Count - PagesFlushed l))).
    { unfold FlushPageCacheEntriesEnd in Hrun.
      mstep Hrun as Empty s1 HE. mstep Hrun as u1 s2 Happ.
      mstep Hrun as f s3 Hf. mstep Hrun as T2 s4 Hsync.
      mstep Hrun as u3 s5 Hmark. inversion Hrun. cbn.
      rewrite HPC. reflexivity. }
    exists new. split; [unfold AppendsKept in Hkeep; congruence|].
    rewrite Hcount.
    destruct (PagesFlushed l >? Count) eqn:Hgt.
    - apply Z.gtb_lt in Hgt. left. f_equal. lia.
    - assert (Hle : PagesFlushed l <= Count).
      { destruct (Z.gtb_spec (PagesFlushed l) Count); [discriminate | lia]. }
      rewrite uintn_small by lia.
      destruct Hc as [Hc | [Hge Hc]].
      + left. f_equal. lia.
      + right. split; [lia|]. f_equal. lia. }
  assert (Hzero : forall G l sx,
    AppendsKept s sx -> PagesFlushed l = 0 ->
    FlushPageCacheEntriesEnd K F Flags_ PageCount G l sx = Some (r, s') ->
    exists new,
      AppendedPages (Trace s') = new ++ AppendedPages (Trace s)
      /\ (FlushPageCount r = Some (Z.max 0 (Count - Z.of_nat (length new)))
          \/ (Z.of_nat (length new) = Count - 1
              /\ FlushPageCount r = Some 0))).
  { intros G l sx Hk Hl Hrun. apply (Hend G l sx []); [exact Hk | lia | | exact Hrun].
    left. exact Hl. }
  mstep H as u1 s1 Hi. mkeep AppendsKept Hi.
  mstep H as u2 s2 Hopt. mkeep AppendsKept Hopt.
  mstep H as f s3 Hf. mkeep AppendsKept Hf.
  assert (HR3 : AppendsKept s s3) by (repeat (etransitivity; [eassumption|]);
                                      reflexivity).
  clear Hi Hopt Hf HR HR0 HR1.
  destruct (negb (IO_IS_CACHEABLE_TYPE (PropertiesType f))).
  { eapply Hzero; [| |exact H]; auto. }
  mstep H as Empty s4 HE. mkeep AppendsKept HE.
  destruct Empty.
  { eapply Hzero; [| |exact H]; [etransitivity; eassumption|auto]. }
  mstep H as Allocated s5 HA. mkeep AppendsKept HA.
  destruct (negb Allocated).
  { eapply Hzero; [| |exact H];
      [repeat (etransitivity; [eassumption|]); reflexivity|auto]. }
  mstep H as Node_ s6 HN. mkeep AppendsKept HN.
  assert (HR6 : AppendsKept s s6)
    by (repeat (etransitivity; [eassumption|]); reflexivity).
  mstep H as res s7 Hloop. destruct res as [o l'].
  pose proof (fun Hz => FlushLoop_count s fuel [] _ s6 o l' s7 HR6 Hz
                          ltac:(cbn; lia) Hloop) as Hcount.
  destruct (Hcount eq_refl) as (new & Hnew & Hle & Hc). clear Hcount.
  cbn [length] in Hle.
  assert (Hc' : 0 <= PagesFlushed l' < UINTN_MOD K
                /\ (PagesFlushed l' = Z.of_nat (length new)
                    \/ (PagesFlushed l' >= Count
                        /\ PagesFlushed l' = Z.of_nat (length new) + 1))).
  { destruct Hc as [Hc | (c & Hpc & _ & Hge & Hc)].
    - split; [lia|]. left. exact Hc.
    - split; [lia|]. right. rewrite HPC in Hpc. inversion Hpc; subst c.
      split; assumption. }
  destruct Hc' as [Hrange Hc'].
  destruct o as [G|].
  { eapply Hend; eassumption. }
  mstep H as l2 s8 Hlast.
  assert (Hl2 : PagesFlushed l2 = PagesFlushed l' /\ AppendsKept s7 s8).
  { case_if Hlast.
    - mstep Hlast as st s9 Hflush.
      pose proof (Keeps_IopFlushPageCacheBuffer_appends K _ _ _ _ _ _ Hflush)
        as Hk9.
      inversion Hlast; subst. split; [reflexivity | exact Hk9].
    - inversion Hlast; subst. split; reflexivity. }
  destruct Hl2 as [Hl2 Hk8].
  eapply (Hend _ l2 s8 new); [| | |exact H].
  - unfold AppendsKept in Hk8. congruence.
  - rewrite Hl2. exact Hrange.
  - rewrite Hl2. exact Hc'.
Qed.

End FlushLoopFacts.

(** ** The two ends of the flush of a buffer *)

Global Instance WritesKept_PreOrder : PreOrder WritesKept.
Proof.
  split.
  - intros a. reflexivity.
  - intros a b c Hab Hbc. unfold WritesKept in *. congruence.
Qed.

Global Instance WritesKept_entries : IgnoresEntries WritesKept.
Proof. intros s g. reflexivity. Qed.
Global Instance WritesKept_files : IgnoresFileObjects WritesKept.
Proof. intros s g. reflexivity. Qed.
Global Instance WritesKept_lists : IgnoresLists WritesKept.
Proof. intros s g. reflexivity. Qed.
Global Instance WritesKept_globals : IgnoresGlobals WritesKept.
Proof. intros s g. reflexivity. Qed.

Lemma Keeps_Emit_writes ev : WriteRequest ev = None -> Keeps WritesKept (Emit ev).
Proof.
  intros Hev s a s' H. inversion H. unfold WritesKept, WriteRequests. cbn.
  rewrite Hev. reflexivity.
Qed.

#[export] Hint Extern 1 (Keeps WritesKept (Emit _)) =>
  apply Keeps_Emit_writes; reflexivity : keeps.

Lemma Keeps_IopMarkPageCacheEntryClean_writes K e Move :
  Keeps WritesKept (IopMarkPageCacheEntryClean K e Move).
Proof. keeps_solve. Qed.

Lemma Keeps_IopMarkPageCacheEntryDirty_writes K e :
  Keeps WritesKept (IopMarkPageCacheEntryDirty K e).
Proof. keeps_solve. Qed.

#[export] Hint Resolve Keeps_IopMarkPageCacheEntryClean_writes
  Keeps_IopMarkPageCacheEntryDirty_writes : keeps.

Lemma DirtyTarget_ShapeKept s s' e :
  ShapeKept s s' -> DirtyTarget s' e = DirtyTarget s e.
Proof.
  intros (Hsome & Hnone & _). unfold DirtyTarget.
  destruct (Entries s !! e) as [x|] eqn:Hx.
  - destruct (Hsome e x Hx) as (x' & -> & _ & _ & Hb & Ho).
    rewrite Ho, Hb. reflexivity.
  - rewrite (Hnone e Hx). reflexivity.
Qed.

(** Marking an entry dirty leaves the entry that carries its dirty flag
    dirty. *)
Lemma IopMarkPageCacheEntryDirty_target K e s b s' :
  IopMarkPageCacheEntryDirty K e s = Some (b, s') ->
  exists d, DirtyTarget s e = Some d /\ DirtyBit s' d = true.
Proof.
  intros H. unfold IopMarkPageCacheEntryDirty in H.
  mstep H as x sx Hx. apply Entry_inv in Hx as [Hx ->].
  mstep H as d sd Hd.
  assert (Htarget : DirtyTarget s e = Some d /\ sd = s).
  { unfold DirtyTarget. rewrite Hx.
    destruct (FlagSet (Flags x) PAGE_CACHE_ENTRY_FLAG_PAGE_OWNER); cbn in Hd.
    - inversion Hd. auto.
    - destruct (BackingEntry x); inversion Hd. auto. }
  destruct Htarget as [Htarget ->]. exists d. split; [exact Htarget|].
  mstep H as dd s2 Hdd. apply Entry_inv in Hdd as [Hdd ->].
  case_if H.
  { inversion H; subst. unfold DirtyBit. rewrite Hdd. assumption. }
  mstep H as old s3 Hor.
  rewrite (RtlAtomicOr32_run _ _ _ _ Hdd) in Hor. inversion Hor; subst old s3.
  clear Hor.
  match type of H with
  | _ ?s3 = _ => assert (Hbit : DirtyBit s3 d = true)
  end.
  { unfold DirtyBit. cbn. rewrite lookup_insert_eq. cbn.
    apply FlagSet_set_DIRTY. }
  case_if H.
  - mkeep DirtyKept H. apply HR. exact Hbit.
  - inversion H; subst. exact Hbit.
Qed.

Lemma MmGetIoBufferPageCacheEntry_inv K buf off s e s' :
  MmGetIoBufferPageCacheEntry K buf off s = Some (e, s') ->
  buf !! Z.to_nat (off / MmPageSize K) = Some e /\ s' = s
  /\ 0 <= off /\ 0 < MmPageSize K.
Proof.
  unfold MmGetIoBufferPageCacheEntry. intros H.
  destruct (off <? 0) eqn:Hoff; [discriminate|].
  destruct (MmPageSize K <=? 0) eqn:Hps; [discriminate|]. cbn in H.
  destruct (buf !! Z.to_nat (off / MmPageSize K)); [|discriminate].
  inversion H. repeat split; auto; lia.
Qed.

Lemma IopMarkFileObjectDirty_inv f s u s' :
  IopMarkFileObjectDirty f s = Some (u, s') ->
  exists v, FileObjects s' !! f = Some v /\ FILE_OBJECT_FLAG_DIRTY_DATA v = true.
Proof.
  unfold IopMarkFileObjectDirty, UpdateFile. intros H.
  mstep H as a s1 Hup. mstep Hup as v s2 Hv.
  apply File_inv in Hv as [Hv ->].
  inversion Hup; subst. inversion H; subst. cbn.
  exists (set_DIRTY_DATA true v). rewrite lookup_insert_eq. auto.
Qed.

(** The loop of the failure path marks every page from where it starts to
    the end of the write. *)
Lemma FlushBufferMarkDirty_marks K buf n :
  0 < MmPageSize K -> n + MmPageSize K <= UINTN_MOD K ->
  forall fuel k ce s ce' s',
    0 <= k ->
    FlushBufferMarkDirty K fuel buf n (k * MmPageSize K) ce s = Some (ce', s') ->
    (ce' = ce \/ ce' ∈ buf)
    /\ (forall i e, k <= i -> i * MmPageSize K < n ->
          buf !! Z.to_nat i = Some e ->
          exists d, DirtyTarget s e = Some d /\ DirtyBit s' d = true).
Proof.
  intros HPS Hfit. induction fuel as [|fuel IH]; intros k ce s ce' s' Hk H;
    cbn [FlushBufferMarkDirty] in H.
  { unfold fault in H. discriminate. }
  destruct (k * MmPageSize K <? n) eqn:Hlt.
  - mstep H as e0 s0 Hget.
    apply MmGetIoBufferPageCacheEntry_inv in Hget as (Hget & -> & _ & _).
    rewrite Z.div_mul in Hget by lia.
    mstep H as b s1 Hmark.
    pose proof (Keeps_FlushBufferMarkDirty DirtyKept K
                  (Keeps_IopMarkPageCacheEntryDirty_dirty K)
                  _ _ _ _ _ _ _ _ H) as [Hdirty _].
    pose proof (Keeps_IopMarkPageCacheEntryDirty_shape K _ _ _ _ Hmark)
      as Hshape.
    replace (uintn K (k * MmPageSize K + MmPageSize K))
      with ((k + 1) * MmPageSize K) in H
      by (rewrite uintn_small; nia).
    apply IH in H; [|lia]. destruct H as [Hce Hall]. split.
    + right. destruct Hce as [->|Hin]; [|exact Hin].
      eapply list_elem_of_lookup_2. exact Hget.
    + intros i e Hi Hin He. destruct (Z.eq_dec i k) as [->|Hne].
      * rewrite Hget in He. inversion He; subst e0.
        destruct (IopMarkPageCacheEntryDirty_target _ _ _ _ _ Hmark)
          as (d & Hd & Hbit).
        exists d. split; [exact Hd|]. apply Hdirty, Hbit.
      * destruct (Hall i e ltac:(lia) Hin He) as (d & Hd & Hbit).
        exists d. split; [|exact Hbit].
        rewrite <- (DirtyTarget_ShapeKept _ _ e Hshape). exact Hd.
  - inversion H; subst. split; [left; reflexivity|].
    intros i e Hi Hin _. nia.
Qed.

(** The failure path re-marks the pages from the bytes completed, aligned
    down to a page, to the end of the write; it marks the file object when
    the bytes completed are not the bytes asked for. *)
Lemma FlushPageCacheBufferEnd_marks K buf F st c n ce s r s' :
  0 < MmPageSize K -> n + MmPageSize K <= UINTN_MOD K -> 0 <= c ->
  KSUCCESS st = false -> ce ∈ buf ->
  (forall e x, e ∈ buf -> Entries s !! e = Some x -> FileObject x = F) ->
  FlushPageCacheBufferEnd K buf st c n ce s = Some (r, s') ->
  WritesKept s s'
  /\ (forall i e, 0 <= i ->
        ALIGN_RANGE_DOWN c (MmPageSize K) <= i * MmPageSize K < n ->
        buf !! Z.to_nat i = Some e ->
        exists d, DirtyTarget s e = Some d /\ DirtyBit s' d = true)
  /\ (c <> n ->
      exists v, FileObjects s' !! F = Some v
                /\ FILE_OBJECT_FLAG_DIRTY_DATA v = true).
Proof.
  intros HPS Hfit Hc Hst Hce Hfile H.
  pose proof (Keeps_FlushBufferMarkDirty WritesKept K
                (Keeps_IopMarkPageCacheEntryDirty_writes K)) as Hw.
  pose proof (Keeps_FlushBufferMarkDirty ShapeKept K
                (Keeps_IopMarkPageCacheEntryDirty_shape K)) as Hsh.
  split.
  { refine ((_ : Keeps WritesKept _) s r s' H).
    unfold FlushPageCacheBufferEnd. keeps_solve. }
  unfold FlushPageCacheBufferEnd in H. rewrite Hst in H. cbn [negb] in H.
  mstep H as ce' s1 Hloop. mstep H as u s2 Hmark. inversion H; subst r s2.
  clear H.
  pose proof (Hsh _ _ _ _ _ _ _ _ Hloop) as Hshape.
  replace (ALIGN_RANGE_DOWN c (MmPageSize K))
    with (c / MmPageSize K * MmPageSize K) in *
    by (unfold ALIGN_RANGE_DOWN; lia).
  apply (FlushBufferMarkDirty_marks K buf n HPS Hfit) in Hloop;
    [|apply Z.div_pos; lia].
  destruct Hloop as [Hce' Hall].
  assert (HD : DirtyKept s1 s').
  { refine ((_ : Keeps DirtyKept _) s1 u s' Hmark). keeps_solve. }
  split.
  - intros i e Hi Hin He.
    assert (Hik : c / MmPageSize K <= i) by nia.
    destruct (Hall i e Hik ltac:(lia) He) as (d & Hd & Hbit).
    exists d. split; [exact Hd|]. apply HD, Hbit.
  - intros Hne. apply Z.eqb_neq in Hne. rewrite Hne in Hmark. cbn [negb] in Hmark.
    mstep Hmark as x s3 Hx. apply Entry_inv in Hx as [Hx ->].
    assert (HF : FileObject x = F).
    { assert (Hin : ce' ∈ buf) by (destruct Hce' as [->|]; assumption).
      destruct Hshape as (Hsome & Hnone & _).
      destruct (Entries s !! ce') as [x0|] eqn:Hx0.
      - destruct (Hsome _ _ Hx0) as (x' & Hx' & HFO & _).
        rewrite Hx in Hx'. inversion Hx'; subst x'. rewrite HFO.
        apply (Hfile ce' x0 Hin Hx0).
      - rewrite (Hnone _ Hx0) in Hx. discriminate. }
    rewrite HF in Hmark. apply IopMarkFileObjectDirty_inv in Hmark. exact Hmark.
Qed.

(** The entry the first loop looked at last is an entry of the buffer. *)
Lemma FlushBufferMarkClean_entry K buf size :
  forall fuel bo bw c ce s r s',
    ce ∈ buf ->
    FlushBufferMarkClean K fuel buf size bo bw c ce s = Some (r, s') ->
    snd r ∈ buf.
Proof.
  induction fuel as [|fuel IH]; intros bo bw c ce s r s' Hce H;
    cbn [FlushBufferMarkClean] in H.
  { unfold fault in H. discriminate. }
  case_if H.
  - mstep H as e s1 Hget.
    apply MmGetIoBufferPageCacheEntry_inv in Hget as (Hget & -> & _ & _).
    apply list_elem_of_lookup_2 in Hget.
    mstep H as x s2 Hx. case_if H.
    + inversion H; subst. exact Hget.
    + mstep H as b s3 Hmark. eapply IH; [exact Hget | exact H].
  - inversion H; subst. exact Hce.
Qed.

(** Over pages that are all clean the first loop changes nothing and says
    so. *)
Lemma FlushBufferMarkClean_clean K buf size s :
  0 < MmPageSize K -> size + MmPageSize K <= UINTN_MOD K ->
  (forall i, 0 <= i -> i * MmPageSize K < size ->
     exists e x, buf !! Z.to_nat i = Some e /\ Entries s !! e = Some x
                 /\ FlagSet (Flags x) PAGE_CACHE_ENTRY_FLAG_DIRTY = false) ->
  forall fuel k bw ce,
    0 <= k -> (1 <= fuel)%nat -> (length buf < fuel + Z.to_nat k)%nat ->
    exists bw' ce',
      FlushBufferMarkClean K fuel buf size (k * MmPageSize K) bw true ce s
      = Some ((bw', true, ce'), s).
Proof.
  intros HPS Hfit Hclean.
  induction fuel as [|fuel IH]; intros k bw ce Hk Hone Hfuel; [lia|].
  cbn [FlushBufferMarkClean].
  destruct (k * MmPageSize K <? size) eqn:Hlt.
  - destruct (Hclean k Hk ltac:(lia)) as (e & x & He & Hx & Hflag).
    pose proof (lookup_lt_Some _ _ _ He) as Hlen.
    assert (Hget : MmGetIoBufferPageCacheEntry K buf (k * MmPageSize K) s
                   = Some (e, s)).
    { unfold MmGetIoBufferPageCacheEntry.
      replace (k * MmPageSize K <? 0) with false by (symmetry; apply Z.ltb_ge; nia).
      replace (MmPageSize K <=? 0) with false by (symmetry; apply Z.leb_gt; lia).
      cbn. rewrite Z.div_mul by lia. rewrite He. reflexivity. }
    erewrite bind_run by exact Hget.
    erewrite bind_run by (apply Entry_run; exact Hx).
    destruct (negb (NodeParent x)).
    + exists bw, e. reflexivity.
    + assert (Hmark : IopMarkPageCacheEntryClean K e true s = Some (false, s)).
      { unfold IopMarkPageCacheEntryClean.
        erewrite bind_run by (apply Entry_run; exact Hx).
        rewrite Hflag. reflexivity. }
      erewrite bind_run by exact Hmark.
      replace (uintn K (k * MmPageSize K + MmPageSize K))
        with ((k + 1) * MmPageSize K) by (rewrite uintn_small; nia).
      apply IH; lia.
  - exists bw, ce. reflexivity.
Qed.

(** A buffer of clean pages is not written by a flush that is not
    synchronized: the flush succeeds and changes nothing. *)
Lemma IopFlushPageCacheBuffer_all_clean K buf size flags s e0 x0 f0 :
  0 < MmPageSize K -> size + MmPageSize K <= UINTN_MOD K ->
  FlagSet flags (IO_FLAG_DATA_SYNCHRONIZED K) = false ->
  buf !! 0%nat = Some e0 -> Entries s !! e0 = Some x0 ->
  FileObjects s !! FileObject x0 = Some f0 ->
  (forall i, 0 <= i -> i * MmPageSize K < size ->
     exists e x, buf !! Z.to_nat i = Some e /\ Entries s !! e = Some x
                 /\ FlagSet (Flags x) PAGE_CACHE_ENTRY_FLAG_DIRTY = false) ->
  IopFlushPageCacheBuffer K buf size flags s = Some (STATUS_SUCCESS, s).
Proof.
  intros HPS Hfit Hsync He0 Hx0 Hf0 Hclean. unfold IopFlushPageCacheBuffer.
  assert (Hget : MmGetIoBufferPageCacheEntry K buf 0 s = Some (e0, s)).
  { unfold MmGetIoBufferPageCacheEntry.
    replace (MmPageSize K <=? 0) with false by (symmetry; apply Z.leb_gt; lia).
    change (0 <? 0) with false. cbn [orb]. rewrite Z.div_0_l by lia.
    change (Z.to_nat 0) with 0%nat. rewrite He0. reflexivity. }
  erewrite bind_run by exact Hget.
  erewrite bind_run by (apply Entry_run; exact Hx0).
  erewrite bind_run by (apply File_run; exact Hf0).
  destruct (FlushBufferMarkClean_clean K buf size s HPS Hfit Hclean
              (S (length buf)) 0 0 e0 ltac:(lia) ltac:(lia) ltac:(lia))
    as (bw & ce & Hloop).
  change (0 * MmPageSize K) with 0 in Hloop.
  erewrite bind_run by exact Hloop.
  rewrite Hsync. cbn [negb andb].
  match goal with
  | |- (if ?b =? 0 then _ else _) _ = _ => destruct (b =? 0)
  end; reflexivity.
Qed.

(** The first loop of the flush of a buffer counts no more bytes than the
    flush size. *)
Lemma FlushBufferMarkClean_bytes K buf m :
  0 < MmPageSize K -> m * MmPageSize K < UINTN_MOD K ->
  forall fuel k c ce s r s',
    0 <= k <= m ->
    FlushBufferMarkClean K fuel buf (m * MmPageSize K) (k * MmPageSize K)
      (k * MmPageSize K) c ce s = Some (r, s') ->
    0 <= fst (fst r) <= m * MmPageSize K.
Proof.
  intros HPS Hfit. induction fuel as [|fuel IH]; intros k c ce s r s' Hk H;
    cbn [FlushBufferMarkClean] in H.
  { unfold fault in H. discriminate. }
  case_if H.
  - mstep H as e s1 Hget. mstep H as x s2 Hx. case_if H.
    + inversion H; subst. cbn. nia.
    + mstep H as b s3 Hmark.
      assert (Hk1 : k + 1 <= m) by nia.
      replace (uintn K (k * MmPageSize K + MmPageSize K))
        with ((k + 1) * MmPageSize K) in H by (rewrite uintn_small; nia).
      apply IH in H; [exact H | lia].
  - inversion H; subst. cbn. nia.
Qed.

(** *** The flush of a well-formed buffer returns *)

Global Instance EntriesKept_PreOrder : PreOrder EntriesKept.
Proof.
  split.
  - intros s. reflexivity.
  - intros a b c Hab Hbc. unfold EntriesKept in *. congruence.
Qed.

Global Instance EntriesKept_files : IgnoresFileObjects EntriesKept.
Proof. intros s g. reflexivity. Qed.
Global Instance EntriesKept_lists : IgnoresLists EntriesKept.
Proof. intros s g. reflexivity. Qed.
Global Instance EntriesKept_globals : IgnoresGlobals EntriesKept.
Proof. intros s g. reflexivity. Qed.
Global Instance EntriesKept_trace : IgnoresTrace EntriesKept.
Proof. intros s g. reflexivity. Qed.

Global Instance ListedKept_PreOrder : PreOrder ListedKept.
Proof.
  split.
  - intros s e x He. exists x. auto.
  - intros a b c Hab Hbc e x He.
    destruct (Hab e x He) as (y & Hy & Hxy).
    destruct (Hbc e y Hy) as (z & Hz & Hyz).
    exists z. auto.
Qed.

Global Instance ListedKept_files : IgnoresFileObjects ListedKept.
Proof. intros s g. apply (reflexivity (R := ListedKept) s). Qed.
Global Instance ListedKept_lists : IgnoresLists ListedKept.
Proof. intros s g. apply (reflexivity (R := ListedKept) s). Qed.
Global Instance ListedKept_globals : IgnoresGlobals ListedKept.
Proof. intros s g. apply (reflexivity (R := ListedKept) s). Qed.
Global Instance ListedKept_trace : IgnoresTrace ListedKept.
Proof. intros s g. apply (reflexivity (R := ListedKept) s). Qed.

(** An entry written so that it is clean, or on a list. *)
Lemma ListedKept_insert s s' e y :
  is_Some (Entries s !! e) -> Entries s' = <[e := y]> (Entries s) ->
  DirtyListed y -> ListedKept s s'.
Proof.
  intros [x Hx] HE Hy e' x' He'. rewrite HE.
  destruct (decide (e = e')) as [<-|Hne].
  - rewrite lookup_insert_eq. exists y. auto.
  - rewrite lookup_insert_ne by congruence. exists x'. auto.
Qed.

Lemma Keeps_IopMarkPageCacheEntryClean_listed K e Move :
  Keeps ListedKept (IopMarkPageCacheEntryClean K e Move).
Proof.
  intros s r s' H.
  assert (Hx : exists x, Entries s !! e = Some x).
  { unfold IopMarkPageCacheEntryClean in H. mstep H as x s1 Hx.
    apply Entry_inv in Hx. destruct Hx as [Hx _]. eauto. }
  destruct Hx as [x Hx].
  destruct (IopMarkPageCacheEntryClean_run K s e x Move Hx)
    as (Hclean & Hfault & Hdirty).
  destruct (FlagSet (Flags x) PAGE_CACHE_ENTRY_FLAG_DIRTY) eqn:Hd.
  - destruct (ListEntryNext x) eqn:Hn.
    + destruct (Hdirty eq_refl eq_refl) as (s2 & Hrun & HE & _).
      rewrite Hrun in H. inversion H; subst. clear H.
      eapply ListedKept_insert; [eauto | exact HE |].
      intros Hbad. cbn [Flags set_ListEntryNext set_Flags] in Hbad.
      rewrite (proj1 (FlagSet_clear_DIRTY (Flags x))) in Hbad. discriminate.
    + rewrite (Hfault eq_refl eq_refl) in H. discriminate.
  - rewrite (Hclean eq_refl) in H. inversion H; subst. reflexivity.
Qed.

(** What marking an entry dirty writes of the entries: nothing, or the
    dirty flag of the entry it goes through to, which it puts on a list. *)
Lemma IopMarkPageCacheEntryDirty_entries K e s r s' :
  IopMarkPageCacheEntryDirty K e s = Some (r, s') ->
  Entries s' = Entries s
  \/ exists d y,
       Entries s !! d = Some y
       /\ Entries s'
          = <[d := set_ListEntryNext true
                     (set_Flags (Z.lor (Flags y) PAGE_CACHE_ENTRY_FLAG_DIRTY) y)]>
              (Entries s).
Proof.
  intros H. unfold IopMarkPageCacheEntryDirty in H.
  mstep H as x s1 Hx. apply Entry_inv in Hx. destruct Hx as [Hx ->].
  mstep H as de s2 Hde. mkeep EntriesKept Hde.
  mstep H as d s3 Hd. apply Entry_inv in Hd. destruct Hd as [Hd ->].
  case_if H; [inversion H; subst; left; exact HR|].
  right. exists de, d. unfold EntriesKept in HR. rewrite <- HR.
  split; [exact Hd|].
  mstep H as old s4 Hor. rewrite (RtlAtomicOr32_run _ _ _ _ Hd) in Hor.
  inversion Hor; subst old s4. clear Hor.
  case_if H.
  2:{ rewrite Heqb in Heqb0. discriminate. }
  mstep H as u1 s5 H1. mkeep EntriesKept H1.
  mstep H as u2 s6 H2. mkeep EntriesKept H2.
  mstep H as d2 s7 H3. mkeep EntriesKept H3.
  mstep H as u3 s8 H4. mkeep EntriesKept H4.
  mstep H as u4 s9 H5.
  mstep H as d3 s10 H6. mkeep EntriesKept H6.
  mstep H as u5 s11 H7. mkeep EntriesKept H7.
  inversion H; subst. clear H.
  unfold EntriesKept in *. cbn [Entries with_Entries] in *.
  assert (H8 : Entries s8 !! de
               = Some (set_Flags (Z.lor (Flags d) PAGE_CACHE_ENTRY_FLAG_DIRTY) d)).
  { rewrite HR3, HR2, HR1, HR0. apply lookup_insert_eq. }
  unfold INSERT_BEFORE in H5.
  mstep H5 as u6 s12 H9. rewrite (UpdateEntry_run _ _ _ _ H8) in H9.
  inversion H9; subst. inversion H5; subst.
  cbn [Entries with_Entries with_Lists] in *.
  rewrite HR5, HR4. cbn [Entries with_Entries with_Lists].
  rewrite HR3, HR2, HR1, HR0. apply insert_insert_eq.
Qed.

Lemma Keeps_IopMarkPageCacheEntryDirty_listed K e :
  Keeps ListedKept (IopMarkPageCacheEntryDirty K e).
Proof.
  intros s r s' H.
  destruct (IopMarkPageCacheEntryDirty_entries K e s r s' H)
    as [HE | (d & y & Hy & HE)].
  - intros e' x He'. exists x. rewrite HE. auto.
  - eapply ListedKept_insert; [eauto | exact HE |]. intros _. reflexivity.
Qed.

#[export] Hint Resolve Keeps_IopMarkPageCacheEntryClean_listed
  Keeps_IopMarkPageCacheEntryDirty_listed : keeps.

Lemma Keeps_IopFlushPageCacheBuffer_listed K buf size flags :
  Keeps ListedKept (IopFlushPageCacheBuffer K buf size flags).
Proof.
  unfold IopFlushPageCacheBuffer.
  pose proof (Keeps_FlushBufferMarkClean ListedKept K
                (fun e => Keeps_IopMarkPageCacheEntryClean_listed K e true)).
  pose proof (Keeps_FlushBufferMarkDirty ListedKept K
                (Keeps_IopMarkPageCacheEntryDirty_listed K)).
  keeps_solve.
Qed.

Lemma EntryWellFormed_kept s s' e :
  ShapeKept s s' -> ListedKept s s' ->
  EntryWellFormed s e -> EntryWellFormed s' e.
Proof.
  intros (Hsome & _ & Hfiles) Hlisted (x & Hx & Hf & Hl & Hback).
  destruct (Hsome e x Hx) as (x' & Hx' & HFO & _ & HB & HO).
  exists x'. split; [exact Hx'|]. split; [|split].
  - rewrite HFO. apply Hfiles, Hf.
  - destruct (Hlisted e x Hx) as (x2 & Hx2 & Hl2).
    assert (x2 = x') by congruence. subst x2. auto.
  - intros Hown. rewrite HO in Hown.
    destruct (Hback Hown) as (b & y & Hb & Hy & Hyo & Hyf).
    destruct (Hsome b y Hy) as (y' & Hy' & HFOy & _ & _ & HOy).
    exists b, y'. split; [congruence|]. split; [exact Hy'|].
    split; [congruence|]. rewrite HFOy. apply Hfiles, Hyf.
Qed.

Lemma IopMarkPageCacheEntryClean_returns K e Move s x :
  Entries s !! e = Some x -> DirtyListed x ->
  Returns (IopMarkPageCacheEntryClean K e Move) s.
Proof.
  intros Hx Hl. destruct (IopMarkPageCacheEntryClean_run K s e x Move Hx)
    as (Hclean & _ & Hdirty).
  destruct (FlagSet (Flags x) PAGE_CACHE_ENTRY_FLAG_DIRTY) eqn:Hd.
  - destruct (Hdirty eq_refl (Hl Hd)) as (s' & Hrun & _).
    exists true, s'. exact Hrun.
  - exists false, s. apply Hclean. reflexivity.
Qed.

Lemma IopMarkPageCacheEntryDirty_returns_owner K b s y :
  Entries s !! b = Some y ->
  FlagSet (Flags y) PAGE_CACHE_ENTRY_FLAG_PAGE_OWNER = true ->
  is_Some (FileObjects s !! FileObject y) ->
  Returns (IopMarkPageCacheEntryDirty K b) s.
Proof.
  intros Hy Hown [f Hf].
  destruct (FlagSet (Flags y) PAGE_CACHE_ENTRY_FLAG_DIRTY) eqn:Hd.
  - exists false, s. unfold IopMarkPageCacheEntryDirty.
    rewrite (bind_run _ _ _ _ _ (Entry_run _ _ _ Hy)).
    rewrite Hown. cbn [negb].
    rewrite (bind_run _ _ _ _ _ (eq_refl : ret b s = Some (b, s))).
    rewrite (bind_run _ _ _ _ _ (Entry_run _ _ _ Hy)).
    rewrite Hd. reflexivity.
  - destruct (IopMarkPageCacheEntryDirty_owner K s b y f Hy Hown Hd Hf)
      as (s' & Hrun & _).
    exists true, s'. exact Hrun.
Qed.

Lemma IopMarkPageCacheEntryDirty_returns K e s :
  EntryWellFormed s e -> Returns (IopMarkPageCacheEntryDirty K e) s.
Proof.
  intros (x & Hx & Hf & _ & Hback).
  destruct (FlagSet (Flags x) PAGE_CACHE_ENTRY_FLAG_PAGE_OWNER) eqn:Hown.
  - eapply IopMarkPageCacheEntryDirty_returns_owner; eassumption.
  - destruct (Hback eq_refl) as (b & y & Hb & Hy & Hyo & Hyf).
    destruct (IopMarkPageCacheEntryDirty_returns_owner K b s y Hy Hyo Hyf)
      as (r & s' & Hrun).
    exists r, s'. rewrite <- Hrun. unfold IopMarkPageCacheEntryDirty.
    rewrite (bind_run _ _ _ _ _ (Entry_run _ _ _ Hx)).
    rewrite (bind_run _ _ _ _ _ (Entry_run _ _ _ Hy)).
    rewrite Hown, Hyo, Hb. reflexivity.
Qed.

Lemma MmGetIoBufferPageCacheEntry_run K buf k e s :
  0 < MmPageSize K -> 0 <= k -> buf !! Z.to_nat k = Some e ->
  MmGetIoBufferPageCacheEntry K buf (k * MmPageSize K) s = Some (e, s).
Proof.
  intros HPS Hk He. unfold MmGetIoBufferPageCacheEntry.
  replace (k * MmPageSize K <? 0) with false by (symmetry; apply Z.ltb_ge; nia).
  replace (MmPageSize K <=? 0) with false by (symmetry; apply Z.leb_gt; lia).
  cbn [orb]. rewrite Z.div_mul by lia. rewrite He. reflexivity.
Qed.

(** The first loop returns over a buffer of well-formed entries that is
    long enough. *)
Lemma FlushBufferMarkClean_returns K buf m :
  0 < MmPageSize K -> m * MmPageSize K < UINTN_MOD K ->
  m <= Z.of_nat (length buf) ->
  forall fuel k bw c ce s,
    0 <= k <= m -> (length buf < fuel + Z.to_nat k)%nat -> (1 <= fuel)%nat ->
    (forall e, e ∈ buf -> EntryWellFormed s e) ->
    Returns (FlushBufferMarkClean K fuel buf (m * MmPageSize K)
               (k * MmPageSize K) bw c ce) s.
Proof.
  intros HPS Hfit Hlen.
  induction fuel as [|fuel IH]; intros k bw c ce s Hk Hfuel Hone Hwf; [lia|].
  unfold Returns. cbn [FlushBufferMarkClean].
  destruct (k * MmPageSize K <? m * MmPageSize K) eqn:Hlt.
  - apply Z.ltb_lt in Hlt. assert (Hkm : k < m) by nia.
    destruct (lookup_lt_is_Some_2 buf (Z.to_nat k) ltac:(lia)) as [e He].
    destruct (Hwf e (list_elem_of_lookup_2 _ _ _ He)) as (x & Hx & _ & Hl & _).
    rewrite (bind_run _ _ _ _ _
               (MmGetIoBufferPageCacheEntry_run K buf k e s HPS ltac:(lia) He)).
    rewrite (bind_run _ _ _ _ _ (Entry_run _ _ _ Hx)).
    destruct (negb (NodeParent x)); [eexists; eexists; reflexivity|].
    destruct (IopMarkPageCacheEntryClean_returns K e true s x Hx Hl)
      as (b & s1 & Hmark).
    rewrite (bind_run _ _ _ _ _ Hmark).
    replace (uintn K (k * MmPageSize K + MmPageSize K))
      with ((k + 1) * MmPageSize K) by (rewrite uintn_small; nia).
    apply IH; [lia | lia | lia |].
    intros e' He'. eapply EntryWellFormed_kept; [| |apply Hwf, He'].
    + apply (Keeps_IopMarkPageCacheEntryClean_shape K e true _ _ _ Hmark).
    + apply (Keeps_IopMarkPageCacheEntryClean_listed K e true _ _ _ Hmark).
  - eexists. eexists. reflexivity.
Qed.

(** The loop of the failure path returns over a buffer of well-formed
    entries that holds the pages of the write. *)
Lemma FlushBufferMarkDirty_returns K buf n :
  0 < MmPageSize K -> n + MmPageSize K <= UINTN_MOD K ->
  n <= Z.of_nat (length buf) * MmPageSize K ->
  forall fuel k ce s,
    0 <= k -> (length buf < fuel + Z.to_nat k)%nat -> (1 <= fuel)%nat ->
    (forall e, e ∈ buf -> EntryWellFormed s e) ->
    Returns (FlushBufferMarkDirty K fuel buf n (k * MmPageSize K) ce) s.
Proof.
  intros HPS Hfit Hlen.
  induction fuel as [|fuel IH]; intros k ce s Hk Hfuel Hone Hwf; [lia|].
  unfold Returns. cbn [FlushBufferMarkDirty].
  destruct (k * MmPageSize K <? n) eqn:Hlt.
  - apply Z.ltb_lt in Hlt.
    assert (Hkl : k < Z.of_nat (length buf)) by nia.
    destruct (lookup_lt_is_Some_2 buf (Z.to_nat k) ltac:(lia)) as [e He].
    rewrite (bind_run _ _ _ _ _
               (MmGetIoBufferPageCacheEntry_run K buf k e s HPS ltac:(lia) He)).
    destruct (IopMarkPageCacheEntryDirty_returns K e s
                (Hwf e (list_elem_of_lookup_2 _ _ _ He))) as (b & s1 & Hmark).
    rewrite (bind_run _ _ _ _ _ Hmark).
    replace (uintn K (k * MmPageSize K + MmPageSize K))
      with ((k + 1) * MmPageSize K) by (rewrite uintn_small; nia).
    apply IH; [lia | lia | lia |].
    intros e' He'. eapply EntryWellFormed_kept; [| |apply Hwf, He'].
    + apply (Keeps_IopMarkPageCacheEntryDirty_shape K e _ _ _ Hmark).
    + apply (Keeps_IopMarkPageCacheEntryDirty_listed K e _ _ _ Hmark).
  - eexists. eexists. reflexivity.
Qed.

Lemma IopMarkFileObjectDirty_returns f s :
  is_Some (FileObjects s !! f) -> Returns (IopMarkFileObjectDirty f) s.
Proof.
  intros [v Hv]. unfold Returns, IopMarkFileObjectDirty.
  rewrite (bind_run _ _ _ _ _
             (eq_trans (bind_run _ _ _ _ _ (File_run _ _ _ Hv)) eq_refl
              : UpdateFile f (set_DIRTY_DATA true) s = Some (tt, _))).
  eexists. eexists. reflexivity.
Qed.

Lemma FlushPageCacheBufferEnd_returns K buf st c n ce s :
  0 < MmPageSize K -> n + MmPageSize K <= UINTN_MOD K ->
  n <= Z.of_nat (length buf) * MmPageSize K -> 0 <= c ->
  ce ∈ buf -> (forall e, e ∈ buf -> EntryWellFormed s e) ->
  Returns (FlushPageCacheBufferEnd K buf st c n ce) s.
Proof.
  intros HPS Hfit Hlen Hc Hce Hwf. unfold Returns, FlushPageCacheBufferEnd.
  destruct (negb (KSUCCESS st)); [|eexists; eexists; reflexivity].
  replace (ALIGN_RANGE_DOWN c (MmPageSize K))
    with (c / MmPageSize K * MmPageSize K)
    by (unfold ALIGN_RANGE_DOWN; lia).
  assert (Hk : 0 <= c / MmPageSize K) by (apply Z.div_pos; lia).
  destruct (FlushBufferMarkDirty_returns K buf n HPS Hfit Hlen
              (S (length buf)) (c / MmPageSize K) ce s Hk ltac:(lia)
              ltac:(lia) Hwf) as (ce' & s1 & Hloop).
  rewrite (bind_run _ _ _ _ _ Hloop).
  pose proof (Keeps_FlushBufferMarkDirty ShapeKept K
                (Keeps_IopMarkPageCacheEntryDirty_shape K)
                _ _ _ _ _ _ _ _ Hloop) as Hshape.
  destruct (FlushBufferMarkDirty_marks K buf n HPS Hfit _ _ _ _ _ _ Hk Hloop)
    as [Hce' _].
  assert (Hin : ce' ∈ buf) by (destruct Hce' as [->|]; assumption).
  pose proof (Keeps_FlushBufferMarkDirty ListedKept K
                (Keeps_IopMarkPageCacheEntryDirty_listed K)
                _ _ _ _ _ _ _ _ Hloop) as Hlisted.
  destruct (EntryWellFormed_kept _ _ _ Hshape Hlisted (Hwf ce' Hin))
    as (x & Hx & Hf & _).
  destruct (negb (c =? n)).
  - destruct (IopMarkFileObjectDirty_returns _ s1 Hf) as (u & s2 & Hmark).
    assert (Hinner : (y <- Entry ce' ;; IopMarkFileObjectDirty (FileObject y)) s1
                     = Some (u, s2)).
    { rewrite (bind_run _ _ _ _ _ (Entry_run _ _ _ Hx)). exact Hmark. }
    rewrite (bind_run _ _ _ _ _ Hinner). eexists. eexists. reflexivity.
  - eexists. eexists. reflexivity.
Qed.

(** The flush of a buffer of well-formed entries that starts inside its
    file returns. *)
Lemma IopFlushPageCacheBuffer_returns K buf m flags s e0 x0 f0 :
  0 < MmPageSize K -> 0 <= m <= Z.of_nat (length buf) ->
  m * MmPageSize K + MmPageSize K <= UINTN_MOD K ->
  buf !! 0%nat = Some e0 -> Entries s !! e0 = Some x0 ->
  FileObjects s !! FileObject x0 = Some f0 ->
  0 <= Offset x0 <= PropertiesFileSize f0 ->
  (forall e, e ∈ buf -> EntryWellFormed s e) ->
  Returns (IopFlushPageCacheBuffer K buf (m * MmPageSize K) flags) s.
Proof.
  intros HPS Hm Hfit He0 Hx0 Hf0 Hoff Hwf.
  unfold Returns, IopFlushPageCacheBuffer.
  assert (Hget : MmGetIoBufferPageCacheEntry K buf 0 s = Some (e0, s))
    by exact (MmGetIoBufferPageCacheEntry_run K buf 0 e0 s HPS ltac:(lia) He0).
  rewrite (bind_run _ _ _ _ _ Hget).
  rewrite (bind_run _ _ _ _ _ (Entry_run _ _ _ Hx0)).
  rewrite (bind_run _ _ _ _ _ (File_run _ _ _ Hf0)).
  destruct (FlushBufferMarkClean_returns K buf m HPS ltac:(lia) ltac:(lia)
              (S (length buf)) 0 0 true e0 s ltac:(lia) ltac:(lia)
              ltac:(lia) Hwf) as ([[bw clean] ce] & s1 & Hloop).
  pose proof (FlushBufferMarkClean_bytes K buf m HPS ltac:(lia)
                (S (length buf)) 0 true e0 s _ _ ltac:(lia) Hloop) as Hbw.
  cbn [fst] in Hbw.
  pose proof (Keeps_FlushBufferMarkClean ShapeKept K
                (fun e => Keeps_IopMarkPageCacheEntryClean_shape K e true)
                _ _ _ _ _ _ _ _ _ _ Hloop) as Hshape.
  pose proof (FlushBufferMarkClean_entry _ _ _ _ _ _ _ _ _ _ _
                (list_elem_of_lookup_2 _ _ _ He0) Hloop) as Hce.
  cbn [snd] in Hce.
  change (0 * MmPageSize K) with 0 in Hloop.
  rewrite (bind_run _ _ _ _ _ Hloop).
  match goal with
  | |- exists a s', (if ?b =? 0 then _ else _) _ = _ =>
      set (BytesToWrite := b)
  end.
  assert (Hbytes : 0 <= BytesToWrite <= m * MmPageSize K).
  { unfold BytesToWrite. destruct (_ >? _) eqn:Hclip; [|lia].
    apply Z.gtb_lt in Hclip.
    assert (Hmod : ulonglong (Offset x0 + bw) <= Offset x0 + bw).
    { unfold ulonglong. apply Z.mod_le; [lia|]. unfold ULONGLONG_MOD. lia. }
    split; [apply uintn_range|].
    transitivity (ulonglong (PropertiesFileSize f0 - Offset x0)).
    - unfold uintn. apply Z.mod_le; [|apply UINTN_MOD_pos].
      unfold ulonglong. apply Z.mod_pos_bound. unfold ULONGLONG_MOD. lia.
    - transitivity (PropertiesFileSize f0 - Offset x0); [|lia].
      unfold ulonglong. apply Z.mod_le; [lia|]. unfold ULONGLONG_MOD. lia. }
  clearbody BytesToWrite.
  destruct (BytesToWrite =? 0); [eexists; eexists; reflexivity|].
  destruct (clean && negb (FlagSet flags (IO_FLAG_DATA_SYNCHRONIZED K)));
    [eexists; eexists; reflexivity|].
  rewrite (bind_run _ _ _ _ _ eq_refl).
  rewrite (bind_run _ _ _ _ _ eq_refl).
  set (w := IopPerformNonCachedWrite K (Trace s1) (FileObject x0) buf
              (Offset x0) BytesToWrite flags).
  set (s2 := with_Trace _ s1).
  assert (Hwf2 : forall e, e ∈ buf -> EntryWellFormed s2 e).
  { intros e He. eapply EntryWellFormed_kept; [| |apply Hwf, He].
    - etransitivity; [exact Hshape|]. apply ignores_trace.
    - etransitivity; [|apply ignores_trace].
      apply (Keeps_FlushBufferMarkClean ListedKept K
               (fun e => Keeps_IopMarkPageCacheEntryClean_listed K e true)
               _ _ _ _ _ _ _ _ _ _ Hloop). }
  assert (Hend : forall st0,
            Returns (FlushPageCacheBufferEnd K buf st0 (uintn K (snd w))
                       BytesToWrite ce) s2).
  { intros st0. apply FlushPageCacheBufferEnd_returns; try assumption;
      [lia | nia | apply uintn_range]. }
  destruct (negb (KSUCCESS _)); [apply Hend|].
  destruct (negb (_ =? _)); [apply Hend|].
  eexists. eexists. reflexivity.
Qed.

(** C4 (amended). The flush of a buffer returns success without a call of
    the non-cached write path, and changes nothing, when the flush is not
    synchronized and every page of the buffer is clean already, so that
    none goes from dirty to clean.  When the write it makes fails or
    completes another number of bytes than it was asked for, the flush
    returns the error of the write, or the length mismatch status for a
    write that succeeded short; every page of the buffer from the bytes
    completed, aligned down to the page size, up to the bytes asked for has
    the entry that carries its dirty flag dirty again; and the file object
    is marked dirty again when the bytes completed are not the bytes asked
    for.  The flush of a buffer of well-formed entries (each there with its
    file object, on a list if it is dirty, and backed by a page owner if it
    owns no page) that starts inside its file always returns. *)
Theorem IopFlushPageCacheBuffer_ends
    (K : KERNEL) (buf : list nat) (size flags : Z) (F : nat) :
  0 < MmPageSize K ->
  (forall s e0 x0 f0,
     size + MmPageSize K <= UINTN_MOD K ->
     FlagSet flags (IO_FLAG_DATA_SYNCHRONIZED K) = false ->
     buf !! 0%nat = Some e0 -> Entries s !! e0 = Some x0 ->
     FileObjects s !! FileObject x0 = Some f0 ->
     (forall i, 0 <= i -> i * MmPageSize K < size ->
        exists e x, buf !! Z.to_nat i = Some e /\ Entries s !! e = Some x
                    /\ FlagSet (Flags x) PAGE_CACHE_ENTRY_FLAG_DIRTY = false) ->
     IopFlushPageCacheBuffer K buf size flags s = Some (STATUS_SUCCESS, s))
  /\ (forall s st s' f off n Status Completed,
        (forall e x, e ∈ buf -> Entries s !! e = Some x -> FileObject x = F) ->
        IopFlushPageCacheBuffer K buf size flags s = Some (st, s') ->
        WriteRequests (Trace s')
        = (f, off, n, Status, Completed) :: WriteRequests (Trace s) ->
        n + MmPageSize K <= UINTN_MOD K ->
        WriteStatus Status Completed n <> STATUS_SUCCESS ->
        st = WriteStatus Status Completed n
        /\ f = F
        /\ (forall i e, 0 <= i ->
              ALIGN_RANGE_DOWN Completed (MmPageSize K) <= i * MmPageSize K < n ->
              buf !! Z.to_nat i = Some e ->
              exists d, DirtyTarget s e = Some d /\ DirtyBit s' d = true)
        /\ (Completed <> n ->
            exists v, FileObjects s' !! F = Some v
                      /\ FILE_OBJECT_FLAG_DIRTY_DATA v = true))
  /\ (forall s m e0 x0 f0,
        size = m * MmPageSize K -> 0 <= m <= Z.of_nat (length buf) ->
        size + MmPageSize K <= UINTN_MOD K ->
        buf !! 0%nat = Some e0 -> Entries s !! e0 = Some x0 ->
        FileObjects s !! FileObject x0 = Some f0 ->
        0 <= Offset x0 <= PropertiesFileSize f0 ->
        (forall e, e ∈ buf -> EntryWellFormed s e) ->
        Returns (IopFlushPageCacheBuffer K buf size flags) s).
Proof.
  intros HPS. split; [|split].
  { intros s e0 x0 f0 Hfit Hsync He0 Hx0 Hf0 Hclean.
    eapply IopFlushPageCacheBuffer_all_clean; eauto. }
  2:{ intros s m e0 x0 f0 -> Hm Hfit He0 Hx0 Hf0 Hoff Hwf.
      eapply IopFlushPageCacheBuffer_returns; eassumption. }
  intros s st s' f off n Status Completed Hfile H Hw Hfit Hbad.
  unfold IopFlushPageCacheBuffer in H.
  pose proof (Keeps_FlushBufferMarkClean WritesKept K
                (fun e => Keeps_IopMarkPageCacheEntryClean_writes K e true))
    as Hcw.
  pose proof (Keeps_FlushBufferMarkClean ShapeKept K
                (fun e => Keeps_IopMarkPageCacheEntryClean_shape K e true))
    as Hcs.
  mstep H as e0 s1 Hget.
  apply MmGetIoBufferPageCacheEntry_inv in Hget as (Hget & -> & _ & _).
  apply list_elem_of_lookup_2 in Hget.
  mstep H as x0 s1 Hx0. apply Entry_inv in Hx0 as [Hx0 ->].
  mstep H as f0 s1 Hf0. apply File_inv in Hf0 as [Hf0 ->].
  mstep H as r s1 Hloop.
  pose proof (Hcw _ _ _ _ _ _ _ _ _ _ Hloop) as Hw1.
  pose proof (Hcs _ _ _ _ _ _ _ _ _ _ Hloop) as Hs1.
  pose proof (FlushBufferMarkClean_entry _ _ _ _ _ _ _ _ _ _ _ Hget Hloop) as Hce.
  destruct r as [[bw clean] ce]. cbn [snd] in Hce.
  assert (Hnone : forall T : list (nat * Z * Z * KSTATUS * Z),
            forall q, T = q :: T -> False).
  { intros T q HT. apply (f_equal length) in HT. cbn in HT. lia. }
  match type of H with
  | (if ?b =? 0 then _ else _) _ = _ => set (BytesToWrite := b) in *
  end.
  destruct (BytesToWrite =? 0).
  { inversion H; subst. exfalso. unfold WritesKept in Hw1.
    rewrite Hw1 in Hw. eapply Hnone. exact Hw. }
  destruct (clean && negb (FlagSet flags (IO_FLAG_DATA_SYNCHRONIZED K))).
  { inversion H; subst. exfalso. unfold WritesKept in Hw1.
    rewrite Hw1 in Hw. eapply Hnone. exact Hw. }
  mstep H as w s2 Hgets. inversion Hgets; subst w s2. clear Hgets.
  mstep H as u s2 Hemit. inversion Hemit; subst u s2. clear Hemit.
  set (w := IopPerformNonCachedWrite K (Trace s1) (FileObject x0) buf
              (Offset x0) BytesToWrite flags) in *.
  set (s2 := with_Trace _ s1) in H.
  assert (Hw2 : WriteRequests (Trace s2)
                = (FileObject x0, Offset x0, BytesToWrite, fst w,
                   uintn K (snd w)) :: WriteRequests (Trace s)).
  { unfold s2. cbn. f_equal. exact Hw1. }
  assert (Hs2 : ShapeKept s s2).
  { etransitivity; [exact Hs1|]. unfold s2. apply ignores_trace. }
  assert (Hfile2 : forall e x, e ∈ buf -> Entries s2 !! e = Some x ->
                               FileObject x = F).
  { intros e x Hin Hx. destruct Hs2 as (Hsome & Hnone2 & _).
    destruct (Entries s !! e) as [y|] eqn:Hy.
    - destruct (Hsome _ _ Hy) as (x' & Hx' & HFO & _).
      rewrite Hx in Hx'. inversion Hx'; subst x'. rewrite HFO.
      apply (Hfile e y Hin Hy).
    - rewrite (Hnone2 _ Hy) in Hx. discriminate. }
  assert (Hend : forall st0,
            KSUCCESS st0 = false ->
            FlushPageCacheBufferEnd K buf st0 (uintn K (snd w)) BytesToWrite
              ce s2 = Some (st, s') ->
            (f, off, n, Status, Completed)
            = (FileObject x0, Offset x0, BytesToWrite, fst w, uintn K (snd w))
            /\ st = st0
            /\ (forall i e, 0 <= i ->
                  ALIGN_RANGE_DOWN Completed (MmPageSize K)
                  <= i * MmPageSize K < n ->
                  buf !! Z.to_nat i = Some e ->
                  exists d, DirtyTarget s e = Some d /\ DirtyBit s' d = true)
            /\ (Completed <> n ->
                exists v, FileObjects s' !! F = Some v
                          /\ FILE_OBJECT_FLAG_DIRTY_DATA v = true)).
  { intros st0 Hst0 Hrun.
    pose proof (FlushPageCacheBufferEnd_status _ _ _ _ _ _ _ _ _ Hrun) as Hst.
    assert (Heq : (f, off, n, Status, Completed)
                  = (FileObject x0, Offset x0, BytesToWrite, fst w,
                     uintn K (snd w))).
    { assert (Hkeep : WritesKept s2 s').
      { refine ((_ : Keeps WritesKept _) s2 st s' Hrun).
        pose proof (Keeps_FlushBufferMarkDirty WritesKept K
                      (Keeps_IopMarkPageCacheEntryDirty_writes K)).
        unfold FlushPageCacheBufferEnd. keeps_solve. }
      unfold WritesKept in Hkeep. rewrite Hkeep, Hw2 in Hw.
      inversion Hw. reflexivity. }
    inversion Heq; subst f off n Status Completed.
    destruct (FlushPageCacheBufferEnd_marks K buf F st0 (uintn K (snd w))
                BytesToWrite ce s2 st s' HPS Hfit
                (proj1 (uintn_range K (snd w))) Hst0 Hce Hfile2 Hrun)
      as (_ & Hpages & Hmark).
    split; [reflexivity|]. split; [exact Hst|]. split; [|exact Hmark].
    intros i e Hi Hin He. destruct (Hpages i e Hi Hin He) as (d & Hd & Hbit).
    exists d. split; [|exact Hbit].
    rewrite <- (DirtyTarget_ShapeKept _ _ e Hs2). exact Hd. }
  destruct (negb (KSUCCESS (fst w))) eqn:Hfail.
  - apply negb_true_iff in Hfail.
    destruct (Hend (fst w) Hfail H) as (Heq & Hst & Hpages & Hmark).
    inversion Heq; subst f off n Status Completed.
    unfold WriteStatus. rewrite Hfail. cbn [negb].
    assert (HF : FileObject x0 = F) by (apply (Hfile e0 x0 Hget Hx0)).
    auto.
  - destruct (negb (uintn K (snd w) =? BytesToWrite)) eqn:Hshort.
    + destruct (Hend STATUS_DATA_LENGTH_MISMATCH eq_refl H)
        as (Heq & Hst & Hpages & Hmark).
      inversion Heq; subst f off n Status Completed.
      unfold WriteStatus. rewrite Hfail, Hshort.
      assert (HF : FileObject x0 = F) by (apply (Hfile e0 x0 Hget Hx0)).
      auto.
    + exfalso. inversion H; subst st s'. rewrite Hw2 in Hw.
      inversion Hw; subst f off n Status Completed.
      apply Hbad. unfold WriteStatus. rewrite Hfail, Hshort. reflexivity.
Qed.

(** Two clean pages: the flush succeeds and changes nothing.  Three dirty
    pages and a write path that writes the first page only: the flush
    returns the length mismatch, pages 1 and 2 are dirty again and the file
    object is marked. *)
Lemma IopFlushPageCacheBuffer_ends_witness :
  IopFlushPageCacheBuffer TestKernel [0%nat; 1%nat] (2 * 4096) 0 LastPageDirty
  = Some (STATUS_SUCCESS, LastPageDirty)
  /\ Returns (IopFlushPageCacheBuffer (TestKernelWith 50 ShortWrite)
                [0%nat; 1%nat; 2%nat] 12288 0) ThreePagesCleanFile
  /\ exists st s',
       IopFlushPageCacheBuffer (TestKernelWith 50 ShortWrite)
         [0%nat; 1%nat; 2%nat] 12288 0 ThreePagesCleanFile = Some (st, s')
       /\ st = WriteStatus STATUS_SUCCESS 4096 12288
       /\ 1%nat = 1%nat
       /\ (forall i e, 0 <= i ->
             ALIGN_RANGE_DOWN 4096 (MmPageSize (TestKernelWith 50 ShortWrite))
             <= i * MmPageSize (TestKernelWith 50 ShortWrite) < 12288 ->
             [0%nat; 1%nat; 2%nat] !! Z.to_nat i = Some e ->
             exists d, DirtyTarget ThreePagesCleanFile e = Some d
                       /\ DirtyBit s' d = true)
       /\ (4096 <> 12288 ->
           exists v, FileObjects s' !! 1%nat = Some v
                     /\ FILE_OBJECT_FLAG_DIRTY_DATA v = true).
Proof.
  split; [|split].
  - apply (proj1 (IopFlushPageCacheBuffer_ends TestKernel [0%nat; 1%nat]
                    (2 * 4096) 0 1%nat ltac:(vm_compute; reflexivity))
             LastPageDirty 0%nat (TestEntry 1 0 2 None 0 0)
             (TestFile IoObjectRegularFile (64 * 4096) true
                [0%nat; 1%nat; 2%nat])).
    + vm_compute. discriminate.
    + reflexivity.
    + reflexivity.
    + vm_compute. reflexivity.
    + vm_compute. reflexivity.
    + intros i Hi Hlt. change (MmPageSize TestKernel) with 4096 in Hlt.
      assert (Hcases : i = 0 \/ i = 1) by lia.
      destruct Hcases as [-> | ->];
        (eexists; eexists; split; [reflexivity|];
         split; vm_compute; reflexivity).
  - apply (proj2 (proj2 (IopFlushPageCacheBuffer_ends
                           (TestKernelWith 50 ShortWrite)
                           [0%nat; 1%nat; 2%nat] 12288 0 1%nat
                           ltac:(vm_compute; reflexivity)))
             ThreePagesCleanFile 3 0%nat (TestEntry 1 0 3 None 0 0)
             (TestFile IoObjectRegularFile (64 * 4096) false
                [0%nat; 1%nat; 2%nat])).
    + reflexivity.
    + vm_compute. split; discriminate.
    + vm_compute. discriminate.
    + reflexivity.
    + vm_compute. reflexivity.
    + vm_compute. reflexivity.
    + vm_compute. split; discriminate.
    + intros e He.
      repeat (apply elem_of_cons in He as [->|He]);
        try (eexists; split; [vm_compute; reflexivity|];
             split; [eexists; vm_compute; reflexivity|];
             split; [intros _; reflexivity|];
             intros Hc; vm_compute in Hc; discriminate Hc).
      apply elem_of_nil in He. contradiction.
  - destruct (IopFlushPageCacheBuffer (TestKernelWith 50 ShortWrite)
                [0%nat; 1%nat; 2%nat] 12288 0 ThreePagesCleanFile)
      as [[st s']|] eqn:Hrun; [|vm_compute in Hrun; discriminate Hrun].
    exists st, s'. split; [reflexivity|].
    refine (proj1 (proj2 (IopFlushPageCacheBuffer_ends
                            (TestKernelWith 50 ShortWrite)
                            [0%nat; 1%nat; 2%nat] 12288 0 1%nat
                            ltac:(vm_compute; reflexivity)))
              ThreePagesCleanFile st s' 1%nat 0 12288 STATUS_SUCCESS 4096
              _ Hrun _ _ _).
    + intros e x Hin Hx.
      repeat (apply elem_of_cons in Hin as [->|Hin]);
        try (vm_compute in Hx; inversion Hx; reflexivity).
      apply elem_of_nil in Hin. contradiction.
    + vm_compute in Hrun. inversion Hrun; subst. vm_compute. reflexivity.
    + vm_compute. discriminate.
    + vm_compute. discriminate.
Defined.

(** The claim that the file object is marked dirty again whenever the
    write fails does not hold: when the write path reports a failure with
    all the bytes written, the flush returns the failure and leaves the file
    object as it was, not flagged dirty, and the page clean. *)
Lemma IopFlushPageCacheBuffer_file_not_marked :
  exists st s',
    IopFlushPageCacheBuffer (TestKernelWith 50 FailingCompleteWrite)
      [0%nat] 4096 0 OnePageCleanFile = Some (st, s')
    /\ st = STATUS_TRANSPORT 5
    /\ WriteRequests (Trace s') = [(1%nat, 0, 4096, STATUS_TRANSPORT 5, 4096)]
    /\ (exists v, FileObjects OnePageCleanFile !! 1%nat = Some v
                  /\ FILE_OBJECT_FLAG_DIRTY_DATA v = false)
    /\ (exists v, FileObjects s' !! 1%nat = Some v
                  /\ FILE_OBJECT_FLAG_DIRTY_DATA v = false)
    /\ DirtyBit OnePageCleanFile 0 = true
    /\ DirtyBit s' 0 = false.
Proof.
  eexists. eexists. split; [vm_compute; reflexivity|].
  split; [reflexivity|]. split; [vm_compute; reflexivity|].
  split; [eexists; split; vm_compute; reflexivity|].
  split; [eexists; split; vm_compute; reflexivity|].
  split; vm_compute; reflexivity.
Qed.

Lemma Keeps_IopFlushPageCacheBuffer_shape K buf size flags :
  Keeps ShapeKept (IopFlushPageCacheBuffer K buf size flags).
Proof.
  unfold IopFlushPageCacheBuffer.
  pose proof (Keeps_FlushBufferMarkClean ShapeKept K
                (fun e => Keeps_IopMarkPageCacheEntryClean_shape K e true)).
  pose proof (Keeps_FlushBufferMarkDirty ShapeKept K
                (Keeps_IopMarkPageCacheEntryDirty_shape K)).
  keeps_solve.
Qed.
(** ** The flush comes to an end *)

Global Instance TreeKept_PreOrder : PreOrder TreeKept.
Proof.
  split.
  - intros s. split; intros k v Hk; exists v; auto.
  - intros a b c [H1 H2] [H3 H4]. split.
    + intros f v Hf. destruct (H1 f v Hf) as (v1 & Hv1 & ? & ?).
      destruct (H3 f v1 Hv1) as (v2 & Hv2 & ? & ?).
      exists v2. repeat split; congruence.
    + intros e x He. destruct (H2 e x He) as (x1 & Hx1 & ?).
      destruct (H4 e x1 Hx1) as (x2 & Hx2 & ?).
      exists x2. split; congruence.
Qed.

Global Instance LocalKept_PreOrder : PreOrder LocalKept.
Proof.
  split.
  - intros s. split; [reflexivity|auto].
  - intros a b c [H1 H2] [H3 H4]. split; [etransitivity; eassumption|].
    intros e He Hd. apply H4; [exact He|]. apply H2; [|exact Hd].
    eapply elem_of_sublist; eassumption.
Qed.

Global Instance TreeKept_lists : IgnoresLists TreeKept.
Proof. intros s g. apply (reflexivity (R := TreeKept) s). Qed.
Global Instance TreeKept_globals : IgnoresGlobals TreeKept.
Proof. intros s g. apply (reflexivity (R := TreeKept) s). Qed.
Global Instance TreeKept_trace : IgnoresTrace TreeKept.
Proof. intros s g. apply (reflexivity (R := TreeKept) s). Qed.

Global Instance LocalKept_files : IgnoresFileObjects LocalKept.
Proof. intros s g. apply (reflexivity (R := LocalKept) s). Qed.
Global Instance LocalKept_globals : IgnoresGlobals LocalKept.
Proof. intros s g. apply (reflexivity (R := LocalKept) s). Qed.
Global Instance LocalKept_trace : IgnoresTrace LocalKept.
Proof. intros s g. apply (reflexivity (R := LocalKept) s). Qed.

Lemma Keeps_UpdateEntry_tree e f : NodeSetter f -> Keeps TreeKept (UpdateEntry e f).
Proof.
  intros Hf s a s' H. unfold UpdateEntry in H.
  apply bind_inv in H. destruct H as (x & s1 & Hx & H).
  apply Entry_inv in Hx. destruct Hx as [Hx ->]. inversion H; subst. clear H.
  split; [intros k v Hk; exists v; auto|].
  intros e' y He'. cbn. destruct (decide (e' = e)) as [->|Hne].
  - rewrite lookup_insert_eq. exists (f x). split; [reflexivity|].
    rewrite Hf. congruence.
  - rewrite lookup_insert_ne by congruence. eauto.
Qed.

Lemma NodeSetter_ListEntryNext v : NodeSetter (set_ListEntryNext v).
Proof. intros x. reflexivity. Qed.
Lemma NodeSetter_Flags v : NodeSetter (set_Flags v).
Proof. intros x. reflexivity. Qed.
Lemma NodeSetter_ReferenceCount v : NodeSetter (set_ReferenceCount v).
Proof. intros x. reflexivity. Qed.

Lemma Keeps_RtlAtomicOr32_tree e Mask : Keeps TreeKept (RtlAtomicOr32 e Mask).
Proof.
  intros s a s' H. unfold RtlAtomicOr32 in H.
  apply bind_inv in H. destruct H as (x & s1 & Hx & H).
  apply Entry_inv in Hx. destruct Hx as [Hx ->].
  apply bind_inv in H. destruct H as (u & s2 & Hu & H). inversion H; subst.
  exact (Keeps_UpdateEntry_tree _ _ (NodeSetter_Flags _) _ _ _ Hu).
Qed.

Lemma Keeps_RtlAtomicAnd32_tree e Mask : Keeps TreeKept (RtlAtomicAnd32 e Mask).
Proof.
  intros s a s' H. unfold RtlAtomicAnd32 in H.
  apply bind_inv in H. destruct H as (x & s1 & Hx & H).
  apply Entry_inv in Hx. destruct Hx as [Hx ->].
  apply bind_inv in H. destruct H as (u & s2 & Hu & H). inversion H; subst.
  exact (Keeps_UpdateEntry_tree _ _ (NodeSetter_Flags _) _ _ _ Hu).
Qed.

Lemma Keeps_UpdateFile_tree f g : TreeSetter g -> Keeps TreeKept (UpdateFile f g).
Proof.
  intros Hg s a s' H. unfold UpdateFile in H.
  apply bind_inv in H. destruct H as (v & s1 & Hv & H).
  apply File_inv in Hv. destruct Hv as [Hv ->]. inversion H; subst. clear H.
  split; [|intros k x Hk; exists x; auto].
  intros f' w Hf'. cbn. destruct (decide (f' = f)) as [->|Hne].
  - rewrite lookup_insert_eq. exists (g v). split; [reflexivity|].
    destruct (Hg v) as [-> ->]. split; congruence.
  - rewrite lookup_insert_ne by congruence. eauto.
Qed.

Lemma TreeSetter_DIRTY_DATA v : TreeSetter (set_DIRTY_DATA v).
Proof. intros x. split; reflexivity. Qed.

Lemma DirtyBit_insert s e x y e' :
  Entries s !! e = Some x ->
  (FlagSet (Flags x) PAGE_CACHE_ENTRY_FLAG_DIRTY = true ->
   FlagSet (Flags y) PAGE_CACHE_ENTRY_FLAG_DIRTY = true) ->
  DirtyBit s e' = true ->
  DirtyBit (with_Entries (fun m => <[e := y]> m) s) e' = true.
Proof.
  intros Hx Hy. unfold DirtyBit. cbn. destruct (decide (e' = e)) as [->|Hne].
  - rewrite lookup_insert_eq, Hx. exact Hy.
  - rewrite lookup_insert_ne by congruence. auto.
Qed.

Lemma Keeps_UpdateEntry_local e f :
  FlagsSetter f -> Keeps LocalKept (UpdateEntry e f).
Proof.
  intros Hf s a s' H. unfold UpdateEntry in H.
  apply bind_inv in H. destruct H as (x & s1 & Hx & H).
  apply Entry_inv in Hx. destruct Hx as [Hx ->]. inversion H; subst. clear H.
  split; [reflexivity|]. intros e' _.
  apply (DirtyBit_insert _ _ _ _ _ Hx). rewrite Hf. auto.
Qed.

Lemma Keeps_RtlAtomicOr32_local e Mask :
  0 <= Mask -> Keeps LocalKept (RtlAtomicOr32 e Mask).
Proof.
  intros HM s a s' H. unfold RtlAtomicOr32 in H.
  apply bind_inv in H. destruct H as (x & s1 & Hx & H).
  apply Entry_inv in Hx. destruct Hx as [Hx ->].
  apply bind_inv in H. destruct H as (u & s2 & Hu & H). inversion H; subst.
  unfold UpdateEntry in Hu.
  apply bind_inv in Hu. destruct Hu as (x' & s1 & Hx' & Hu).
  apply Entry_inv in Hx'. destruct Hx' as [Hx' ->]. inversion Hu; subst.
  split; [reflexivity|]. intros e' _.
  apply (DirtyBit_insert _ _ _ _ _ Hx'). cbn.
  assert (x' = x) by congruence. subst x'.
  unfold FlagSet. rewrite !negb_true_iff, !Z.eqb_neq.
  intros Hd Hz. apply Hd. apply Z.bits_inj'. intros n Hn.
  apply (f_equal (fun v => Z.testbit v n)) in Hz.
  rewrite Z.land_spec, Z.lor_spec in Hz. rewrite Z.land_spec, Z.bits_0 in *.
  destruct (Z.testbit (Flags x) n), (Z.testbit PAGE_CACHE_ENTRY_FLAG_DIRTY n);
    cbn in *; congruence.
Qed.

Lemma Keeps_LIST_REMOVE_local e : Keeps LocalKept (LIST_REMOVE e).
Proof.
  intros s a s' H. apply LIST_REMOVE_inv in H. destruct H as (x & _ & _ & ->).
  split; cbn; [apply sublist_filter|auto].
Qed.

Lemma Keeps_lists_local g :
  (forall L, g L LocalList = L LocalList) ->
  Keeps LocalKept (modify (with_Lists g)).
Proof.
  intros Hg s x s' H. inversion H. split; cbn; [rewrite Hg; reflexivity|auto].
Qed.

#[export] Hint Extern 1 (Keeps TreeKept (UpdateEntry _ _)) =>
  apply Keeps_UpdateEntry_tree;
  first [ apply NodeSetter_ListEntryNext | apply NodeSetter_Flags
        | apply NodeSetter_ReferenceCount ] : keeps.
#[export] Hint Resolve Keeps_RtlAtomicOr32_tree Keeps_RtlAtomicAnd32_tree : keeps.
#[export] Hint Extern 1 (Keeps TreeKept (UpdateFile _ _)) =>
  apply Keeps_UpdateFile_tree; apply TreeSetter_DIRTY_DATA : keeps.
#[export] Hint Extern 1 (Keeps LocalKept (UpdateEntry _ _)) =>
  apply Keeps_UpdateEntry_local;
  first [ apply FlagsSetter_ListEntryNext | apply FlagsSetter_ReferenceCount ]
  : keeps.
#[export] Hint Extern 1 (Keeps LocalKept (RtlAtomicOr32 _ _)) =>
  apply Keeps_RtlAtomicOr32_local;
  unfold PAGE_CACHE_ENTRY_FLAG_DIRTY, PAGE_CACHE_ENTRY_FLAG_MAPPED; lia : keeps.
#[export] Hint Resolve Keeps_LIST_REMOVE_local : keeps.
#[export] Hint Extern 1 (Keeps LocalKept (modify (with_Lists _))) =>
  apply Keeps_lists_local; intros ?;
  rewrite fn_lookup_insert_ne by discriminate; reflexivity : keeps.

Lemma Keeps_IopMarkPageCacheEntryClean_tree K e Move :
  Keeps TreeKept (IopMarkPageCacheEntryClean K e Move).
Proof. keeps_solve. Qed.

Lemma Keeps_IopMarkPageCacheEntryDirty_tree K e :
  Keeps TreeKept (IopMarkPageCacheEntryDirty K e).
Proof. keeps_solve. Qed.

Lemma Keeps_IopMarkPageCacheEntryDirty_local K e :
  Keeps LocalKept (IopMarkPageCacheEntryDirty K e).
Proof. keeps_solve. Qed.

(** Marking an entry clean takes it off the list it is on. *)
Lemma IopMarkPageCacheEntryClean_local K e Move s r s' :
  IopMarkPageCacheEntryClean K e Move s = Some (r, s') ->
  LocalKept s s' /\ (DirtyBit s e = true -> e ∉ Lists s' LocalList).
Proof.
  intros H.
  assert (Hx : exists x, Entries s !! e = Some x).
  { unfold IopMarkPageCacheEntryClean in H. mstep H as x s1 Hx.
    apply Entry_inv in Hx. destruct Hx as [Hx _]. eauto. }
  destruct Hx as [x Hx].
  destruct (IopMarkPageCacheEntryClean_run K s e x Move Hx) as (Hc & Hf & Hd).
  unfold DirtyBit at 1. rewrite Hx.
  destruct (FlagSet (Flags x) PAGE_CACHE_ENTRY_FLAG_DIRTY) eqn:Hflag.
  - destruct (ListEntryNext x) eqn:Hnext;
      [|rewrite (Hf eq_refl eq_refl) in H; discriminate].
    destruct (Hd eq_refl eq_refl) as (s2 & Hrun & HE & _ & HL & _).
    rewrite Hrun in H. inversion H; subst. clear H.
    assert (HLL : Lists s' LocalList
                  = filter (fun y => y <> e) (Lists s LocalList)).
    { rewrite HL. destruct Move; [|apply app_nil_r].
      destruct (decide (LocalList = IoPageCacheCleanList)); [discriminate|].
      apply app_nil_r. }
    split; [split|].
    + rewrite HLL. apply sublist_filter.
    + intros e' He'. rewrite HLL in He'. apply list_elem_of_filter in He'.
      destruct He' as [Hne _]. unfold DirtyBit. rewrite HE.
      rewrite lookup_insert_ne by congruence. auto.
    + intros _. rewrite HLL. intros Hin. apply list_elem_of_filter in Hin.
      destruct Hin as [Hne _]. congruence.
  - rewrite (Hc eq_refl) in H. inversion H; subst.
    split; [reflexivity|discriminate].
Qed.

Lemma Keeps_IopMarkPageCacheEntryClean_local K e Move :
  Keeps LocalKept (IopMarkPageCacheEntryClean K e Move).
Proof.
  intros s r s' H. exact (proj1 (IopMarkPageCacheEntryClean_local _ _ _ _ _ _ H)).
Qed.

#[export] Hint Resolve Keeps_IopMarkPageCacheEntryClean_tree
  Keeps_IopMarkPageCacheEntryDirty_tree Keeps_IopMarkPageCacheEntryDirty_local
  Keeps_IopMarkPageCacheEntryClean_local : keeps.

Lemma Keeps_IopFlushPageCacheBuffer_tree K buf size flags :
  Keeps TreeKept (IopFlushPageCacheBuffer K buf size flags).
Proof.
  unfold IopFlushPageCacheBuffer.
  pose proof (Keeps_FlushBufferMarkClean TreeKept K
                (fun e => Keeps_IopMarkPageCacheEntryClean_tree K e true)).
  pose proof (Keeps_FlushBufferMarkDirty TreeKept K
                (Keeps_IopMarkPageCacheEntryDirty_tree K)).
  keeps_solve.
Qed.

Lemma Keeps_IopFlushPageCacheBuffer_local K buf size flags :
  Keeps LocalKept (IopFlushPageCacheBuffer K buf size flags).
Proof.
  unfold IopFlushPageCacheBuffer.
  pose proof (Keeps_FlushBufferMarkClean LocalKept K
                (fun e => Keeps_IopMarkPageCacheEntryClean_local K e true)).
  pose proof (Keeps_FlushBufferMarkDirty LocalKept K
                (Keeps_IopMarkPageCacheEntryDirty_local K)).
  keeps_solve.
Qed.

(** The pages the first loop of the flush of a buffer goes through are off
    the local list after it. *)
Lemma FlushBufferMarkClean_removes K buf m :
  0 < MmPageSize K -> m * MmPageSize K + MmPageSize K <= UINTN_MOD K ->
  forall fuel k bw c ce s r s',
    0 <= k ->
    (forall e, e ∈ buf ->
       exists x, Entries s !! e = Some x /\ NodeParent x = true) ->
    FlushBufferMarkClean K fuel buf (m * MmPageSize K) (k * MmPageSize K)
      bw c ce s = Some (r, s') ->
    forall i e, k <= i < m -> buf !! Z.to_nat i = Some e ->
                DirtyBit s e = true -> e ∉ Lists s' LocalList.
Proof.
  intros HPS Hfit.
  induction fuel as [|fuel IH]; intros k bw c ce s r s' Hk Hnode H i e Hi He Hd;
    [discriminate|].
  cbn [FlushBufferMarkClean] in H.
  destruct (k * MmPageSize K <? m * MmPageSize K) eqn:Hlt;
    [|apply Z.ltb_ge in Hlt; nia].
  mstep H as e1 s1 Hget.
  apply MmGetIoBufferPageCacheEntry_inv in Hget.
  destruct Hget as (He1 & -> & _).
  rewrite Z.div_mul in He1 by lia.
  mstep H as x1 s2 Hx1. apply Entry_inv in Hx1. destruct Hx1 as [Hx1 ->].
  destruct (Hnode e1 (list_elem_of_lookup_2 _ _ _ He1)) as (x1' & Hx1' & Hp).
  assert (x1' = x1) by congruence. subst x1'. rewrite Hp in H. cbn [negb] in H.
  mstep H as mc s3 Hmark.
  destruct (IopMarkPageCacheEntryClean_local _ _ _ _ _ _ Hmark) as [HL Hrm].
  pose proof (Keeps_IopMarkPageCacheEntryClean_tree K e1 true _ _ _ Hmark)
    as HT.
  replace (uintn K (k * MmPageSize K + MmPageSize K))
    with ((k + 1) * MmPageSize K) in H by (rewrite uintn_small; nia).
  assert (Hrest : LocalKept s3 s').
  { refine (Keeps_FlushBufferMarkClean LocalKept K
              (fun e => Keeps_IopMarkPageCacheEntryClean_local K e true)
              _ _ _ _ _ _ _ _ _ _ H). }
  destruct (decide (e ∈ Lists s3 LocalList)) as [Hin|Hout].
  - destruct (decide (i = k)) as [->|Hne].
    + assert (e = e1) by congruence. subst e1. exfalso. exact (Hrm Hd Hin).
    + eapply (IH (k + 1)) with (i := i); [lia| |exact H|lia|exact He|].
      * intros e' He'. destruct (Hnode e' He') as (x' & Hx' & Hp').
        destruct HT as [_ HT]. destruct (HT e' x' Hx') as (y & Hy & Hpy).
        exists y. split; [exact Hy|congruence].
      * destruct HL as [_ HL]. apply HL; assumption.
  - intros Hin. apply Hout. destruct Hrest as [Hsub _].
    eapply elem_of_sublist; eassumption.
Qed.

(** The flush of a buffer takes the dirty pages it goes through off the
    local list. *)
Lemma IopFlushPageCacheBuffer_removes K buf m flags s st s' :
  0 < MmPageSize K -> 0 <= m ->
  m * MmPageSize K + MmPageSize K <= UINTN_MOD K ->
  (forall e, e ∈ buf ->
     exists x, Entries s !! e = Some x /\ NodeParent x = true) ->
  IopFlushPageCacheBuffer K buf (m * MmPageSize K) flags s = Some (st, s') ->
  forall i e, 0 <= i < m -> buf !! Z.to_nat i = Some e ->
              DirtyBit s e = true -> e ∉ Lists s' LocalList.
Proof.
  intros HPS Hm Hfit Hnode H i e Hi He Hd.
  unfold IopFlushPageCacheBuffer in H.
  mstep H as e0 s1 Hget.
  apply MmGetIoBufferPageCacheEntry_inv in Hget. destruct Hget as (_ & -> & _).
  mstep H as x0 s2 Hx0. apply Entry_inv in Hx0. destruct Hx0 as [Hx0 ->].
  mstep H as f0 s3 Hf0. apply File_inv in Hf0. destruct Hf0 as [Hf0 ->].
  mstep H as r s4 Hloop. destruct r as [[bw clean] ce].
  change 0 with (0 * MmPageSize K) in Hloop at 1.
  pose proof (FlushBufferMarkClean_removes K buf m HPS Hfit _ 0 _ _ _ _ _ _
                ltac:(lia) Hnode Hloop i e Hi He Hd) as Hout.
  assert (Hrest : LocalKept s4 s').
  { clear Hloop.
    pose proof (Keeps_FlushBufferMarkDirty LocalKept K
                  (Keeps_IopMarkPageCacheEntryDirty_local K)).
    refine ((_ : Keeps LocalKept _) s4 st s' H).
    keeps_solve. }
  intros Hin. apply Hout. destruct Hrest as [Hsub _].
  eapply elem_of_sublist; eassumption.
Qed.

(** The flush in the middle of the loop returns when the pending buffer
    holds well-formed entries and starts inside its file. *)
Lemma FlushLoopWrite_returns K Offset_ Size_ Flags_ PageCount l ce s m e0 x0 f0 :
  0 < MmPageSize K -> MmPageSize K = 2 ^ MmPageShift K -> 0 <= MmPageShift K ->
  FlushSize l = m * MmPageSize K ->
  0 <= CleanStreak l <= m -> m <= Z.of_nat (length (FlushBuffer l)) ->
  FlushSize l + MmPageSize K <= UINTN_MOD K ->
  FlushBuffer l !! 0%nat = Some e0 -> Entries s !! e0 = Some x0 ->
  FileObjects s !! FileObject x0 = Some f0 ->
  0 <= Offset x0 <= PropertiesFileSize f0 ->
  (forall e, e ∈ FlushBuffer l -> EntryWellFormed s e) ->
  match ce with
  | Some e => EntryWellFormed s e
  | None => True
  end ->
  Returns (FlushLoopWrite K Offset_ Size_ Flags_ PageCount l ce) s.
Proof.
  intros HPS Hpow Hshift Hsize Hstreak Hm Hfit He0 Hx0 Hf0 Hoff Hwf Hce.
  unfold Returns, FlushLoopWrite.
  assert (Htrim : uintn K (FlushSize l
                           - uintn K (Z.shiftl (CleanStreak l) (MmPageShift K)))
                  = (m - CleanStreak l) * MmPageSize K).
  { rewrite Z.shiftl_mul_pow2 by exact Hshift. rewrite <- Hpow.
    rewrite (uintn_small K (CleanStreak l * MmPageSize K)) by nia.
    rewrite uintn_small by nia. lia. }
  rewrite Htrim.
  destruct (IopFlushPageCacheBuffer_returns K (FlushBuffer l)
              (m - CleanStreak l) Flags_ s e0 x0 f0 HPS ltac:(lia) ltac:(nia)
              He0 Hx0 Hf0 Hoff Hwf) as (st & s1 & Hflush).
  rewrite (bind_run _ _ _ _ _ Hflush).
  pose proof (Keeps_IopFlushPageCacheBuffer_shape K _ _ _ _ _ _ Hflush)
    as Hshape.
  destruct (match PageCount with Some Count => _ | None => false end);
    [eexists; eexists; reflexivity|].
  match goal with
  | |- exists a s', bind ?m0 _ _ = _ =>
      assert (Hnew : exists lb sb, m0 s1 = Some (lb, sb))
  end.
  { destruct ce as [e|]; [|eexists; eexists; reflexivity].
    destruct Hce as (x & Hx & _). destruct Hshape as (Hsome & _).
    destruct (Hsome e x Hx) as (x' & Hx' & _).
    unfold MmIoBufferAppendPage.
    rewrite (bind_run _ _ _ _ _ (eq_refl : (Emit _ ;; ret _) s1 = Some (_, _))).
    rewrite (bind_run _ _ _ _ _
               (Entry_run (with_Trace (cons (EvIoBufferAppendPage e)) s1)
                  e x' Hx')).
    eexists. eexists. reflexivity. }
  destruct Hnew as (lb & sb & Hnew). rewrite (bind_run _ _ _ _ _ Hnew).
  destruct (KeGetCurrentThreadIsPageCacheThread K);
    [|eexists; eexists; reflexivity].
  rewrite (bind_run _ _ _ _ _ (IopIsPageCacheTooBig_run K sb None)).
  rewrite (bind_run _ _ _ _ _ eq_refl).
  rewrite (bind_run _ _ _ _ _ eq_refl).
  rewrite (bind_run _ _ _ _ _ eq_refl).
  destruct (_ && _); eexists; eexists; reflexivity.
Qed.

(** *** The tree *)

Lemma TreeRank_le Tree n : (TreeRank Tree n <= length Tree)%nat.
Proof.
  induction Tree as [|x rest IH]; cbn; [lia|].
  destruct (bool_decide (x = n)); lia.
Qed.

Lemma NodeRank_le Tree o : (NodeRank Tree o <= length Tree)%nat.
Proof. destruct o; cbn; [apply TreeRank_le|lia]. Qed.

(** The next node of a node is a node of the tree with fewer nodes after
    it. *)
Lemma TreeSuccessor_rank Tree n m :
  NoDup Tree -> TreeSuccessor Tree n = Some m ->
  m ∈ Tree /\ (TreeRank Tree m < TreeRank Tree n)%nat.
Proof.
  induction Tree as [|x rest IH]; intros Hnd H; [discriminate|].
  apply list.NoDup_cons in Hnd. destruct Hnd as [Hx Hnd]. cbn in H |- *.
  destruct (bool_decide (x = n)) eqn:Hxn.
  - destruct rest as [|y rest']; [discriminate|]. cbn in H. inversion H; subst y.
    split; [apply elem_of_cons; right; apply elem_of_cons; left; reflexivity|].
    rewrite bool_decide_eq_false_2.
    + cbn. rewrite bool_decide_eq_true_2 by reflexivity. lia.
    + intros ->. apply Hx. apply elem_of_cons. left. reflexivity.
  - destruct (IH Hnd H) as [Hin Hlt].
    split; [apply elem_of_cons; right; exact Hin|].
    rewrite bool_decide_eq_false_2; [exact Hlt|].
    intros ->. exact (Hx Hin).
Qed.

Lemma TreeClosest_elem E Tree off n :
  TreeClosest E Tree off = Some n -> n ∈ Tree.
Proof.
  induction Tree as [|x rest IH]; intros H; [discriminate|]. cbn in H.
  apply elem_of_cons.
  destruct (E !! x) as [v|]; [|right; auto].
  destruct (off <=? Offset v); [left; congruence|right; auto].
Qed.

(** *** What is left to do *)

Lemma FlushPotential_le Local Buffer :
  (FlushPotential Local Buffer <= 2 * length Local)%nat.
Proof.
  destruct Local as [|d rest]; cbn [FlushPotential length]; [lia|].
  destruct (bool_decide (d ∈ Buffer)); lia.
Qed.

(** A larger pending buffer leaves no more to do. *)
Lemma FlushPotential_buffer Local Buffer Buffer' :
  (forall d, d ∈ Buffer -> d ∈ Buffer') ->
  (FlushPotential Local Buffer' <= FlushPotential Local Buffer)%nat.
Proof.
  intros Hsub. destruct Local as [|d rest]; cbn [FlushPotential]; [lia|].
  destruct (bool_decide (d ∈ Buffer)) eqn:Hd.
  - apply bool_decide_eq_true_1 in Hd.
    rewrite (bool_decide_eq_true_2 _ (Hsub d Hd)). lia.
  - destruct (bool_decide (d ∈ Buffer')); lia.
Qed.

(** Taking the first entry of the local list in the pending buffer is a
    step. *)
Lemma FlushPotential_taken Local Buffer Buffer' e :
  head Local = Some e -> e ∉ Buffer -> e ∈ Buffer' ->
  (FlushPotential Local Buffer' < FlushPotential Local Buffer)%nat.
Proof.
  intros Hhead Hout Hin. destruct Local as [|d rest]; [discriminate|].
  cbn in Hhead. inversion Hhead; subst d. cbn [FlushPotential].
  rewrite (bool_decide_eq_false_2 _ Hout), (bool_decide_eq_true_2 _ Hin). lia.
Qed.

(** A write that takes the entries of its buffer off the local list leaves
    no more to do. *)
Lemma FlushPotential_written Local Local' Buffer Buffer' :
  sublist Local' Local ->
  (forall d, d ∈ Buffer -> d ∈ Local -> d ∉ Local') ->
  (FlushPotential Local' Buffer' <= FlushPotential Local Buffer)%nat.
Proof.
  intros Hsub Hrm. destruct Local as [|d rest].
  - apply sublist_nil_r in Hsub. subst. cbn. lia.
  - apply sublist_cons_r in Hsub. destruct Hsub as [Hsub | (l' & -> & Hsub)].
    + pose proof (FlushPotential_le Local' Buffer').
      pose proof (sublist_length _ _ Hsub). cbn [FlushPotential].
      destruct (bool_decide (d ∈ Buffer)); lia.
    + pose proof (sublist_length _ _ Hsub). cbn [FlushPotential].
      rewrite (bool_decide_eq_false_2 (d ∈ Buffer)).
      * destruct (bool_decide (d ∈ Buffer')); lia.
      * intros Hin. apply (Hrm d Hin); apply elem_of_cons; left; reflexivity.
Qed.

(** It is a step if the first entry of the local list was in the buffer
    written, or is in the pending buffer from then on. *)
Lemma FlushPotential_written_first Local Local' Buffer Buffer' e :
  sublist Local' Local ->
  (forall d, d ∈ Buffer -> d ∈ Local -> d ∉ Local') ->
  head Local = Some e -> e ∈ Buffer \/ e ∈ Buffer' ->
  (FlushPotential Local' Buffer' < FlushPotential Local Buffer)%nat.
Proof.
  intros Hsub Hrm Hhead Hin. destruct Local as [|d rest]; [discriminate|].
  cbn in Hhead. inversion Hhead; subst d.
  apply sublist_cons_r in Hsub. destruct Hsub as [Hsub | (l' & -> & Hsub)].
  - pose proof (FlushPotential_le Local' Buffer').
    pose proof (sublist_length _ _ Hsub). cbn [FlushPotential].
    destruct (bool_decide (e ∈ Buffer)); lia.
  - pose proof (sublist_length _ _ Hsub).
    assert (Hout : e ∉ Buffer).
    { intros Hb. apply (Hrm e Hb); apply elem_of_cons; left; reflexivity. }
    destruct Hin as [Hb|Hb']; [contradiction|]. cbn [FlushPotential].
    rewrite (bool_decide_eq_false_2 _ Hout), (bool_decide_eq_true_2 _ Hb'). lia.
Qed.

(** The two ways the measure goes down. *)
Lemma FlushMeasure_rank Tree s l s' l' :
  (FlushPotential (Lists s' LocalList) (FlushBuffer l')
   <= FlushPotential (Lists s LocalList) (FlushBuffer l))%nat ->
  (NodeRank Tree (Node l') < NodeRank Tree (Node l))%nat ->
  (FlushMeasure Tree s' l' < FlushMeasure Tree s l)%nat.
Proof. unfold FlushMeasure. nia. Qed.

Lemma FlushMeasure_potential Tree s l s' l' :
  (FlushPotential (Lists s' LocalList) (FlushBuffer l')
   < FlushPotential (Lists s LocalList) (FlushBuffer l))%nat ->
  (FlushMeasure Tree s' l' < FlushMeasure Tree s l)%nat.
Proof.
  unfold FlushMeasure. pose proof (NodeRank_le Tree (Node l')). nia.
Qed.

(** *** The page cache between the writes *)

Lemma FlushEntryInv_kept K F s s' e :
  ShapeKept s s' -> ListedKept s s' -> TreeKept s s' ->
  FlushEntryInv K F s e -> FlushEntryInv K F s' e.
Proof.
  intros HS HL [HTf HTe] (x & f & Hx & HF & Hf & Hp & Hoff & Hfit & Hb & Hwf).
  pose proof (EntryWellFormed_kept _ _ _ HS HL Hwf) as Hwf'.
  destruct HS as (HSe & _ & _).
  destruct (HSe e x Hx) as (x' & Hx' & HF' & Hoff' & Hb' & _).
  destruct (HTe e x Hx) as (x2 & Hx2 & Hp').
  assert (x2 = x') by congruence. subst x2.
  destruct (HTf F f Hf) as (f' & Hf' & _ & Hsize).
  exists x', f'. split; [exact Hx'|]. split; [congruence|].
  split; [exact Hf'|]. split; [congruence|].
  split; [rewrite Hoff', Hsize; exact Hoff|].
  split; [rewrite Hoff'; exact Hfit|]. split; [|exact Hwf'].
  intros b Hbb. rewrite Hb' in Hbb. destruct (Hb b Hbb) as [y Hy].
  destruct (HSe b y Hy) as (y' & Hy' & _). eauto.
Qed.

Lemma FlushStateInv_kept K F Tree s s' :
  ShapeKept s s' -> ListedKept s s' -> TreeKept s s' -> LocalKept s s' ->
  FlushStateInv K F Tree s -> FlushStateInv K F Tree s'.
Proof.
  intros HS HL HT [HLs HLd] (Hnd & (f & Hf & Htree) & Hentries & Hlocal).
  split; [exact Hnd|]. split; [|split].
  - destruct HT as [HTf _]. destruct (HTf F f Hf) as (f' & Hf' & Ht' & _).
    exists f'. split; [exact Hf'|congruence].
  - intros e He. eapply FlushEntryInv_kept; eauto.
  - intros e He.
    destruct (Hlocal e (elem_of_sublist _ _ _ He HLs)) as [Hin Hd]. auto.
Qed.

(** The invariants of the flush do not look at the trace. *)
Lemma FlushStateInv_same K F Tree s s' :
  Entries s' = Entries s -> FileObjects s' = FileObjects s ->
  Lists s' = Lists s ->
  FlushStateInv K F Tree s -> FlushStateInv K F Tree s'.
Proof.
  unfold FlushStateInv, FlushEntryInv, EntryWellFormed, DirtyBit.
  intros HE HF HL. rewrite HE, HF, HL. auto.
Qed.

Lemma FlushBufferInv_same K Tree s s' l :
  Entries s' = Entries s ->
  FlushBufferInv K Tree s l -> FlushBufferInv K Tree s' l.
Proof.
  unfold FlushBufferInv, DirtyBit. intros HE. rewrite HE. auto.
Qed.

Lemma FlushLocalsInv_same K Tree s s' l :
  Entries s' = Entries s ->
  FlushLocalsInv K Tree s l -> FlushLocalsInv K Tree s' l.
Proof.
  intros HE (HB & Hmax & Hnode).
  split; [eapply FlushBufferInv_same; eassumption|]. auto.
Qed.

Lemma Keeps_IopIsPageCacheTooBig_eq K o : Keeps eq (IopIsPageCacheTooBig K o).
Proof. keeps_solve. Qed.

Section FlushTotal.

Variables (K : KERNEL) (F : nat) (Offset_ Size_ Flags_ : Z) (PageCount : option Z).
Variable Tree : list nat.
Hypothesis HK : FlushKernel K.

Lemma FlushLoopWrite_tail (l : FLUSH_LOCALS) s r s' :
  (if KeGetCurrentThreadIsPageCacheThread K
   then
     b <- IopIsPageCacheTooBig K None ;;
     PhysicalPageCount <- Global IoPageCachePhysicalPageCount ;;
     DirtyPageCount <- Global IoPageCacheDirtyPageCount ;;
     LowMemoryCleanPageMinimum <- Global IoPageCacheLowMemoryCleanPageMinimum ;;
     if fst b && (uintn K (PhysicalPageCount - DirtyPageCount)
                  >? LowMemoryCleanPageMinimum)
     then ret (GotoEnd STATUS_TRY_AGAIN l)
     else ret (Continue l)
   else ret (Continue l)) s = Some (r, s') ->
  s' = s /\ LoopLocals r = l.
Proof.
  intros H. destruct (KeGetCurrentThreadIsPageCacheThread K).
  - mstep H as big s2 Hbig.
    apply Keeps_IopIsPageCacheTooBig_eq in Hbig. subst s2.
    mstep H as g1 s3 Hg1. inversion Hg1; subst.
    mstep H as g2 s4 Hg2. inversion Hg2; subst.
    mstep H as g3 s5 Hg3. inversion Hg3; subst.
    destruct (_ && _); inversion H; subst; auto.
  - inversion H; subst. auto.
Qed.


(** The flush in the middle of the loop returns; it takes what it wrote off
    the local list, and leaves the page cache and the locals as the loop
    needs them. *)
Lemma FlushLoopWrite_progress l ce s :
  FlushStateInv K F Tree s -> FlushBufferInv K Tree s l ->
  FlushBuffer l <> [] ->
  FlushSize l + MmPageSize K <= UINTN_MOD K ->
  (forall n, Node l = Some n -> n ∈ Tree) ->
  match ce with Some e => e ∈ Tree | None => True end ->
  exists r s',
    FlushLoopWrite K Offset_ Size_ Flags_ PageCount l ce s = Some (r, s')
    /\ FlushStateInv K F Tree s'
    /\ FlushLocalsInv K Tree s' (LoopLocals r)
    /\ sublist (Lists s' LocalList) (Lists s LocalList)
    /\ (forall d, d ∈ FlushBuffer l -> d ∈ Lists s LocalList ->
                  d ∉ Lists s' LocalList)
    /\ (forall l', r = Continue l' ->
          FlushBuffer l' = match ce with Some e => [e] | None => [] end
          /\ Node l' = match ce with
                       | Some _ => Node l
                       | None => if FlushWholeFile Offset_ Size_ then None
                                 else Node l
                       end).
Proof.
  destruct HK as (HPS & Hpow & Hshift & Hfit).
  intros HS (Hbt & Hsize & Hstreak & Hsuffix & Hnext) Hne Hword Hnode Hce.
  pose proof HS as (Hnd & (f & Hf & Htree) & Hentries & Hlocal).
  destruct (FlushBuffer l) as [|e0 rest] eqn:Hbuf; [congruence|].
  assert (He0 : e0 ∈ Tree) by (apply Hbt, elem_of_cons; left; reflexivity).
  destruct (Hentries e0 He0)
    as (x0 & f0 & Hx0 & HF0 & Hf0 & _ & Hoff0 & _ & _ & _).
  assert (Hwf : forall e, e ∈ Tree -> EntryWellFormed s e).
  { intros e He. destruct (Hentries e He) as (x & g & _ & _ & _ & _ & _ & _ & _ & H).
    exact H. }
  set (m := Z.of_nat (length (e0 :: rest))) in *.
  assert (Htrim : uintn K (FlushSize l
                           - uintn K (Z.shiftl (CleanStreak l) (MmPageShift K)))
                  = (m - CleanStreak l) * MmPageSize K).
  { rewrite Z.shiftl_mul_pow2 by exact Hshift. rewrite <- Hpow.
    rewrite (uintn_small K (CleanStreak l * MmPageSize K)) by nia.
    rewrite uintn_small by nia. lia. }
  destruct (FlushLoopWrite_returns K Offset_ Size_ Flags_ PageCount l ce s
              m e0 x0 f0 ltac:(lia) Hpow Hshift Hsize Hstreak)
    as (r & s' & Hrun).
  { rewrite Hbuf. unfold m. lia. }
  { exact Hword. }
  { rewrite Hbuf. reflexivity. }
  { exact Hx0. }
  { rewrite HF0. exact Hf0. }
  { exact Hoff0. }
  { intros e He. apply Hwf, Hbt. rewrite <- Hbuf. exact He. }
  { destruct ce as [e|]; [apply Hwf; exact Hce|exact I]. }
  exists r, s'. split; [exact Hrun|].
  unfold FlushLoopWrite in Hrun. rewrite Htrim, Hbuf in Hrun.
  mstep Hrun as st sa Hflush.
  pose proof (Keeps_IopFlushPageCacheBuffer_shape K _ _ _ _ _ _ Hflush) as HShape.
  pose proof (Keeps_IopFlushPageCacheBuffer_tree K _ _ _ _ _ _ Hflush) as HTree.
  pose proof (Keeps_IopFlushPageCacheBuffer_local K _ _ _ _ _ _ Hflush) as HLocal.
  pose proof (Keeps_IopFlushPageCacheBuffer_listed K _ _ _ _ _ _ Hflush)
    as HListed.
  pose proof (FlushStateInv_kept K F Tree s sa HShape HListed HTree HLocal HS)
    as HS'.
  assert (Hrm : forall d, d ∈ e0 :: rest -> d ∈ Lists s LocalList ->
                          d ∉ Lists sa LocalList).
  { intros d Hd HdL. destruct (Hlocal d HdL) as [_ Hdirty].
    apply list_elem_of_lookup_1 in Hd. destruct Hd as [i Hi].
    destruct (decide (length (e0 :: rest) <= i + Z.to_nat (CleanStreak l))%nat)
      as [Hclean|Hin].
    - rewrite (Hsuffix i d Hclean Hi) in Hdirty. discriminate.
    - apply (IopFlushPageCacheBuffer_removes K (e0 :: rest) (m - CleanStreak l)
               Flags_ s st sa ltac:(lia) ltac:(lia) ltac:(nia))
        with (i := Z.of_nat i); [|exact Hflush|unfold m; lia| |exact Hdirty].
      + intros e He. destruct (Hentries e (Hbt e He))
          as (x & g & Hx & _ & _ & Hp & _). eauto.
      + rewrite Nat2Z.id. exact Hi. }
  assert (Hbreak : FlushLocalsInv K Tree sa
                     {| Node := Node l; FlushBuffer := []; FlushSize := 0;
                        FlushNextOffset := FlushNextOffset l; CleanStreak := 0;
                        PagesFlushed := PagesFlushed l;
                        TotalStatus := if negb (KSUCCESS st) then st
                                       else TotalStatus l;
                        BytesFlushed := if negb (KSUCCESS st)
                                        then BytesFlushed l else true |}).
  { split; [|split; [cbn; lia|exact Hnode]].
    split; [intros e He; apply elem_of_nil in He; contradiction|].
    split; [reflexivity|]. split; [cbn; lia|].
    split; [intros i e _ Hi; cbn in Hi; discriminate|].
    intros e x He. apply elem_of_nil in He. contradiction. }
  case_if Hrun.
  { inversion Hrun; subst. split; [exact HS'|]. split; [exact Hbreak|].
    split; [exact (proj1 HLocal)|]. split; [exact Hrm|]. discriminate. }
  mstep Hrun as lb sb Hlb.
  apply FlushLoopWrite_tail in Hrun. destruct Hrun as [-> Hr].
  assert (Hnew : (Entries sb = Entries sa /\ FileObjects sb = FileObjects sa
                  /\ Lists sb = Lists sa)
                 /\ FlushLocalsInv K Tree sa lb
                 /\ FlushBuffer lb = match ce with Some e => [e] | None => [] end
                 /\ Node lb = match ce with
                              | Some _ => Node l
                              | None => if FlushWholeFile Offset_ Size_
                                        then None else Node l
                              end).
  { destruct ce as [e|].
    - mstep Hlb as buf sp Hp. apply MmIoBufferAppendPage_inv in Hp as [-> ->].
      mstep Hlb as x sx Hx. apply Entry_inv in Hx. destruct Hx as [Hx ->].
      cbn [Entries with_Trace] in Hx.
      inversion Hlb; subst. clear Hlb. split; [auto|].
      split; [|split; reflexivity].
      destruct HS' as (_ & _ & Hentries' & _).
      destruct (Hentries' e Hce) as (x' & g & Hx' & _ & _ & _ & Hoff & Hlim & _).
      assert (x' = x) by congruence. subst x'.
      split; [|split; [cbn; lia|exact Hnode]].
      split; [intros e' He'; apply elem_of_cons in He';
              destruct He' as [->|He']; [exact Hce|];
              apply elem_of_nil in He'; contradiction|].
      split; [cbn; lia|]. split; [cbn; lia|].
      split.
      + intros i e' Hi He'. cbn in Hi. destruct i; [lia|discriminate].
      + intros e' y He' Hy. apply elem_of_cons in He'.
        destruct He' as [->|He']; [|apply elem_of_nil in He'; contradiction].
        assert (y = x) by congruence. subst y. cbn.
        unfold ulonglong. rewrite Z.mod_small by lia. lia.
    - inversion Hlb; subst. clear Hlb. split; [auto|].
      split; [|split; reflexivity].
      destruct Hbreak as (Hb1 & Hb2 & Hb3).
      split; [exact Hb1|]. split; [exact Hb2|]. cbn.
      destruct (FlushWholeFile Offset_ Size_); [discriminate|exact Hnode]. }
  destruct Hnew as ((HE & HFo & HLi) & HLI & Hbuf' & Hnode').
  split; [eapply FlushStateInv_same; eassumption|].
  split; [rewrite Hr; eapply FlushLocalsInv_same; eassumption|].
  rewrite HLi.
  split; [exact (proj1 HLocal)|]. split; [exact Hrm|].
  intros l' ->. cbn in Hr. subst lb. auto.
Qed.

End FlushTotal.

Section FlushTotalLoop.

Variables (K : KERNEL) (F : nat) (Offset_ Size_ Flags_ : Z) (PageCount : option Z).
Variable Tree : list nat.
Hypothesis HK : FlushKernel K.

(** Putting an entry at the end of the pending buffer. *)
Lemma FlushBufferInv_add s l e x streak N P T B :
  FlushBufferInv K Tree s l -> FlushSize l < PAGE_CACHE_FLUSH_MAX ->
  e ∈ Tree -> Entries s !! e = Some x ->
  0 <= Offset x -> Offset x + MmPageSize K < ULONGLONG_MOD ->
  FlushSize l = 0 \/ Offset x = FlushNextOffset l ->
  0 <= streak ->
  streak = 0
  \/ (FlagSet (Flags x) PAGE_CACHE_ENTRY_FLAG_DIRTY = false
      /\ streak <= CleanStreak l + 1) ->
  FlushBufferInv K Tree s
    {| Node := N; FlushBuffer := FlushBuffer l ++ [e];
       FlushSize := uintn K (FlushSize l + MmPageSize K);
       FlushNextOffset := ulonglong (Offset x + MmPageSize K);
       CleanStreak := streak; PagesFlushed := P; TotalStatus := T;
       BytesFlushed := B |}.
Proof.
  destruct HK as (HPS & Hpow & Hshift & Hfit).
  intros (Hbt & Hsize & Hstreak & Hsuffix & Hnext) Hmax He Hx Hoff Hlim Hadd
    Hpos Hclean.
  assert (Hulong : ulonglong (Offset x + MmPageSize K) = Offset x + MmPageSize K).
  { unfold ulonglong. apply Z.mod_small. lia. }
  unfold FlushBufferInv. cbn [FlushBuffer FlushSize CleanStreak FlushNextOffset].
  rewrite length_app. cbn [length]. rewrite Hulong.
  split; [|split; [|split; [|split]]].
  - intros e' He'. apply elem_of_app in He'. destruct He' as [He'|He'];
      [auto|]. apply elem_of_cons in He'.
    destruct He' as [->|He']; [exact He|]. apply elem_of_nil in He'. contradiction.
  - rewrite uintn_small by nia. nia.
  - lia.
  - intros i e' Hi He'.
    destruct Hclean as [->|[Hc Hle]].
    { apply lookup_lt_Some in He'. rewrite length_app in He'. cbn in He'. lia. }
    destruct (decide (i < length (FlushBuffer l))%nat) as [Hlt|Hge].
    + rewrite lookup_app_l in He' by exact Hlt.
      apply (Hsuffix i e'); [lia|exact He'].
    + pose proof (lookup_lt_Some _ _ _ He') as Hlen.
      rewrite length_app in Hlen. cbn in Hlen.
      rewrite lookup_app_r in He' by lia.
      replace (i - length (FlushBuffer l))%nat with 0%nat in He' by lia.
      cbn in He'. inversion He'; subst e'. unfold DirtyBit. rewrite Hx. exact Hc.
  - intros e' y He' Hy. apply elem_of_app in He'. destruct He' as [He'|He'].
    + destruct Hadd as [Hzero|Heq].
      * assert (length (FlushBuffer l) = 0%nat) by nia.
        destruct (FlushBuffer l); [|discriminate].
        apply elem_of_nil in He'. contradiction.
      * pose proof (Hnext e' y He' Hy). lia.
    + apply elem_of_cons in He'.
      destruct He' as [->|He']; [|apply elem_of_nil in He'; contradiction].
      assert (y = x) by congruence. subst y. lia.
Qed.

(** Every iteration of the flush loop returns, leaves the page cache and
    the locals as the next one needs them, and if it goes on, it is with
    less left to do. *)
Lemma FlushLoopBody_progress l s :
  FlushStateInv K F Tree s -> FlushLocalsInv K Tree s l ->
  exists r s',
    FlushLoopBody K F Offset_ Size_ Flags_ PageCount l s = Some (r, s')
    /\ FlushStateInv K F Tree s'
    /\ FlushLocalsInv K Tree s' (LoopLocals r)
    /\ (forall l', r = Continue l' ->
          (FlushMeasure Tree s' l' < FlushMeasure Tree s l)%nat).
Proof.
  pose proof HK as (HPS & Hpow & Hshift & Hfit).
  intros HS (HB & Hmax & Hnode).
  pose proof HS as (Hnd & (f & Hf & Htree) & Hentries & Hlocal).
  pose proof HB as (Hbt & Hsize & Hstreak & Hsuffix & Hnext).
  unfold FlushLoopBody.
  set (Node1 := match Node l with
                | Some n => TreeSuccessor Tree n
                | None => None
                end).
  assert (HN1 : (match Node l with
                 | Some n => RtlRedBlackTreeGetNextNode F n
                 | None => ret None
                 end) s = Some (Node1, s)).
  { unfold Node1. destruct (Node l); [|reflexivity].
    unfold RtlRedBlackTreeGetNextNode.
    rewrite (bind_run _ _ _ _ _ (File_run _ _ _ Hf)). rewrite Htree. reflexivity. }
  rewrite (bind_run _ _ _ _ _ HN1).
  set (Node2 := match Node1 with
                | None => if FlushWholeFile Offset_ Size_
                          then head (Lists s LocalList) else None
                | Some n => Some n
                end).
  assert (HN2 : (match Node1 with
                 | None => if FlushWholeFile Offset_ Size_
                           then LIST_FIRST LocalList else ret None
                 | Some n => ret (Some n)
                 end) s = Some (Node2, s)).
  { unfold Node2. destruct Node1; [reflexivity|].
    destruct (FlushWholeFile Offset_ Size_); reflexivity. }
  rewrite (bind_run _ _ _ _ _ HN2).
  destruct Node2 as [e|] eqn:HNode2.
  2: { eexists. eexists. split; [reflexivity|]. split; [exact HS|].
       split; [|discriminate]. cbn [LoopLocals].
       split; [exact HB|]. split; [exact Hmax|]. discriminate. }
  assert (Horigin : e ∈ Tree
            /\ ((NodeRank Tree (Some e) < NodeRank Tree (Node l))%nat
                \/ (FlushWholeFile Offset_ Size_ = true
                    /\ head (Lists s LocalList) = Some e))).
  { unfold Node2, Node1 in HNode2.
    assert (Hlist : (if FlushWholeFile Offset_ Size_
                     then head (Lists s LocalList) else None) = Some e ->
                    e ∈ Tree
                    /\ FlushWholeFile Offset_ Size_ = true
                    /\ head (Lists s LocalList) = Some e).
    { destruct (FlushWholeFile Offset_ Size_); [|discriminate].
      intros Hh. split; [|auto]. apply Hlocal. apply head_Some_elem_of. exact Hh. }
    destruct (Node l) as [n|] eqn:HN.
    - destruct (TreeSuccessor Tree n) as [m|] eqn:Hsucc.
      + inversion HNode2; subst m.
        destruct (TreeSuccessor_rank Tree n e Hnd Hsucc) as [Hin Hlt].
        split; [exact Hin|]. left. exact Hlt.
      + destruct (Hlist HNode2) as (? & ? & ?). auto.
    - destruct (Hlist HNode2) as (? & ? & ?). auto. }
  destruct Horigin as [He Horigin].
  destruct (Hentries e He)
    as (x & g & Hx & HFx & Hg & Hp & Hoff & Hlim & Hback & Hwf).
  rewrite (bind_run _ _ _ _ _ (Entry_run _ _ _ Hx)).
  destruct (negb (Size_ =? MAX_ULONGLONG)
            && (Offset x >=? ulonglong (Offset_ + Size_))) eqn:Hrange.
  { eexists. eexists. split; [reflexivity|]. split; [exact HS|].
    split; [|discriminate]. cbn [LoopLocals].
    split; [exact HB|]. split; [exact Hmax|].
    intros n Hn. cbn in Hn. congruence. }
  assert (Hdirty : DirtyBit s e = FlagSet (Flags x) PAGE_CACHE_ENTRY_FLAG_DIRTY).
  { unfold DirtyBit. rewrite Hx. reflexivity. }
  assert (Hulong : ulonglong (Offset x + MmPageSize K) = Offset x + MmPageSize K).
  { unfold ulonglong. apply Z.mod_small. lia. }
  match goal with
  | |- exists r s', bind ?m0 _ _ = _ /\ _ =>
      assert (Hskip : exists skip,
                m0 s = Some (skip, s)
                /\ 0 <= snd skip
                /\ (fst skip = true ->
                    snd skip = CleanStreak l
                    /\ ~ (FlushWholeFile Offset_ Size_ = true
                          /\ FlagSet (Flags x) PAGE_CACHE_ENTRY_FLAG_DIRTY = true))
                /\ (fst skip = false ->
                    snd skip = 0
                    \/ (FlagSet (Flags x) PAGE_CACHE_ENTRY_FLAG_DIRTY = false
                        /\ (snd skip <= CleanStreak l
                            \/ (snd skip = CleanStreak l + 1
                                /\ (FlushSize l =? 0)
                                   || (Offset x =? FlushNextOffset l) = true)))))
  end.
  { destruct (FlagSet (Flags x) PAGE_CACHE_ENTRY_FLAG_DIRTY) eqn:Hd; cbn [negb].
    - eexists. split; [reflexivity|]. unfold FlushSkipDirtyEntry.
      cbn [fst snd CleanStreak FlushSize FlushNextOffset]. rewrite Hulong.
      destruct (Offset x + MmPageSize K <=? Offset_) eqn:Hlow.
      + cbv beta iota zeta. cbn [fst snd]. split; [lia|]. split; [|discriminate]. intros _. split; [reflexivity|].
        intros [Hwf' _]. unfold FlushWholeFile in Hwf'.
        apply andb_true_iff in Hwf'. destruct Hwf' as [_ Hz].
        apply Z.eqb_eq in Hz. apply Z.leb_le in Hlow. lia.
      + rewrite Hrange. cbv beta iota zeta. cbn [fst snd]. split; [lia|].
        split; [discriminate|]. intros _. left. reflexivity.
    - match goal with
      | |- exists skip, bind ?m1 _ _ = _ /\ _ =>
          assert (Hbd : exists bd, m1 s = Some (bd, s))
      end.
      { destruct (FlagSet Flags_ (IO_FLAG_DATA_SYNCHRONIZED K));
          [|eexists; reflexivity].
        destruct (BackingEntry x) as [b|] eqn:Hb; [|eexists; reflexivity].
        destruct (Hback b eq_refl) as [y Hy].
        rewrite (bind_run _ _ _ _ _ (Entry_run _ _ _ Hy)).
        eexists. reflexivity. }
      destruct Hbd as [bd Hbd]. rewrite (bind_run _ _ _ _ _ Hbd).
      eexists. split; [reflexivity|]. unfold FlushSkipCleanEntry.
      cbn [CleanStreak FlushSize FlushNextOffset].
      destruct (negb (FlushSize l =? 0) && (Offset x =? FlushNextOffset l)
                && (CleanStreak l <? PAGE_CACHE_FLUSH_MAX_CLEAN_STREAK))
        eqn:Hrun; cbn [fst snd].
      + apply andb_true_iff in Hrun. destruct Hrun as [Hrun _].
        apply andb_true_iff in Hrun. destruct Hrun as [_ Heq].
        assert (Hsmall : uintn K (CleanStreak l + 1) = CleanStreak l + 1).
        { apply uintn_small. nia. }
        rewrite Hsmall. split; [lia|]. split; [discriminate|].
        intros _. right. split; [reflexivity|]. right. split; [reflexivity|].
        rewrite Heq. apply orb_true_r.
      + split; [lia|]. split.
        * intros _. split; [reflexivity|]. intros [_ Habs]. discriminate.
        * intros _. right. split; [reflexivity|]. left. lia. }
  destruct Hskip as (skip & Hskip & Hpos & Hskipped & Hkept).
  rewrite (bind_run _ _ _ _ _ Hskip).
  cbn [Node FlushBuffer FlushSize FlushNextOffset CleanStreak PagesFlushed
       TotalStatus BytesFlushed].
  destruct (fst skip) eqn:Hfst.
  { destruct (Hskipped eq_refl) as [Hsame Hnot].
    eexists. eexists. split; [reflexivity|]. split; [exact HS|].
    cbn [LoopLocals]. split.
    - split; [|split; [exact Hmax|]].
      + rewrite Hsame. exact HB.
      + cbn [Node]. destruct (FlushWholeFile Offset_ Size_); [discriminate|].
        intros n Hn. congruence.
    - intros l' Hl'. inversion Hl'; subst l'. clear Hl'.
      destruct Horigin as [Hrank|[Hwhole Hhead]].
      + apply FlushMeasure_rank; cbn [FlushBuffer Node]; [lia|].
        destruct (FlushWholeFile Offset_ Size_); cbn [NodeRank] in *; lia.
      + exfalso. apply Hnot. split; [exact Hwhole|]. rewrite <- Hdirty.
        apply Hlocal. apply head_Some_elem_of. exact Hhead. }
  specialize (Hkept eq_refl). clear Hskipped.
  destruct ((FlushSize l =? 0) || (Offset x =? FlushNextOffset l)) eqn:Hadd.
  - assert (Hadd' : FlushSize l = 0 \/ Offset x = FlushNextOffset l).
    { apply orb_true_iff in Hadd. destruct Hadd as [Hz|Hz];
        apply Z.eqb_eq in Hz; auto. }
    assert (Hclean : snd skip = 0
                     \/ (FlagSet (Flags x) PAGE_CACHE_ENTRY_FLAG_DIRTY = false
                         /\ snd skip <= CleanStreak l + 1)).
    { destruct Hkept as [Hz|[Hc Hle]]; [left; exact Hz|right].
      split; [exact Hc|]. destruct Hle as [Hle|[Hle _]]; lia. }
    pose proof (FlushBufferInv_add s l e x (snd skip) (Some e)
                  (uintn K (PagesFlushed l + 1)) (TotalStatus l)
                  (BytesFlushed l) HB Hmax He Hx ltac:(lia) Hlim Hadd' Hpos
                  Hclean) as HB2.
    assert (Hout : e ∉ FlushBuffer l).
    { intros Hin. destruct Hadd' as [Hzero|Heq].
      - assert (length (FlushBuffer l) = 0%nat) by nia.
        destruct (FlushBuffer l); [|discriminate].
        apply elem_of_nil in Hin. contradiction.
      - pose proof (Hnext e x Hin Hx). lia. }
    assert (Hsum : uintn K (FlushSize l + MmPageSize K)
                   = FlushSize l + MmPageSize K).
    { apply uintn_small. nia. }
    destruct (uintn K (FlushSize l + MmPageSize K) <? PAGE_CACHE_FLUSH_MAX)
      eqn:Hfull.
    + eexists. eexists. split; [reflexivity|]. split; [exact HS|].
      cbn [LoopLocals]. split.
      * split; [exact HB2|]. split; [cbn [FlushSize]; lia|].
        intros n Hn. cbn in Hn. congruence.
      * intros l' Hl'. inversion Hl'; subst l'. clear Hl'.
        destruct Horigin as [Hrank|[Hwhole Hhead]].
        -- apply FlushMeasure_rank; cbn [FlushBuffer Node]; [|exact Hrank].
           apply FlushPotential_buffer. intros d Hd. apply elem_of_app. auto.
        -- apply FlushMeasure_potential; cbn [FlushBuffer].
           apply (FlushPotential_taken _ _ _ e Hhead Hout).
           apply elem_of_app. right. apply elem_of_cons. left. reflexivity.
    + rewrite (bind_run _ _ _ _ _
                 (eq_refl : MmIoBufferAppendPage (FlushBuffer l) e s
                            = Some (FlushBuffer l ++ [e],
                                    with_Trace (cons (EvIoBufferAppendPage e))
                                      s))).
      set (sT := with_Trace (cons (EvIoBufferAppendPage e)) s).
      assert (HST : FlushStateInv K F Tree sT)
        by (apply (FlushStateInv_same K F Tree s); auto).
      assert (HBT := FlushBufferInv_same K Tree s sT _ eq_refl HB2).
      match goal with
      | |- exists r s', FlushLoopWrite _ _ _ _ _ ?l2 None _ = _ /\ _ =>
          destruct (FlushLoopWrite_progress K F Offset_ Size_ Flags_ PageCount
                      Tree HK l2 None sT HST HBT)
            as (r & s' & Hrun & HS' & HL' & Hsub & Hrm & Hcont)
      end.
      { cbn [FlushBuffer]. destruct (FlushBuffer l); discriminate. }
      { cbn [FlushSize]. lia. }
      { intros n Hn. cbn in Hn. congruence. }
      { exact I. }
      exists r, s'. split; [exact Hrun|]. split; [exact HS'|].
      split; [exact HL'|]. intros l' ->.
      destruct (Hcont l' eq_refl) as [Hbuf' Hnode']. cbn [FlushBuffer Node] in *.
      assert (Hle : (FlushPotential (Lists s' LocalList) (FlushBuffer l')
                     <= FlushPotential (Lists s LocalList)
                          (FlushBuffer l ++ [e]))%nat).
      { apply FlushPotential_written; assumption. }
      assert (Hmono : (FlushPotential (Lists s LocalList) (FlushBuffer l ++ [e])
                       <= FlushPotential (Lists s LocalList) (FlushBuffer l))%nat).
      { apply FlushPotential_buffer. intros d Hd. apply elem_of_app. auto. }
      destruct Horigin as [Hrank|[Hwhole Hhead]].
      * apply FlushMeasure_rank; [lia|]. rewrite Hnode'.
        destruct (FlushWholeFile Offset_ Size_); cbn [NodeRank] in *; lia.
      * apply FlushMeasure_potential.
        assert (Hlt : (FlushPotential (Lists s' LocalList) (FlushBuffer l')
                       < FlushPotential (Lists s LocalList)
                           (FlushBuffer l ++ [e]))%nat).
        { apply (FlushPotential_written_first _ _ _ _ e Hsub Hrm Hhead).
          left. apply elem_of_app. right. apply elem_of_cons. left. reflexivity. }
        lia.
  - apply orb_false_iff in Hadd. destruct Hadd as [Hnz Hneq].
    apply Z.eqb_neq in Hnz.
    assert (Hstreak' : 0 <= snd skip <= CleanStreak l).
    { destruct Hkept as [Hz|[Hc [Hle|[_ Habs]]]]; [lia|lia|discriminate]. }
    match goal with
    | |- exists r s', FlushLoopWrite _ _ _ _ _ ?l3 (Some e) _ = _ /\ _ =>
        destruct (FlushLoopWrite_progress K F Offset_ Size_ Flags_ PageCount
                    Tree HK l3 (Some e) s HS)
          as (r & s' & Hrun & HS' & HL' & Hsub & Hrm & Hcont)
    end.
    { unfold FlushBufferInv.
      cbn [FlushBuffer FlushSize CleanStreak FlushNextOffset].
      split; [exact Hbt|]. split; [exact Hsize|]. split; [lia|].
      split; [|exact Hnext].
      intros i e' Hi He'. apply (Hsuffix i e'); [lia|exact He']. }
    { cbn [FlushBuffer]. intros Hnil. rewrite Hnil in Hsize. cbn in Hsize. lia. }
    { cbn [FlushSize]. lia. }
    { intros n Hn. cbn in Hn. congruence. }
    { exact He. }
    exists r, s'. split; [exact Hrun|]. split; [exact HS'|].
    split; [exact HL'|]. intros l' ->.
    destruct (Hcont l' eq_refl) as [Hbuf' Hnode']. cbn [FlushBuffer Node] in *.
    destruct Horigin as [Hrank|[Hwhole Hhead]].
    + apply FlushMeasure_rank; [|rewrite Hnode'; exact Hrank].
      apply FlushPotential_written; assumption.
    + apply FlushMeasure_potential.
      apply (FlushPotential_written_first _ _ _ _ e Hsub Hrm Hhead).
      right. rewrite Hbuf'. apply elem_of_cons. left. reflexivity.
Qed.

End FlushTotalLoop.

Section FlushTotalRoutine.

Variables (K : KERNEL) (F : nat) (Offset_ Size_ Flags_ : Z) (PageCount : option Z).
Variable Tree : list nat.
Hypothesis HK : FlushKernel K.

(** The loop returns when it is given more iterations than its measure. *)
Lemma FlushLoop_returns fuel : forall l s,
  FlushStateInv K F Tree s -> FlushLocalsInv K Tree s l ->
  (FlushMeasure Tree s l < fuel)%nat ->
  exists o l' s',
    FlushLoop K F Offset_ Size_ Flags_ PageCount fuel l s = Some ((o, l'), s')
    /\ FlushStateInv K F Tree s' /\ FlushLocalsInv K Tree s' l'.
Proof.
  induction fuel as [|fuel IH]; intros l s HS HL Hfuel; [lia|].
  destruct (FlushLoopBody_progress K F Offset_ Size_ Flags_ PageCount Tree HK
              l s HS HL) as (r & s1 & Hrun & HS1 & HL1 & Hless).
  cbn [FlushLoop]. rewrite (bind_run _ _ _ _ _ Hrun).
  destruct r as [l1|l1|st l1]; cbn [LoopLocals] in HL1.
  - specialize (Hless l1 eq_refl). apply IH; [exact HS1|exact HL1|lia].
  - exists None, l1, s1. auto.
  - exists (Some st), l1, s1. auto.
Qed.

(** The end of the flush returns if the file object is there. *)
Lemma FlushPageCacheEntriesEnd_returns Status l s :
  is_Some (FileObjects s !! F) ->
  Returns (FlushPageCacheEntriesEnd K F Flags_ PageCount Status l) s.
Proof.
  intros [f Hf]. unfold Returns, FlushPageCacheEntriesEnd.
  unfold bind at 1. cbn [LIST_EMPTY gets].
  match goal with
  | |- exists a s', bind (when ?b ?m0) _ _ = _ =>
      assert (Happ : exists s1, when b m0 s = Some (tt, s1)
                                /\ FileObjects s1 = FileObjects s)
  end.
  { destruct (negb _); eexists; split; reflexivity. }
  destruct Happ as (s1 & Happ & Hfiles). rewrite (bind_run _ _ _ _ _ Happ).
  rewrite <- Hfiles in Hf. rewrite (bind_run _ _ _ _ _ (File_run _ _ _ Hf)).
  match goal with
  | |- exists a s', bind ?m0 _ _ = _ =>
      assert (Hsync : exists st s2, m0 s1 = Some (st, s2)
                                    /\ FileObjects s2 = FileObjects s1)
  end.
  { destruct (_ && _); eexists; eexists; split; reflexivity. }
  destruct Hsync as (st & s2 & Hsync & Hfiles2).
  rewrite (bind_run _ _ _ _ _ Hsync). rewrite <- Hfiles2 in Hf.
  destruct (negb (KSUCCESS st)); cbn [when].
  - unfold UpdateFile. rewrite (bind_run _ _ _ _ _
      (eq_trans (bind_run _ _ _ _ _ (File_run _ _ _ Hf)) eq_refl)).
    eexists. eexists. reflexivity.
  - eexists. eexists. reflexivity.
Qed.


(** The flush of a file object returns when it is given the iterations of
    [FlushFuel]. *)
Lemma IopFlushPageCacheEntries_returns fuel s :
  FlushReady K F Tree s ->
  (FlushFuel Tree (Lists s (DirtyPageList F)) <= fuel)%nat ->
  Returns (IopFlushPageCacheEntries K F Offset_ Size_ Flags_ PageCount fuel) s.
Proof.
  pose proof HK as (HPS & Hpow & Hshift & Hfit).
  intros (Hnd & (f & Hf & Htree) & Hentries & Hdirty) Hfuel.
  unfold Returns, IopFlushPageCacheEntries.
  set (s1 := with_Lists (fun L => <[LocalList := []]> L) s).
  assert (H1 : INITIALIZE_LIST_HEAD LocalList s = Some (tt, s1)) by reflexivity.
  rewrite (bind_run _ _ _ _ _ H1).
  assert (HS1 : ShapeKept s s1) by apply ignores_lists.
  assert (HT1 : TreeKept s s1) by apply ignores_lists.
  match goal with
  | |- exists a s', bind (when ?b ?m0) _ _ = _ =>
      assert (H2 : exists s2,
                when b m0 s1 = Some (tt, s2)
                /\ Entries s2 = Entries s /\ Lists s2 = Lists s1
                /\ ShapeKept s s2 /\ TreeKept s s2)
  end.
  { destruct (_ && _); cbn [when].
    - assert (Hrun : UpdateFile F (set_DIRTY_DATA false) s1
                     = Some (tt, with_FileObjects
                                   (fun m => <[F := set_DIRTY_DATA false f]> m)
                                   s1)).
      { unfold UpdateFile.
        exact (eq_trans (bind_run _ _ _ _ _ (File_run s1 _ _ Hf)) eq_refl). }
      eexists. split; [exact Hrun|]. split; [reflexivity|].
      split; [reflexivity|]. split.
      + transitivity s1; [exact HS1|].
        exact (Keeps_UpdateFile_shape _ _ _ _ _ Hrun).
      + transitivity s1; [exact HT1|].
        exact (Keeps_UpdateFile_tree _ _ (TreeSetter_DIRTY_DATA _) _ _ _ Hrun).
    - exists s1. auto. }
  destruct H2 as (s2 & H2 & HE2 & HL2 & HS2 & HT2).
  rewrite (bind_run _ _ _ _ _ H2).
  assert (HK2 : ListedKept s s2).
  { intros e x He. exists x. rewrite HE2. auto. }
  assert (Hentries2 : forall e, e ∈ Tree -> FlushEntryInv K F s2 e).
  { intros e He. eapply FlushEntryInv_kept; eauto. }
  destruct (proj1 HT2 F f Hf) as (f2 & Hf2 & Htree2 & _).
  rewrite (bind_run _ _ _ _ _ (File_run _ _ _ Hf2)).
  destruct (negb (IO_IS_CACHEABLE_TYPE (PropertiesType f2))).
  { apply FlushPageCacheEntriesEnd_returns. eauto. }
  unfold bind at 1. cbn [LIST_EMPTY gets].
  destruct (Lists s2 (DirtyPageList F)) as [|d0 drest] eqn:HD2.
  { apply FlushPageCacheEntriesEnd_returns. eauto. }
  unfold bind at 1. cbn [gets].
  destruct (negb (MmAllocateUninitializedIoBuffer K (Trace s2))).
  { apply FlushPageCacheEntriesEnd_returns. eauto. }
  assert (HD : Lists s2 (DirtyPageList F) = Lists s (DirtyPageList F)).
  { rewrite HL2. unfold s1. cbn. rewrite fn_lookup_insert_ne by discriminate.
    reflexivity. }
  assert (HLoc : Lists s2 LocalList = []).
  { rewrite HL2. unfold s1. cbn. apply fn_lookup_insert. }
  match goal with
  | |- exists a s', bind ?m0 _ _ = _ =>
      assert (HN : exists n s3,
                m0 s2 = Some (n, s3)
                /\ FlushStateInv K F Tree s3
                /\ (forall m, n = Some m -> m ∈ Tree)
                /\ (length (Lists s3 LocalList)
                    <= length (Lists s (DirtyPageList F)))%nat)
  end.
  { destruct (negb (Size_ =? MAX_ULONGLONG) || negb (Offset_ =? 0)).
    - exists (TreeClosest (Entries s2) Tree Offset_), s2. split.
      { unfold RtlRedBlackTreeSearchClosest.
        rewrite (bind_run _ _ _ _ _ (File_run _ _ _ Hf2)). rewrite Htree2, Htree.
        reflexivity. }
      split; [|split].
      + split; [exact Hnd|]. split; [exists f2; split; congruence|].
        split; [exact Hentries2|]. rewrite HLoc. intros e He.
        apply elem_of_nil in He. contradiction.
      + intros m Hm. eapply TreeClosest_elem. exact Hm.
      + rewrite HLoc. cbn. lia.
    - eexists. eexists. split; [reflexivity|].
      match goal with
      | |- FlushStateInv _ _ _ ?st /\ _ => set (s3 := st)
      end.
      assert (HL3 : Lists s3 LocalList = Lists s (DirtyPageList F)).
      { unfold s3. cbn. rewrite fn_lookup_insert_ne by discriminate.
        rewrite fn_lookup_insert. exact HD. }
      split; [|split; [discriminate|rewrite HL3; lia]].
      split; [exact Hnd|].
      split; [exists f2; split; [exact Hf2|congruence]|]. split.
      + intros e He. apply (FlushEntryInv_kept K F s2 s3);
          [apply ignores_lists|apply ignores_lists|apply ignores_lists|auto].
      + rewrite HL3. intros e He. destruct (Hdirty e He) as [Hin Hd].
        split; [exact Hin|]. unfold DirtyBit in *. unfold s3. cbn.
        rewrite HE2. exact Hd. }
  destruct HN as (n & s3 & HN & HS3 & Hn & Hlen).
  rewrite (bind_run _ _ _ _ _ HN).
  match goal with
  | |- exists a s', bind (FlushLoop _ _ _ _ _ _ _ ?l0) _ _ = _ =>
      destruct (FlushLoop_returns fuel l0 s3 HS3) as (o & l' & s4 & Hloop & HS4 & HL4)
  end.
  { split; [|split; [cbn; lia|exact Hn]].
    split; [intros e He; apply elem_of_nil in He; contradiction|].
    split; [reflexivity|]. split; [cbn; lia|].
    split; [intros i e _ Hi; cbn in Hi; discriminate|].
    intros e x He. apply elem_of_nil in He. contradiction. }
  { unfold FlushMeasure. cbn [FlushBuffer Node].
    pose proof (FlushPotential_le (Lists s3 LocalList) []).
    pose proof (NodeRank_le Tree n). unfold FlushFuel in Hfuel. nia. }
  rewrite (bind_run _ _ _ _ _ Hloop).
  pose proof HS4 as (_ & (f4 & Hf4 & _) & Hentries4 & _).
  destruct o as [st|].
  { apply FlushPageCacheEntriesEnd_returns. eauto. }
  destruct HL4 as ((Hbt & Hsize & Hstreak & _) & Hmax & _).
  assert (Htrim : uintn K (FlushSize l'
                           - uintn K (Z.shiftl (CleanStreak l') (MmPageShift K)))
                  = (Z.of_nat (length (FlushBuffer l')) - CleanStreak l')
                    * MmPageSize K).
  { rewrite Z.shiftl_mul_pow2 by exact Hshift. rewrite <- Hpow.
    rewrite (uintn_small K (CleanStreak l' * MmPageSize K)) by nia.
    rewrite uintn_small by nia. lia. }
  rewrite Htrim.
  destruct (negb ((Z.of_nat (length (FlushBuffer l')) - CleanStreak l')
                  * MmPageSize K =? 0)) eqn:Hleft.
  - destruct (FlushBuffer l') as [|e0 rest] eqn:Hbuf.
    { cbn in Hstreak, Hleft. assert (CleanStreak l' = 0) by lia.
      rewrite H in Hleft. discriminate. }
    assert (He0 : e0 ∈ Tree) by (apply Hbt, elem_of_cons; left; reflexivity).
    destruct (Hentries4 e0 He0)
      as (x0 & f0 & Hx0 & HF0 & Hf0 & _ & Hoff0 & _ & _ & _).
    destruct (IopFlushPageCacheBuffer_returns K (e0 :: rest)
                (Z.of_nat (length (e0 :: rest)) - CleanStreak l') Flags_ s4
                e0 x0 f0 ltac:(lia) ltac:(lia) ltac:(nia) eq_refl Hx0
                ltac:(rewrite HF0; exact Hf0) Hoff0) as (st & s5 & Hflush).
    { intros e He. destruct (Hentries4 e (Hbt e He))
        as (x & g & _ & _ & _ & _ & _ & _ & _ & Hwf). exact Hwf. }
    rewrite (bind_run _ _ _ _ _
               (eq_trans (bind_run _ _ _ _ _ Hflush) eq_refl)).
    apply FlushPageCacheEntriesEnd_returns.
    pose proof (Keeps_IopFlushPageCacheBuffer_shape K _ _ _ _ _ _ Hflush)
      as (_ & _ & Hfiles).
    apply Hfiles. eauto.
  - unfold bind at 1. cbn [ret].
    apply FlushPageCacheEntriesEnd_returns. eauto.
Qed.

End FlushTotalRoutine.

(** *** The scenarios are ready for a flush *)

Lemma FlushKernel_TestKernelWith Free Write : FlushKernel (TestKernelWith Free Write).
Proof. vm_compute. repeat split; discriminate. Qed.

Lemma FlushKernel_TestKernel : FlushKernel TestKernel.
Proof. vm_compute. repeat split; discriminate. Qed.

Lemma fst_map_pair {A} (g : nat -> A) (l : list nat) :
  (map (fun i => (i, g i)) l).*1 = l.
Proof. induction l as [|x l IH]; cbn; [reflexivity|]. rewrite IH. reflexivity. Qed.

Lemma FilePages_entry Pages Dirty i :
  NoDup Pages -> i ∈ Pages ->
  Entries (FilePages Pages Dirty) !! i
  = Some (TestEntry 1 (Z.of_nat i * 4096)
            (if bool_decide (i ∈ Dirty) then 3 else 2) None 0 0).
Proof.
  intros Hnd Hi. cbn [FilePages Entries].
  apply elem_of_list_to_map_1.
  - rewrite fst_map_pair. exact Hnd.
  - apply (list_elem_of_fmap_2 (fun i => (i, _)) _ _ Hi).
Qed.

(** A file of cached pages within its size, the dirty ones on its dirty
    list, is ready to be flushed. *)
Lemma FilePages_ready K Pages Dirty :
  MmPageSize K = 4096 -> NoDup Pages ->
  Forall (fun i => (i < 64)%nat) Pages -> Forall (fun i => i ∈ Pages) Dirty ->
  FlushReady K 1 Pages (FilePages Pages Dirty).
Proof.
  intros HPS Hnd Hsmall Hsub.
  rewrite list.Forall_forall in Hsmall. rewrite list.Forall_forall in Hsub.
  split; [exact Hnd|]. split; [|split].
  - eexists. split; [apply lookup_singleton_eq|reflexivity].
  - intros e He. eexists. eexists.
    split; [apply FilePages_entry; assumption|]. split; [reflexivity|].
    split; [apply lookup_singleton_eq|]. split; [reflexivity|].
    pose proof (Hsmall e He). cbn [Offset TestEntry PropertiesFileSize TestFile].
    split; [lia|]. split; [rewrite HPS; unfold ULONGLONG_MOD; lia|].
    split; [intros b Hb; discriminate|].
    eexists. split; [apply FilePages_entry; assumption|].
    split; [eexists; apply lookup_singleton_eq|].
    split; [intros _; reflexivity|].
    cbn [Flags TestEntry]. destruct (bool_decide (e ∈ Dirty)); discriminate.
  - cbn [FilePages Lists]. rewrite fn_lookup_insert. intros e He.
    pose proof (Hsub e He) as Hin. split; [exact Hin|].
    unfold DirtyBit. rewrite (FilePages_entry _ _ _ Hnd Hin).
    cbn [Flags TestEntry]. rewrite bool_decide_eq_true_2 by exact He.
    reflexivity.
Qed.

(** Before the flush moves the dirty list over, the local list is empty. *)
Lemma FilePages_state K Pages Dirty :
  MmPageSize K = 4096 -> NoDup Pages ->
  Forall (fun i => (i < 64)%nat) Pages -> Forall (fun i => i ∈ Pages) Dirty ->
  FlushStateInv K 1 Pages (FilePages Pages Dirty).
Proof.
  intros HPS Hnd Hsmall Hsub.
  destruct (FilePages_ready K Pages Dirty HPS Hnd Hsmall Hsub)
    as (_ & Hfile & Hentries & _).
  split; [exact Hnd|]. split; [exact Hfile|]. split; [exact Hentries|].
  intros e He. cbn in He. apply elem_of_nil in He. contradiction.
Qed.
(** ** Errors of a flush *)


Lemma TwoDirtyPages_well_formed (g : (UINTN_GLOBAL -> Z) -> UINTN_GLOBAL -> Z) :
  forall e, e ∈ [0%nat; 5%nat] ->
            EntryWellFormed (with_Globals g TwoDirtyPages) e.
Proof.
  intros e He.
  repeat (apply elem_of_cons in He as [->|He]);
    try (eexists; split; [vm_compute; reflexivity|];
         split; [eexists; vm_compute; reflexivity|];
         split; [intros _; reflexivity|];
         intros Hc; vm_compute in Hc; discriminate Hc).
  apply elem_of_nil in He. contradiction.
Qed.



(** ** The page cap of a flush *)




(** ** The clean streak of the flush loop *)

(** The flush of a buffer makes at most one write request, of no more
    bytes than the flush size, unless the end of the file cuts it. *)
Lemma IopFlushPageCacheBuffer_write_size K buf m flags s st s' :
  0 < MmPageSize K -> 0 <= m -> m * MmPageSize K < UINTN_MOD K ->
  IopFlushPageCacheBuffer K buf (m * MmPageSize K) flags s = Some (st, s') ->
  WritesKept s s'
  \/ exists f off n Status Completed,
       WriteRequests (Trace s')
       = (f, off, n, Status, Completed) :: WriteRequests (Trace s)
       /\ (n <= m * MmPageSize K
           \/ exists v, FileObjects s !! f = Some v
                        /\ n = uintn K (ulonglong (PropertiesFileSize v - off))).
Proof.
  intros HPS Hm Hfit H. unfold IopFlushPageCacheBuffer in H.
  pose proof (Keeps_FlushBufferMarkClean WritesKept K
                (fun e => Keeps_IopMarkPageCacheEntryClean_writes K e true))
    as Hcw.
  mstep H as e0 s1 Hget.
  apply MmGetIoBufferPageCacheEntry_inv in Hget as (Hget & -> & _ & _).
  mstep H as x0 s1 Hx0. apply Entry_inv in Hx0 as [Hx0 ->].
  mstep H as f0 s1 Hf0. apply File_inv in Hf0 as [Hf0 ->].
  mstep H as r s1 Hloop.
  pose proof (Hcw _ _ _ _ _ _ _ _ _ _ Hloop) as Hw1.
  change 0 with (0 * MmPageSize K) in Hloop at 1 2.
  apply (FlushBufferMarkClean_bytes K buf m HPS Hfit) in Hloop; [|lia].
  destruct r as [[bw clean] ce]. cbn [fst] in Hloop.
  match type of H with
  | (if ?b =? 0 then _ else _) _ = _ => set (BytesToWrite := b) in *
  end.
  assert (Hbytes : BytesToWrite <= m * MmPageSize K
                   \/ BytesToWrite
                      = uintn K (ulonglong (PropertiesFileSize f0 - Offset x0))).
  { unfold BytesToWrite. destruct (_ >? _); [right; reflexivity | left; lia]. }
  clearbody BytesToWrite.
  destruct (BytesToWrite =? 0).
  { inversion H; subst. left. exact Hw1. }
  destruct (clean && negb (FlagSet flags (IO_FLAG_DATA_SYNCHRONIZED K))).
  { inversion H; subst. left. exact Hw1. }
  mstep H as w s2 Hgets. inversion Hgets; subst w s2. clear Hgets.
  mstep H as u s2 Hemit. inversion Hemit; subst u s2. clear Hemit.
  set (w := IopPerformNonCachedWrite K (Trace s1) (FileObject x0) buf
              (Offset x0) BytesToWrite flags) in *.
  set (s2 := with_Trace _ s1) in H.
  assert (Hw2 : WriteRequests (Trace s2)
                = (FileObject x0, Offset x0, BytesToWrite, fst w,
                   uintn K (snd w)) :: WriteRequests (Trace s)).
  { unfold s2. cbn. f_equal. exact Hw1. }
  assert (Hkeep : WritesKept s2 s').
  { pose proof (Keeps_FlushBufferMarkDirty WritesKept K
                  (Keeps_IopMarkPageCacheEntryDirty_writes K)).
    refine ((_ : Keeps WritesKept _) s2 st s' H). keeps_solve. }
  right. exists (FileObject x0), (Offset x0), BytesToWrite, (fst w),
           (uintn K (snd w)).
  split.
  - unfold WritesKept in Hkeep. rewrite Hkeep. exact Hw2.
  - destruct Hbytes as [Hle | Hclip]; [left; exact Hle|].
    right. exists f0. auto.
Qed.

Section StreakFacts.

Variables (K : KERNEL) (F : nat) (Offset_ Size_ Flags_ : Z) (PageCount : option Z).

Ltac keeps_unfold_flush :=
  lazymatch goal with
  | |- Keeps _ (RtlRedBlackTreeGetNextNode _ _) =>
      unfold RtlRedBlackTreeGetNextNode
  | |- Keeps _ (RtlRedBlackTreeSearchClosest _ _) =>
      unfold RtlRedBlackTreeSearchClosest
  end.

Ltac keeps_solve ::=
  repeat first
    [ solve [eauto with keeps]
    | solve [keeps_prim]
    | solve [apply Keeps_modify_lists; typeclasses eauto]
    | keeps_struct
    | keeps_unfold
    | keeps_unfold_more
    | keeps_unfold_flush ].

(** The write of the flush in the middle of the loop leaves the pages of
    the running clean streak out. *)
Lemma FlushLoopWrite_trimmed l ce s r s' m :
  0 < MmPageSize K -> MmPageSize K = 2 ^ MmPageShift K -> 0 <= MmPageShift K ->
  FlushSize l = m * MmPageSize K -> FlushSize l < UINTN_MOD K ->
  0 <= CleanStreak l <= m ->
  FlushLoopWrite K Offset_ Size_ Flags_ PageCount l ce s = Some (r, s') ->
  WritesKept s s'
  \/ exists f off n Status Completed,
       WriteRequests (Trace s')
       = (f, off, n, Status, Completed) :: WriteRequests (Trace s)
       /\ (n <= FlushSize l - CleanStreak l * MmPageSize K
           \/ exists v, FileObjects s !! f = Some v
                        /\ n = uintn K (ulonglong (PropertiesFileSize v - off))).
Proof.
  intros HPS Hpow Hshift Hsize Hfit Hstreak H. unfold FlushLoopWrite in H.
  mstep H as st sa Hflush.
  assert (Hrest : WritesKept sa s').
  { clear Hflush.
    destruct (match PageCount with Some Count => _ | None => false end).
    { inversion H; subst. reflexivity. }
    mstep H as lb sb Hb.
    assert (HR1 : WritesKept sa sb).
    { destruct ce.
      - mstep Hb as buf sp Hp. mkeep WritesKept Hp.
        mstep Hb as x sx Hx. mkeep WritesKept Hx. inversion Hb; subst.
        etransitivity; eassumption.
      - inversion Hb; subst. reflexivity. }
    destruct (KeGetCurrentThreadIsPageCacheThread K).
    - mstep H as big s2 Hbig. mkeep WritesKept Hbig.
      mstep H as g1 s3 Hg1. mkeep WritesKept Hg1.
      mstep H as g2 s4 Hg2. mkeep WritesKept Hg2.
      mstep H as g3 s5 Hg3. mkeep WritesKept Hg3.
      assert (HR5 : WritesKept sa s5).
      { repeat (etransitivity; [eassumption|]). reflexivity. }
      destruct (_ && _); inversion H; subst; exact HR5.
    - inversion H; subst. exact HR1. }
  clear H.
  assert (Htrim : uintn K (FlushSize l
                           - uintn K (Z.shiftl (CleanStreak l) (MmPageShift K)))
                  = (m - CleanStreak l) * MmPageSize K).
  { rewrite Z.shiftl_mul_pow2 by exact Hshift. rewrite <- Hpow.
    rewrite (uintn_small K (CleanStreak l * MmPageSize K)) by nia.
    rewrite uintn_small by nia. lia. }
  rewrite Htrim in Hflush.
  apply IopFlushPageCacheBuffer_write_size in Hflush; [|lia|lia|nia].
  destruct Hflush as [Hkeep | (f & off & n & Status & Completed & Hw & Hn)].
  - left. etransitivity; eassumption.
  - right. exists f, off, n, Status, Completed. split.
    + unfold WritesKept in Hrest. rewrite Hrest. exact Hw.
    + destruct Hn as [Hle | Hclip]; [left; nia | right; exact Hclip].
Qed.

(** What an iteration does with a clean entry it reaches along the tree,
    in a flush that is not synchronized. *)
Lemma FlushLoopBody_clean_entry l s n f e x r s' :
  Node l = Some n -> FileObjects s !! F = Some f ->
  TreeSuccessor (PageCacheTree f) n = Some e -> Entries s !! e = Some x ->
  FlagSet (Flags x) PAGE_CACHE_ENTRY_FLAG_DIRTY = false ->
  FlagSet Flags_ (IO_FLAG_DATA_SYNCHRONIZED K) = false ->
  (Size_ = MAX_ULONGLONG \/ Offset x < ulonglong (Offset_ + Size_)) ->
  FlushLoopBody K F Offset_ Size_ Flags_ PageCount l s = Some (r, s') ->
  if negb (FlushSize l =? 0) && (Offset x =? FlushNextOffset l)
     && (CleanStreak l <? 4)
  then exists lb,
         FlushBuffer lb = FlushBuffer l ++ [e]
         /\ FlushSize lb = uintn K (FlushSize l + MmPageSize K)
         /\ CleanStreak lb = uintn K (CleanStreak l + 1)
         /\ PagesFlushed lb = uintn K (PagesFlushed l + 1)
         /\ if FlushSize lb <? PAGE_CACHE_FLUSH_MAX
            then r = Continue lb
                 /\ s' = with_Trace (cons (EvIoBufferAppendPage e)) s
            else FlushLoopWrite K Offset_ Size_ Flags_ PageCount lb None
                   (with_Trace (cons (EvIoBufferAppendPage e)) s)
                 = Some (r, s')
  else exists lb,
         r = Continue lb /\ s' = s
         /\ FlushBuffer lb = FlushBuffer l /\ FlushSize lb = FlushSize l
         /\ CleanStreak lb = CleanStreak l
         /\ PagesFlushed lb = PagesFlushed l.
Proof.
  intros HN Hf Hsucc Hx Hclean Hsync Hrange H. unfold FlushLoopBody in H.
  mstep H as Node1 s1 HN1. rewrite HN in HN1.
  unfold RtlRedBlackTreeGetNextNode in HN1.
  mstep HN1 as f' s0 Hf'. apply File_inv in Hf' as [Hf' ->].
  rewrite Hf in Hf'. inversion Hf'; subst f'. inversion HN1; subst Node1 s1.
  clear HN1 Hf'. rewrite Hsucc in H.
  mstep H as Node2 s2 HN2. inversion HN2; subst Node2 s2. clear HN2.
  mstep H as x' s3 Hx'. apply Entry_inv in Hx' as [Hx' ->].
  rewrite Hx in Hx'. inversion Hx'; subst x'. clear Hx'.
  assert (Hin : negb (Size_ =? MAX_ULONGLONG)
                && (Offset x >=? ulonglong (Offset_ + Size_)) = false).
  { destruct Hrange as [-> | Hlt].
    - rewrite Z.eqb_refl. reflexivity.
    - apply andb_false_iff. right. rewrite Z.geb_leb. apply Z.leb_gt. exact Hlt. }
  rewrite Hin in H.
  mstep H as skip s4 Hskip. rewrite Hclean in Hskip. cbn [negb] in Hskip.
  mstep Hskip as bd s5 Hbd. rewrite Hsync in Hbd. inversion Hbd; subst bd s5.
  inversion Hskip; subst skip s4. clear Hbd Hskip.
  unfold FlushSkipCleanEntry in H.
  cbn [FlushSize FlushNextOffset CleanStreak PagesFlushed FlushBuffer Node
       TotalStatus BytesFlushed] in H.
  change PAGE_CACHE_FLUSH_MAX_CLEAN_STREAK with 4 in H.
  destruct (negb (FlushSize l =? 0) && (Offset x =? FlushNextOffset l)
            && (CleanStreak l <? 4)) eqn:Hinc; cbn [fst snd] in H.
  - apply andb_true_iff in Hinc as [Hinc _].
    apply andb_true_iff in Hinc as [_ Hnext].
    cbn [FlushSize FlushNextOffset CleanStreak PagesFlushed FlushBuffer Node
         TotalStatus BytesFlushed] in H.
    rewrite Hnext, orb_true_r in H.
    mstep H as buf sp Hp. apply MmIoBufferAppendPage_inv in Hp as [-> ->].
    eexists {| Node := Some e; FlushBuffer := FlushBuffer l ++ [e];
               FlushSize := uintn K (FlushSize l + MmPageSize K);
               FlushNextOffset := ulonglong (Offset x + MmPageSize K);
               CleanStreak := uintn K (CleanStreak l + 1);
               PagesFlushed := uintn K (PagesFlushed l + 1);
               TotalStatus := TotalStatus l;
               BytesFlushed := BytesFlushed l |}.
    cbn [FlushSize FlushNextOffset CleanStreak PagesFlushed FlushBuffer Node].
    repeat (split; [reflexivity|]).
    destruct (uintn K (FlushSize l + MmPageSize K) <? PAGE_CACHE_FLUSH_MAX).
    + inversion H; subst. auto.
    + exact H.
  - rewrite Hsync in H. cbn [andb fst snd] in H.
    inversion H; subst. eexists. repeat (split; [reflexivity|]). reflexivity.
Qed.

(** What an iteration does with a dirty entry of the range, reached along
    the tree or, in a whole-file flush, from the local list. *)
Lemma FlushLoopBody_dirty_entry l s f e x r s' :
  FileObjects s !! F = Some f ->
  ((exists n, Node l = Some n /\ TreeSuccessor (PageCacheTree f) n = Some e)
   \/ (Node l = None /\ FlushWholeFile Offset_ Size_ = true
       /\ head (Lists s LocalList) = Some e)) ->
  Entries s !! e = Some x ->
  FlagSet (Flags x) PAGE_CACHE_ENTRY_FLAG_DIRTY = true ->
  Offset_ < ulonglong (Offset x + MmPageSize K) ->
  (Size_ = MAX_ULONGLONG \/ Offset x < ulonglong (Offset_ + Size_)) ->
  FlushLoopBody K F Offset_ Size_ Flags_ PageCount l s = Some (r, s') ->
  exists lb,
    CleanStreak lb = 0
    /\ PagesFlushed lb = uintn K (PagesFlushed l + 1)
    /\ if (FlushSize l =? 0) || (Offset x =? FlushNextOffset l)
       then FlushBuffer lb = FlushBuffer l ++ [e]
            /\ FlushSize lb = uintn K (FlushSize l + MmPageSize K)
            /\ if FlushSize lb <? PAGE_CACHE_FLUSH_MAX
               then r = Continue lb
                    /\ s' = with_Trace (cons (EvIoBufferAppendPage e)) s
               else FlushLoopWrite K Offset_ Size_ Flags_ PageCount lb None
                      (with_Trace (cons (EvIoBufferAppendPage e)) s)
                    = Some (r, s')
       else FlushBuffer lb = FlushBuffer l /\ FlushSize lb = FlushSize l
            /\ FlushLoopWrite K Offset_ Size_ Flags_ PageCount lb (Some e) s
               = Some (r, s').
Proof.
  intros Hf Hroute Hx Hdirty Hlow Hrange H. unfold FlushLoopBody in H.
  mstep H as Node1 s1 HN1. mstep H as Node2 s2 HN2.
  assert (Hnode : Node2 = Some e /\ s2 = s).
  { destruct Hroute as [(n & HN & Hsucc) | (HN & Hwhole & Hhead)];
      rewrite HN in HN1.
    - unfold RtlRedBlackTreeGetNextNode in HN1.
      mstep HN1 as f' s0 Hf'. apply File_inv in Hf' as [Hf' ->].
      rewrite Hf in Hf'. inversion Hf'; subst f'.
      inversion HN1; subst Node1 s1. rewrite Hsucc in HN2.
      inversion HN2. auto.
    - inversion HN1; subst Node1 s1. rewrite Hwhole in HN2.
      unfold LIST_FIRST, gets in HN2. rewrite Hhead in HN2.
      inversion HN2. auto. }
  destruct Hnode as [-> ->]. clear HN1 HN2.
  mstep H as x' s3 Hx'. apply Entry_inv in Hx' as [Hx' ->].
  rewrite Hx in Hx'. inversion Hx'; subst x'. clear Hx'.
  assert (Hin : negb (Size_ =? MAX_ULONGLONG)
                && (Offset x >=? ulonglong (Offset_ + Size_)) = false).
  { destruct Hrange as [-> | Hlt].
    - rewrite Z.eqb_refl. reflexivity.
    - apply andb_false_iff. right. rewrite Z.geb_leb. apply Z.leb_gt. exact Hlt. }
  rewrite Hin in H.
  mstep H as skip s4 Hskip. rewrite Hdirty in Hskip. cbn [negb] in Hskip.
  inversion Hskip; subst skip s4. clear Hskip.
  unfold FlushSkipDirtyEntry in H.
  replace (ulonglong (Offset x + MmPageSize K) <=? Offset_) with false in H
    by (symmetry; apply Z.leb_gt; exact Hlow).
  rewrite Hin in H.
  cbn [fst snd FlushSize FlushNextOffset CleanStreak PagesFlushed FlushBuffer
       Node TotalStatus BytesFlushed] in H.
  destruct ((FlushSize l =? 0) || (Offset x =? FlushNextOffset l)).
  - mstep H as buf sp Hp. apply MmIoBufferAppendPage_inv in Hp as [-> ->].
    eexists {| Node := Some e; FlushBuffer := FlushBuffer l ++ [e];
               FlushSize := uintn K (FlushSize l + MmPageSize K);
               FlushNextOffset := ulonglong (Offset x + MmPageSize K);
               CleanStreak := 0;
               PagesFlushed := uintn K (PagesFlushed l + 1);
               TotalStatus := TotalStatus l;
               BytesFlushed := BytesFlushed l |}.
    cbn [FlushSize FlushNextOffset CleanStreak PagesFlushed FlushBuffer Node].
    repeat (split; [reflexivity|]).
    destruct (uintn K (FlushSize l + MmPageSize K) <? PAGE_CACHE_FLUSH_MAX).
    + inversion H; subst. auto.
    + exact H.
  - eexists {| Node := Some e; FlushBuffer := FlushBuffer l;
               FlushSize := FlushSize l;
               FlushNextOffset := FlushNextOffset l;
               CleanStreak := 0;
               PagesFlushed := uintn K (PagesFlushed l + 1);
               TotalStatus := TotalStatus l;
               BytesFlushed := BytesFlushed l |}.
    cbn [FlushSize FlushNextOffset CleanStreak PagesFlushed FlushBuffer Node].
    repeat (split; [reflexivity|]). exact H.
Qed.

End StreakFacts.




(** ** Trimming *)

Global Instance PagingKept_PreOrder : PreOrder PagingKept.
Proof.
  split.
  - intros a. reflexivity.
  - intros a b c Hab Hbc. unfold PagingKept in *. congruence.
Qed.

Global Instance PagingKept_entries : IgnoresEntries PagingKept.
Proof. intros s g. reflexivity. Qed.
Global Instance PagingKept_files : IgnoresFileObjects PagingKept.
Proof. intros s g. reflexivity. Qed.
Global Instance PagingKept_lists : IgnoresLists PagingKept.
Proof. intros s g. reflexivity. Qed.
Global Instance PagingKept_globals : IgnoresGlobals PagingKept.
Proof. intros s g. reflexivity. Qed.

Lemma Keeps_Emit_paging ev :
  PagingOutRequest ev = None -> Keeps PagingKept (Emit ev).
Proof.
  intros Hev s a s' H. inversion H. unfold PagingKept, PagingOutRequests. cbn.
  rewrite Hev. reflexivity.
Qed.

#[export] Hint Extern 1 (Keeps PagingKept (Emit _)) =>
  apply Keeps_Emit_paging; reflexivity : keeps.

(** The target of a trim is what is missing to the retreat, held back so
    that the page cache keeps its minimum. *)
Lemma TrimTargetRemoveCount_run K FreePhysicalPages s :
  0 <= FreePhysicalPages <= Globals s IoPageCacheHeadroomPagesRetreat ->
  Globals s IoPageCacheHeadroomPagesRetreat < UINTN_MOD K ->
  0 <= Globals s IoPageCacheMinimumPages
    <= Globals s IoPageCachePhysicalPageCount ->
  Globals s IoPageCachePhysicalPageCount < UINTN_MOD K ->
  TrimTargetRemoveCount K FreePhysicalPages s
  = Some (Z.min (Globals s IoPageCacheHeadroomPagesRetreat - FreePhysicalPages)
                (Globals s IoPageCachePhysicalPageCount
                 - Globals s IoPageCacheMinimumPages), s).
Proof.
  intros Hfree HR Hmin HP. unfold TrimTargetRemoveCount. run_prims.
  set (R := Globals s IoPageCacheHeadroomPagesRetreat) in *.
  set (P := Globals s IoPageCachePhysicalPageCount) in *.
  set (Mn := Globals s IoPageCacheMinimumPages) in *.
  rewrite (uintn_small K (R - FreePhysicalPages)) by lia.
  destruct (R - FreePhysicalPages >? P) eqn:Hgt.
  - apply Z.gtb_lt in Hgt. rewrite Z.sub_diag.
    rewrite (uintn_small K 0) by (pose proof (UINTN_MOD_pos K); lia).
    rewrite (uintn_small K (P - Mn)) by lia.
    destruct (0 <? Mn) eqn:Hz.
    + do 2 f_equal. lia.
    + apply Z.ltb_ge in Hz. do 2 f_equal. lia.
  - assert (Hle : R - FreePhysicalPages <= P).
    { destruct (Z.gtb_spec (R - FreePhysicalPages) P); [discriminate | lia]. }
    rewrite (uintn_small K (P - (R - FreePhysicalPages))) by lia.
    rewrite (uintn_small K (P - Mn)) by lia.
    destruct (P - (R - FreePhysicalPages) <? Mn) eqn:Hlt.
    + apply Z.ltb_lt in Hlt. do 2 f_equal. lia.
    + apply Z.ltb_ge in Hlt. do 2 f_equal. lia.
Qed.

Lemma OwnerBit_ShapeKept s s' e :
  ShapeKept s s' -> OwnerBit s' e = OwnerBit s e.
Proof.
  intros (Hsome & Hnone & _). unfold OwnerBit.
  destruct (Entries s !! e) as [x|] eqn:Hx.
  - destruct (Hsome e x Hx) as (x' & -> & _ & _ & _ & Ho). exact Ho.
  - rewrite (Hnone e Hx). reflexivity.
Qed.

Lemma CountOwners_nonneg s l : 0 <= CountOwners s l.
Proof. induction l as [|e l IH]; cbn; [lia|]. destruct (OwnerBit s e); lia. Qed.

Lemma CountOwners_app s l1 l2 :
  CountOwners s (l1 ++ l2) = CountOwners s l1 + CountOwners s l2.
Proof. induction l1 as [|e l IH]; cbn; [reflexivity|]. rewrite IH. lia. Qed.

Lemma CountOwners_sublist s l1 l2 :
  sublist l1 l2 -> CountOwners s l1 <= CountOwners s l2.
Proof.
  induction 1 as [|e l1 l2 _ IH|e l1 l2 _ IH]; cbn; [lia| |].
  - destruct (OwnerBit s e); lia.
  - destruct (OwnerBit s e); lia.
Qed.

Lemma CountOwners_ShapeKept s s' l :
  ShapeKept s s' -> CountOwners s' l = CountOwners s l.
Proof.
  intros HS. induction l as [|e l IH]; cbn; [reflexivity|].
  rewrite IH, (OwnerBit_ShapeKept _ _ e HS). reflexivity.
Qed.

(** What keeps the shape and puts nothing on the destroy list lets the
    number of page owners on it not grow. *)
Lemma CountOwners_kept s s' :
  ShapeKept s s' -> DestroyShrinks s s' ->
  CountOwners s' (Lists s' DestroyListHead)
  <= CountOwners s (Lists s DestroyListHead).
Proof.
  intros HS HD. rewrite (CountOwners_ShapeKept _ _ _ HS).
  apply CountOwners_sublist. exact HD.
Qed.

Section RemoveFacts.

Variables (K : KERNEL) (TimidEffort : bool).

Lemma Keeps_RemoveLoopBody_pages t :
  Keeps PagesKept (RemoveLoopBody K DestroyListHead TimidEffort t).
Proof. unfold RemoveLoopBody. keeps_solve. Qed.

Lemma Keeps_RemoveLoopBody_paging t :
  Keeps PagingKept (RemoveLoopBody K DestroyListHead TimidEffort t).
Proof. unfold RemoveLoopBody. keeps_solve. Qed.

Lemma Keeps_RemoveLoopBody_shape t :
  Keeps ShapeKept (RemoveLoopBody K DestroyListHead TimidEffort t).
Proof. unfold RemoveLoopBody. keeps_solve. Qed.

(** Putting an entry on the destroy list adds it to the page owners there
    if it is one. *)
Lemma INSERT_BEFORE_destroy e s u s' :
  INSERT_BEFORE e DestroyListHead s = Some (u, s') ->
  CountOwners s' (Lists s' DestroyListHead)
  = CountOwners s (Lists s DestroyListHead)
    + (if OwnerBit s e then 1 else 0).
Proof.
  intros H.
  assert (HS : ShapeKept s s').
  { refine ((_ : Keeps ShapeKept _) s u s' H). keeps_solve. }
  unfold INSERT_BEFORE in H. mstep H as a s1 Hup.
  assert (HL : Lists s1 = Lists s).
  { unfold UpdateEntry in Hup. mstep Hup as x s2 Hx.
    apply Entry_inv in Hx as [_ ->]. inversion Hup. reflexivity. }
  inversion H; subst s'. cbn [Lists with_Lists].
  rewrite fn_lookup_insert, HL.
  rewrite (CountOwners_ShapeKept _ _ _ HS), CountOwners_app. cbn. lia.
Qed.

(** An iteration of the removal loop takes from the target one for each
    page owner it puts on the destroy list, and nothing else. *)
Lemma RemoveLoopBody_count t s r s' :
  0 <= t < UINTN_MOD K ->
  RemoveLoopBody K DestroyListHead TimidEffort (Some t) s = Some (r, s') ->
  exists t',
    match r with
    | Some tr => tr = Some t'
    | None => t' = t
    end
    /\ 0 <= t' <= t
    /\ CountOwners s' (Lists s' DestroyListHead) + t'
       <= CountOwners s (Lists s DestroyListHead) + t
    /\ (t' = t
        \/ (t' = t - 1
            /\ exists e, head (Lists s LocalList) = Some e
                         /\ OwnerBit s e = true)).
Proof.
  intros Ht H.
  pose proof (Keeps_RemoveLoopBody_shape _ _ _ _ H) as HS.
  unfold RemoveLoopBody in H.
  mstep H as First s1 HF. inversion HF; subst First s1. clear HF.
  destruct (head (Lists s LocalList)) as [e|] eqn:Hhead.
  2:{ inversion H; subst. exists t. split; [reflexivity|].
      repeat split; auto; lia. }
  destruct (t =? 0) eqn:Hzero.
  { inversion H; subst. exists t. split; [reflexivity|].
    repeat split; auto; lia. }
  apply Z.eqb_neq in Hzero.
  mstep H as x s1 Hx. apply Entry_inv in Hx as [Hx ->].
  assert (Hkeep : forall (m : M (option (option Z))),
            Keeps DestroyShrinks m -> m s = Some (r, s') ->
            r = Some (Some t) ->
            exists t',
              match r with
              | Some tr => tr = Some t'
              | None => t' = t
              end
              /\ 0 <= t' <= t
              /\ CountOwners s' (Lists s' DestroyListHead) + t'
                 <= CountOwners s (Lists s DestroyListHead) + t
              /\ (t' = t
                  \/ (t' = t - 1
                      /\ exists e0, Some e = Some e0
                                    /\ OwnerBit s e0 = true))).
  { intros m Hm Hrun ->. exists t. split; [reflexivity|]. split; [lia|].
    pose proof (CountOwners_kept s s' HS (Hm _ _ _ Hrun)).
    split; [lia | left; reflexivity]. }
  case_if H.
  { eapply Hkeep; [ | exact H | ]; [keeps_solve|].
    mstep H as a1 s1 H1. mstep H as a2 s2 H2. mstep H as a3 s3 H3.
    mstep H as a4 s4 H4. inversion H. reflexivity. }
  case_if H.
  { eapply Hkeep; [ | exact H | ]; [keeps_solve|].
    mstep H as a1 s1 H1. mstep H as a2 s2 H2. inversion H. reflexivity. }
  clear Hkeep.
  mstep H as acq s1 Hacq.
  assert (HS1 : ShapeKept s s1).
  { refine ((_ : Keeps ShapeKept _) s acq s1 Hacq). keeps_solve. }
  assert (HD1 : DestroyShrinks s s1).
  { refine ((_ : Keeps DestroyShrinks _) s acq s1 Hacq). keeps_solve. }
  case_if H.
  { assert (HDr : DestroyShrinks s1 s').
    { refine ((_ : Keeps DestroyShrinks _) s1 r s' H). keeps_solve. }
    mstep H as a1 s2 H1. mstep H as a2 s3 H2. inversion H; subst r s3.
    exists t. split; [reflexivity|]. split; [lia|].
    assert (HD : DestroyShrinks s s') by (etransitivity; eassumption).
    pose proof (CountOwners_kept s s' HS HD).
    split; [lia | left; reflexivity]. }
  mstep H as a1 s2 Hadd.
  assert (HS2 : ShapeKept s1 s2).
  { refine ((_ : Keeps ShapeKept _) s1 a1 s2 Hadd). keeps_solve. }
  assert (HD2 : DestroyShrinks s1 s2).
  { refine ((_ : Keeps DestroyShrinks _) s1 a1 s2 Hadd). keeps_solve. }
  mstep H as x2 s3 Hx2. apply Entry_inv in Hx2 as [Hx2 ->].
  mstep H as blk s3 Hblk.
  assert (HS3 : ShapeKept s2 s3).
  { refine ((_ : Keeps ShapeKept _) s2 blk s3 Hblk). keeps_solve. }
  assert (HD3 : DestroyShrinks s2 s3).
  { refine ((_ : Keeps DestroyShrinks _) s2 blk s3 Hblk). keeps_solve. }
  assert (HO2 : FlagSet (Flags x2) PAGE_CACHE_ENTRY_FLAG_PAGE_OWNER
                = OwnerBit s e).
  { rewrite <- (OwnerBit_ShapeKept s s2 e) by (etransitivity; eassumption).
    unfold OwnerBit. rewrite Hx2. reflexivity. }
  assert (Hres : blk = (false, Some t)
                 \/ blk = (true, Some (if OwnerBit s e then uintn K (t - 1)
                                       else t))).
  { case_if Hblk; [|inversion Hblk; auto].
    mstep Hblk as u s4 Hu. case_if Hblk; [|inversion Hblk; auto].
    mstep Hblk as fl s5 Hfl.
    assert (Hflo : FlagSet fl PAGE_CACHE_ENTRY_FLAG_PAGE_OWNER = OwnerBit s e).
    { destruct (snd u).
      - assert (HS4 : ShapeKept s2 s4).
        { refine ((_ : Keeps ShapeKept _) s2 u s4 Hu). keeps_solve. }
        mstep Hfl as d s6 Hd.
        assert (HS6 : ShapeKept s4 s6).
        { refine ((_ : Keeps ShapeKept _) s4 d s6 Hd). keeps_solve. }
        mstep Hfl as x4 s7 Hx4. apply Entry_inv in Hx4 as [Hx4 ->].
        inversion Hfl; subst fl s5.
        rewrite <- (OwnerBit_ShapeKept s s6 e)
          by (repeat (etransitivity; [eassumption|]); reflexivity).
        unfold OwnerBit. rewrite Hx4. reflexivity.
      - inversion Hfl; subst fl s5. exact HO2. }
    case_if Hblk; [|inversion Hblk; auto].
    mstep Hblk as c s6 Hc. mstep Hblk as x5 s7 Hx5. mstep Hblk as w s8 Hw.
    inversion Hblk. right. rewrite Hflo. destruct (OwnerBit s e); reflexivity. }
  destruct blk as [taken tr].
  mstep H as x3 s4 Hx3. apply Entry_inv in Hx3 as [Hx3 ->].
  mstep H as a5 s4 Hins. mstep H as a6 s5 Hrel. inversion H; subst r s5.
  clear H.
  assert (HS5 : ShapeKept s4 s').
  { refine ((_ : Keeps ShapeKept _) s4 a6 s' Hrel). keeps_solve. }
  assert (HD5 : DestroyShrinks s4 s').
  { refine ((_ : Keeps DestroyShrinks _) s4 a6 s' Hrel). keeps_solve. }
  assert (HS03 : ShapeKept s s3)
    by (repeat (etransitivity; [eassumption|]); reflexivity).
  assert (HD03 : DestroyShrinks s s3)
    by (repeat (etransitivity; [eassumption|]); reflexivity).
  pose proof (CountOwners_kept s s3 HS03 HD03) as Hc3.
  pose proof (CountOwners_kept s4 s' HS5 HD5) as Hc5.
  destruct Hres as [Hres | Hres]; inversion Hres; subst taken tr; clear Hres.
  - assert (HS4 : ShapeKept s3 s4).
    { refine ((_ : Keeps ShapeKept _) s3 a5 s4 Hins). keeps_solve. }
    assert (HD4 : DestroyShrinks s3 s4).
    { refine ((_ : Keeps DestroyShrinks _) s3 a5 s4 Hins). keeps_solve. }
    pose proof (CountOwners_kept s3 s4 HS4 HD4).
    exists t. split; [reflexivity|]. split; [lia|].
    split; [lia | left; reflexivity].
  - mstep Hins as a7 s6 Hrem.
    assert (HS6 : ShapeKept s3 s6).
    { refine ((_ : Keeps ShapeKept _) s3 a7 s6 Hrem). keeps_solve. }
    assert (HD6 : DestroyShrinks s3 s6).
    { refine ((_ : Keeps DestroyShrinks _) s3 a7 s6 Hrem). keeps_solve. }
    pose proof (CountOwners_kept s3 s6 HS6 HD6) as Hc6.
    apply INSERT_BEFORE_destroy in Hins.
    rewrite (OwnerBit_ShapeKept s s6 e) in Hins
      by (etransitivity; eassumption).
    destruct (OwnerBit s e) eqn:Howner.
    + exists (t - 1). rewrite uintn_small by lia.
      split; [reflexivity|]. split; [lia|]. split; [lia|].
      right. split; [reflexivity|]. exists e. auto.
    + exists t. split; [reflexivity|]. split; [lia|].
      split; [lia | left; reflexivity].
Qed.

(** The removal loop takes from the target no less than the page owners
    it puts on the destroy list; it frees no page and requests no paging
    out. *)
Lemma RemoveLoop_count fuel : forall t s r s',
  0 <= t < UINTN_MOD K ->
  RemoveLoop K DestroyListHead TimidEffort fuel (Some t) s = Some (r, s') ->
  exists t',
    r = Some t' /\ 0 <= t' <= t
    /\ CountOwners s' (Lists s' DestroyListHead) + t'
       <= CountOwners s (Lists s DestroyListHead) + t
    /\ ShapeKept s s' /\ PagesKept s s' /\ PagingKept s s'.
Proof.
  induction fuel as [|fuel IH]; intros t s r s' Ht H; cbn [RemoveLoop] in H.
  { unfold fault in H. discriminate. }
  mstep H as r0 s1 Hbody.
  pose proof (Keeps_RemoveLoopBody_shape _ _ _ _ Hbody) as HS1.
  pose proof (Keeps_RemoveLoopBody_pages _ _ _ _ Hbody) as HP1.
  pose proof (Keeps_RemoveLoopBody_paging _ _ _ _ Hbody) as HG1.
  destruct (RemoveLoopBody_count _ _ _ _ Ht Hbody)
    as (t1 & Hr0 & Ht1 & Hcount & _).
  destruct r0 as [tr|].
  - subst tr. apply IH in H; [|lia].
    destruct H as (t' & -> & Ht' & Hc & HS & HP & HG).
    exists t'. split; [reflexivity|]. split; [lia|]. split; [lia|].
    split; [etransitivity; eassumption|].
    split; etransitivity; eassumption.
  - subst t1. inversion H; subst r s1. exists t. split; [reflexivity|].
    split; [lia|]. split; [lia|]. auto.
Qed.

Lemma IopRemovePageCacheEntriesFromList_count fuel h t s r s' :
  h <> DestroyListHead -> 0 <= t < UINTN_MOD K ->
  IopRemovePageCacheEntriesFromList K DestroyListHead TimidEffort fuel h
    (Some t) s = Some (r, s') ->
  exists t',
    r = Some t' /\ 0 <= t' <= t
    /\ CountOwners s' (Lists s' DestroyListHead) + t'
       <= CountOwners s (Lists s DestroyListHead) + t
    /\ ShapeKept s s' /\ PagesKept s s' /\ PagingKept s s'.
Proof.
  intros Hh Ht H. unfold IopRemovePageCacheEntriesFromList in H.
  mstep H as Empty s1 HE. inversion HE; subst Empty s1. clear HE.
  case_if H.
  { inversion H; subst. exists t. split; [reflexivity|].
    split; [lia|]. split; [lia|].
    split; [reflexivity|]. split; reflexivity. }
  mstep H as a1 s1 Hmove.
  assert (HS1 : ShapeKept s s1).
  { refine ((_ : Keeps ShapeKept _) s a1 s1 Hmove). keeps_solve. }
  assert (HD1 : DestroyShrinks s s1).
  { refine ((_ : Keeps DestroyShrinks _) s a1 s1 Hmove).
    apply Keeps_MOVE_LIST_destroy. discriminate. }
  assert (HP1 : PagesKept s s1).
  { refine ((_ : Keeps PagesKept _) s a1 s1 Hmove). keeps_solve. }
  assert (HG1 : PagingKept s s1).
  { refine ((_ : Keeps PagingKept _) s a1 s1 Hmove). keeps_solve. }
  mstep H as tr s2 Hloop.
  destruct (RemoveLoop_count _ _ _ _ _ Ht Hloop)
    as (t' & -> & Ht' & Hc & HS2 & HP2 & HG2).
  mstep H as Empty s3 HE. inversion HE; subst Empty s3. clear HE.
  mstep H as a2 s3 Happ. inversion H; subst r s3. clear H.
  assert (HS3 : ShapeKept s2 s').
  { refine ((_ : Keeps ShapeKept _) s2 a2 s' Happ). keeps_solve. }
  assert (HD3 : DestroyShrinks s2 s').
  { refine ((_ : Keeps DestroyShrinks _) s2 a2 s' Happ).
    apply Keeps_when; [typeclasses eauto|].
    apply Keeps_APPEND_LIST_destroy. exact Hh. }
  assert (HP3 : PagesKept s2 s').
  { refine ((_ : Keeps PagesKept _) s2 a2 s' Happ). keeps_solve. }
  assert (HG3 : PagingKept s2 s').
  { refine ((_ : Keeps PagingKept _) s2 a2 s' Happ). keeps_solve. }
  pose proof (CountOwners_kept s s1 HS1 HD1).
  pose proof (CountOwners_kept s2 s' HS3 HD3).
  exists t'. split; [reflexivity|]. split; [lia|]. split; [lia|].
  split; [|split]; repeat (etransitivity; [eassumption|]); reflexivity.
Qed.

End RemoveFacts.

(** *** The destruction of the entries taken down *)

Lemma Keeps_modify_entries (R : relation PAGE_CACHE) `{!IgnoresEntries R} g :
  Keeps R (modify (with_Entries g)).
Proof. intros s x s' H. inversion H. apply ignores_entries. Qed.

(** Destroying an entry gives its page back if it owns it, and only then;
    it puts nothing on the destroy list and leaves the ownership of the
    other entries. *)
Lemma IopDestroyPageCacheEntry_freed K e s u s' :
  IopDestroyPageCacheEntry K e s = Some (u, s') ->
  FreedPages (Trace s')
  = FreedPages (Trace s) + (if OwnerBit s e then 1 else 0)
  /\ Globals s' IoPageCachePhysicalPageCount
     = (if OwnerBit s e
        then uintn K (Globals s IoPageCachePhysicalPageCount + MAX_UINTN K)
        else Globals s IoPageCachePhysicalPageCount)
  /\ DestroyShrinks s s'
  /\ (forall e', e' <> e -> OwnerBit s' e' = OwnerBit s e')
  /\ PagingKept s s'.
Proof.
  intros H.
  assert (HG : PagingKept s s').
  { refine ((_ : Keeps PagingKept _) s u s' H).
    unfold IopDestroyPageCacheEntry.
    pose proof (Keeps_modify_entries PagingKept). keeps_solve. }
  assert (HL : DestroyShrinks s s').
  { refine ((_ : Keeps DestroyShrinks _) s u s' H).
    unfold IopDestroyPageCacheEntry.
    pose proof (Keeps_modify_entries DestroyShrinks). keeps_solve. }
  unfold IopDestroyPageCacheEntry in H.
  mstep H as x s1 Hx. apply Entry_inv in Hx as [Hx ->].
  mstep H as a1 s1 Hblk. mstep H as a2 s2 Hemit. mstep H as a3 s3 Hdel.
  assert (HP2 : PagesKept s1 s').
  { etransitivity; [|etransitivity].
    - refine ((_ : Keeps PagesKept _) s1 a2 s2 Hemit). keeps_solve.
    - refine ((_ : Keeps PagesKept _) s2 a3 s3 Hdel).
      apply Keeps_modify_entries. typeclasses eauto.
    - refine ((_ : Keeps PagesKept _) s3 u s' H). keeps_solve. }
  assert (Hrest : forall e', e' <> e -> OwnerBit s' e' = OwnerBit s1 e').
  { intros e' Hne. inversion Hemit; subst s2. inversion Hdel; subst s3.
    inversion H; subst s'.
    unfold OwnerBit. cbn. rewrite lookup_delete_ne by congruence.
    reflexivity. }
  assert (Hblock : FreedPages (Trace s1)
                   = FreedPages (Trace s) + (if OwnerBit s e then 1 else 0)
                   /\ Globals s1 IoPageCachePhysicalPageCount
                      = (if OwnerBit s e
                         then uintn K (Globals s IoPageCachePhysicalPageCount
                                       + MAX_UINTN K)
                         else Globals s IoPageCachePhysicalPageCount)
                   /\ (forall e', e' <> e -> OwnerBit s1 e' = OwnerBit s e')).
  { unfold OwnerBit at 1 2. rewrite Hx.
    destruct (FlagSet (Flags x) PAGE_CACHE_ENTRY_FLAG_PAGE_OWNER).
    - assert (HS1 : ShapeKept s s1).
      { refine ((_ : Keeps ShapeKept _) s a1 s1 Hblk). keeps_solve. }
      mstep Hblk as b1 s4 Hmap.
      assert (HP4 : PagesKept s s4).
      { refine ((_ : Keeps PagesKept _) s b1 s4 Hmap). keeps_solve. }
      mstep Hblk as x4 s5 Hx4. apply Entry_inv in Hx4 as [_ ->].
      mstep Hblk as b2 s5 Hfree. inversion Hfree; subst b2 s5. clear Hfree.
      mstep Hblk as b3 s6 Hadd.
      unfold RtlAtomicAdd in Hadd. mstep Hadd as old s7 Hold.
      inversion Hold; subst old s7. clear Hold.
      inversion Hadd; subst b3 s6. clear Hadd.
      assert (HP5 : PagesKept
                      (with_Globals
                         (fun G => <[IoPageCachePhysicalPageCount :=
                                      uintn K (Globals s4
                                                 IoPageCachePhysicalPageCount
                                               + MAX_UINTN K)]> G)
                         (with_Trace
                            (cons (EvFreePhysicalPage (PhysicalAddress x4)))
                            s4)) s1).
      { refine ((_ : Keeps PagesKept _) _ a1 s1 Hblk). keeps_solve. }
      destruct HP4 as [HP4g HP4f]. destruct HP5 as [HP5g HP5f].
      cbn in HP5g, HP5f. rewrite fn_lookup_insert in HP5g.
      split; [rewrite HP5f, HP4f; lia|].
      split; [rewrite HP5g, HP4g; reflexivity|].
      intros e' _. apply OwnerBit_ShapeKept, HS1.
    - assert (HP1 : PagesKept s s1).
      { refine ((_ : Keeps PagesKept _) s a1 s1 Hblk). keeps_solve. }
      destruct HP1 as [HP1g HP1f]. split; [lia|]. split; [exact HP1g|].
      intros e' Hne. destruct (BackingEntry x) as [b|].
      + mstep Hblk as r1 s4 Hrel.
        assert (HS4 : ShapeKept s s4).
        { refine ((_ : Keeps ShapeKept _) s r1 s4 Hrel). keeps_solve. }
        rewrite <- (OwnerBit_ShapeKept s s4 e' HS4).
        unfold UpdateEntry in Hblk. mstep Hblk as y s5 Hy.
        apply Entry_inv in Hy as [_ ->]. inversion Hblk; subst s1.
        unfold OwnerBit. cbn. rewrite lookup_insert_ne by congruence.
        reflexivity.
      + inversion Hblk; subst s1. reflexivity. }
  destruct Hblock as [Hf [Hg Ho]]. destruct HP2 as [HP2g HP2f].
  assert (Hothers : forall e', e' <> e -> OwnerBit s' e' = OwnerBit s e').
  { intros e' Hne. rewrite (Hrest e' Hne). apply Ho, Hne. }
  split; [rewrite HP2f; exact Hf|]. split; [rewrite HP2g; exact Hg|].
  split; [exact HL|]. split; [exact Hothers | exact HG].
Qed.

Lemma CountOwners_ext s s' l :
  (forall e, e ∈ l -> OwnerBit s' e = OwnerBit s e) ->
  CountOwners s' l = CountOwners s l.
Proof.
  induction l as [|e l IH]; intros Hl; cbn; [reflexivity|].
  rewrite IH by (intros e' He'; apply Hl; right; exact He').
  rewrite (Hl e) by left. reflexivity.
Qed.

(** Destroying the entries of the destroy list gives back at most one page
    for each page owner on it. *)
Lemma IopDestroyPageCacheEntries_freed K fuel : forall s u s',
  IopDestroyPageCacheEntries K fuel DestroyListHead s = Some (u, s') ->
  CountOwners s (Lists s DestroyListHead)
    <= Globals s IoPageCachePhysicalPageCount ->
  Globals s IoPageCachePhysicalPageCount < UINTN_MOD K ->
  exists k,
    0 <= k <= CountOwners s (Lists s DestroyListHead)
    /\ FreedPages (Trace s') = FreedPages (Trace s) + k
    /\ Globals s' IoPageCachePhysicalPageCount
       = Globals s IoPageCachePhysicalPageCount - k
    /\ PagingKept s s'.
Proof.
  induction fuel as [|fuel IH]; intros s u s' H Hc HP;
    cbn [IopDestroyPageCacheEntries] in H.
  { unfold fault in H. discriminate. }
  mstep H as First s0 HF. inversion HF; subst First s0. clear HF.
  destruct (Lists s DestroyListHead) as [|e rest] eqn:HL; cbn [head] in H.
  { inversion H; subst. exists 0. cbn. repeat split; try lia. }
  mstep H as a1 s1 Hrem.
  apply LIST_REMOVE_inv in Hrem. destruct Hrem as (xe & _ & _ & ->).
  mstep H as a2 s2 Hup.
  set (s1 := with_Lists _ s) in Hup.
  assert (HS2 : ShapeKept s s2).
  { transitivity s1; [apply ignores_lists|].
    refine ((_ : Keeps ShapeKept _) s1 a2 s2 Hup). keeps_solve. }
  assert (HD2 : DestroyShrinks s1 s2).
  { refine ((_ : Keeps DestroyShrinks _) s1 a2 s2 Hup). keeps_solve. }
  assert (HP2 : PagesKept s s2).
  { transitivity s1; [apply ignores_lists|].
    refine ((_ : Keeps PagesKept _) s1 a2 s2 Hup). keeps_solve. }
  assert (HG2 : PagingKept s s2).
  { transitivity s1; [apply ignores_lists|].
    refine ((_ : Keeps PagingKept _) s1 a2 s2 Hup). keeps_solve. }
  mstep H as a3 s3 Hdes.
  destruct (IopDestroyPageCacheEntry_freed _ _ _ _ _ Hdes)
    as (Hf3 & Hg3 & HD3 & Ho3 & HG3).
  rewrite (OwnerBit_ShapeKept s s2 e HS2) in Hf3, Hg3.
  destruct HP2 as [HP2g HP2f]. rewrite HP2f in Hf3. rewrite HP2g in Hg3.
  assert (Hsub : sublist (Lists s3 DestroyListHead)
                   (filter (fun x => x <> e) rest)).
  { unfold DestroyShrinks in HD2, HD3. etransitivity; [exact HD3|].
    etransitivity; [exact HD2|]. unfold s1. cbn. rewrite HL.
    rewrite filter_cons_False by auto. reflexivity. }
  assert (Hc3 : CountOwners s3 (Lists s3 DestroyListHead)
                <= CountOwners s rest).
  { rewrite (CountOwners_ext s s3).
    - etransitivity; [apply CountOwners_sublist; exact Hsub|].
      apply CountOwners_sublist, sublist_filter.
    - intros e' He'. rewrite Ho3.
      + apply OwnerBit_ShapeKept, HS2.
      + pose proof (elem_of_sublist _ _ _ He' Hsub) as Hin.
        apply list_elem_of_filter in Hin as [Hne _]. exact Hne. }
  cbn [CountOwners] in Hc |- *.
  pose proof (CountOwners_nonneg s rest) as Hrest.
  pose proof (CountOwners_nonneg s3 (Lists s3 DestroyListHead)) as Hnn.
  assert (Hg3' : Globals s3 IoPageCachePhysicalPageCount
                 = Globals s IoPageCachePhysicalPageCount
                   - (if OwnerBit s e then 1 else 0)).
  { rewrite Hg3. destruct (OwnerBit s e); [|lia].
    unfold MAX_UINTN, uintn.
    replace (Globals s IoPageCachePhysicalPageCount + (UINTN_MOD K - 1))
      with (Globals s IoPageCachePhysicalPageCount - 1 + 1 * UINTN_MOD K)
      by lia.
    rewrite Z.mod_add by lia. apply Z.mod_small. lia. }
  apply IH in H; [|destruct (OwnerBit s e); lia|destruct (OwnerBit s e); lia].
  destruct H as (k & Hk & Hfk & Hgk & HGk).
  exists ((if OwnerBit s e then 1 else 0) + k).
  split; [destruct (OwnerBit s e); lia|].
  split; [lia|]. split; [lia|].
  etransitivity; [exact HG2|]. etransitivity; eassumption.
Qed.

(** *** The trim *)

Section TrimFacts.

Variables (K : KERNEL) (TimidEffort : bool).

Lemma Keeps_UnmapLoop (R : relation PAGE_CACHE) `{!PreOrder R} Target :
  (forall l, Keeps R (UnmapLoopBody K TimidEffort Target l)) ->
  forall fuel l, Keeps R (UnmapLoop K TimidEffort Target fuel l).
Proof.
  intros Hbody. induction fuel as [|fuel IH]; intros l; cbn [UnmapLoop].
  - apply Keeps_fault.
  - keeps_solve.
Qed.

Lemma Keeps_UnmapLoopBody_pages Target l :
  Keeps PagesKept (UnmapLoopBody K TimidEffort Target l).
Proof. unfold UnmapLoopBody. keeps_solve. Qed.

Lemma Keeps_UnmapLoopBody_paging Target l :
  Keeps PagingKept (UnmapLoopBody K TimidEffort Target l).
Proof. unfold UnmapLoopBody. keeps_solve. Qed.

(** Trimming the virtual addresses gives no page back and requests no
    paging out. *)
Lemma Keeps_IopTrimPageCacheVirtual_pages fuel :
  Keeps PagesKept (IopTrimPageCacheVirtual K fuel TimidEffort).
Proof.
  unfold IopTrimPageCacheVirtual.
  pose proof (fun Target =>
                Keeps_UnmapLoop PagesKept Target
                  (Keeps_UnmapLoopBody_pages Target)).
  keeps_solve.
Qed.

Lemma Keeps_IopTrimPageCacheVirtual_paging fuel :
  Keeps PagingKept (IopTrimPageCacheVirtual K fuel TimidEffort).
Proof.
  unfold IopTrimPageCacheVirtual.
  pose proof (fun Target =>
                Keeps_UnmapLoop PagingKept Target
                  (Keeps_UnmapLoopBody_paging Target)).
  keeps_solve.
Qed.

Lemma RemoveStep_count fuel h (b : bool) t s t1 s1 :
  h <> DestroyListHead -> 0 <= t < UINTN_MOD K ->
  (if b then
     t0 <- IopRemovePageCacheEntriesFromList K DestroyListHead TimidEffort
             fuel h (Some t) ;;
     ret (match t0 with Some v => v | None => t end)
   else ret t) s = Some (t1, s1) ->
  0 <= t1 <= t
  /\ CountOwners s1 (Lists s1 DestroyListHead) + t1
     <= CountOwners s (Lists s DestroyListHead) + t
  /\ PagesKept s s1 /\ PagingKept s s1.
Proof.
  intros Hh Ht H. destruct b.
  - mstep H as t0 s2 Hrun.
    destruct (IopRemovePageCacheEntriesFromList_count _ _ _ _ _ _ _ _ Hh Ht Hrun)
      as (t' & -> & Ht' & Hc & _ & HP & HG).
    inversion H; subst t1 s2. auto.
  - inversion H; subst t1 s1. split; [lia|]. split; [lia|].
    split; reflexivity.
Qed.

(** The eviction of a trim: the pages given back and what is left of the
    target are together no more than the target, which is what is missing
    to the retreat, held back so that the page cache keeps its minimum. *)
Lemma TrimPageCacheEvict_bound fuel s rem free s1 :
  0 <= Globals s IoPageCacheMinimumPages ->
  0 <= Globals s IoPageCachePhysicalPageCount < UINTN_MOD K ->
  Globals s IoPageCacheHeadroomPagesTrigger
    <= Globals s IoPageCacheHeadroomPagesRetreat < UINTN_MOD K ->
  TrimPageCacheEvict K fuel TimidEffort s = Some ((rem, free), s1) ->
  let F := uintn K (MmGetTotalFreePhysicalPages K (Trace s)) in
  let big := negb (Globals s IoPageCachePhysicalPageCount
                   <=? Globals s IoPageCacheMinimumPages)
             && negb (F >? Globals s IoPageCacheHeadroomPagesTrigger) in
  let T := if big
           then Z.min (Globals s IoPageCacheHeadroomPagesRetreat - F)
                      (Globals s IoPageCachePhysicalPageCount
                       - Globals s IoPageCacheMinimumPages)
           else 0 in
  exists freed,
    0 <= freed /\ 0 <= rem /\ freed + rem <= T
    /\ FreedPages (Trace s1) = FreedPages (Trace s) + freed
    /\ Globals s1 IoPageCachePhysicalPageCount
       = Globals s IoPageCachePhysicalPageCount - freed
    /\ PagingKept s s1
    /\ free = (if big then F else MAX_UINTN K).
Proof.
  intros Hmn HP HR H F big T. unfold TrimPageCacheEvict in H.
  rewrite (bind_run _ _ _ _ _ (IopIsPageCacheTooBig_run K s (Some (MAX_UINTN K))))
    in H.
  fold F in H. subst T big.
  destruct (Globals s IoPageCachePhysicalPageCount
            <=? Globals s IoPageCacheMinimumPages) eqn:Hle; cbn [negb andb fst snd] in *.
  { inversion H; subst. exists 0. repeat split; try lia. }
  destruct (F >? Globals s IoPageCacheHeadroomPagesTrigger) eqn:Hgt;
    cbn [negb andb fst snd] in *.
  { inversion H; subst. exists 0. repeat split; try lia. }
  apply Z.leb_gt in Hle.
  assert (HF : 0 <= F <= Globals s IoPageCacheHeadroomPagesTrigger).
  { split; [apply uintn_range|].
    destruct (Z.gtb_spec F (Globals s IoPageCacheHeadroomPagesTrigger));
      [discriminate | lia]. }
  rewrite (bind_run _ _ _ _ _
             (TrimTargetRemoveCount_run K F s ltac:(lia) ltac:(lia) ltac:(lia)
                ltac:(lia))) in H.
  set (T := Z.min _ _) in *.
  assert (HT : 0 <= T <= Globals s IoPageCachePhysicalPageCount) by lia.
  mstep H as a1 s2 Hinit. inversion Hinit; subst a1 s2. clear Hinit.
  set (s2 := with_Lists _ s) in H.
  assert (Hc2 : CountOwners s2 (Lists s2 DestroyListHead) = 0).
  { unfold s2. cbn. rewrite fn_lookup_insert. reflexivity. }
  assert (HP2 : PagesKept s s2) by apply ignores_lists.
  assert (HG2 : PagingKept s s2) by apply ignores_lists.
  mstep H as Empty s3 HE. inversion HE; subst Empty s3. clear HE.
  mstep H as t1 s3 H1.
  apply RemoveStep_count in H1; [|discriminate|lia].
  destruct H1 as (Ht1 & Hc3 & HP3 & HG3).
  mstep H as t2 s4 H2.
  apply RemoveStep_count in H2; [|discriminate|lia].
  destruct H2 as (Ht2 & Hc4 & HP4 & HG4).
  mstep H as a2 s5 Hdes. inversion H; subst rem free s5. clear H.
  assert (HP04 : PagesKept s s4).
  { transitivity s2; [exact HP2|]. transitivity s3; [exact HP3 | exact HP4]. }
  destruct HP04 as [HP04g HP04f].
  pose proof (CountOwners_nonneg s4 (Lists s4 DestroyListHead)) as Hnn.
  apply IopDestroyPageCacheEntries_freed in Hdes; [|lia|lia].
  destruct Hdes as (k & Hk & Hfk & Hgk & HGk).
  exists k. split; [lia|]. split; [lia|]. split; [lia|].
  split; [lia|]. split; [lia|]. split; [|reflexivity].
  transitivity s2; [exact HG2|]. transitivity s3; [exact HG3|].
  transitivity s4; [exact HG4 | exact HGk].
Qed.

End TrimFacts.



